(* ===== verification/_CoqProject ===== *)
-Q . S2P
Prelude.v
Json.v
Shared.v
Deadlines.v
Context.v
Tools.v
Effects.v
Observability.v
Drift.v
DriftProps.v
Repos.v
Models.v
Providers.v
Anthropic.v
OpenAI.v
Google.v
ProvidersProps.v
Loop.v
LoopFacts.v
LoopInvariants.v
LoopProps.v
ObservabilityProps.v
History.v
HistoryProps.v
RunService.v
RunServiceProps.v
RunSpec.v
Engine.v
EngineProps.v
Store.v
Dto.v
Migrate.v
Api.v
Management.v
ManagementProps.v
Provision.v
Gateway.v
GatewayProps.v
ApiProps.v
Sdk.v
SdkApp.v
SdkProps.v
Ssrf.v
LocalExecutor.v
Executors.v
ExecutorsProps.v
ToolRunner.v
ToolRunnerProps.v
Server.v
ServerProps.v
Spend.v
SpendProps.v
Mediator.v
MediatorProps.v
React.v
ReactProps.v
Generator.v
GeneratorProps.v
Numbers.v
Calculator.v
CalculatorProps.v
Session.v
SessionProps.v
Guardrails.v
Retention.v
Hooks.v
DemoTools.v
Dco.v
Hosted.v
VerifyPack.v
LocalRegistry.v
E2e.v
Backend.v
Schema.v
Reports.v
ApiFrame.v
Streams.v
Cluster.v
Link.v
Pages.v
