(* ===== verification/Prelude.v ===== *)
(** * A verification library for Swift Agent

    Swift Agent is a hosted runtime for chat agents: a client sends a message to
    a session, the runtime drives a language model through rounds of text and
    tool calls, persists what happens, and streams the events of the run back.
    This library translates the program's core from its TypeScript sources and
    proves what makes it correct.  Every definition follows the code named in
    the comments; file names are relative to the repository.

    ** How the program's parts are modelled

    - [Json], [Shared]: JSON values with [JSON.stringify] and [JSON.parse], and
      packages/shared: error codes, the [ChatEvent] union with its schema, the
      protocol version check, identifiers, the runner's wire envelope, records.
    - [Deadlines], [Context], [Tools]: packages/runtime deadlines.ts,
      context-builder.ts with memory/, tool-mapping.ts, tool-validation.ts.  A
      signal is the instant it fires at and its reason.
    - [Models]: packages/models parser.ts, registry.ts, the provider interface
      as a class with its law on streams, the echo and tool-fixture providers.
    - [Repos]: the queries of packages/db/src/repositories that the runtime
      makes, over tables with their foreign keys and status guards.
    - [Effects], [Loop]: packages/runtime loop.ts, the agent loop, as a state
      monad with exceptions and tear-down.  [Outside] is an oracle for all that
      the loop does not decide: which statement the database refuses, what the
      provider streams, what the executor answers, how long things take, whether
      the consumer abandons the generator.
    - [RunService]: session-lock.ts, run-execution-service.ts and the
      prerequisites of engine.ts.  One JavaScript object shared by concurrent
      calls: a task per run with the point it awaits at, and a step relation
      that resumes one task, serves one call or lets the database move.
    - [Gateway]: packages/gateway: connections, inbound frames, client tokens,
      Redis fan-out, the session bridge with its replay buffers, the heartbeat,
      the stream route with its authentication phase.
    - [Ssrf], [LocalExecutor], [Executors]: the outbound guard on 32-bit
      integers, the local and remote tool executors, the resolver's cache.
    - [ToolRunner]: packages/sdk tool-runner.ts and runner-token.ts, the process
      that runs the customer's tools: its route and its idempotency cache.
    - [Spend], [Mediator]: the public playground: the spend ledger, the
      sliding-window limiter and the mediator (apps/playground/backend) as a
      machine whose events are what lets the process run to its next await.
    - [React]: packages/react state.ts and client.ts, the chat's reducer and the
      WebSocket client.
    - [Providers], [Anthropic], [OpenAI], [Google]: the vendor providers of
      packages/models as machines over the events of the vendor's stream, each
      an instance of the provider class.
    - [Engine]: packages/runtime engine.ts and the composition that
      run-execution-service.ts makes of the loop: prerequisites, the composed
      abort signal, deadlines, the legacy [run].  [RunSpec]: the abstract
      specification of the run service.
    - [Observability]: packages/observability: spans, their bounds, the trace of
      a run and the metrics derived from it.
    - [Store], [Dto], [Api], [Management]: the repositories behind the REST API
      over one store, the request and response schemas, and packages/api: both
      authentications, every route with its service, the error handler.
    - [Sdk], [SdkApp]: packages/sdk client.ts, agent.ts, tool.ts, app.ts.
    - [Drift], [Migrate], [Provision]: packages/db: the projections of snapshot
      and catalogue with their comparison; the preflight, the migrate, check and
      status commands; seeding and both provisioning scripts.
    - [Server]: apps/server: configuration, the container's registry, policy and
      token minting (with runtime/runner-credentials.ts), health, the start.
    - [Generator]: packages/create-swift-agent over a file tree in which any
      operation can fail.
    - [Numbers], [Calculator]: doubles through [SpecFloat], and the playground's
      calculator (tools/calculate.ts).  [Session]: the mediator's frames on the
      wire and the browser's controller (frontend/src/session.ts).
      [Guardrails]: the mediator's configuration from the environment.

    - [Hooks]: packages/react hooks/ as the effects of React run them, over the
      client and the reducer of [React].  [Retention]: the playground's clean-up
      of rows with the foreign keys (scripts/retention-cleanup.ts).  [DemoTools]: what
      [encodeURIComponent] is read back as, and the playground's weather tool,
      budgets and unreliable service.  [Backend]: the process around the mediator
      (backend/src/server.ts), and a generated project's.  [Pages]: the
      playground's page (frontend/src/App.tsx with components/).
    - [Hosted], [ApiFrame]: the engine as the container wires it,
      the shutdown of the hosted server and of the standalone gateway, the
      mounting of the API (packages/api server.ts).
    - [Schema], [Reports]: the tables of packages/db as
      drizzle declares them with the snapshot committed last, the queries of the
      introspection over PostgreSQL's catalog, the status table, the paged
      listings and the batch insertion.
    - [Dco], [VerifyPack], [LocalRegistry], [E2e]: the repository's scripts, over
      what git, tar, pnpm, npm and docker answer.
    - [Streams]: a gateway's process (packages/gateway plugin.ts over the modules
      of [Gateway]): all the sockets of the stream route with the registries they
      share, as a machine whose events let it run to its next await.  [Cluster]:
      several of them around one Redis server, with what is on its way between.
      [Link]: the browser's client and such a process, with the socket between.

    The parts meet where the code meets: the loop's events are the gateway's
    frames and the reducer's actions; the remote executor's requests are the
    tool runner's; the mediator's reservations are the ledger's and its frames
    the browser's; the server mints the tokens that the SDK's runner checks.

    ** What the theorems show

    - [LoopProps] (with [LoopFacts], [LoopInvariants]): the loop never throws and
      its events follow a protocol; the terminal event and the row agree; no tool
      call stays open; only validated calls are executed; requests are bounded;
      every interruption has a cause; a run only moves forward.
    - [RunServiceProps]: one live run per session under every interleaving, locks
      released, accepted runs stored, cancelled rows terminal, live runs can end.
    - [GatewayProps]: a joiner is sent the whole run once and in order whatever
      happens to the other sockets of the session, unless before it another
      message of the session ended or was refused; fan-out delivers exactly
      once; silent sockets end; early frames survive.
      [Streams]: connections, subscriptions and heartbeats are those of the
      admitted streams, whatever happens, and nothing is left of closed ones
      unless they closed in their handshake.  [Cluster]: what a socket was sent
      and what is on its way to it grow by what another instance emits, and the
      server's subscriptions are those of the admitted streams.  [Link]: while a
      connection lasts the runtime is asked for each message once, in order; a
      refused token is retried for ever.
    - [ExecutorsProps], [ToolRunnerProps]: the guard lets no address of the
      blocked networks through, and no host name that resolves to one; requests
      carry a dispatcher that dials the vetted address for every name it is
      asked, which a redirect to an address escapes; and, executor and runner
      together, a remote call is executed at most once, on its own arguments,
      with a token made for it.
    - [SpendProps], [MediatorProps]: the ceiling, final charges, bounded windows;
      in every reachable state each forwarded message is paid for and the caps
      hold up to the number of streams.
    - [ReactProps]: a complete run that names one message is displayed as it was
      told, while the loop names two ([LoopInvariants]) and its text is not; the
      client sends each message once and in order, and between two openings of
      the socket retries as often as it is configured to.
    - [ProvidersProps], [HistoryProps]: tool calls are reassembled from a
      vendor's fragments and returned as they came; every request of a run
      answers all its calls, as the vendors demand.
    - [RunServiceProps] with [RunSpec]: the service refines its specification in
      every execution, those whose terminal write is refused or whose loop is
      torn down included; [EngineProps]: interruptions have elapsed or were asked for, requests carry
      the deadline.
    - [ApiProps], [ManagementProps]: answers stay in the caller's workspace
      while other processes add, change and delete rows, as long as no identifier
      is given to another owner ([ApiFrame] shows the clean-up of [Retention] to
      be such a process); foreign resources read as missing, a key works until it is revoked, a
      token opens its session only, outsiders are refused, pages are complete.
    - [SdkProps]: error codes survive the wire; a defined agent is accepted.
    - [ObservabilityProps]: a finished trace is a tree; metrics survive bounds,
      and count what a run of the loop did, their tokens being those that the
      providers' streams reported.
    - [DriftProps], [Migrate], [Provision]: a faithful database whose types,
      indexes and keys the catalog's query can tell has no drift, as the
      committed snapshot has ([Schema]), others are reported; a drifted one is
      not migrated; provisioning twice is once.
    - [ServerProps]: a call of the hosted server is admitted by the runner, from
      minting to checking; a cloud configuration is strict; the banner does not
      depend on a secret.
    - [GeneratorProps]: a project is written whole or not at all, but for the
      directories that were missing above it; a removal that fails leaves it.
    - [CalculatorProps]: the calculator is its grammar, and ends.  [SessionProps]:
      the browser shows what any reachable mediator sends; each call once.
    - [ApiFrame]: a REST request changes rows of its workspace only.
      [Hooks]: one connection is live, and what it receives is displayed.
      [Retention]: an interrupted clean-up can be repeated.
    - [Schema]: nothing is missing from the committed snapshot, references are to
      primary keys, and the constraints that [Repos] and [Store] enforce are the
      schema's; what the catalog's query of foreign keys gives.
    - [Dco], [VerifyPack]: both gates pass exactly what they should.
      [LocalRegistry], [E2e]: nothing is left running, whatever fails.
      [Pages]: the panel shows the feed, and what the page sends is understood.
      [DemoTools], [Backend], [Hosted], [Reports] end with what holds
      of them.

    Some theorems state what the code does where it does less than its comments
    say: a run whose text the page drops, a subscription that a closing socket
    leaves, a conflict that forgets the active run, a second stream that passes the
    cap, a reconnection that shows a message twice, an evicted execution that
    runs again, an address spelling that the guard lets through, a redirect
    that leaves the pinned address, usage charged again to a call whose stream
    does not finish, column types that always read as drifted, a cached executor
    that skips a check, a run that stays running.

    ** Bounds, fuel and conventions

    A throwing function returns [res]; asynchronous code is cut at its awaits.
    Recursions are structural, except: [Loop.rounds] takes [maxToolIterations]
    as fuel and [rounds_fuel] shows that more changes nothing; [Json.parse_value]
    takes the length of its input and [parse_fuel_enough] shows the same;
    [Calculator.parse_level] takes four units per token, and [evaluation_ends]
    shows that they suffice; the waits of the scripts take a turn per interval
    ([readiness_loop_ends], [polls_end]) and the search of a directory its
    weight ([search_spec]).  Texts
    are code units below 256 (a literal of the source beyond them is written as
    its UTF-8 bytes) and numbers integers, a literal with a fraction is
    kept as its text; 32-bit operations wrap as the language does.  Third-party
    code is a parameter with the behaviour that is used: ajv, zod's error
    details, jose, the network, DNS and URL parsing, vendor streams.

    ** Not modelled

    The layout of the React components, the wiring of Fastify (routers, plugins,
    handlers of signals) and the repositories, loggers and clients that are only
    passed along: declarations and calls of libraries with no behaviour of their
    own.  The page of a generated project, which mounts the hooks of [Hooks], and
    the self-test of the sign-off check, which runs what [Dco] models; tests,
    documents and infrastructure.  In [Cluster] the connections to Redis hold: a
    publication lost with one is not modelled.  In [Mediator] a reservation that
    is rejected has not been committed, and the process starts on an empty ledger.

    This file holds the shared notations, the result type, tactics, and lemmas on
    text and lists. *)
From Stdlib Require Export ZArith Lia Ascii String.
From stdpp Require Export base list strings gmap fin_maps sorting.

(** ** Notations *)

Declare Scope swift_scope.
Delimit Scope swift_scope with swift.

(** JavaScript's [a ?? b] on an optional value. *)
Notation "o ?? d" := (default d o) (at level 55, right associativity, only parsing)
  : swift_scope.

#[global] Open Scope swift_scope.

Create HintDb swift.

(** ** Fallible computations

    A JavaScript function that may throw is a function to [res E A]. *)
Inductive res (E A : Type) : Type :=
| Ok (a : A)
| Err (e : E).
Arguments Ok {E A} a.
Arguments Err {E A} e.

Definition res_bind {E A B} (r : res E A) (f : A -> res E B) : res E B :=
  match r with Ok a => f a | Err e => Err e end.

Notation "'let?' x ':=' r 'in' k" := (res_bind r (fun x => k))
  (at level 10, x name, r at level 100, k at level 200) : swift_scope.

Definition is_ok {E A} (r : res E A) : bool :=
  match r with Ok _ => true | Err _ => false end.

Lemma res_bind_ok {E A B} (r : res E A) (f : A -> res E B) b :
  res_bind r f = Ok b <-> exists a, r = Ok a /\ f a = Ok b.
Proof. destruct r; simpl; split; [eauto|by intros (? & [= ->] & ?)|done|by intros (? & ? & ?)]. Qed.

(** ** Tactics *)

(** Case analysis on the scrutinee of the first [match] or [if] of the goal. *)
Ltac case_goal :=
  match goal with
  | |- context [match ?x with _ => _ end] => destruct x eqn:?
  end.

Ltac case_hyp H :=
  match type of H with
  | context [match ?x with _ => _ end] => destruct x eqn:?
  end.

(** Boolean comparisons to propositions, everywhere. *)
Ltac reflect_bools :=
  repeat match goal with
  | E : andb _ _ = true |- _ => apply andb_true_iff in E as [? ?]
  | E : orb _ _ = false |- _ => apply orb_false_iff in E as [? ?]
  | H : negb _ = true |- _ => apply negb_true_iff in H
  | H : negb _ = false |- _ => apply negb_false_iff in H
  | H : Z.leb _ _ = true |- _ => apply Z.leb_le in H
  | H : Z.leb _ _ = false |- _ => apply Z.leb_gt in H
  | H : Z.ltb _ _ = true |- _ => apply Z.ltb_lt in H
  | H : Z.ltb _ _ = false |- _ => apply Z.ltb_ge in H
  | H : Z.eqb _ _ = true |- _ => apply Z.eqb_eq in H
  | H : Z.eqb _ _ = false |- _ => apply Z.eqb_neq in H
  | H : Nat.leb _ _ = true |- _ => apply Nat.leb_le in H
  | H : Nat.leb _ _ = false |- _ => apply Nat.leb_gt in H
  | H : Nat.ltb _ _ = true |- _ => apply Nat.ltb_lt in H
  | H : Nat.ltb _ _ = false |- _ => apply Nat.ltb_ge in H
  | H : Nat.eqb _ _ = true |- _ => apply Nat.eqb_eq in H
  | H : Nat.eqb _ _ = false |- _ => apply Nat.eqb_neq in H
  | H : String.eqb _ _ = true |- _ => apply String.eqb_eq in H
  | H : String.eqb _ _ = false |- _ => apply String.eqb_neq in H
  | H : bool_decide _ = true |- _ => apply bool_decide_eq_true in H
  | H : bool_decide _ = false |- _ => apply bool_decide_eq_false in H
  end.

(** ** Text

    A JavaScript string is a sequence of code units; the library keeps the
    units below 256, as Rocq's [string]. *)
Abbreviation text := (list ascii).

(** The JavaScript white space among the code units below 256. *)
Definition is_space (c : ascii) : bool :=
  let n := nat_of_ascii c in
  ((9 <=? n) && (n <=? 13) || (n =? 32) || (n =? 160))%nat.

Fixpoint drop_while {A} (p : A -> bool) (l : list A) : list A :=
  match l with x :: l' => if p x then drop_while p l' else l | [] => [] end.

Fixpoint take_while {A} (p : A -> bool) (l : list A) : list A :=
  match l with x :: l' => if p x then x :: take_while p l' else [] | [] => [] end.

Definition on_text (f : text -> text) (s : string) : string :=
  string_of_list_ascii (f (list_ascii_of_string s)).

(** [s.trim()]. *)
Definition trim_text (t : text) : text :=
  reverse (drop_while is_space (reverse (drop_while is_space t))).
Definition trim (s : string) : string := on_text trim_text s.

(** [l.join(sep)]. *)
Fixpoint join (sep : string) (l : list string) : string :=
  match l with
  | [] => ""
  | [x] => x
  | x :: l => x +:+ sep +:+ join sep l
  end%string.

(** The text before and after the first occurrence of a character. *)
Fixpoint split_at (c : ascii) (s : string) : option (string * string) :=
  match s with
  | EmptyString => None
  | String x s =>
      if Ascii.eqb x c then Some (EmptyString, s)
      else match split_at c s with Some (a, b) => Some (String x a, b) | None => None end
  end.

(** The UTF-8 length of a string of code units below 256. *)
Definition byteLength (s : string) : nat :=
  list_sum (map (fun c => if (nat_of_ascii c <? 128)%nat then 1%nat else 2%nat) (list_ascii_of_string s)).

(** [encodeURIComponent]. *)
Definition unreserved (c : ascii) : bool :=
  let n := nat_of_ascii c in
  ((48 <=? n) && (n <=? 57) || (65 <=? n) && (n <=? 90) || (97 <=? n) && (n <=? 122))%nat ||
  existsb (Ascii.eqb c) ["-"; "_"; "."; "!"; "~"; "*"; "'"; "("; ")"]%char.

Definition upper_hex (n : nat) : ascii :=
  ascii_of_nat (if (n <? 10)%nat then 48 + n else 55 + n).
Definition percent (n : nat) : text := ["%"%char; upper_hex (n / 16); upper_hex (n mod 16)].

Definition encode_char (c : ascii) : text :=
  let n := nat_of_ascii c in
  if unreserved c then [c]
  else if (n <? 128)%nat then percent n
  else percent (192 + n / 64) ++ percent (128 + n mod 64).

Definition encodeURIComponent (s : string) : string := on_text (fun t => t ≫= encode_char) s.

(** [url.replace(/\/+$/, '')]. *)
Definition strip_slashes (s : string) : string :=
  on_text (fun t => rev (drop_while (Ascii.eqb "/") (rev t))) s.

(** [l.slice(-n)] for a natural [n]; [slice(-0)] is the whole list. *)
Definition slice_last {A} (n : nat) (l : list A) : list A :=
  match n with O => l | _ => drop (length l - n) l end.

(** ** Lists *)

Lemma take_drop_while {A} (p : A -> bool) l : take_while p l ++ drop_while p l = l.
Proof. induction l as [|x l IH]; simpl; [done|]. destruct (p x); simpl; by rewrite ?IH. Qed.

Lemma filter_all {A} (p : A -> bool) l :
  (forall x, In x l -> p x = true) -> List.filter p l = l.
Proof.
  induction l as [|x l IH]; simpl; [done|]. intros H. rewrite H by (by left).
  f_equal. apply IH. intros y Hy. apply H. by right.
Qed.

Lemma filter_filter {X} (p q : X -> bool) l : List.filter p (List.filter q l) = List.filter (fun x => q x && p x) l.
Proof. induction l as [|x l IH]; simpl; [done|]. destruct (q x); simpl; [|done]. by rewrite IH. Qed.

Lemma slice_last_suffix {A} n (l : list A) : exists d, l = d ++ slice_last n l.
Proof.
  destruct n as [|n]; [by exists []|]. exists (take (length l - S n) l).
  symmetry. apply take_drop.
Qed.

Lemma slice_last_length {A} n (l : list A) :
  (0 < n)%nat -> length (slice_last n l) = Nat.min n (length l).
Proof. destruct n as [|n]; [lia|]. intros _. unfold slice_last. rewrite length_drop. lia. Qed.

Lemma split_at_spec c s a b : split_at c s = Some (a, b) -> s = a +:+ String c b.
Proof.
  revert a b. induction s as [|x s IH]; intros a b; simpl; [done|].
  destruct (Ascii.eqb_spec x c); [by intros [= <- <-]; subst|].
  destruct (split_at c s) as [[a' b']|]; [|done]. intros [= <- <-].
  by rewrite (IH _ _ eq_refl).
Qed.

Lemma split_at_app c a b :
  Ascii.eqb c c = true -> (forall x, In x (list_ascii_of_string a) -> x <> c) ->
  split_at c (a +:+ String c b) = Some (a, b).
Proof.
  intros Hc Ha. induction a as [|x a IH]; simpl; [by rewrite Hc|].
  destruct (Ascii.eqb_spec x c) as [->|]; [by destruct (Ha c); [left|]|].
  rewrite IH; [done|]. intros y Hy. apply Ha. by right.
Qed.

(** [[...l].sort()]: by code units. *)
Definition text_le (a b : string) : Prop := String.leb a b = true.
#[export] Instance text_le_dec : RelDecision text_le.
Proof. intros a b. unfold text_le. apply _. Defined.
Definition sorted_names (l : list string) : list string := merge_sort text_le l.

(** ** Membership and length of texts *)

Lemma existsb_elem (x : string) l : existsb (String.eqb x) l = true <-> x ∈ l.
Proof.
  rewrite existsb_exists. setoid_rewrite String.eqb_eq. setoid_rewrite <- list_elem_of_In.
  split; [by intros (? & ? & ->)|eauto].
Qed.

Lemma string_app_length a b : String.length (a +:+ b) = (String.length a + String.length b)%nat.
Proof. induction a as [|c a IH]; simpl; [done|]. by rewrite IH. Qed.
