(* ===== verification/Json.v ===== *)
(** JSON values, [JSON.stringify] and [JSON.parse], as the program uses them.

    Every component that persists or transmits structured data does so through
    these two functions of the language: the loop's message contents, the
    gateway's frames, the fan-out envelope, the runner's request and response.
    Numbers are integers of any size; a literal with a fraction or an exponent
    is kept as its text ([JFloat]).  Texts are sequences of code units below
    256, so a [\u] escape above [\u00ff] has no value in the model. *)
From S2P Require Import Prelude.
From Stdlib Require DecimalZ DecimalPos.

Inductive json : Type :=
| JNull
| JBool (b : bool)
| JNum (n : Z)
| JFloat (lit : string)
| JStr (s : string)
| JArr (l : list json)
| JObj (members : list (string * json)).

(** A JavaScript value that may be [undefined]. *)
Abbreviation jsval := (option json).

(** ** Object access

    [o.k] on a parsed object, [k in o], and the assignment of a member: a key
    that is already there keeps its position and gets the new value. *)
Fixpoint obj_get (k : string) (o : list (string * json)) : jsval :=
  match o with
  | [] => None
  | (k', v) :: o => if String.eqb k k' then Some v else obj_get k o
  end.

Fixpoint obj_set (k : string) (v : json) (o : list (string * json)) : list (string * json) :=
  match o with
  | [] => [(k, v)]
  | (k', v') :: o => if String.eqb k k' then (k', v) :: o else (k', v') :: obj_set k v o
  end.

Definition obj_of_members (ms : list (string * json)) : list (string * json) :=
  fold_left (fun o m => obj_set m.1 m.2 o) ms [].

(** [v.k] where [v] is any value: [undefined] off an object. *)
Definition field (k : string) (v : json) : jsval :=
  match v with JObj o => obj_get k o | _ => None end.

Definition has_field (k : string) (v : json) : bool :=
  match field k v with Some _ => true | None => false end.

(** An object literal whose [undefined] members are dropped when printed. *)
Definition obj_literal (ms : list (string * jsval)) : json :=
  JObj (omap (fun m => match m.2 with Some v => Some (m.1, v) | None => None end) ms).

(** ** Printing *)

Fixpoint digits (u : Decimal.uint) : text :=
  match u with
  | Decimal.Nil => []
  | Decimal.D0 u => "0"%char :: digits u
  | Decimal.D1 u => "1"%char :: digits u
  | Decimal.D2 u => "2"%char :: digits u
  | Decimal.D3 u => "3"%char :: digits u
  | Decimal.D4 u => "4"%char :: digits u
  | Decimal.D5 u => "5"%char :: digits u
  | Decimal.D6 u => "6"%char :: digits u
  | Decimal.D7 u => "7"%char :: digits u
  | Decimal.D8 u => "8"%char :: digits u
  | Decimal.D9 u => "9"%char :: digits u
  end.

Definition print_int (z : Z) : text :=
  match Z.to_int z with
  | Decimal.Pos u => digits u
  | Decimal.Neg u => "-"%char :: digits u
  end.

Definition hex_digit (n : nat) : ascii :=
  ascii_of_nat (if n <? 10 then 48 + n else 87 + n)%nat.

(** The quotation mark and the reverse solidus. *)
Abbreviation DQ := "034"%char.
Abbreviation BS := "092"%char.

(** The escape of one code unit inside a JSON string. *)
Definition escape (c : ascii) : text :=
  if Ascii.eqb c DQ then [BS; DQ]
  else if Ascii.eqb c BS then [BS; BS]
  else if Ascii.eqb c "008" then [BS; "b"%char]
  else if Ascii.eqb c "009" then [BS; "t"%char]
  else if Ascii.eqb c "010" then [BS; "n"%char]
  else if Ascii.eqb c "012" then [BS; "f"%char]
  else if Ascii.eqb c "013" then [BS; "r"%char]
  else if (nat_of_ascii c <? 32)%nat
  then [BS; "u"%char; "0"%char; "0"%char;
        hex_digit (nat_of_ascii c / 16); hex_digit (nat_of_ascii c mod 16)]
  else [c].

Definition print_chars (s : text) : text := s ≫= escape.

Definition print_string (s : string) : text :=
  DQ :: print_chars (list_ascii_of_string s) ++ [DQ].

Fixpoint commas (l : list text) : text :=
  match l with
  | [] => []
  | [x] => x
  | x :: l => x ++ ","%char :: commas l
  end.

Fixpoint print (v : json) : text :=
  match v with
  | JNull => list_ascii_of_string "null"
  | JBool true => list_ascii_of_string "true"
  | JBool false => list_ascii_of_string "false"
  | JNum n => print_int n
  | JFloat lit => list_ascii_of_string lit
  | JStr s => print_string s
  | JArr l => "["%char :: commas (map print l) ++ ["]"%char]
  | JObj ms =>
      "{"%char ::
      commas (map (fun m => print_string m.1 ++ ":"%char :: print m.2) ms) ++ ["}"%char]
  end.

(** [JSON.stringify(v)] of a value other than [undefined]. *)
Definition stringify (v : json) : string := string_of_list_ascii (print v).

(** [JSON.stringify(v)] of any value: [undefined] gives [undefined]. *)
Definition stringify_val (v : jsval) : option string := stringify <$> v.

(** ** Parsing *)

Definition is_ws (c : ascii) : bool :=
  Ascii.eqb c " " || Ascii.eqb c "009" || Ascii.eqb c "010" || Ascii.eqb c "013".

Fixpoint skip_ws (s : text) : text :=
  match s with
  | c :: s' => if is_ws c then skip_ws s' else s
  | [] => []
  end.

Definition digit_of (c : ascii) : option (Decimal.uint -> Decimal.uint) :=
  match c with
  | "0" => Some Decimal.D0 | "1" => Some Decimal.D1 | "2" => Some Decimal.D2
  | "3" => Some Decimal.D3 | "4" => Some Decimal.D4 | "5" => Some Decimal.D5
  | "6" => Some Decimal.D6 | "7" => Some Decimal.D7 | "8" => Some Decimal.D8
  | "9" => Some Decimal.D9 | _ => None
  end%char.

Definition is_digit (c : ascii) : bool :=
  match digit_of c with Some _ => true | None => false end.

(** The rest of the text after one expected character. *)
Definition expect (c : ascii) (s : text) : option text :=
  match s with x :: r => if Ascii.eqb x c then Some r else None | [] => None end.

(** The longest prefix of digits. *)
Fixpoint scan_digits (s : text) : Decimal.uint * text :=
  match s with
  | c :: s' =>
      match digit_of c with
      | Some d => let '(u, r) := scan_digits s' in (d u, r)
      | None => (Decimal.Nil, s)
      end
  | [] => (Decimal.Nil, [])
  end.

(** The grammar's integer part: one zero, or digits not led by a zero. *)
Definition valid_int (u : Decimal.uint) : bool :=
  match u with
  | Decimal.Nil => false
  | Decimal.D0 Decimal.Nil => true
  | Decimal.D0 _ => false
  | _ => true
  end.

Definition nonempty (u : Decimal.uint) : bool :=
  match u with Decimal.Nil => false | _ => true end.

(** [frac] and [exp] of the number grammar: the text read and the rest. *)
Definition scan_frac (s : text) : option (text * text) :=
  match expect "." s with
  | Some s' =>
      let '(u, r) := scan_digits s' in
      if nonempty u then Some ("."%char :: digits u, r) else None
  | None => Some ([], s)
  end.

Definition scan_exp (s : text) : option (text * text) :=
  match s with
  | c :: s' =>
      if Ascii.eqb c "e" || Ascii.eqb c "E" then
        let '(sg, s'') :=
          match expect "+" s', expect "-" s' with
          | Some r, _ => (["+"%char], r)
          | _, Some r => (["-"%char], r)
          | _, _ => ([], s')
          end in
        let '(u, r) := scan_digits s'' in
        if nonempty u then Some (c :: sg ++ digits u, r) else None
      else Some ([], s)
  | [] => Some ([], [])
  end.

Definition parse_number (s : text) : option (json * text) :=
  let '(neg, s1) :=
    match expect "-" s with Some r => (true, r) | None => (false, s) end in
  let '(u, s2) := scan_digits s1 in
  if valid_int u then
    match scan_frac s2 with
    | None => None
    | Some (fr, s3) =>
        match scan_exp s3 with
        | None => None
        | Some (ex, s4) =>
            match fr ++ ex with
            | [] => Some (JNum (Z.of_int (if neg then Decimal.Neg u else Decimal.Pos u)), s4)
            | tail =>
                Some (JFloat (string_of_list_ascii
                  ((if neg then ["-"%char] else []) ++ digits u ++ tail)), s4)
            end
        end
    end
  else None.

Definition hex_value (c : ascii) : option nat :=
  let n := nat_of_ascii c in
  (if (48 <=? n) && (n <=? 57) then Some (n - 48)
   else if (97 <=? n) && (n <=? 102) then Some (n - 87)
   else if (65 <=? n) && (n <=? 70) then Some (n - 55)
   else None)%nat.

Definition hex4 (a b c d : ascii) : option ascii :=
  match hex_value a, hex_value b, hex_value c, hex_value d with
  | Some 0%nat, Some 0%nat, Some x, Some y => Some (ascii_of_nat (16 * x + y))
  | _, _, _, _ => None
  end.

Definition unescape (c : ascii) : option ascii :=
  if Ascii.eqb c DQ then Some DQ
  else if Ascii.eqb c BS then Some BS
  else if Ascii.eqb c "/" then Some "/"%char
  else if Ascii.eqb c "b" then Some "008"%char
  else if Ascii.eqb c "f" then Some "012"%char
  else if Ascii.eqb c "n" then Some "010"%char
  else if Ascii.eqb c "r" then Some "013"%char
  else if Ascii.eqb c "t" then Some "009"%char
  else None.

Definition push (c : ascii) (r : option (text * text)) : option (text * text) :=
  match r with Some (cs, rest) => Some (c :: cs, rest) | None => None end.

(** The characters of a string after its opening quotation mark. *)
Fixpoint parse_chars (s : text) : option (text * text) :=
  match s with
  | [] => None
  | c :: s1 =>
      if Ascii.eqb c DQ then Some ([], s1)
      else if Ascii.eqb c BS then
        match s1 with
        | [] => None
        | e :: s2 =>
            if Ascii.eqb e "u" then
              match s2 with
              | a :: b :: x :: y :: s3 =>
                  match hex4 a b x y with
                  | Some ch => push ch (parse_chars s3)
                  | None => None
                  end
              | _ => None
              end
            else match unescape e with
                 | Some ch => push ch (parse_chars s2)
                 | None => None
                 end
        end
      else if (nat_of_ascii c <? 32)%nat then None
      else push c (parse_chars s1)
  end.

Definition parse_string (s : text) : option (string * text) :=
  match s with
  | c :: s' =>
      if Ascii.eqb c DQ then
        match parse_chars s' with
        | Some (cs, r) => Some (string_of_list_ascii cs, r)
        | None => None
        end
      else None
  | [] => None
  end.

Fixpoint strip (p s : text) : option text :=
  match p, s with
  | [], _ => Some s
  | a :: p, b :: s => if Ascii.eqb a b then strip p s else None
  | _, [] => None
  end.

Definition keyword (kw : string) (v : json) (s : text) : option (json * text) :=
  match strip (list_ascii_of_string kw) s with
  | Some r => Some (v, r)
  | None => None
  end.

(** Values without members: keywords, strings, numbers. *)
Definition parse_atom (s : text) : option (json * text) :=
  match s with
  | [] => None
  | c :: _ =>
      if Ascii.eqb c DQ then
        match parse_string s with Some (v, r) => Some (JStr v, r) | None => None end
      else if Ascii.eqb c "n" then keyword "null" JNull s
      else if Ascii.eqb c "t" then keyword "true" (JBool true) s
      else if Ascii.eqb c "f" then keyword "false" (JBool false) s
      else parse_number s
  end.

(** The recursive part.  Every recursive call is made after at least one
    character was read, so a fuel above the length of the text never runs out
    ([parse_fuel_enough]). *)
Fixpoint parse_value (fuel : nat) (s : text) : option (json * text) :=
  match fuel with
  | O => None
  | S fuel =>
      match skip_ws s with
      | [] => None
      | c :: s1 =>
          if Ascii.eqb c "[" then
            match expect "]" (skip_ws s1) with
            | Some r => Some (JArr [], r)
            | None => match parse_elems fuel s1 with
                   | Some (l, r) => Some (JArr l, r)
                   | None => None
                   end
            end
          else if Ascii.eqb c "{" then
            match expect "}" (skip_ws s1) with
            | Some r => Some (JObj [], r)
            | None => match parse_members fuel s1 with
                   | Some (ms, r) => Some (JObj (obj_of_members ms), r)
                   | None => None
                   end
            end
          else parse_atom (c :: s1)
      end
  end
with parse_elems (fuel : nat) (s : text) : option (list json * text) :=
  match fuel with
  | O => None
  | S fuel =>
      match parse_value fuel s with
      | None => None
      | Some (v, r) =>
          match expect "," (skip_ws r), expect "]" (skip_ws r) with
          | Some r', _ =>
              match parse_elems fuel r' with
              | Some (l, r'') => Some (v :: l, r'')
              | None => None
              end
          | None, Some r' => Some ([v], r')
          | None, None => None
          end
      end
  end
with parse_members (fuel : nat) (s : text) : option (list (string * json) * text) :=
  match fuel with
  | O => None
  | S fuel =>
      match parse_string (skip_ws s) with
      | None => None
      | Some (k, r) =>
          match expect ":" (skip_ws r) with
          | Some r1 =>
              match parse_value fuel r1 with
              | None => None
              | Some (v, r2) =>
                  match expect "," (skip_ws r2), expect "}" (skip_ws r2) with
                  | Some r3, _ =>
                      match parse_members fuel r3 with
                      | Some (ms, r4) => Some ((k, v) :: ms, r4)
                      | None => None
                      end
                  | None, Some r3 => Some ([(k, v)], r3)
                  | None, None => None
                  end
              end
          | None => None
          end
      end
  end.

(** [JSON.parse]: a value between white space, and nothing after it; [None]
    is the [SyntaxError]. *)
Definition parse_text (s : text) : option json :=
  match parse_value (S (2 * length s)) s with
  | Some (v, r) => match skip_ws r with [] => Some v | _ => None end
  | None => None
  end.

Definition parse (s : string) : option json := parse_text (list_ascii_of_string s).


(** ** Round trip *)

(** Values whose text determines them: integer numbers only, and no key twice
    in an object (a JavaScript object has each key once). *)
Fixpoint wf (v : json) : bool :=
  match v with
  | JFloat _ => false
  | JArr l => forallb wf l
  | JObj ms => bool_decide (NoDup (map fst ms)) && forallb (fun m => wf m.2) ms
  | _ => true
  end.

Section induction.
Context (P : json -> Prop)
  (HNull : P JNull) (HBool : forall b, P (JBool b)) (HNum : forall n, P (JNum n))
  (HFloat : forall l, P (JFloat l)) (HStr : forall s, P (JStr s))
  (HArr : forall l, Forall P l -> P (JArr l))
  (HObj : forall ms, Forall (fun m => P m.2) ms -> P (JObj ms)).

(** Induction with a hypothesis for every element and every member. *)
Fixpoint json_nested_ind (v : json) : P v :=
  match v with
  | JNull => HNull
  | JBool b => HBool b
  | JNum n => HNum n
  | JFloat l => HFloat l
  | JStr s => HStr s
  | JArr l => HArr l ((fix go l : Forall P l :=
      match l with [] => Forall_nil_2 P | x :: l => Forall_cons_2 P x l (json_nested_ind x) (go l) end) l)
  | JObj ms => HObj ms ((fix go ms : Forall (fun m => P m.2) ms :=
      match ms with
      | [] => Forall_nil_2 (fun m => P m.2)
      | m :: ms => Forall_cons_2 (fun m => P m.2) m ms (json_nested_ind m.2) (go ms)
      end) ms)
  end.
End induction.

(** *** Numbers *)

(** The text after a number does not continue it. *)
Definition num_stop (s : text) : bool :=
  match s with
  | [] => true
  | c :: _ => negb (is_digit c || Ascii.eqb c "." || Ascii.eqb c "e" || Ascii.eqb c "E")
  end.

Lemma scan_digits_app u rest :
  num_stop rest = true -> scan_digits (digits u ++ rest) = (u, rest).
Proof.
  intros Hs. induction u; simpl; try rewrite IHu; try reflexivity.
  destruct rest as [|c rest]; simpl; [reflexivity|].
  simpl in Hs. unfold is_digit in Hs. by destruct (digit_of c).
Qed.

Lemma scan_frac_stop s : num_stop s = true -> scan_frac s = Some ([], s).
Proof.
  unfold scan_frac. destruct s as [|c s]; simpl; [done|]. intros H; reflect_bools.
  by repeat match goal with E : Ascii.eqb _ _ = false |- _ => rewrite E; clear E end.
Qed.

Lemma scan_exp_stop s : num_stop s = true -> scan_exp s = Some ([], s).
Proof.
  destruct s as [|c s]; simpl; [done|]. intros H; reflect_bools.
  by repeat match goal with E : Ascii.eqb _ _ = false |- _ => rewrite E; clear E end.
Qed.

Lemma nzhead_no_zero u w : Decimal.nzhead u <> Decimal.D0 w.
Proof. induction u; simpl; done. Qed.

Lemma valid_int_norm u : valid_int (Decimal.unorm u) = true.
Proof.
  unfold Decimal.unorm. pose proof (nzhead_no_zero u) as H.
  destruct (Decimal.nzhead u) eqn:E; try reflexivity. by destruct (H u0).
Qed.

Lemma valid_int_pos p : valid_int (Pos.to_uint p) = true.
Proof.
  rewrite <- (valid_int_norm (Pos.to_uint p)), <- DecimalPos.Unsigned.to_of.
  by rewrite DecimalPos.Unsigned.of_to.
Qed.

Lemma digits_head u :
  valid_int u = true -> exists c t, digits u = c :: t /\ is_digit c = true.
Proof. destruct u; simpl; try done; eauto. Qed.

Lemma parse_print_int n rest :
  num_stop rest = true -> parse_number (print_int n ++ rest) = Some (JNum n, rest).
Proof.
  intros Hs. pose proof (DecimalZ.of_to n) as Hn. unfold print_int, parse_number.
  destruct n as [|p|p]; simpl Z.to_int in *.
  - pose proof (scan_digits_app Decimal.Nil rest Hs) as Hr. simpl in *.
    by rewrite Hr, scan_frac_stop, scan_exp_stop.
  - destruct (digits_head _ (valid_int_pos p)) as (c & t & Hd & Hc).
    assert (Hm : expect "-" (digits (Pos.to_uint p) ++ rest) = None).
    { rewrite Hd. simpl. destruct c as [[] [] [] [] [] [] [] []]; done. }
    rewrite Hm, scan_digits_app, valid_int_pos, scan_frac_stop, scan_exp_stop by done.
    simpl. by rewrite <- Hn.
  - simpl. rewrite scan_digits_app, valid_int_pos, scan_frac_stop, scan_exp_stop by done.
    simpl. by rewrite <- Hn.
Qed.

(** *** Strings *)

Lemma parse_chars_escape c s :
  parse_chars (escape c ++ s) = push c (parse_chars s).
Proof. destruct c as [[] [] [] [] [] [] [] []]; reflexivity. Qed.

Lemma parse_print_chars cs rest :
  parse_chars (print_chars cs ++ DQ :: rest) = Some (cs, rest).
Proof.
  induction cs as [|c cs IH]; [done|].
  change (print_chars (c :: cs)) with (escape c ++ print_chars cs).
  by rewrite <- app_assoc, parse_chars_escape, IH.
Qed.

Lemma parse_print_string s rest :
  parse_string (print_string s ++ rest) = Some (s, rest).
Proof.
  unfold print_string. simpl. rewrite <- app_assoc. simpl.
  by rewrite parse_print_chars, string_of_list_ascii_of_string.
Qed.

(** *** Objects *)

Lemma obj_set_fresh k v o :
  k ∉ map fst o -> obj_set k v o = o ++ [(k, v)].
Proof.
  induction o as [|[k' v'] o IH]; simpl; [done|]. rewrite not_elem_of_cons.
  intros [Hk Ho]. destruct (String.eqb_spec k k'); [done|]. by rewrite IH.
Qed.

Lemma obj_of_members_nodup ms : NoDup (map fst ms) -> obj_of_members ms = ms.
Proof.
  unfold obj_of_members. enough (H : forall o, NoDup (map fst (o ++ ms)) ->
    fold_left (fun o m => obj_set m.1 m.2 o) ms o = o ++ ms) by (intros; by apply (H [])).
  induction ms as [|[k v] ms IH]; intros o Hn; simpl; [by rewrite app_nil_r|].
  rewrite obj_set_fresh.
  - rewrite IH; rewrite <- app_assoc; done.
  - rewrite map_app, NoDup_app in Hn. destruct Hn as (_ & Hd & _).
    intros Hk. apply (Hd _ Hk). simpl. left.
Qed.

Lemma obj_get_set k k' v o :
  obj_get k (obj_set k' v o) = if String.eqb k k' then Some v else obj_get k o.
Proof.
  induction o as [|[k1 v1] o IH]; simpl; [done|].
  destruct (String.eqb_spec k' k1); simpl; subst.
  - by destruct (String.eqb k k1).
  - destruct (String.eqb_spec k k1); [|done]. subst.
    by rewrite (proj2 (String.eqb_neq k1 k')) by done.
Qed.

(** *** Values *)

Lemma print_head v :
  wf v = true -> exists c t, print v = c :: t /\ is_ws c = false /\ Ascii.eqb c "]" = false.
Proof.
  destruct v as [|[]|n| |s|l|ms]; simpl; try discriminate;
    try (intros; eexists _, _; by repeat split).
  intros _. unfold print_int. destruct (Z.to_int n) as [u|u] eqn:E.
  - destruct (digits_head u) as (c & t & -> & Hc).
    + destruct n; simpl in E; simplify_eq; [done|apply valid_int_pos].
    + exists c, t. split; [done|]. by destruct c as [[] [] [] [] [] [] [] []].
  - eexists _, _. by repeat split.
Qed.

Lemma skip_ws_print v rest :
  wf v = true -> skip_ws (print v ++ rest) = print v ++ rest.
Proof.
  intros Hw. destruct (print_head v Hw) as (c & t & -> & Hc & _). simpl. by rewrite Hc.
Qed.

Lemma expect_print v rest :
  wf v = true -> expect "]" (print v ++ rest) = None.
Proof.
  intros Hw. destruct (print_head v Hw) as (c & t & -> & _ & Hc). simpl. by rewrite Hc.
Qed.

Lemma parse_atom_int n rest :
  num_stop rest = true -> parse_atom (print_int n ++ rest) = Some (JNum n, rest).
Proof.
  intros Hs. rewrite <- (parse_print_int n rest Hs). unfold print_int.
  destruct (Z.to_int n) as [u|u] eqn:E; [|done].
  destruct (digits_head u) as (c & t & -> & Hc).
  { destruct n; simpl in E; simplify_eq; [done|apply valid_int_pos]. }
  by destruct c as [[] [] [] [] [] [] [] []].
Qed.

Lemma parse_value_int f n rest :
  num_stop rest = true -> parse_value (S f) (print_int n ++ rest) = Some (JNum n, rest).
Proof.
  intros Hs. simpl. change (print_int n) with (print (JNum n)).
  rewrite skip_ws_print by done. destruct (print (JNum n) ++ rest) as [|c s1] eqn:E.
  - destruct (print_head (JNum n)) as (c & t & Hp & _); [done|]. by rewrite Hp in E.
  - rewrite <- (parse_atom_int n rest Hs). change (print_int n) with (print (JNum n)).
    rewrite E. destruct (Ascii.eqb_spec c "["), (Ascii.eqb_spec c "{"); subst; try done;
    pose proof (parse_atom_int n rest Hs) as H;
    change (print_int n) with (print (JNum n)) in H; rewrite E in H; done.
Qed.

Lemma commas_cons x y l : commas (x :: y :: l) = x ++ ","%char :: commas (y :: l).
Proof. done. Qed.

Lemma skip_ws_id c s : is_ws c = false -> skip_ws (c :: s) = c :: s.
Proof. intros H. simpl. by rewrite H. Qed.

Lemma expect_skip c d s :
  is_ws c = false -> expect d (skip_ws (c :: s)) = if Ascii.eqb c d then Some s else None.
Proof. intros H. simpl. by rewrite H. Qed.

(** Reads the next character of the text, which is not white space. *)
Ltac read_char := rewrite !expect_skip by reflexivity; simpl Ascii.eqb; cbv beta iota.

(** What the value lemma says of one value, for every fuel that suffices. *)
Definition prints_back (v : json) : Prop :=
  forall f rest, (2 * length (print v) < f)%nat -> num_stop rest = true ->
  parse_value f (print v ++ rest) = Some (v, rest).

Lemma parse_elems_print l f rest :
  l <> [] -> Forall prints_back l ->
  (2 * length (commas (map print l)) + 2 <= f)%nat ->
  parse_elems f (commas (map print l) ++ "]"%char :: rest) = Some (l, rest).
Proof.
  intros Hl Hall. revert f. induction Hall as [|v l Hv Hall IH]; [done|]; intros f Hf.
  destruct f as [|f]; [lia|]. cbn [parse_elems]. destruct l as [|w l].
  - simpl in *. rewrite Hv by (done || lia). done.
  - cbn [map] in *. rewrite commas_cons, length_app in *. rewrite <- app_assoc, <- app_comm_cons.
    cbn [length] in Hf. rewrite Hv by (done || lia). read_char. rewrite IH; [done..|lia].
Qed.

Definition print_member (m : string * json) : text := print_string m.1 ++ ":"%char :: print m.2.

Lemma parse_members_print ms f rest :
  ms <> [] -> Forall (fun m => prints_back m.2) ms ->
  (2 * length (commas (map print_member ms)) + 2 <= f)%nat ->
  parse_members f (commas (map print_member ms) ++ "}"%char :: rest) = Some (ms, rest).
Proof.
  intros Hl Hall. revert f. induction Hall as [|[k v] ms Hv Hall IH]; [done|]; intros f Hf.
  destruct f as [|f]; [lia|]. simpl in Hv.
  assert (Hlen : (length (print_member (k, v)) > length (print v))%nat).
  { unfold print_member. rewrite length_app. simpl. lia. }
  assert (Hk : forall t, parse_string (skip_ws (print_member (k, v) ++ t))
                         = Some (k, ":"%char :: print v ++ t)).
  { intros t. unfold print_member. rewrite <- app_assoc. simpl fst. simpl snd.
    rewrite <- app_comm_cons, <- (parse_print_string k). done. }
  cbn [parse_members]. destruct ms as [|w ms]; cbn [map] in *.
  - simpl commas in *. rewrite Hk. read_char.
    rewrite Hv by (done || lia). done.
  - rewrite commas_cons, length_app in *. rewrite <- app_assoc, <- app_comm_cons.
    cbn [length] in Hf. rewrite Hk. read_char.
    rewrite Hv by (done || lia). read_char.
    rewrite IH; [done..|lia].
Qed.

Lemma commas_nil (ts : list text) : Forall (fun t => t <> []) ts -> commas ts = [] -> ts = [].
Proof. destruct 1 as [|t ts Ht _]; [done|]. by destruct ts, t. Qed.

Lemma parse_print_value v : wf v = true -> prints_back v.
Proof.
  induction v as [|b|n|l|s|l IH|ms IH] using json_nested_ind; intros Hw [|f] rest Hf Hs;
    try lia.
  - done.
  - by destruct b.
  - by apply parse_value_int.
  - done.
  - pose proof (parse_print_string s rest) as Hp. simpl print in *.
    unfold print_string in *. rewrite <- app_comm_cons in *. simpl in *. by rewrite Hp.
  - simpl in Hw. rewrite forallb_forall in Hw.
    assert (Hall : Forall prints_back l).
    { rewrite Forall_forall in *. intros x Hx. apply IH; [done|].
      apply Hw. by apply list_elem_of_In. }
    destruct l as [|v l]; [done|].
    assert (Hv : wf v = true) by (apply Hw; by left).
    assert (He : forall t, expect "]" (skip_ws (commas (map print (v :: l)) ++ t)) = None).
    { intros t. simpl. destruct (map print l); rewrite <- ?app_assoc;
        rewrite skip_ws_print, expect_print; done. }
    change (print (JArr (v :: l)))
      with ("["%char :: commas (map print (v :: l)) ++ ["]"%char]) in *.
    rewrite <- app_comm_cons, <- app_assoc. cbn [length] in Hf. rewrite length_app in Hf.
    cbn [length] in Hf. change (["]"%char] ++ rest) with ("]"%char :: rest).
    cbn [parse_value]. rewrite skip_ws_id by reflexivity. simpl Ascii.eqb. cbv beta iota.
    rewrite He, parse_elems_print by (done || lia). done.
  - simpl in Hw. apply andb_true_iff in Hw as [Hn Hw]. apply bool_decide_eq_true in Hn.
    rewrite forallb_forall in Hw.
    assert (Hall : Forall (fun m => prints_back m.2) ms).
    { rewrite Forall_forall in *. intros x Hx. apply IH; [done|].
      apply Hw. by apply list_elem_of_In. }
    destruct ms as [|m ms]; [done|].
    change (print (JObj (m :: ms)))
      with ("{"%char :: commas (map print_member (m :: ms)) ++ ["}"%char]) in *.
    rewrite <- app_comm_cons, <- app_assoc. cbn [length] in Hf. rewrite length_app in Hf.
    cbn [length] in Hf. change (["}"%char] ++ rest) with ("}"%char :: rest).
    cbn [parse_value]. rewrite skip_ws_id by reflexivity. simpl Ascii.eqb. cbv beta iota.
    assert (He : forall t, expect "}" (skip_ws (commas (map print_member (m :: ms)) ++ t)) = None).
    { intros t. simpl. by destruct (map print_member ms). }
    rewrite He, parse_members_print by (done || lia). by rewrite obj_of_members_nodup.
Qed.

(** Printing then parsing gives the value back. *)
Lemma parse_stringify v : wf v = true -> parse (stringify v) = Some v.
Proof.
  intros Hw. unfold parse, stringify, parse_text.
  rewrite list_ascii_of_string_of_list_ascii.
  pose proof (parse_print_value v Hw (S (2 * length (print v))) []) as H.
  rewrite app_nil_r in H. rewrite H by (done || lia). done.
Qed.

Lemma stringify_inj v w : wf v = true -> wf w = true -> stringify v = stringify w -> v = w.
Proof.
  intros Hv Hw E. pose proof (parse_stringify v Hv) as Hp.
  rewrite E, parse_stringify in Hp by done. congruence.
Qed.

(** ** Fuel

    Reading a value shortens the text, so the fuel [parse_text] starts with is
    enough: any larger fuel gives the same answer, and [None] is a syntax
    error, never an exhausted fuel. *)

Lemma skip_ws_le s : (length (skip_ws s) <= length s)%nat.
Proof. induction s as [|c s IH]; simpl; [lia|]. case_goal; simpl in *; lia. Qed.

Lemma expect_lt c s r : expect c s = Some r -> (length r < length s)%nat.
Proof. destruct s as [|x s]; simpl; [done|]. case_goal; [|done]. intros [= ->]. lia. Qed.

Lemma expect_skip_lt c s r : expect c (skip_ws s) = Some r -> (length r < length s)%nat.
Proof. intros H%expect_lt. pose proof (skip_ws_le s). lia. Qed.

Lemma parse_chars_lt s cs r : parse_chars s = Some (cs, r) -> (length r < length s)%nat.
Proof.
  revert cs r. remember (length s) as n eqn:Hn. revert s Hn.
  induction n as [n IH] using lt_wf_ind; intros s -> cs r. destruct s as [|c s]; simpl; [done|].
  assert (Hpush : forall ch t, (length t <= length s)%nat ->
    push ch (parse_chars t) = Some (cs, r) -> (length r < S (length s))%nat).
  { intros ch t Ht. destruct (parse_chars t) as [[cs' r']|] eqn:E; simpl; [|done].
    intros [= _ ->]. specialize (IH (length t) ltac:(simpl; lia) t eq_refl _ _ E). lia. }
  repeat case_goal; try done; try (intros [= _ ->]; lia);
    subst; simpl in *; apply Hpush; simpl; lia.
Qed.

Lemma parse_string_lt s k r : parse_string s = Some (k, r) -> (length r < length s)%nat.
Proof.
  destruct s as [|c s]; simpl; [done|]. repeat case_goal; try done.
  intros [= _ ->]. apply parse_chars_lt in Heqo. lia.
Qed.

Lemma scan_digits_le s u r : scan_digits s = (u, r) -> (length r + (if nonempty u then 1 else 0) <= length s)%nat.
Proof.
  revert u r. induction s as [|c s IH]; intros u r; simpl; [by intros [= <- <-]|].
  destruct (digit_of c) as [d|] eqn:E.
  - destruct (scan_digits s) as [u' r']. intros [= <- <-]. specialize (IH _ _ eq_refl).
    destruct (nonempty (d u')), (nonempty u'); lia.
  - intros [= <- <-]. simpl. lia.
Qed.

Lemma scan_frac_le s t r : scan_frac s = Some (t, r) -> (length r <= length s)%nat.
Proof.
  unfold scan_frac. destruct (expect "." s) as [s'|] eqn:E; [|by intros [= _ ->]].
  apply expect_lt in E. destruct (scan_digits s') as [u r'] eqn:Es.
  apply scan_digits_le in Es. case_goal; [|done]. intros [= _ ->]. lia.
Qed.

Lemma scan_exp_le s t r : scan_exp s = Some (t, r) -> (length r <= length s)%nat.
Proof.
  destruct s as [|c s]; simpl; [by intros [= _ <-]|].
  destruct (_ || _); [|by intros [= _ <-]].
  set (p := match expect "+" s with Some _ => _ | None => _ end).
  assert (Hp : (length p.2 <= length s)%nat).
  { subst p. destruct (expect "+" s) eqn:E1; [apply expect_lt in E1; simpl; lia|].
    destruct (expect "-" s) eqn:E2; [apply expect_lt in E2|]; simpl; lia. }
  destruct p as [sg s'']. simpl in Hp. destruct (scan_digits s'') as [u r'] eqn:E.
  apply scan_digits_le in E. case_goal; [|done]. intros [= _ <-]. lia.
Qed.

Lemma parse_number_lt s v r : parse_number s = Some (v, r) -> (length r < length s)%nat.
Proof.
  unfold parse_number.
  set (p := match expect "-" s with Some _ => _ | None => _ end).
  assert (Hp : (length p.2 <= length s)%nat).
  { subst p. destruct (expect "-" s) eqn:E; [apply expect_lt in E|]; simpl; lia. }
  destruct p as [neg s1]. simpl in Hp. destruct (scan_digits s1) as [u s2] eqn:E.
  apply scan_digits_le in E. destruct (valid_int u) eqn:Hu; [|done].
  assert (Hne : nonempty u = true) by (by destruct u). rewrite Hne in E.
  destruct (scan_frac s2) as [[fr s3]|] eqn:E2; [|done]. apply scan_frac_le in E2.
  destruct (scan_exp s3) as [[ex s4]|] eqn:E3; [|done]. apply scan_exp_le in E3.
  case_goal; intros [= _ <-]; lia.
Qed.

Lemma strip_lt p s r : strip p s = Some r -> (length r + length p = length s)%nat.
Proof.
  revert s. induction p as [|a p IH]; intros s; simpl; [intros [= ->]; lia|].
  destruct s as [|b s]; [done|]. case_goal; [|done]. intros H%IH. simpl. lia.
Qed.

Lemma keyword_lt kw v s w r :
  kw <> EmptyString -> keyword kw v s = Some (w, r) -> (length r < length s)%nat.
Proof.
  unfold keyword. intros Hk. destruct (strip _ s) eqn:E; [|done]. intros [= _ ->].
  apply strip_lt in E. destruct kw; [done|]. simpl in E. lia.
Qed.

Lemma parse_atom_lt s v r : parse_atom s = Some (v, r) -> (length r < length s)%nat.
Proof.
  destruct s as [|c s]; [done|]. unfold parse_atom.
  destruct (Ascii.eqb c DQ).
  { destruct (parse_string (c :: s)) as [[k r']|] eqn:E; [|done].
    intros [= _ <-]. by apply parse_string_lt in E. }
  repeat case_goal; first [apply keyword_lt; done | apply parse_number_lt].
Qed.

(** The three readers at one fuel, as the mutual induction sees them. *)
Lemma parse_lt f :
  (forall s v r, parse_value f s = Some (v, r) -> (length r < length s)%nat) /\
  (forall s l r, parse_elems f s = Some (l, r) -> (length r < length s)%nat) /\
  (forall s l r, parse_members f s = Some (l, r) -> (length r < length s)%nat).
Proof.
  induction f as [|f (IHv & IHe & IHm)]; [done|]. repeat split.
  - intros s v r. cbn [parse_value]. pose proof (skip_ws_le s) as Hs.
    destruct (skip_ws s) as [|c s1]; [done|]. simpl in Hs.
    destruct (Ascii.eqb c "["); [|destruct (Ascii.eqb c "{")].
    + destruct (expect _ _) eqn:E; [apply expect_skip_lt in E; intros [= _ <-]; lia|].
      destruct (parse_elems f s1) as [[]|] eqn:E1; [|done]. apply IHe in E1. intros [= _ <-]. lia.
    + destruct (expect _ _) eqn:E; [apply expect_skip_lt in E; intros [= _ <-]; lia|].
      destruct (parse_members f s1) as [[]|] eqn:E1; [|done]. apply IHm in E1. intros [= _ <-]. lia.
    + intros H%parse_atom_lt. simpl in H. lia.
  - intros s l r. cbn [parse_elems]. destruct (parse_value f s) as [[v r1]|] eqn:E; [|done].
    apply IHv in E. destruct (expect "," _) as [r2|] eqn:E1.
    + apply expect_skip_lt in E1. destruct (parse_elems f r2) as [[]|] eqn:E2; [|done].
      apply IHe in E2. intros [= _ <-]. lia.
    + destruct (expect "]" _) eqn:E2; [|done]. apply expect_skip_lt in E2. intros [= _ <-]. lia.
  - intros s l r. cbn [parse_members]. pose proof (skip_ws_le s) as Hs.
    destruct (parse_string _) as [[k r1]|] eqn:E; [|done]. apply parse_string_lt in E.
    destruct (expect ":" _) as [r2|] eqn:E1; [|done]. apply expect_skip_lt in E1.
    destruct (parse_value f r2) as [[v r3]|] eqn:E2; [|done]. apply IHv in E2.
    destruct (expect "," _) as [r4|] eqn:E3.
    + apply expect_skip_lt in E3. destruct (parse_members f r4) as [[]|] eqn:E4; [|done].
      apply IHm in E4. intros [= _ <-]. lia.
    + destruct (expect "}" _) eqn:E4; [|done]. apply expect_skip_lt in E4. intros [= _ <-]. lia.
Qed.

Lemma parse_fuel_stable f :
  (forall g s, (2 * length s < f)%nat -> (2 * length s < g)%nat ->
     parse_value f s = parse_value g s) /\
  (forall g s, (2 * length s + 1 < f)%nat -> (2 * length s + 1 < g)%nat ->
     parse_elems f s = parse_elems g s /\ parse_members f s = parse_members g s).
Proof.
  induction f as [|f (IHv & IHe)]; [split; lia|]. split; intros [|g] s Hf Hg; try lia.
  - cbn [parse_value]. pose proof (skip_ws_le s) as Hs.
    destruct (skip_ws s) as [|c s1]; [done|]. simpl in Hs.
    destruct (IHe g s1) as [-> ->]; [lia..|]. done.
  - split.
    + cbn [parse_elems]. rewrite (IHv g s) by lia.
      destruct (parse_value g s) as [[v r]|] eqn:E; [|done]. apply parse_lt in E.
      destruct (expect "," _) as [r2|] eqn:E1; [|done]. apply expect_skip_lt in E1.
      by destruct (IHe g r2) as [-> _]; [lia..|].
    + cbn [parse_members]. pose proof (skip_ws_le s) as Hs.
      destruct (parse_string _) as [[k r1]|] eqn:E; [|done]. apply parse_string_lt in E.
      destruct (expect ":" _) as [r2|] eqn:E1; [|done]. apply expect_skip_lt in E1.
      rewrite (IHv g r2) by lia.
      destruct (parse_value g r2) as [[v r3]|] eqn:E2; [|done]. apply parse_lt in E2.
      destruct (expect "," _) as [r4|] eqn:E3; [|done]. apply expect_skip_lt in E3.
      by destruct (IHe g r4) as [_ ->]; [lia..|].
Qed.

Lemma parse_fuel_enough f s :
  (2 * length s < f)%nat -> parse_value f s = parse_value (S (2 * length s)) s.
Proof. intros H. apply parse_fuel_stable; lia. Qed.
