(* ===== verification/Shared.v ===== *)
(** The shared package: error codes and the error value, the [ChatEvent] union
    with its wire form and its schema, identifiers, the protocol version check,
    the runner's wire envelope, and the records the repositories store. *)
From S2P Require Import Prelude Json.

(** ** Errors (types/errors.ts) *)
Inductive SwiftAgentErrorCode : Type :=
| VALIDATION | NOT_FOUND | CONFLICT | RATE_LIMIT | PROVIDER_ERROR | UNAUTHORIZED
| FORBIDDEN | INTERNAL | TIMEOUT | CONNECTION_ERROR | INCOMPATIBLE_VERSION.

#[export] Instance SwiftAgentErrorCode_eq_dec : EqDecision SwiftAgentErrorCode.
Proof. solve_decision. Defined.

Definition code_string (c : SwiftAgentErrorCode) : string :=
  match c with
  | VALIDATION => "VALIDATION" | NOT_FOUND => "NOT_FOUND" | CONFLICT => "CONFLICT"
  | RATE_LIMIT => "RATE_LIMIT" | PROVIDER_ERROR => "PROVIDER_ERROR"
  | UNAUTHORIZED => "UNAUTHORIZED" | FORBIDDEN => "FORBIDDEN" | INTERNAL => "INTERNAL"
  | TIMEOUT => "TIMEOUT" | CONNECTION_ERROR => "CONNECTION_ERROR"
  | INCOMPATIBLE_VERSION => "INCOMPATIBLE_VERSION"
  end.

Definition CODE_TO_STATUS (c : SwiftAgentErrorCode) : Z :=
  match c with
  | VALIDATION => 400 | NOT_FOUND => 404 | CONFLICT => 409 | RATE_LIMIT => 429
  | PROVIDER_ERROR => 502 | UNAUTHORIZED => 401 | FORBIDDEN => 403 | INTERNAL => 500
  | TIMEOUT => 504 | CONNECTION_ERROR => 503 | INCOMPATIBLE_VERSION => 409
  end.

(** The values the modelled code throws: a [SwiftAgentError], or any other
    [Error] with its [name] and [message]. *)
Inductive error : Type :=
| SwiftAgentError (code : SwiftAgentErrorCode) (message : string) (statusCode : Z)
| PlainError (name message : string).

#[export] Instance error_eq_dec : EqDecision error.
Proof. solve_decision. Defined.

(** [new SwiftAgentError(code, message, { statusCode })]. *)
Definition mkSwiftAgentError (code : SwiftAgentErrorCode) (message : string)
    (statusCode : option Z) : error :=
  SwiftAgentError code message (statusCode ?? CODE_TO_STATUS code).

Definition swift_error (code : SwiftAgentErrorCode) (message : string) : error :=
  mkSwiftAgentError code message None.

Definition isSwiftAgentError (e : error) : bool :=
  match e with SwiftAgentError _ _ _ => true | PlainError _ _ => false end.

Definition error_message (e : error) : string :=
  match e with SwiftAgentError _ m _ => m | PlainError _ m => m end.

(** ** Status enumerations and records (types/*.ts) *)
Inductive RunStatus : Type := running | completed | failed | cancelled | timed_out.
Inductive ToolCallStatus : Type := tc_started | tc_completed | tc_failed.
Inductive SessionStatus : Type := active | closed.
Inductive MessageRole : Type := system_role | user_role | assistant_role | tool_role.
Inductive MemoryStrategyName : Type := last_n | summary.

#[export] Instance RunStatus_eq_dec : EqDecision RunStatus.
Proof. solve_decision. Defined.
#[export] Instance ToolCallStatus_eq_dec : EqDecision ToolCallStatus.
Proof. solve_decision. Defined.
#[export] Instance SessionStatus_eq_dec : EqDecision SessionStatus.
Proof. solve_decision. Defined.
#[export] Instance MessageRole_eq_dec : EqDecision MessageRole.
Proof. solve_decision. Defined.

Definition status_string (s : ToolCallStatus) : string :=
  match s with
  | tc_started => "started" | tc_completed => "completed" | tc_failed => "failed"
  end.

Definition session_status_string (s : SessionStatus) : string :=
  match s with active => "active" | closed => "closed" end.

Record TokenUsage := { inputTokens : Z; outputTokens : Z; totalTokens : Z }.

Record ToolDefinition := { tool_name : string; tool_description : string; inputSchema : json }.

Record ModelConfig := { mc_model : string; mc_temperature : jsval; mc_maxTokens : option Z }.

Record MemoryConfig := { mem_strategy : MemoryStrategyName; mem_maxMessages : option nat }.

Record AgentRecord := {
  ag_agentId : string; ag_workspaceId : string; ag_name : string;
  ag_modelConfig : ModelConfig; ag_systemPrompt : string;
  ag_memoryConfig : option MemoryConfig; ag_toolRunnerUrl : option string;
  ag_tools : list ToolDefinition }.

Record SessionRecord := {
  ses_sessionId : string; ses_agentId : string; ses_userId : option string;
  ses_status : SessionStatus }.

Record RunRecord := {
  run_runId : string; run_sessionId : string; run_status : RunStatus;
  run_model : string; run_tokenUsage : option TokenUsage }.

Record MessageRecord := {
  msg_messageId : string; msg_sessionId : string; msg_runId : option string;
  msg_role : MessageRole; msg_content : string }.

Record ToolCallRecord := {
  tcr_callId : string; tcr_runId : string; tcr_toolName : string;
  tcr_input : jsval; tcr_output : jsval; tcr_status : ToolCallStatus }.

(** ** Chat events (types/events.ts) *)
Inductive ChatEvent : Type :=
| message_started (messageId runId sessionId : string)
| token (text messageId runId sessionId : string)
| tool_call_started (callId runId sessionId toolName : string)
| tool_call_completed (callId runId sessionId toolName : string) (status : ToolCallStatus)
| message_completed (messageId runId sessionId : string)
| run_failed (runId sessionId code message : string) (cause : jsval).

Definition event_type (e : ChatEvent) : string :=
  match e with
  | message_started _ _ _ => "message_started"
  | token _ _ _ _ => "token"
  | tool_call_started _ _ _ _ => "tool_call_started"
  | tool_call_completed _ _ _ _ _ => "tool_call_completed"
  | message_completed _ _ _ => "message_completed"
  | run_failed _ _ _ _ _ => "run_failed"
  end.

Definition event_runId (e : ChatEvent) : string :=
  match e with
  | message_started _ r _ | token _ _ r _ | tool_call_started _ r _ _
  | tool_call_completed _ r _ _ _ | message_completed _ r _ | run_failed r _ _ _ _ => r
  end.

Definition event_sessionId (e : ChatEvent) : string :=
  match e with
  | message_started _ _ s | token _ _ _ s | tool_call_started _ _ s _
  | tool_call_completed _ _ s _ _ | message_completed _ _ s | run_failed _ s _ _ _ => s
  end.

(** The object literal the loop yields, key by key in its order. *)
Definition event_json (e : ChatEvent) : json :=
  obj_literal (
    ("type", Some (JStr (event_type e))) ::
    match e with
    | message_started m r s | message_completed m r s =>
        [("messageId", Some (JStr m)); ("runId", Some (JStr r)); ("sessionId", Some (JStr s))]
    | token t m r s =>
        [("text", Some (JStr t)); ("messageId", Some (JStr m)); ("runId", Some (JStr r));
         ("sessionId", Some (JStr s))]
    | tool_call_started c r s t =>
        [("callId", Some (JStr c)); ("runId", Some (JStr r)); ("sessionId", Some (JStr s));
         ("toolName", Some (JStr t))]
    | tool_call_completed c r s t st =>
        [("callId", Some (JStr c)); ("runId", Some (JStr r)); ("sessionId", Some (JStr s));
         ("toolName", Some (JStr t)); ("status", Some (JStr (status_string st)))]
    | run_failed r s c m cause =>
        [("runId", Some (JStr r)); ("sessionId", Some (JStr s)); ("code", Some (JStr c));
         ("message", Some (JStr m)); ("cause", cause)]
    end).

(** ** Schema checks

    What [z.object({...})] and [.strict()] ask of a parsed value. *)
Definition str_field (k : string) (v : json) : option string :=
  match field k v with Some (JStr s) => Some s | _ => None end.

Definition is_obj (v : json) : bool := match v with JObj _ => true | _ => false end.

Definition only_keys (ks : list string) (v : json) : bool :=
  match v with
  | JObj o => forallb (fun m => existsb (String.eqb m.1) ks) o
  | _ => false
  end.

Definition starts_with (p s : string) : bool := String.prefix p s.

Definition parse_status (s : string) : option ToolCallStatus :=
  if String.eqb s "started" then Some tc_started
  else if String.eqb s "completed" then Some tc_completed
  else if String.eqb s "failed" then Some tc_failed else None.

Definition guard_opt {A} (b : bool) (o : option A) : option A := if b then o else None.

(** [ChatEventSchema.safeParse]: [None] when the schema rejects. *)
Definition ChatEventSchema (v : json) : option ChatEvent :=
  match str_field "type" v with
  | None => None
  | Some ty =>
      if String.eqb ty "message_started" then
        guard_opt (only_keys ["type"; "messageId"; "runId"; "sessionId"] v)
          (m ← str_field "messageId" v; r ← str_field "runId" v; s ← str_field "sessionId" v;
           Some (message_started m r s))
      else if String.eqb ty "token" then
        guard_opt (only_keys ["type"; "runId"; "sessionId"; "messageId"; "text"] v)
          (r ← str_field "runId" v; s ← str_field "sessionId" v;
           m ← str_field "messageId" v; t ← str_field "text" v; Some (token t m r s))
      else if String.eqb ty "tool_call_started" then
        guard_opt (only_keys ["type"; "callId"; "runId"; "sessionId"; "toolName"] v)
          (c ← str_field "callId" v; r ← str_field "runId" v; s ← str_field "sessionId" v;
           t ← str_field "toolName" v; Some (tool_call_started c r s t))
      else if String.eqb ty "tool_call_completed" then
        guard_opt (only_keys ["type"; "callId"; "runId"; "sessionId"; "toolName"; "status"] v)
          (c ← str_field "callId" v; r ← str_field "runId" v; s ← str_field "sessionId" v;
           t ← str_field "toolName" v; st ← str_field "status" v; st ← parse_status st;
           Some (tool_call_completed c r s t st))
      else if String.eqb ty "message_completed" then
        guard_opt (only_keys ["type"; "messageId"; "runId"; "sessionId"] v)
          (m ← str_field "messageId" v; r ← str_field "runId" v; s ← str_field "sessionId" v;
           Some (message_completed m r s))
      else if String.eqb ty "run_failed" then
        guard_opt (only_keys ["type"; "runId"; "sessionId"; "code"; "message"; "cause"] v)
          (r ← str_field "runId" v; s ← str_field "sessionId" v; c ← str_field "code" v;
           m ← str_field "message" v; Some (run_failed r s c m (field "cause" v)))
      else None
  end.

(** The [cause] of a failure is printed as a well-formed value or dropped. *)
Definition event_wf (e : ChatEvent) : bool :=
  match e with run_failed _ _ _ _ (Some c) => wf c | _ => true end.

Lemma event_schema_json e : ChatEventSchema (event_json e) = Some e.
Proof. destruct e as [| | |? ? ? ? []| |? ? ? ? []]; reflexivity. Qed.

Lemma event_json_wf e : event_wf e = true -> wf (event_json e) = true.
Proof.
  destruct e as [| | |? ? ? ? []| |? ? ? ? []]; simpl; intros H; rewrite ?H; reflexivity.
Qed.

(** ** [Number.parseInt(s, 10)]

    Leading white space, an optional sign, then the longest run of digits;
    [None] is [NaN]. *)
Definition parse_int_text (s : text) : option Z :=
  let s := skip_ws s in
  let '(neg, s1) := match expect "-" s, expect "+" s with
                    | Some r, _ => (true, r)
                    | None, Some r => (false, r)
                    | None, None => (false, s)
                    end in
  let '(u, _) := scan_digits s1 in
  if nonempty u then Some (Z.of_int (if neg then Decimal.Neg u else Decimal.Pos u)) else None.

Definition parseInt (s : string) : option Z := parse_int_text (list_ascii_of_string s).

(** A comparison with [NaN] is false. *)
Definition num_lt (a b : option Z) : bool :=
  match a, b with Some a, Some b => Z.ltb a b | _, _ => false end.

(** A text between quotation marks, as the messages quote names. *)
Definition quoted (s : string) : string := String DQ (s +:+ String DQ "").

(** ** Protocol version (types/protocol.ts) *)
Definition API_PROTOCOL_VERSION : string := "1".
Definition SDK_MIN_SERVER_PROTOCOL : string := "1".
Definition PROTOCOL_HEADER : string := "x-swiftagent-protocol".

Record ProtocolRange := { proto_min : string; proto_current : string }.

Definition local_protocol : ProtocolRange :=
  {| proto_min := SDK_MIN_SERVER_PROTOCOL; proto_current := API_PROTOCOL_VERSION |}.

Definition assertProtocolCompatible (remote : option string) (local : ProtocolRange) : res error unit :=
  match remote with
  | None => Ok tt
  | Some remote =>
      if String.eqb remote "" then Ok tt
      else
        let remoteMajor := parseInt remote in
        let minMajor := parseInt (proto_min local) in
        let curMajor := parseInt (proto_current local) in
        match remoteMajor with
        | None =>
            Err (swift_error INCOMPATIBLE_VERSION
              ("Server advertised an unparseable protocol version " +:+ quoted remote +:+
               ". Expected an integer major (this SDK speaks " +:+ proto_current local +:+
               "). Upgrade @swiftagent/sdk or the server."))
        | Some _ =>
            if num_lt remoteMajor minMajor then
              Err (swift_error INCOMPATIBLE_VERSION
                ("Server protocol " +:+ remote +:+ " is older than this SDK supports (minimum "
                 +:+ proto_min local +:+ ", current " +:+ proto_current local +:+
                 "). Upgrade the Swift Agent server."))
            else if num_lt curMajor remoteMajor then
              Err (swift_error INCOMPATIBLE_VERSION
                ("Server protocol " +:+ remote +:+ " is newer than this SDK understands (this SDK speaks "
                 +:+ proto_current local +:+ "). Upgrade @swiftagent/sdk."))
            else Ok tt
        end
  end.

(** The decimal text of an integer, as a template literal writes it. *)
Definition string_of_Z (z : Z) : string := string_of_list_ascii (print_int z).

(** A literal that is not an integer is zero when its mantissa has no other
    digit. *)
Fixpoint mantissa_zero (t : text) : bool :=
  match t with
  | [] => true
  | c :: t =>
      if existsb (Ascii.eqb c) ["e"; "E"]%char then true
      else existsb (Ascii.eqb c) ["-"; "."; "0"]%char && mantissa_zero t
  end.

Definition truthy (v : json) : bool :=
  match v with
  | JNull | JBool false => false
  | JNum n => negb (Z.eqb n 0)
  | JFloat lit => negb (mantissa_zero (list_ascii_of_string lit))
  | JStr s => negb (String.eqb s "")
  | _ => true
  end.

Definition truthy_val (v : jsval) : bool := match v with Some v => truthy v | None => false end.

(** [String(v)]. *)
Fixpoint to_text (v : json) : string :=
  match v with
  | JNull => "null"
  | JBool b => if b then "true" else "false"
  | JNum n => string_of_Z n
  | JFloat lit => lit
  | JStr s => s
  | JArr l => join ","%string (map (fun v => match v with JNull => "" | _ => to_text v end) l)
  | JObj _ => "[object Object]"
  end%string.

Lemma parse_int_print z rest :
  num_stop rest = true -> parse_int_text (print_int z ++ rest) = Some z.
Proof.
  intros Hs. pose proof (parse_print_int z rest Hs) as H.
  pose proof (skip_ws_print (JNum z) rest eq_refl) as Hw. simpl in Hw.
  unfold parse_int_text. rewrite Hw. unfold parse_number in H.
  assert (Hp : expect "-" (print_int z ++ rest) = None -> expect "+" (print_int z ++ rest) = None).
  { unfold print_int. destruct (Z.to_int z) as [u|u] eqn:E; [|done]. intros _.
    destruct (digits_head u) as (c & t & -> & Hc).
    - destruct z; simpl in E; simplify_eq; [done|apply valid_int_pos].
    - by destruct c as [[] [] [] [] [] [] [] []]. }
  destruct (expect "-" _) as [r|]; [|rewrite Hp by done];
    destruct (scan_digits _) as [u s2]; destruct (valid_int u) eqn:Hu; try done;
    (assert (nonempty u = true) as -> by (by destruct u));
    destruct (scan_frac s2) as [[fr s3]|]; try done;
    destruct (scan_exp s3) as [[ex s4]|]; try done;
    destruct (fr ++ ex); try done; by simplify_eq.
Qed.

Lemma parseInt_string_of_Z z : parseInt (string_of_Z z) = Some z.
Proof.
  unfold parseInt, string_of_Z. rewrite list_ascii_of_string_of_list_ascii.
  rewrite <- (parse_int_print z [] eq_refl) at 1. by rewrite app_nil_r.
Qed.

Lemma string_of_Z_nonempty z : String.eqb (string_of_Z z) "" = false.
Proof.
  apply String.eqb_neq. intros E. pose proof (parseInt_string_of_Z z) as H.
  by rewrite E in H.
Qed.

(** The check accepts exactly the versions between the two bounds. *)
Lemma protocol_window r local lo cur :
  parseInt (proto_min local) = Some lo -> parseInt (proto_current local) = Some cur ->
  is_ok (assertProtocolCompatible (Some (string_of_Z r)) local) = true <-> (lo <= r <= cur)%Z.
Proof.
  intros Hlo Hcur. unfold assertProtocolCompatible.
  rewrite string_of_Z_nonempty, parseInt_string_of_Z, Hlo, Hcur. simpl.
  destruct (Z.ltb_spec r lo); simpl; [split; [done|lia]|].
  destruct (Z.ltb_spec cur r); simpl; (split; [done || lia|done || lia]).
Qed.

(** ** Identifiers (utils/id.ts, constants.ts) *)
Definition PREFIX_SESSION : string := "ses_".
Definition PREFIX_MESSAGE : string := "msg_".
Definition PREFIX_RUN : string := "run_".
Definition PREFIX_TOOL_CALL : string := "tc_".
Definition PREFIX_AGENT : string := "agt_".

Definition prefixedId (prefix nanoid : string) : string := prefix +:+ nanoid.

Fixpoint before_underscore (s : string) : option string :=
  match s with
  | EmptyString => None
  | String c s =>
      if Ascii.eqb c "_" then Some ""%string
      else match before_underscore s with Some p => Some (String c p) | None => None end
  end.

(** [parsePrefix]: up to and including the first underscore. *)
Definition parsePrefix (id : string) : option string :=
  match before_underscore id with Some p => Some (p +:+ "_") | None => None end.

(** ** Time to live (utils/time.ts) *)
Definition clampTtl (ttl min max : Z) : Z := Z.max min (Z.min max ttl).

(** ** The runner's wire envelope (types/runner-protocol.ts) *)
Definition RUNNER_PROTOCOL_VERSION : string := "1".
Definition RUNNER_MAX_INPUT_BYTES : nat := 256 * 1024.
Definition RUNNER_MAX_OUTPUT_BYTES : nat := 1024 * 1024.

Record RunnerRequestContext := {
  rc_sessionId : string; rc_agentId : string; rc_runId : string; rc_callId : string;
  rc_userId : option string; rc_metadata : jsval }.

Record RunnerRequest := {
  rr_idempotencyKey : string; rr_input : jsval; rr_context : RunnerRequestContext }.

Definition request_json (r : RunnerRequest) : json :=
  obj_literal [
    ("version", Some (JStr RUNNER_PROTOCOL_VERSION));
    ("idempotencyKey", Some (JStr (rr_idempotencyKey r)));
    ("input", rr_input r);
    ("context", Some (obj_literal [
       ("sessionId", Some (JStr (rc_sessionId (rr_context r))));
       ("agentId", Some (JStr (rc_agentId (rr_context r))));
       ("runId", Some (JStr (rc_runId (rr_context r))));
       ("callId", Some (JStr (rc_callId (rr_context r))));
       ("userId", JStr <$> rc_userId (rr_context r));
       ("metadata", rc_metadata (rr_context r))]))].

(** A member that may be absent, and is a string when it is there. *)
Definition opt_str_ok (k : string) (v : json) : bool :=
  match field k v with None | Some (JStr _) => true | _ => false end.

Definition opt_obj_ok (k : string) (v : json) : bool :=
  match field k v with None | Some (JObj _) => true | _ => false end.

Definition RunnerRequestContextSchema (v : json) : option RunnerRequestContext :=
  guard_opt (only_keys ["sessionId"; "agentId"; "runId"; "callId"; "userId"; "metadata"] v
             && opt_str_ok "userId" v && opt_obj_ok "metadata" v)
    (s ← str_field "sessionId" v; a ← str_field "agentId" v; r ← str_field "runId" v;
     c ← str_field "callId" v;
     guard_opt (starts_with PREFIX_SESSION s && starts_with PREFIX_AGENT a
                && starts_with PREFIX_RUN r && starts_with PREFIX_TOOL_CALL c)
       (Some {| rc_sessionId := s; rc_agentId := a; rc_runId := r; rc_callId := c;
                rc_userId := str_field "userId" v; rc_metadata := field "metadata" v |})).

Definition RunnerRequestSchema (v : json) : option RunnerRequest :=
  guard_opt (only_keys ["version"; "idempotencyKey"; "input"; "context"] v
             && bool_decide (str_field "version" v = Some RUNNER_PROTOCOL_VERSION))
    (k ← str_field "idempotencyKey" v; c ← field "context" v; c ← RunnerRequestContextSchema c;
     guard_opt (negb (String.eqb k ""))
       (Some {| rr_idempotencyKey := k; rr_input := field "input" v; rr_context := c |})).

(** The successful answer: [result] is [z.unknown()], which a missing member
    satisfies. *)
Definition RunnerSuccessResponseSchema (v : json) : option jsval :=
  guard_opt (only_keys ["version"; "result"] v
             && bool_decide (str_field "version" v = Some RUNNER_PROTOCOL_VERSION))
    (Some (field "result" v)).

(** The error answer: the error's message. *)
Definition RunnerErrorResponseSchema (v : json) : option (string * string) :=
  guard_opt (only_keys ["version"; "error"] v
             && bool_decide (str_field "version" v = Some RUNNER_PROTOCOL_VERSION))
    (e ← field "error" v; c ← str_field "code" e; m ← str_field "message" e; Some (c, m)).

Lemma request_schema_json r :
  starts_with PREFIX_SESSION (rc_sessionId (rr_context r)) = true ->
  starts_with PREFIX_AGENT (rc_agentId (rr_context r)) = true ->
  starts_with PREFIX_RUN (rc_runId (rr_context r)) = true ->
  starts_with PREFIX_TOOL_CALL (rc_callId (rr_context r)) = true ->
  rr_idempotencyKey r <> "" -> opt_obj_ok "metadata" (obj_literal [("metadata", rc_metadata (rr_context r))]) = true ->
  RunnerRequestSchema (request_json r) = Some r.
Proof.
  destruct r as [k i [s a r c u m]]; simpl. intros Hs Ha Hr Hc Hk Hm.
  unfold RunnerRequestSchema, request_json.
  destruct i, u, m as [[]|]; try discriminate Hm; cbn -[starts_with];
    unfold RunnerRequestContextSchema; cbn -[starts_with]; rewrite Hs, Ha, Hr, Hc; cbn;
    by rewrite (proj2 (String.eqb_neq k "") Hk).
Qed.
