(* ===== verification/Deadlines.v ===== *)
(** Abort signals and deadlines (packages/runtime/src/deadlines.ts).

    A signal is modelled over the whole run: the instant at which it aborts and
    the reason it then carries, or [None] if it never does.  A controller that
    is disposed does not fire afterwards. *)
From S2P Require Import Prelude Json Shared.

Inductive DeadlineScope : Type := model_scope | tool_scope | total_scope.

#[export] Instance DeadlineScope_eq_dec : EqDecision DeadlineScope.
Proof. solve_decision. Defined.

Definition scope_string (s : DeadlineScope) : string :=
  match s with model_scope => "model" | tool_scope => "tool" | total_scope => "total" end.

(** The [RunTimeoutError] of a scope. *)
Record RunTimeoutError := { rte_scope : DeadlineScope; rte_timeoutMs : Z }.

Definition rte_message (e : RunTimeoutError) : string :=
  "Run exceeded the " +:+ scope_string (rte_scope e) +:+ " deadline of "
  +:+ string_of_Z (rte_timeoutMs e) +:+ "ms".

(** It is a [SwiftAgentError] with code [TIMEOUT]. *)
Definition rte_error (e : RunTimeoutError) : error := swift_error TIMEOUT (rte_message e).

(** A signal's reason: a deadline, or whatever a caller aborted with. *)
Inductive AbortReason : Type :=
| by_deadline (e : RunTimeoutError)
| by_caller (e : error).

Definition reason_error (r : AbortReason) : error :=
  match r with by_deadline e => rte_error e | by_caller e => e end.

Abbreviation Signal := (option (Z * AbortReason)).

(** [signal.aborted] and [signal.reason] at an instant. *)
Definition reason_at (s : Signal) (now : Z) : option AbortReason :=
  match s with Some (t, r) => if (t <=? now)%Z then Some r else None | None => None end.

Definition aborted (s : Signal) (now : Z) : bool :=
  match reason_at s now with Some _ => true | None => false end.

(** [AbortSignal.any([a, b])]: the earlier of the two, the first on a tie. *)
Definition any (a b : Signal) : Signal :=
  match a, b with
  | Some (ta, ra), Some (tb, rb) => if (ta <=? tb)%Z then a else b
  | Some _, None => a
  | None, _ => b
  end.

(** A missing, zero or negative timeout arms nothing. *)
Definition unset (timeoutMs : option Z) : bool :=
  match timeoutMs with None => true | Some ms => (ms <=? 0)%Z end.

Definition armController (scope : DeadlineScope) (timeoutMs : option Z) (now : Z) : Signal :=
  match timeoutMs with
  | Some ms =>
      if unset timeoutMs then None
      else Some (now + ms, by_deadline {| rte_scope := scope; rte_timeoutMs := ms |})%Z
  | None => None
  end.

(** [dispose()] at an instant: a timer that has not fired is cleared. *)
Definition dispose (s : Signal) (now : Z) : Signal :=
  if aborted s now then s else None.

Definition createDeadlineController (totalRunMs : option Z) (now : Z) : Signal :=
  armController total_scope totalRunMs now.

Definition deriveCallDeadline (base : Signal) (scope : DeadlineScope) (timeoutMs : option Z)
    (now : Z) : Signal :=
  if unset timeoutMs then base else any base (armController scope timeoutMs now).

(** The derived signal once its own timer is disposed at [until]. *)
Definition disposedCallDeadline (base : Signal) (scope : DeadlineScope) (timeoutMs : option Z)
    (now until : Z) : Signal :=
  if unset timeoutMs then base else any base (dispose (armController scope timeoutMs now) until).

Definition timeoutReason (s : Signal) (now : Z) : option RunTimeoutError :=
  match reason_at s now with Some (by_deadline e) => Some e | _ => None end.

(** ** Lemmas *)

Lemma reason_at_mono s t t' r :
  (t <= t')%Z -> reason_at s t = Some r -> reason_at s t' = Some r.
Proof.
  destruct s as [[u q]|]; simpl; [|done]. intros Ht.
  destruct (Z.leb_spec u t); [|done]. by rewrite (proj2 (Z.leb_le u t')) by lia.
Qed.

Lemma aborted_mono s t t' : (t <= t')%Z -> aborted s t = true -> aborted s t' = true.
Proof.
  unfold aborted. intros Ht. destruct (reason_at s t) eqn:E; [|done].
  by rewrite (reason_at_mono _ _ _ _ Ht E).
Qed.

Lemma any_aborted a b now : aborted (any a b) now = aborted a now || aborted b now.
Proof.
  unfold aborted, reason_at.
  destruct a as [[ta ra]|], b as [[tb rb]|]; simpl; try by rewrite ?orb_false_r.
  destruct (Z.leb_spec ta tb), (Z.leb_spec ta now), (Z.leb_spec tb now); done || lia.
Qed.

Lemma any_reason a b now :
  reason_at (any a b) now = None <-> reason_at a now = None /\ reason_at b now = None.
Proof.
  pose proof (any_aborted a b now) as H. unfold aborted in H.
  destruct (reason_at (any a b) now), (reason_at a now), (reason_at b now); try done;
    split; try done; by intros [? ?].
Qed.

Lemma dispose_before s t now : (t <= now)%Z -> reason_at (dispose s now) t = reason_at s t.
Proof.
  unfold dispose, aborted. destruct s as [[u q]|]; simpl; [|done]. intros Ht.
  destruct (Z.leb_spec u now); simpl; [done|]. by rewrite (proj2 (Z.leb_gt u t)) by lia.
Qed.

(** Up to the instant of its disposal, the derived signal is what was derived. *)
Lemma disposed_before base scope ms now until t :
  (t <= until)%Z ->
  reason_at (disposedCallDeadline base scope ms now until) t
  = reason_at (deriveCallDeadline base scope ms now) t.
Proof.
  intros Ht. unfold disposedCallDeadline, deriveCallDeadline, dispose, aborted.
  destruct (unset ms) eqn:Hu; [done|].
  destruct (armController scope ms now) as [[u q]|]; simpl; [|done].
  destruct (Z.leb_spec u until) as [|Hl]; simpl; [done|].
  destruct base as [[tb rb]|]; simpl; [destruct (Z.leb_spec tb u)|]; simpl; try done.
  - rewrite (proj2 (Z.leb_gt u t)), (proj2 (Z.leb_gt tb t)) by lia. done.
  - by rewrite (proj2 (Z.leb_gt u t)) by lia.
Qed.

(** A per-call deadline fires at its timeout unless the base aborted first,
    and what it then carries is the first of the two reasons. *)
Lemma deriveCallDeadline_reason base scope ms now t :
  (0 < ms)%Z ->
  reason_at (deriveCallDeadline base scope (Some ms) now) t =
  match reason_at base (Z.min t (now + ms)) with
  | Some r => Some r
  | None => if (now + ms <=? t)%Z
            then Some (by_deadline {| rte_scope := scope; rte_timeoutMs := ms |}) else None
  end.
Proof.
  intros Hms. unfold deriveCallDeadline, armController, unset.
  rewrite (proj2 (Z.leb_gt ms 0)) by lia.
  destruct base as [[tb rb]|]; simpl; [|done].
  destruct (Z.leb_spec tb (now + ms)); simpl;
    destruct (Z.leb_spec tb (Z.min t (now + ms))), (Z.leb_spec tb t),
      (Z.leb_spec (now + ms) t); try done; lia.
Qed.

Lemma timeoutReason_aborted s now e : timeoutReason s now = Some e -> aborted s now = true.
Proof. unfold timeoutReason, aborted. by destruct (reason_at s now). Qed.
