(* ===== verification/Context.v ===== *)
(** Memory strategies and the context builder
    (packages/runtime/src/memory/*.ts, context-builder.ts).

    [Memory] is what a strategy promises the builder; the builder's lemmas are
    stated over any strategy. *)
From S2P Require Import Prelude Json Shared.

(** ** Memory strategies *)

Definition not_system (m : MessageRecord) : bool :=
  negb (bool_decide (msg_role m = system_role)).

Abbreviation non_system := (List.filter not_system).

(** A strategy trims a history; what it keeps of the conversation is the end
    of the conversation. *)
Class Memory (M : Type) := {
  trim_history : M -> list MessageRecord -> list MessageRecord;
  trim_suffix m l : exists d, non_system l = d ++ non_system (trim_history m l) }.

Record LastNMemoryStrategy := { maxMessages : nat }.
Record SummaryMemoryStrategy := {}.

(** [new LastNMemoryStrategy({ maxMessages })]. *)
Definition mkLastN (n : option nat) : LastNMemoryStrategy := {| maxMessages := n ?? 50%nat |}.

Definition last_n_trim (m : LastNMemoryStrategy) (messages : list MessageRecord) : list MessageRecord :=
  let nonSystem := non_system messages in
  if (length nonSystem <=? maxMessages m)%nat then nonSystem
  else slice_last (maxMessages m) nonSystem.

Definition summary_trim (m : SummaryMemoryStrategy) (messages : list MessageRecord) :
  list MessageRecord := messages.

Lemma filter_idem {A} (p : A -> bool) l : List.filter p (List.filter p l) = List.filter p l.
Proof. apply filter_all. intros x Hx. by apply List.filter_In in Hx as [_ ?]. Qed.

Lemma filter_slice {A} (p : A -> bool) n l :
  List.filter p (slice_last n (List.filter p l)) = slice_last n (List.filter p l).
Proof.
  apply filter_all. intros x Hx. destruct (slice_last_suffix n (List.filter p l)) as [d Hd].
  eapply List.filter_In. rewrite Hd. apply in_or_app. right. exact Hx.
Qed.

Lemma last_n_suffix m l : exists d, non_system l = d ++ non_system (last_n_trim m l).
Proof. unfold last_n_trim. destruct (_ <=? _)%nat.
  - exists []. by rewrite filter_idem.
  - destruct (slice_last_suffix (maxMessages m) (non_system l)) as [d Hd].
    exists d. by rewrite filter_slice, <- Hd.
Qed.

#[export] Instance last_n_memory : Memory LastNMemoryStrategy :=
  {| trim_history := last_n_trim; trim_suffix := last_n_suffix |}.

#[export] Instance summary_memory : Memory SummaryMemoryStrategy :=
  {| trim_history := summary_trim; trim_suffix m l := ex_intro _ [] eq_refl |}.

(** [createMemoryStrategy(name, { lastN })]: the strategy chosen by name. *)
Definition createMemoryStrategy (name : MemoryStrategyName) (lastN : option nat) :
    LastNMemoryStrategy + SummaryMemoryStrategy :=
  match name with
  | last_n => inl (mkLastN lastN)
  | summary => inr Build_SummaryMemoryStrategy
  end.

#[export] Instance sum_memory {M N} `{Memory M} `{Memory N} : Memory (M + N) :=
  {| trim_history := fun (m : M + N) l =>
       match m with inl a => trim_history a l | inr b => trim_history b l end;
     trim_suffix := fun (m : M + N) l =>
       match m with inl a => trim_suffix a l | inr b => trim_suffix b l end |}.

(** ** Messages for the model (packages/models/src/types.ts)

    The builder copies what it finds in a parsed message without checking its
    type, so the copied fields are JSON values. *)
Record ModelToolCall := { mtc_callId : json; mtc_toolName : json; mtc_arguments : jsval }.

Record ModelMessage := {
  mm_role : MessageRole; mm_content : jsval; mm_toolCalls : option (list ModelToolCall);
  mm_toolCallId : jsval; mm_toolName : jsval }.

Definition plain_message (role : MessageRole) (content : string) : ModelMessage :=
  {| mm_role := role; mm_content := Some (JStr content); mm_toolCalls := None;
     mm_toolCallId := None; mm_toolName := None |}.

(** [v ?? w] on values that may be [null] or [undefined]. *)
Definition nullish (v w : jsval) : jsval :=
  match v with None | Some JNull => w | _ => v end.

(** Whether two values are the same [Map] key: arrays and objects parsed from
    different texts never are. *)
Definition same_key (a b : json) : bool :=
  match a, b with
  | JNull, JNull => true
  | JBool x, JBool y => Bool.eqb x y
  | JNum x, JNum y => Z.eqb x y
  | JFloat x, JFloat y => String.eqb x y
  | JStr x, JStr y => String.eqb x y
  | _, _ => false
  end.

(** [legacyToolNameByCallId], the last assignment of a key first. *)
Abbreviation NameMap := (list (json * json)).

Fixpoint name_lookup (k : json) (m : NameMap) : jsval :=
  match m with
  | [] => None
  | (k', v) :: m => if same_key k k' then Some v else name_lookup k m
  end.

(** ** What the loop persists (loop.ts, context-builder.ts) *)

(** A tool call with the identifiers the loop gives it. *)
Record PersistedToolCall := {
  ptc_swiftCallId : string; ptc_providerCallId : string; ptc_toolName : string;
  ptc_arguments : jsval }.

Definition persisted_call_json (c : PersistedToolCall) : json :=
  obj_literal [
    ("swiftCallId", Some (JStr (ptc_swiftCallId c)));
    ("providerCallId", Some (JStr (ptc_providerCallId c)));
    ("toolName", Some (JStr (ptc_toolName c)));
    ("arguments", ptc_arguments c)]%string.

Definition assistant_json (text : string) (calls : list PersistedToolCall) : json :=
  obj_literal [
    ("text", Some (JStr text));
    ("toolCalls", Some (JArr (map persisted_call_json calls)))]%string.

(** The content of the assistant message that carries tool calls. *)
Definition assistant_content (text : string) (calls : list PersistedToolCall) : string :=
  stringify (assistant_json text calls).

(** [ToolMessageContent]; [result] is [undefined] when the tool returned
    [undefined], since [JSON.stringify] then gives [undefined]. *)
Record ToolMessageContent := {
  tmc_swiftCallId : string; tmc_providerCallId : string; tmc_toolName : string;
  tmc_result : option string }.

Definition tool_json (c : ToolMessageContent) : json :=
  obj_literal [
    ("swiftCallId", Some (JStr (tmc_swiftCallId c)));
    ("providerCallId", Some (JStr (tmc_providerCallId c)));
    ("toolName", Some (JStr (tmc_toolName c)));
    ("result", JStr <$> tmc_result c)]%string.

Definition tool_content (c : ToolMessageContent) : string := stringify (tool_json c).

(** ** The builder *)

(** One element of a persisted [toolCalls] array; reading a property of [null]
    throws, which is [None]. *)
Definition mapToolCall (names : NameMap) (tc : json) : option (ModelToolCall * NameMap) :=
  match tc with
  | JNull => None
  | _ =>
      let callId := nullish (nullish (field "providerCallId" tc) (field "callId" tc))
                            (Some (JStr "")) ?? JStr "" in
      let toolName := nullish (field "toolName" tc) (Some (JStr "")) ?? JStr "" in
      let names := if truthy callId && truthy toolName then (callId, toolName) :: names else names in
      Some ({| mtc_callId := callId; mtc_toolName := toolName;
               mtc_arguments := field "arguments" tc |}, names)
  end.

(** [data.toolCalls.map(...)]: the calls, or [None] when an element throws; the
    map keeps what the elements before it assigned. *)
Fixpoint mapToolCalls (names : NameMap) (tcs : list json) : option (list ModelToolCall) * NameMap :=
  match tcs with
  | [] => (Some [], names)
  | tc :: tcs =>
      match mapToolCall names tc with
      | None => (None, names)
      | Some (c, names) =>
          let '(cs, names) := mapToolCalls names tcs in (cons c <$> cs, names)
      end
  end.

Definition mapAssistantMessage (names : NameMap) (record : MessageRecord) : ModelMessage * NameMap :=
  let plain := plain_message assistant_role (msg_content record) in
  match parse (msg_content record) with
  | Some parsed =>
      match has_field "text" parsed, field "toolCalls" parsed with
      | true, Some (JArr tcs) =>
          match mapToolCalls names tcs with
          | (Some calls, names) =>
              ({| mm_role := assistant_role; mm_content := field "text" parsed;
                  mm_toolCalls := Some calls; mm_toolCallId := None; mm_toolName := None |}, names)
          | (None, names) => (plain, names)
          end
      | _, _ => (plain, names)
      end
  | None => (plain, names)
  end.

Definition findToolName (names : NameMap) (providerCallId : jsval) : jsval :=
  match providerCallId with Some k => name_lookup k names | None => None end.

Definition mapToolMessage (names : NameMap) (record : MessageRecord) : ModelMessage :=
  let plain := plain_message tool_role (msg_content record) in
  match parse (msg_content record) with
  | Some parsed =>
      if has_field "result" parsed
         && (has_field "providerCallId" parsed || has_field "toolCallId" parsed)
      then
        let providerCallId := nullish (field "providerCallId" parsed) (field "toolCallId" parsed) in
        {| mm_role := tool_role; mm_content := field "result" parsed; mm_toolCalls := None;
           mm_toolCallId := providerCallId;
           mm_toolName := nullish (field "toolName" parsed) (findToolName names providerCallId) |}
      else plain
  | None => plain
  end.

(** One record of the trimmed history. *)
Definition build_record (names : NameMap) (record : MessageRecord) : list ModelMessage * NameMap :=
  match msg_role record with
  | system_role => ([], names)
  | user_role => ([plain_message user_role (msg_content record)], names)
  | assistant_role => let '(m, names) := mapAssistantMessage names record in ([m], names)
  | tool_role => ([mapToolMessage names record], names)
  end.

Fixpoint build_records (names : NameMap) (l : list MessageRecord) : list ModelMessage :=
  match l with
  | [] => []
  | r :: l => let '(ms, names) := build_record names r in ms ++ build_records names l
  end.

(** [ContextBuilder.build]: the agent's prompt, then the trimmed history. *)
Definition build {M} `{Memory M} (systemPrompt : string) (memory : M)
    (history : list MessageRecord) : list ModelMessage :=
  (if String.eqb systemPrompt "" then [] else [plain_message system_role systemPrompt])
  ++ build_records [] (trim_history memory history).

(** ** Lemmas *)

Definition args_wf (a : jsval) : bool := match a with Some v => wf v | None => true end.

Lemma persisted_call_wf c : args_wf (ptc_arguments c) = true -> wf (persisted_call_json c) = true.
Proof. destruct c as [s p t [a|]]; cbn; intros H; by rewrite ?H. Qed.

Lemma assistant_json_wf text calls :
  forallb (fun c => args_wf (ptc_arguments c)) calls = true ->
  wf (assistant_json text calls) = true.
Proof.
  intros H. cbn. rewrite !andb_true_r. apply forallb_forall.
  intros v (c & <- & Hc)%in_map_iff. rewrite forallb_forall in H.
  by apply persisted_call_wf, H.
Qed.

Lemma tool_json_wf c : wf (tool_json c) = true.
Proof. by destruct c as [s p t [r|]]. Qed.

(** How the model sees a persisted call: by the provider's own identifier. *)
Definition model_call (c : PersistedToolCall) : ModelToolCall :=
  {| mtc_callId := JStr (ptc_providerCallId c); mtc_toolName := JStr (ptc_toolName c);
     mtc_arguments := ptc_arguments c |}.

Lemma mapToolCall_persisted names c :
  exists names', mapToolCall names (persisted_call_json c) = Some (model_call c, names').
Proof. destruct c as [s p t [a|]]; unfold mapToolCall, model_call; cbn; eauto. Qed.

Lemma mapToolCalls_persisted names calls :
  exists names', mapToolCalls names (map persisted_call_json calls)
                 = (Some (map model_call calls), names').
Proof.
  revert names. induction calls as [|c calls IH]; intros names; cbn [map mapToolCalls]; [eauto|].
  destruct (mapToolCall_persisted names c) as [n1 ->].
  destruct (IH n1) as [n2 ->]. eauto.
Qed.

Lemma mapAssistantMessage_persisted names r text calls :
  msg_content r = assistant_content text calls ->
  forallb (fun c => args_wf (ptc_arguments c)) calls = true ->
  (mapAssistantMessage names r).1 =
  {| mm_role := assistant_role; mm_content := Some (JStr text);
     mm_toolCalls := Some (map model_call calls); mm_toolCallId := None; mm_toolName := None |}.
Proof.
  intros Hr Hw. unfold mapAssistantMessage. rewrite Hr. unfold assistant_content.
  rewrite parse_stringify by (by apply assistant_json_wf). cbn.
  by destruct (mapToolCalls_persisted names calls) as [n ->].
Qed.

Lemma mapToolMessage_persisted names r c res :
  msg_content r = tool_content c -> tmc_result c = Some res ->
  mapToolMessage names r =
  {| mm_role := tool_role; mm_content := Some (JStr res); mm_toolCalls := None;
     mm_toolCallId := Some (JStr (tmc_providerCallId c));
     mm_toolName := Some (JStr (tmc_toolName c)) |}.
Proof.
  intros Hr Hres. unfold mapToolMessage. rewrite Hr. unfold tool_content.
  rewrite parse_stringify by apply tool_json_wf. unfold tool_json. by rewrite Hres.
Qed.

(** A tool that returned [undefined] leaves a message without [result], which
    the builder passes on as plain text, without the provider's identifier. *)
Lemma mapToolMessage_undefined names r c :
  msg_content r = tool_content c -> tmc_result c = None ->
  mapToolMessage names r = plain_message tool_role (tool_content c).
Proof.
  intros Hr Hres. unfold mapToolMessage. rewrite Hr. unfold tool_content.
  rewrite parse_stringify by apply tool_json_wf. unfold tool_json. by rewrite Hres.
Qed.

Lemma build_records_app names l1 l2 :
  exists names', build_records names (l1 ++ l2) = build_records names l1 ++ build_records names' l2.
Proof.
  revert names. induction l1 as [|r l1 IH]; intros names; simpl; [eauto|].
  destruct (build_record names r) as [ms n1]. destruct (IH n1) as [n2 ->].
  exists n2. by rewrite app_assoc.
Qed.

Lemma build_records_system names l : build_records names l = build_records names (non_system l).
Proof.
  revert names. induction l as [|r l IH]; intros names; [done|].
  cbn [build_records List.filter]. unfold not_system at 1.
  destruct (decide (msg_role r = system_role)) as [E|E].
  - rewrite bool_decide_true by done. unfold build_record. by rewrite E, IH.
  - rewrite bool_decide_false by done. cbn [negb build_records].
    destruct (build_record names r) as [ms n1]. by rewrite IH.
Qed.

(** The number of messages in the context: the prompt and the history kept. *)
Lemma build_records_length names l :
  length (build_records names l) = length (non_system l).
Proof.
  rewrite build_records_system. assert (H : Forall (fun r => msg_role r <> system_role) (non_system l)).
  { apply Forall_forall. intros r [_ Hr]%list_elem_of_In%List.filter_In.
    unfold not_system in Hr. by reflect_bools. }
  revert names. induction H as [|r k Hr _ IH]; intros names; [done|].
  cbn [build_records]. assert (H1 : length (build_record names r).1 = 1%nat).
  { unfold build_record. destruct (msg_role r); try done; by case_goal. }
  destruct (build_record names r) as [ms n1]. simpl in H1. rewrite length_app, H1, IH. done.
Qed.
