(* ===== verification/Tools.v ===== *)
(** Tools on the runtime's side: the mapping to the model's schemas, the index
    with its compiled validators, the validation of a call, and the executors'
    common types (packages/runtime/src/tool-mapping.ts, tool-validation.ts,
    tool-executor.ts).

    The JSON-schema compiler (ajv) is a parameter. *)
From S2P Require Import Prelude Json Shared.

(** ** Executor types (tool-executor.ts) *)

Inductive ToolCallResult : Type :=
| result_ok (output : jsval)
| result_err (message : string).

Record ToolCallContext := {
  tcc_sessionId : string; tcc_runId : string; tcc_userId : option string; tcc_metadata : jsval }.

Record ToolCall := { call_toolName : string; call_callId : string; call_arguments : jsval }.

(** ** Mapping (tool-mapping.ts) *)

Record ToolSchema := { ts_name : string; ts_description : string; ts_parameters : json }.

Definition toModelToolSchemas (tools : list ToolDefinition) : list ToolSchema :=
  map (fun t => {| ts_name := tool_name t; ts_description := tool_description t;
                   ts_parameters := inputSchema t |}) tools.

(** One of ajv's errors. *)
Record ErrorObject := { eo_instancePath : string; eo_message : option string }.

(** A compiled validator: [None] accepts, [Some errors] rejects. *)
Abbreviation ValidateFunction := (jsval -> option (list ErrorObject)).

Record ToolIndexEntry := { entry_def : ToolDefinition; entry_validate : ValidateFunction }.

Abbreviation ToolIndex := (gmap string ToolIndexEntry).

(** Always invalid, with the compilation's message. *)
Definition makeSchemaErrorValidator (toolName reason : string) : ValidateFunction :=
  fun _ => Some [{| eo_instancePath := "";
                    eo_message := Some ("tool " +:+ quoted toolName +:+
                                        " has an invalid input schema: " +:+ reason) |}].

Section index.
(** [ajv.compile(schema)]: a validator, or the message of what it threw. *)
Context (ajv_compile : json -> res string ValidateFunction).

Definition index_entry (def : ToolDefinition) : ToolIndexEntry :=
  {| entry_def := def;
     entry_validate :=
       match ajv_compile (inputSchema def) with
       | Ok validate => validate
       | Err reason => makeSchemaErrorValidator (tool_name def) reason
       end |}.

Definition buildToolIndex (tools : list ToolDefinition) : ToolIndex :=
  fold_left (fun index def => <[tool_name def := index_entry def]> index) tools ∅.

(** The entry of a name is that of the last definition with this name. *)
Lemma buildToolIndex_app tools def :
  buildToolIndex (tools ++ [def]) = <[tool_name def := index_entry def]> (buildToolIndex tools).
Proof. unfold buildToolIndex. by rewrite fold_left_app. Qed.

Lemma buildToolIndex_some tools name e :
  buildToolIndex tools !! name = Some e ->
  exists def, In def tools /\ tool_name def = name /\ e = index_entry def.
Proof.
  induction tools as [|def tools IH] using rev_ind; [done|].
  rewrite buildToolIndex_app, lookup_insert. case_decide as E.
  - intros [= <-]. exists def. split; [apply in_or_app; right; by left|]. done.
  - intros H. destruct (IH H) as (d & Hd & ?). exists d. split; [apply in_or_app; by left|]. done.
Qed.

Lemma buildToolIndex_dom tools name :
  is_Some (buildToolIndex tools !! name) <-> In name (map tool_name tools).
Proof.
  induction tools as [|def tools IH] using rev_ind; simpl.
  - unfold buildToolIndex. simpl. rewrite lookup_empty. split; [by intros []|done].
  - rewrite buildToolIndex_app, map_app, in_app_iff, <- IH, lookup_insert. simpl.
    case_decide as E; [|naive_solver]. split; [by right; left|by eauto].
Qed.
End index.

(** ** Validation (tool-validation.ts) *)

Inductive ValidationCode : Type := UNKNOWN_TOOL | INVALID_ARGUMENTS.

#[export] Instance ValidationCode_eq_dec : EqDecision ValidationCode.
Proof. solve_decision. Defined.

Definition validation_code_string (c : ValidationCode) : string :=
  match c with UNKNOWN_TOOL => "UNKNOWN_TOOL" | INVALID_ARGUMENTS => "INVALID_ARGUMENTS" end.

Inductive ToolValidationResult : Type :=
| valid
| invalid (code : ValidationCode) (message : string).

Definition formatAjvErrors (toolName : string) (errors : list ErrorObject) : string :=
  match errors with
  | [] => "Arguments for tool " +:+ quoted toolName +:+ " failed schema validation."
  | _ =>
      "Arguments for tool " +:+ quoted toolName +:+ " failed schema validation: " +:+
      join "; " (map (fun e =>
        let path := if String.eqb (eo_instancePath e) "" then "(root)" else eo_instancePath e in
        trim (path +:+ " " +:+ (eo_message e ?? "is invalid"))) errors)
  end%string.

Definition validateToolCall (index : ToolIndex) (toolName : string) (args : jsval) :
    ToolValidationResult :=
  match index !! toolName with
  | None =>
      invalid UNKNOWN_TOOL ("Tool " +:+ quoted toolName +:+ " is not registered for this agent.")
  | Some entry =>
      match entry_validate entry args with
      | Some errors => invalid INVALID_ARGUMENTS (formatAjvErrors toolName errors)
      | None => valid
      end
  end.

Definition is_valid (v : ToolValidationResult) : bool :=
  match v with valid => true | invalid _ _ => false end.

Section validation.
Context (ajv_compile : json -> res string ValidateFunction).

Lemma validateToolCall_valid tools name args :
  validateToolCall (buildToolIndex ajv_compile tools) name args = valid ->
  exists def validate, In def tools /\ tool_name def = name /\
    ajv_compile (inputSchema def) = Ok validate /\ validate args = None.
Proof.
  unfold validateToolCall. destruct (buildToolIndex _ tools !! name) as [e|] eqn:E; [|done].
  apply buildToolIndex_some in E as (def & Hin & Hname & ->). simpl.
  destruct (ajv_compile (inputSchema def)) as [v|] eqn:Ec; [|done].
  destruct (v args) eqn:Ev; [done|]. intros _. eauto 10.
Qed.
End validation.
