(* ===== verification/Effects.v ===== *)
(** Effectful code: a state, results that may be exceptions, and generators
    that their consumer may abandon.

    A computation runs to one of three outcomes: it returns, it throws, or it
    is torn down at a [yield] (the consumer called [return()] on the
    generator), after which only [finally] blocks run. *)
From S2P Require Import Prelude.

Inductive outcome (E A : Type) : Type :=
| Ret (a : A)
| Throw (e : E)
| Torn.
Arguments Ret {E A} a.
Arguments Throw {E A} e.
Arguments Torn {E A}.

Definition M (S E A : Type) : Type := S -> outcome E A * S.

Section monad.
Context {S E : Type}.

Definition ret {A} (a : A) : M S E A := fun s => (Ret a, s).

Definition bind {A B} (m : M S E A) (f : A -> M S E B) : M S E B := fun s =>
  match m s with
  | (Ret a, s) => f a s
  | (Throw e, s) => (Throw e, s)
  | (Torn, s) => (Torn, s)
  end.

Definition throw {A} (e : E) : M S E A := fun s => (Throw e, s).
Definition gets {A} (f : S -> A) : M S E A := fun s => (Ret (f s), s).
Definition modify (f : S -> S) : M S E unit := fun s => (Ret tt, f s).

(** [try { m } catch (e) { h e }]: a teardown is not caught. *)
Definition try_catch {A} (m : M S E A) (h : E -> M S E A) : M S E A := fun s =>
  match m s with (Throw e, s) => h e s | r => r end.

(** [try { m } finally { f }]: the outcome of [m], unless [f] throws or is
    torn down itself. *)
Definition try_finally {A} (m : M S E A) (f : M S E unit) : M S E A := fun s =>
  let '(o, s) := m s in
  match f s with
  | (Ret _, s) => (o, s)
  | (Throw e, s) => (Throw e, s)
  | (Torn, s) => (Torn, s)
  end.

(** [safe(fn)]: runs it and swallows what it throws. *)
Definition swallow {A} (m : M S E A) : M S E unit :=
  try_catch (bind m (fun _ => ret tt)) (fun _ => ret tt).

Fixpoint for_each {A} (l : list A) (body : A -> M S E unit) : M S E unit :=
  match l with
  | [] => ret tt
  | x :: l => bind (body x) (fun _ => for_each l body)
  end.

Definition whenM (b : bool) (m : M S E unit) : M S E unit := if b then m else ret tt.
End monad.

Declare Scope eff_scope.
Delimit Scope eff_scope with eff.
Notation "x <~ m ;; k" := (bind m (fun x => k))
  (at level 100, m at next level, right associativity) : eff_scope.
Notation "m ;;; k" := (bind m (fun _ => k))
  (at level 100, right associativity) : eff_scope.

(** ** Postconditions *)

(** [post m P Q]: from a state in [P], the outcome and the final state are in
    [Q]. *)
Definition post {S E A} (P : S -> Prop) (m : M S E A) (Q : outcome E A -> S -> Prop) : Prop :=
  forall s, P s -> Q (m s).1 (m s).2.

(** Whatever the outcome, the invariant still holds. *)
Definition keeps {S E A} (I : S -> Prop) (m : M S E A) : Prop :=
  post I m (fun _ => I).

(** A reflexive and transitive relation between the states before and after,
    whatever the outcome: how a computation may only move the state. *)
Definition moves {S E A} (R : S -> S -> Prop) (m : M S E A) : Prop :=
  forall s, R s (m s).2.

Section rules.
Context {S E : Type}.
Implicit Types P : S -> Prop.

Lemma post_weaken {A} (P P' : S -> Prop) (m : M S E A) (Q Q' : outcome E A -> S -> Prop) :
  (forall s, P s -> P' s) -> (forall o s, Q' o s -> Q o s) -> post P' m Q' -> post P m Q.
Proof. unfold post. eauto. Qed.

Lemma post_bind {A B} P (m : M S E A) (f : A -> M S E B) R Q :
  post P m R ->
  (forall a, post (R (Ret a)) (f a) Q) ->
  (forall e s, R (Throw e) s -> Q (Throw e) s) ->
  (forall s, R Torn s -> Q Torn s) ->
  post P (bind m f) Q.
Proof.
  intros Hm Hf He Ht s Hs. specialize (Hm s Hs). unfold bind.
  destruct (m s) as [[a|e|] s']; simpl in *; [by apply Hf|by apply He|by apply Ht].
Qed.

Lemma post_try_catch {A} P (m : M S E A) (h : E -> M S E A) R Q :
  post P m R ->
  (forall e, post (R (Throw e)) (h e) Q) ->
  (forall a s, R (Ret a) s -> Q (Ret a) s) ->
  (forall s, R Torn s -> Q Torn s) ->
  post P (try_catch m h) Q.
Proof.
  intros Hm Hh Hr Ht s Hs. specialize (Hm s Hs). unfold try_catch.
  destruct (m s) as [[a|e|] s']; simpl in *; [by apply Hr|by apply Hh|by apply Ht].
Qed.

Lemma post_try_finally {A} P (m : M S E A) (f : M S E unit) R Q :
  post P m R ->
  (forall o, post (R o) f (fun o' s =>
     match o' with Ret _ => Q o s | Throw e => Q (Throw e) s | Torn => Q Torn s end)) ->
  post P (try_finally m f) Q.
Proof.
  intros Hm Hf s Hs. specialize (Hm s Hs). unfold try_finally.
  destruct (m s) as [o s1]; simpl in *. specialize (Hf o s1 Hm).
  destruct (f s1) as [[[]|e|] s2]; simpl in *; done.
Qed.

(** *** One predicate per outcome *)

(** [I] when it returns, [J] when it throws, [K] when it is torn down. *)
Definition tri {A} (I J K : S -> Prop) (m : M S E A) : Prop :=
  post I m (fun o => match o with Ret _ => I | Throw _ => J | Torn => K end).

Lemma tri_ret {A} (I J K : S -> Prop) (a : A) : tri I J K (ret a).
Proof. by intros s Hs. Qed.
Lemma tri_throw {A} (I J K : S -> Prop) (e : E) :
  (forall s, I s -> J s) -> tri (A := A) I J K (throw e).
Proof. intros H s Hs. by apply H. Qed.
Lemma tri_gets {A} (I J K : S -> Prop) (f : S -> A) : tri I J K (gets f).
Proof. by intros s Hs. Qed.
Lemma tri_bind {A B} I J K (m : M S E A) (f : A -> M S E B) :
  tri I J K m -> (forall a, tri I J K (f a)) -> tri I J K (bind m f).
Proof. intros Hm Hf. eapply post_bind; [exact Hm|exact Hf|auto|auto]. Qed.
Lemma tri_whenM I J K b (m : M S E unit) : tri I J K m -> tri I J K (whenM b m).
Proof. intros Hm. destruct b; [done|apply tri_ret]. Qed.
Lemma tri_for_each {A} I J K (l : list A) (f : A -> M S E unit) :
  (forall x, tri I J K (f x)) -> tri I J K (for_each l f).
Proof. intros Hb. induction l; simpl; [apply tri_ret|by apply tri_bind]. Qed.
Lemma tri_keeps {A} I J K (m : M S E A) :
  keeps I m -> (forall s, I s -> J s) -> (forall s, I s -> K s) -> tri I J K m.
Proof. intros Hm HJ HK s Hs. specialize (Hm s Hs). destruct (m s) as [[]]; simpl in *; auto. Qed.
Lemma tri_catch_rethrow {A} I J K (m : M S E A) (h : E -> M S E A) :
  tri I J K m -> (forall e, post J (h e) (fun o => match o with
    Ret _ => I | Throw _ => J | Torn => K end)) -> tri I J K (try_catch m h).
Proof. intros Hm Hh. eapply post_try_catch; [exact Hm|exact Hh|auto|auto]. Qed.

(** *** Computations that always return *)

Definition returns {A} (m : M S E A) : Prop := forall s, exists a, (m s).1 = Ret a.
Definition never_torn {A} (m : M S E A) : Prop := forall s, (m s).1 <> Torn.

Lemma returns_ret {A} (a : A) : returns (ret a).
Proof. intros s. by exists a. Qed.
Lemma returns_gets {A} (f : S -> A) : returns (gets f).
Proof. intros s. by eexists. Qed.
Lemma returns_modify (f : S -> S) : returns (modify f).
Proof. intros s. by eexists. Qed.
Lemma returns_bind {A B} (m : M S E A) (f : A -> M S E B) :
  returns m -> (forall a, returns (f a)) -> returns (bind m f).
Proof.
  intros Hm Hf s. unfold bind. destruct (Hm s) as [a Ha].
  destruct (m s) as [o s']; simpl in *; subst. apply Hf.
Qed.
Lemma returns_whenM b (m : M S E unit) : returns m -> returns (whenM b m).
Proof. intros Hm. destruct b; [done|apply returns_ret]. Qed.
Lemma returns_for_each {A} (l : list A) (f : A -> M S E unit) :
  (forall x, returns (f x)) -> returns (for_each l f).
Proof. intros Hf. induction l; simpl; [apply returns_ret|by apply returns_bind]. Qed.
Lemma returns_swallow {A} (m : M S E A) : never_torn m -> returns (swallow m).
Proof.
  intros Hm s. specialize (Hm s). unfold swallow, try_catch, bind, ret.
  destruct (m s) as [[a|e|] s']; simpl in *; by eauto.
Qed.

Lemma post_returns {A} P (m : M S E A) (I : S -> Prop) Q :
  returns m -> post P m (fun _ => I) -> (forall a s, I s -> Q (Ret a) s) -> post P m Q.
Proof.
  intros Hr Hm HQ s Hs. specialize (Hm s Hs). destruct (Hr s) as [a Ha]. rewrite Ha. by apply HQ.
Qed.

(** *** Keeping an invariant *)

Lemma keeps_ret {A} I (a : A) : keeps (S := S) (E := E) I (ret a).
Proof. by intros s Hs. Qed.
Lemma keeps_throw {A} I (e : E) : keeps (S := S) (A := A) I (throw e).
Proof. by intros s Hs. Qed.
Lemma keeps_gets {A} I (f : S -> A) : keeps (E := E) I (gets f).
Proof. by intros s Hs. Qed.
Lemma keeps_modify I (f : S -> S) : (forall s, I s -> I (f s)) -> keeps (E := E) I (modify f).
Proof. intros H s Hs. by apply H. Qed.
Lemma keeps_bind {A B} I (m : M S E A) (f : A -> M S E B) :
  keeps I m -> (forall a, keeps I (f a)) -> keeps I (bind m f).
Proof. intros Hm Hf. apply (post_bind _ _ _ (fun _ => I)); auto. Qed.
Lemma keeps_try_catch {A} I (m : M S E A) h :
  keeps I m -> (forall e, keeps I (h e)) -> keeps I (try_catch m h).
Proof. intros Hm Hh. apply (post_try_catch _ _ _ (fun _ => I)); auto. Qed.
Lemma keeps_try_finally {A} I (m : M S E A) f :
  keeps I m -> keeps I f -> keeps I (try_finally m f).
Proof.
  intros Hm Hf. apply (post_try_finally _ _ _ (fun _ => I)); [done|].
  intros o s Hs. specialize (Hf s Hs). by destruct (f s) as [[]].
Qed.
Lemma keeps_swallow {A} I (m : M S E A) : keeps I m -> keeps I (swallow m).
Proof.
  intros Hm. apply keeps_try_catch; [apply keeps_bind; [done|]|]; intros; apply keeps_ret.
Qed.
Lemma keeps_for_each {A} I (l : list A) (body : A -> M S E unit) :
  (forall x, keeps I (body x)) -> keeps I (for_each l body).
Proof.
  intros Hb. induction l; simpl; [apply keeps_ret|]. by apply keeps_bind.
Qed.
Lemma keeps_whenM I b (m : M S E unit) : keeps I m -> keeps (E := E) I (whenM b m).
Proof. intros Hm. destruct b; [done|apply keeps_ret]. Qed.

(** *** Moving along a relation *)
Context (R : S -> S -> Prop) `{!Reflexive R} `{!Transitive R}.

Lemma moves_ret {A} (a : A) : moves (E := E) R (ret a).
Proof. by intros s. Qed.
Lemma moves_throw {A} (e : E) : moves (A := A) R (throw e).
Proof. by intros s. Qed.
Lemma moves_gets {A} (f : S -> A) : moves (E := E) R (gets f).
Proof. by intros s. Qed.
Lemma moves_modify (f : S -> S) : (forall s, R s (f s)) -> moves (E := E) R (modify f).
Proof. intros H s. by apply H. Qed.
Lemma moves_bind {A B} (m : M S E A) (f : A -> M S E B) :
  moves R m -> (forall a, moves R (f a)) -> moves R (bind m f).
Proof.
  intros Hm Hf s. specialize (Hm s). unfold bind.
  destruct (m s) as [[a|e|] s']; simpl in *; [|done..]. etrans; [done|apply Hf].
Qed.
Lemma moves_try_catch {A} (m : M S E A) h :
  moves R m -> (forall e, moves R (h e)) -> moves R (try_catch m h).
Proof.
  intros Hm Hh s. specialize (Hm s). unfold try_catch.
  destruct (m s) as [[a|e|] s']; simpl in *; [done| |done]. etrans; [done|apply Hh].
Qed.
Lemma moves_try_finally {A} (m : M S E A) f :
  moves R m -> moves R f -> moves R (try_finally m f).
Proof.
  intros Hm Hf s. specialize (Hm s). unfold try_finally.
  destruct (m s) as [o s1]; simpl in *. specialize (Hf s1).
  destruct (f s1) as [[[]|e|] s2]; simpl in *; by etrans.
Qed.
Lemma moves_swallow {A} (m : M S E A) : moves R m -> moves R (swallow m).
Proof.
  intros Hm. apply moves_try_catch; [apply moves_bind; [done|]|]; intros; apply moves_ret.
Qed.
Lemma moves_for_each {A} (l : list A) (body : A -> M S E unit) :
  (forall x, moves R (body x)) -> moves R (for_each l body).
Proof. intros Hb. induction l; simpl; [apply moves_ret|]. by apply moves_bind. Qed.
Lemma moves_whenM b (m : M S E unit) : moves R m -> moves (E := E) R (whenM b m).
Proof. intros Hm. destruct b; [done|apply moves_ret]. Qed.
End rules.

Create HintDb eff.
#[export] Hint Resolve keeps_ret keeps_throw keeps_gets keeps_bind keeps_try_catch
  keeps_try_finally keeps_swallow keeps_for_each keeps_whenM : eff.

(** Walks through a computation, keeping the invariant at every step. *)
Ltac keep_step :=
  lazymatch goal with
  | |- keeps _ (ret _) => apply keeps_ret
  | |- keeps _ (throw _) => apply keeps_throw
  | |- keeps _ (gets _) => apply keeps_gets
  | |- keeps _ (bind _ _) => apply keeps_bind; [|intros ?]
  | |- keeps _ (try_catch _ _) => apply keeps_try_catch; [|intros ?]
  | |- keeps _ (try_finally _ _) => apply keeps_try_finally
  | |- keeps _ (swallow _) => apply keeps_swallow
  | |- keeps _ (for_each _ _) => apply keeps_for_each; intros ?
  | |- keeps _ (whenM _ _) => apply keeps_whenM
  | |- keeps _ (match ?x with _ => _ end) => destruct x
  end.

Ltac return_step :=
  lazymatch goal with
  | |- returns (ret _) => apply returns_ret
  | |- returns (gets _) => apply returns_gets
  | |- returns (modify _) => apply returns_modify
  | |- returns (bind _ _) => apply returns_bind; [|intros ?]
  | |- returns (swallow _) => apply returns_swallow
  | |- returns (for_each _ _) => apply returns_for_each; intros ?
  | |- returns (whenM _ _) => apply returns_whenM
  | |- returns (match ?x with _ => _ end) => destruct x
  end.

(** Applies a rule of [moves], finding the relation's instances. *)
Ltac apply_move rule := apply rule; try typeclasses eauto.

Ltac move_step :=
  lazymatch goal with
  | |- moves _ (ret _) => apply_move @moves_ret
  | |- moves _ (throw _) => apply_move @moves_throw
  | |- moves _ (gets _) => apply_move @moves_gets
  | |- moves _ (bind _ _) => apply_move @moves_bind; [|intros ?]
  | |- moves _ (try_catch _ _) => apply_move @moves_try_catch; [|intros ?]
  | |- moves _ (try_finally _ _) => apply_move @moves_try_finally
  | |- moves _ (swallow _) => apply_move @moves_swallow
  | |- moves _ (for_each _ _) => apply_move @moves_for_each; intros ?
  | |- moves _ (whenM _ _) => apply_move @moves_whenM
  | |- moves _ (match ?x with _ => _ end) => destruct x eqn:?
  end.
