(* ===== verification/Observability.v ===== *)
(** Traces (packages/observability): a span's record and its bounds (bounds.ts),
    the span (span.ts), the tracer of a run (tracer.ts), and the metrics that
    are derived from a trace's spans (metrics.ts).

    Instants are milliseconds.  A record's metadata is an object, as the list of
    its members in insertion order. *)
From S2P Require Import Prelude Json Shared.

(** ** Records (types.ts) *)

Inductive SpanType : Type := run_span | model_call_span | tool_call_span.
Inductive SpanStatus : Type := span_ok | span_error.

#[export] Instance SpanType_eq_dec : EqDecision SpanType.
Proof. solve_decision. Defined.

Record SpanError := { se_message : string; se_code : option string }.

Record SpanRecord := {
  sr_spanId : string; sr_parentSpanId : option string; sr_traceId : string; sr_type : SpanType;
  sr_name : string; sr_startedAt : Z; sr_completedAt : option Z; sr_durationMs : option Z;
  sr_metadata : list (string * json); sr_status : SpanStatus; sr_error : option SpanError }.

Record TraceRecord := {
  tr_traceId : string; tr_runId : string; tr_rootSpanId : string;
  tr_startedAt : Z; tr_completedAt : option Z; tr_totalDurationMs : option Z }.

(** ** Bounds (bounds.ts) *)

Definition MAX_SPAN_ERROR_MESSAGE_CHARS : nat := 2 * 1024.
Definition MAX_SPAN_METADATA_BYTES : nat := 8 * 1024.

Definition METADATA_WHITELIST : list string :=
  ["promptTokens"; "completionTokens"; "modelName"; "toolName"; "callId"].

Definition TRUNCATED_VALUE : json := JStr "[truncated]".

(** The suffix starts with an ellipsis, here its three UTF-8 bytes. *)
Definition TRUNCATION_SUFFIX : string := "…[truncated]".

Definition whitelisted (k : string) : bool := existsb (String.eqb k) METADATA_WHITELIST.

Definition boundError (e : SpanError) : SpanError :=
  if (String.length (se_message e) <=? MAX_SPAN_ERROR_MESSAGE_CHARS)%nat then e
  else {| se_message := substring 0 MAX_SPAN_ERROR_MESSAGE_CHARS (se_message e) +:+ TRUNCATION_SUFFIX;
          se_code := se_code e |}.

(** The walk over the keys that are not in the list: the members it assigns,
    and whether it is truncating at the end. *)
Fixpoint bound_rest (runningBytes : nat) (truncating : bool) (ms : list (string * json)) :
    list (string * json) * bool :=
  match ms with
  | [] => ([], truncating)
  | (key, v) :: ms =>
      if whitelisted key then bound_rest runningBytes truncating ms
      else if truncating then
        let '(r, t) := bound_rest runningBytes truncating ms in ((key, TRUNCATED_VALUE) :: r, t)
      else
        let valueBytes := byteLength (stringify v) in
        if (MAX_SPAN_METADATA_BYTES <? runningBytes + valueBytes)%nat then
          let '(r, t) := bound_rest runningBytes true ms in ((key, TRUNCATED_VALUE) :: r, t)
        else
          let '(r, t) := bound_rest (runningBytes + valueBytes) false ms in ((key, v) :: r, t)
  end.

(** The listed keys that [o] has, in the list's order. *)
Fixpoint pick (keys : list string) (o : list (string * json)) : list (string * json) :=
  match keys with
  | [] => []
  | key :: keys => match obj_get key o with Some v => (key, v) :: pick keys o | None => pick keys o end
  end.

Definition boundMetadata (metadata : list (string * json)) : list (string * json) :=
  let '(rest, truncating) := bound_rest 0 false metadata in
  let result := pick METADATA_WHITELIST metadata ++ rest in
  if truncating then obj_set "__truncated" (JBool true) result else result.

Definition boundSpanRecord (r : SpanRecord) : SpanRecord :=
  {| sr_spanId := sr_spanId r; sr_parentSpanId := sr_parentSpanId r; sr_traceId := sr_traceId r;
     sr_type := sr_type r; sr_name := sr_name r; sr_startedAt := sr_startedAt r;
     sr_completedAt := sr_completedAt r; sr_durationMs := sr_durationMs r;
     sr_metadata := boundMetadata (sr_metadata r); sr_status := sr_status r;
     sr_error := boundError <$> sr_error r |}.

(** ** Spans (span.ts) *)

Record Span := {
  sp_spanId : string; sp_traceId : string; sp_parentSpanId : option string; sp_type : SpanType;
  sp_name : string; sp_startedAt : option Z; sp_completedAt : option Z; sp_durationMs : option Z;
  sp_metadata : list (string * json); sp_status : SpanStatus; sp_error : option SpanError }.

Definition new_Span (spanId traceId : string) (parentSpanId : option string) (type : SpanType)
    (name : string) : Span :=
  {| sp_spanId := spanId; sp_traceId := traceId; sp_parentSpanId := parentSpanId; sp_type := type;
     sp_name := name; sp_startedAt := None; sp_completedAt := None; sp_durationMs := None;
     sp_metadata := []; sp_status := span_ok; sp_error := None |}.

Definition span_start (now : Z) (s : Span) : Span :=
  {| sp_spanId := sp_spanId s; sp_traceId := sp_traceId s; sp_parentSpanId := sp_parentSpanId s;
     sp_type := sp_type s; sp_name := sp_name s; sp_startedAt := Some now;
     sp_completedAt := sp_completedAt s; sp_durationMs := sp_durationMs s;
     sp_metadata := sp_metadata s; sp_status := sp_status s; sp_error := sp_error s |}.

(** [end(status, error)]: [error] is the error's message and its [code]. *)
Definition span_end (now : Z) (status : SpanStatus) (error : option (string * option string))
    (s : Span) : Span :=
  {| sp_spanId := sp_spanId s; sp_traceId := sp_traceId s; sp_parentSpanId := sp_parentSpanId s;
     sp_type := sp_type s; sp_name := sp_name s; sp_startedAt := sp_startedAt s;
     sp_completedAt := Some now;
     sp_durationMs := match sp_startedAt s with Some t => Some (now - t)%Z | None => sp_durationMs s end;
     sp_metadata := sp_metadata s; sp_status := status;
     sp_error := match error with
                 | Some (m, c) => Some {| se_message := m; se_code := c |}
                 | None => sp_error s
                 end |}.

Definition addMetadata (partial : list (string * json)) (s : Span) : Span :=
  {| sp_spanId := sp_spanId s; sp_traceId := sp_traceId s; sp_parentSpanId := sp_parentSpanId s;
     sp_type := sp_type s; sp_name := sp_name s; sp_startedAt := sp_startedAt s;
     sp_completedAt := sp_completedAt s; sp_durationMs := sp_durationMs s;
     sp_metadata := fold_left (fun o m => obj_set m.1 m.2 o) partial (sp_metadata s);
     sp_status := sp_status s; sp_error := sp_error s |}.

Definition startChild (spanId : string) (now : Z) (type : SpanType) (name : string) (s : Span) : Span :=
  span_start now (new_Span spanId (sp_traceId s) (Some (sp_spanId s)) type name).

Definition toRecord (now : Z) (s : Span) : SpanRecord :=
  boundSpanRecord
    {| sr_spanId := sp_spanId s; sr_parentSpanId := sp_parentSpanId s; sr_traceId := sp_traceId s;
       sr_type := sp_type s; sr_name := sp_name s; sr_startedAt := sp_startedAt s ?? now;
       sr_completedAt := sp_completedAt s; sr_durationMs := sp_durationMs s;
       sr_metadata := sp_metadata s; sr_status := sp_status s; sr_error := sp_error s |}.

(** ** The trace of a run (tracer.ts) *)

(** The run's context: the root span and its children in the order they
    started.  A span is its holder's to end; [on_span] is its holder's call. *)
Record RunTrace := { rt_runId : string; rt_root : Span; rt_children : list Span }.

Definition startRunTrace (traceId rootSpanId runId : string) (now : Z) : RunTrace :=
  {| rt_runId := runId;
     rt_root := span_start now (new_Span rootSpanId traceId None run_span ("run:" +:+ runId));
     rt_children := [] |}.

Definition startModelCall (spanId modelName : string) (now : Z) (t : RunTrace) : RunTrace :=
  {| rt_runId := rt_runId t; rt_root := rt_root t;
     rt_children := rt_children t ++
       [addMetadata [("modelName", JStr modelName)]
          (startChild spanId now model_call_span ("model:" +:+ modelName) (rt_root t))] |}.

Definition startToolCall (spanId toolName callId : string) (now : Z) (t : RunTrace) : RunTrace :=
  {| rt_runId := rt_runId t; rt_root := rt_root t;
     rt_children := rt_children t ++
       [addMetadata [("toolName", JStr toolName); ("callId", JStr callId)]
          (startChild spanId now tool_call_span ("tool:" +:+ toolName) (rt_root t))] |}.

Definition on_span (i : nat) (f : Span -> Span) (t : RunTrace) : RunTrace :=
  {| rt_runId := rt_runId t; rt_root := rt_root t; rt_children := alter f i (rt_children t) |}.

(** What [finish] hands to the sink. *)
Definition trace_finish (now : Z) (status : SpanStatus) (error : option (string * option string))
    (t : RunTrace) : TraceRecord * list SpanRecord :=
  let root := span_end now status error (rt_root t) in
  let rootRecord := toRecord now root in
  ({| tr_traceId := sp_traceId root; tr_runId := rt_runId t; tr_rootSpanId := sp_spanId root;
      tr_startedAt := sr_startedAt rootRecord; tr_completedAt := sr_completedAt rootRecord;
      tr_totalDurationMs := sr_durationMs rootRecord |},
   map (toRecord now) (root :: rt_children t)).

(** ** Metrics (metrics.ts) *)

Record RunMetrics := {
  m_totalRunDurationMs : option Z; m_timeToFirstTokenMs : option Z;
  m_modelCallCount : nat; m_toolCallCount : nat;
  m_totalModelLatencyMs : Z; m_totalToolLatencyMs : Z; m_totalTokens : option Z }.

(** The addend [(metadata[k] as number) ?? 0]; [None] when it is not a number
    that the sum stays an integer with. *)
Definition token_count (k : string) (metadata : list (string * json)) : option Z :=
  match obj_get k metadata with
  | None | Some JNull => Some 0%Z
  | Some (JNum n) => Some n
  | Some (JBool b) => Some (if b then 1%Z else 0%Z)
  | Some _ => None
  end.

Definition add_tokens (sum : option Z) (r : SpanRecord) : option Z :=
  s ← sum; p ← token_count "promptTokens" (sr_metadata r);
  c ← token_count "completionTokens" (sr_metadata r); Some (s + p + c)%Z.

Definition latency (l : list SpanRecord) : Z :=
  fold_left (fun sum r => sum + (sr_durationMs r ?? 0))%Z l 0%Z.

Definition of_type (ty : SpanType) (r : SpanRecord) : bool := bool_decide (sr_type r = ty).

Definition deriveRunMetrics (spans : list SpanRecord) : RunMetrics :=
  let runSpan := List.find (of_type run_span) spans in
  let modelSpans := List.filter (of_type model_call_span) spans in
  let toolSpans := List.filter (of_type tool_call_span) spans in
  {| m_totalRunDurationMs := runSpan ≫= sr_durationMs;
     m_timeToFirstTokenMs :=
       r ← runSpan; m ← head modelSpans; c ← sr_completedAt m; Some (c - sr_startedAt r)%Z;
     m_modelCallCount := length modelSpans; m_toolCallCount := length toolSpans;
     m_totalModelLatencyMs := latency modelSpans; m_totalToolLatencyMs := latency toolSpans;
     m_totalTokens := fold_left add_tokens spans (Some 0%Z) |}.
