(* ===== verification/Drift.v ===== *)
(** Schema drift and migration status (packages/db/src/drift-check.ts,
    migration-status.ts): the committed snapshot and the live catalog are
    projected into one canonical model and compared.

    A JavaScript object that is used as a map is the list of its entries; its
    keys are not the names of [Object.prototype].  The catalog's rows are an
    argument. *)
From S2P Require Import Prelude Json Shared.

(** ** Objects as maps *)

Abbreviation rec X := (list (string * X)).

Fixpoint rget {X} (k : string) (o : rec X) : option X :=
  match o with [] => None | (k', x) :: o => if String.eqb k k' then Some x else rget k o end.

Fixpoint rset {X} (k : string) (x : X) (o : rec X) : rec X :=
  match o with
  | [] => [(k, x)]
  | (k', y) :: o => if String.eqb k k' then (k', x) :: o else (k', y) :: rset k x o
  end.

(** ** The canonical model *)

Record CanonicalColumn := { cc_name : string; cc_type : string; cc_notNull : bool; cc_default : option string }.
Record CanonicalIndex := { ci_name : string; ci_columns : list string; ci_isUnique : bool }.
Record CanonicalForeignKey := {
  cf_name : string; cf_columnsFrom : list string; cf_tableTo : string; cf_columnsTo : list string;
  cf_onDelete : string; cf_onUpdate : string }.
Record CanonicalTable := {
  ct_name : string; ct_columns : rec CanonicalColumn; ct_indexes : rec CanonicalIndex;
  ct_foreignKeys : rec CanonicalForeignKey; ct_primaryKeyColumns : list string }.
Record CanonicalSchema := { cs_tables : rec CanonicalTable; cs_enums : rec (list string) }.

Inductive DriftKind : Type := k_table | k_column | k_enum | k_index | k_foreignKey | k_primaryKey.
Inductive DriftDetail : Type := missing_in_db | unexpected_in_db | mismatch.

#[export] Instance DriftKind_eq_dec : EqDecision DriftKind.
Proof. solve_decision. Defined.

Record DriftDifference := {
  dd_kind : DriftKind; dd_object : string; dd_detail : DriftDetail;
  dd_expected : option string; dd_actual : option string }.

(** ** Normalizers *)

Definition word_char (c : ascii) : bool :=
  let n := nat_of_ascii c in
  ((48 <=? n) && (n <=? 57) || (65 <=? n) && (n <=? 90) || (97 <=? n) && (n <=? 122))%nat ||
  existsb (Ascii.eqb c) ["_"; "034"; "."]%char.

Definition only_spaces (t : text) : bool := forallb is_space t.

(** The rest of the text is a cast: two colons, a name, an optional pair of
    brackets. *)
Definition cast_suffix (t : text) : bool :=
  match expect ":" t with
  | Some t =>
      match expect ":" t with
      | Some t =>
          let t := drop_while is_space t in
          match take_while word_char t with
          | [] => false
          | _ =>
              let t := drop_while word_char t in
              only_spaces t ||
              match expect "[" (drop_while is_space t) with
              | Some t => match expect "]" (drop_while is_space t) with
                          | Some t => only_spaces t
                          | None => false
                          end
              | None => false
              end
          end
      | None => false
      end
  | None => false
  end.

(** The replacement of the leftmost such rest by the empty text. *)
Fixpoint strip_cast (t : text) : text :=
  match t with
  | [] => []
  | c :: t' => if cast_suffix t then [] else c :: strip_cast t'
  end.

(** A single layer of quotes. *)
Definition strip_quotes (t : text) : text :=
  match t with
  | q :: t' =>
      if Ascii.eqb q "'" then
        match reverse t' with
        | q' :: m => if Ascii.eqb q' "'" then reverse m else t
        | [] => t
        end
      else t
  | [] => []
  end.

Definition lower_char (c : ascii) : ascii :=
  let n := nat_of_ascii c in
  if ((65 <=? n) && (n <=? 90) || (192 <=? n) && (n <=? 222) && negb (n =? 215))%nat
  then ascii_of_nat (n + 32) else c.
(** A letter whose capital is not one of the code units is left. *)
Definition upper_char (c : ascii) : ascii :=
  let n := nat_of_ascii c in
  if ((97 <=? n) && (n <=? 122) || (224 <=? n) && (n <=? 254) && negb (n =? 247))%nat
  then ascii_of_nat (n - 32) else c.

Definition normalizeDefault (value : option string) : option string :=
  on_text (fun t => map lower_char (trim_text (strip_quotes (trim_text (strip_cast (trim_text t)))))) <$> value.

Definition normalizeAction (action : option string) : string :=
  on_text (fun t => map upper_char (trim_text t)) (action ?? "no action").

(** ** The snapshot (snapshot.ts), as it is parsed *)

Record SnapshotColumn := {
  sc_name : string; sc_type : string; sc_primaryKey : bool; sc_notNull : bool; sc_default : option string }.
Record SnapshotIndexColumn := { ic_expression : string; ic_isExpression : bool }.
Record SnapshotIndex := { si_name : string; si_columns : list SnapshotIndexColumn; si_isUnique : bool }.
Record SnapshotForeignKey := {
  sf_name : string; sf_tableFrom : string; sf_tableTo : string; sf_columnsFrom : list string;
  sf_columnsTo : list string; sf_onDelete : option string; sf_onUpdate : option string }.
Record SnapshotConstraint := { sk_name : string; sk_columns : list string }.
Record SnapshotTable := {
  st_name : string; st_columns : rec SnapshotColumn; st_indexes : rec SnapshotIndex;
  st_foreignKeys : rec SnapshotForeignKey; st_compositePrimaryKeys : rec SnapshotConstraint;
  st_uniqueConstraints : rec SnapshotConstraint }.
Record SnapshotEnum := { sn_name : string; sn_values : list string }.
Record Snapshot := { snap_tables : rec SnapshotTable; snap_enums : rec SnapshotEnum }.

Definition project_column (col : SnapshotColumn) : CanonicalColumn :=
  {| cc_name := sc_name col; cc_type := sc_type col; cc_notNull := sc_notNull col;
     cc_default := normalizeDefault (sc_default col) |}.

Definition project_index (idx : SnapshotIndex) : CanonicalIndex :=
  {| ci_name := si_name idx;
     ci_columns := map ic_expression (List.filter (fun c => negb (ic_isExpression c)) (si_columns idx));
     ci_isUnique := si_isUnique idx |}.

Definition project_fk (fk : SnapshotForeignKey) : CanonicalForeignKey :=
  {| cf_name := sf_name fk; cf_columnsFrom := sf_columnsFrom fk; cf_tableTo := sf_tableTo fk;
     cf_columnsTo := sf_columnsTo fk; cf_onDelete := normalizeAction (sf_onDelete fk);
     cf_onUpdate := normalizeAction (sf_onUpdate fk) |}.

(** [o[name(x)] = f(x)] for every value in turn. *)
Definition collect {X Y} (name : X -> string) (f : X -> Y) (xs : list X) : rec Y :=
  fold_left (fun o x => rset (name x) (f x) o) xs [].

Definition add_new (l : list string) (c : string) : list string :=
  if existsb (String.eqb c) l then l else l ++ [c].

Definition project_pk (table : SnapshotTable) : list string :=
  fold_left (fun l pk => fold_left add_new (sk_columns pk) l) (map snd (st_compositePrimaryKeys table))
    (map sc_name (List.filter sc_primaryKey (map snd (st_columns table)))).

Definition project_table (table : SnapshotTable) : CanonicalTable :=
  {| ct_name := st_name table;
     ct_columns := collect sc_name project_column (map snd (st_columns table));
     ct_indexes := collect si_name project_index (map snd (st_indexes table));
     ct_foreignKeys := collect sf_name project_fk (map snd (st_foreignKeys table));
     ct_primaryKeyColumns := sorted_names (project_pk table) |}.

Definition projectSnapshot (snapshot : Snapshot) : CanonicalSchema :=
  {| cs_tables := collect st_name project_table (map snd (snap_tables snapshot));
     cs_enums := collect sn_name sn_values (map snd (snap_enums snapshot)) |}.

(** ** The live schema *)

Record RawColumnRow := {
  rc_table : string; rc_column : string; rc_data_type : string; rc_udt : string; rc_is_nullable : string;
  rc_default : option string; rc_length : option Z }.
Record RawEnumRow := { re_name : string; re_value : string }.
Record RawIndexRow := { ri_index : string; ri_table : string; ri_unique : bool; ri_column : string; ri_ord : Z }.
Record RawForeignKeyRow := {
  rf_name : string; rf_from : string; rf_to : string; rf_col_from : string; rf_col_to : string;
  rf_on_delete : string; rf_on_update : string; rf_ord : Z }.
Record RawPrimaryKeyRow := { rp_table : string; rp_column : string; rp_ord : Z }.
Record RawIntrospection := {
  raw_tables : list string; raw_columns : list RawColumnRow; raw_enums : list RawEnumRow;
  raw_indexes : list RawIndexRow; raw_fks : list RawForeignKeyRow; raw_pks : list RawPrimaryKeyRow }.

Definition canonicalizeLiveType (row : RawColumnRow) : string :=
  let sized base := match rc_length row with
                    | Some n => base +:+ "(" +:+ string_of_Z n +:+ ")"
                    | None => base
                    end in
  if String.eqb (rc_data_type row) "USER-DEFINED" then rc_udt row
  else if String.eqb (rc_data_type row) "character varying" then sized "varchar"
  else if String.eqb (rc_data_type row) "character" then sized "char"
  else rc_data_type row.

Definition new_table (name : string) : CanonicalTable :=
  {| ct_name := name; ct_columns := []; ct_indexes := []; ct_foreignKeys := []; ct_primaryKeyColumns := [] |}.

(** [f] on the entry of [k], which is [d] when there is none. *)
Definition rupd {X} (k : string) (d : X) (f : X -> X) (o : rec X) : rec X := rset k (f (rget k o ?? d)) o.

Definition on_table (name : string) (f : CanonicalTable -> CanonicalTable) (ts : rec CanonicalTable) :
    rec CanonicalTable := rupd name (new_table name) f ts.

Definition add_column (row : RawColumnRow) (t : CanonicalTable) : CanonicalTable :=
  {| ct_name := ct_name t;
     ct_columns := rset (rc_column row)
       {| cc_name := rc_column row; cc_type := canonicalizeLiveType row;
          cc_notNull := String.eqb (rc_is_nullable row) "NO"; cc_default := normalizeDefault (rc_default row) |}
       (ct_columns t);
     ct_indexes := ct_indexes t; ct_foreignKeys := ct_foreignKeys t;
     ct_primaryKeyColumns := ct_primaryKeyColumns t |}.

Definition push_index (row : RawIndexRow) (i : CanonicalIndex) : CanonicalIndex :=
  {| ci_name := ci_name i; ci_columns := ci_columns i ++ [ri_column row]; ci_isUnique := ci_isUnique i |}.

Definition add_index (row : RawIndexRow) (t : CanonicalTable) : CanonicalTable :=
  {| ct_name := ct_name t; ct_columns := ct_columns t;
     ct_indexes := rupd (ri_index row)
       {| ci_name := ri_index row; ci_columns := []; ci_isUnique := ri_unique row |} (push_index row) (ct_indexes t);
     ct_foreignKeys := ct_foreignKeys t; ct_primaryKeyColumns := ct_primaryKeyColumns t |}.

Definition push_fk (row : RawForeignKeyRow) (k : CanonicalForeignKey) : CanonicalForeignKey :=
  {| cf_name := cf_name k; cf_columnsFrom := cf_columnsFrom k ++ [rf_col_from row]; cf_tableTo := cf_tableTo k;
     cf_columnsTo := cf_columnsTo k ++ [rf_col_to row]; cf_onDelete := cf_onDelete k; cf_onUpdate := cf_onUpdate k |}.

Definition add_fk (row : RawForeignKeyRow) (t : CanonicalTable) : CanonicalTable :=
  {| ct_name := ct_name t; ct_columns := ct_columns t; ct_indexes := ct_indexes t;
     ct_foreignKeys := rupd (rf_name row)
       {| cf_name := rf_name row; cf_columnsFrom := []; cf_tableTo := rf_to row; cf_columnsTo := [];
          cf_onDelete := normalizeAction (Some (rf_on_delete row));
          cf_onUpdate := normalizeAction (Some (rf_on_update row)) |} (push_fk row) (ct_foreignKeys t);
     ct_primaryKeyColumns := ct_primaryKeyColumns t |}.

Definition with_pk (pk : list string) (t : CanonicalTable) : CanonicalTable :=
  {| ct_name := ct_name t; ct_columns := ct_columns t; ct_indexes := ct_indexes t;
     ct_foreignKeys := ct_foreignKeys t; ct_primaryKeyColumns := pk |}.

Definition add_pk (row : RawPrimaryKeyRow) (t : CanonicalTable) : CanonicalTable :=
  with_pk (ct_primaryKeyColumns t ++ [rp_column row]) t.

(** [[...rows].sort((a, b) => a.ord - b.ord)], which is stable. *)
Definition ord_le {X} (ord : X -> Z) (a b : X) : Prop := (ord a <= ord b)%Z.
#[export] Instance ord_le_dec {X} (ord : X -> Z) : RelDecision (ord_le ord).
Proof. intros a b. unfold ord_le. apply _. Defined.
Definition by_ord {X} (ord : X -> Z) (l : list X) : list X := merge_sort (ord_le ord) l.

Definition assembleLiveSchema (raw : RawIntrospection) : CanonicalSchema :=
  let ts := fold_left (fun ts name => on_table name (fun t => t) ts) (raw_tables raw) [] in
  let ts := fold_left (fun ts r => on_table (rc_table r) (add_column r) ts) (raw_columns raw) ts in
  let ts := fold_left (fun ts r => on_table (ri_table r) (add_index r) ts) (by_ord ri_ord (raw_indexes raw)) ts in
  let ts := fold_left (fun ts r => on_table (rf_from r) (add_fk r) ts) (by_ord rf_ord (raw_fks raw)) ts in
  let ts := fold_left (fun ts r => on_table (rp_table r) (add_pk r) ts) (by_ord rp_ord (raw_pks raw)) ts in
  {| cs_tables := map (fun e => (e.1, with_pk (sorted_names (ct_primaryKeyColumns e.2)) e.2)) ts;
     cs_enums := fold_left (fun o r => rupd (re_name r) [] (fun vs => vs ++ [re_value r]) o) (raw_enums raw) [] |}.

(** ** The comparison *)

Definition describeColumn (c : CanonicalColumn) : string :=
  cc_type c +:+ (if cc_notNull c then " NOT NULL" else "").
Definition describeIndex (i : CanonicalIndex) : string :=
  (if ci_isUnique i then "UNIQUE " else "") +:+ "(" +:+ join ", " (ci_columns i) +:+ ")".
Definition describeForeignKey (k : CanonicalForeignKey) : string :=
  "(" +:+ join ", " (cf_columnsFrom k) +:+ ") -> " +:+ cf_tableTo k +:+ "(" +:+ join ", " (cf_columnsTo k) +:+
  ") ON DELETE " +:+ cf_onDelete k +:+ " ON UPDATE " +:+ cf_onUpdate k.

Definition arraysEqual (a b : list string) : bool := bool_decide (a = b).

Definition difference (kind : DriftKind) (object : string) (detail : DriftDetail) (expected actual : option string) :
    DriftDifference :=
  {| dd_kind := kind; dd_object := object; dd_detail := detail; dd_expected := expected; dd_actual := actual |}.

(** The loop over the expected entries, then the loop over the live keys: the
    code writes it out for every kind. *)
Definition diff_entries {X} (missing : string -> X -> DriftDifference)
    (compare : string -> X -> X -> list DriftDifference) (unexpected : string -> X -> DriftDifference)
    (expected actual : rec X) : list DriftDifference :=
  flat_map (fun e => match rget e.1 actual with
                     | None => [missing e.1 e.2]
                     | Some y => compare e.1 e.2 y
                     end) expected ++
  flat_map (fun e => match rget e.1 expected with None => [unexpected e.1 e.2] | Some _ => [] end) actual.

Definition unless (same : bool) (d : DriftDifference) : list DriftDifference := if same then [] else [d].

Definition diff_enums : rec (list string) -> rec (list string) -> list DriftDifference :=
  diff_entries
    (fun n vs => difference k_enum n missing_in_db (Some (join ", " vs)) None)
    (fun n vs vs' => unless (arraysEqual vs vs')
       (difference k_enum n mismatch (Some (join ", " vs)) (Some (join ", " vs'))))
    (fun n vs => difference k_enum n unexpected_in_db None (Some (join ", " vs))).

Definition same_column (a b : CanonicalColumn) : bool :=
  String.eqb (cc_type a) (cc_type b) && Bool.eqb (cc_notNull a) (cc_notNull b).

Definition diff_columns (table : string) : rec CanonicalColumn -> rec CanonicalColumn -> list DriftDifference :=
  let object n := table +:+ "." +:+ n in
  diff_entries
    (fun n c => difference k_column (object n) missing_in_db (Some (describeColumn c)) None)
    (fun n c c' => unless (same_column c c')
       (difference k_column (object n) mismatch (Some (describeColumn c)) (Some (describeColumn c'))))
    (fun n c => difference k_column (object n) unexpected_in_db None (Some (describeColumn c))).

Definition same_index (a b : CanonicalIndex) : bool :=
  Bool.eqb (ci_isUnique a) (ci_isUnique b) && arraysEqual (ci_columns a) (ci_columns b).

Definition diff_indexes : rec CanonicalIndex -> rec CanonicalIndex -> list DriftDifference :=
  diff_entries
    (fun n i => difference k_index n missing_in_db (Some (describeIndex i)) None)
    (fun n i i' => unless (same_index i i')
       (difference k_index n mismatch (Some (describeIndex i)) (Some (describeIndex i'))))
    (fun n i => difference k_index n unexpected_in_db None (Some (describeIndex i))).

Definition same_fk (a b : CanonicalForeignKey) : bool :=
  arraysEqual (cf_columnsFrom a) (cf_columnsFrom b) && arraysEqual (cf_columnsTo a) (cf_columnsTo b) &&
  String.eqb (cf_tableTo a) (cf_tableTo b) && String.eqb (cf_onDelete a) (cf_onDelete b) &&
  String.eqb (cf_onUpdate a) (cf_onUpdate b).

Definition diff_foreignKeys : rec CanonicalForeignKey -> rec CanonicalForeignKey -> list DriftDifference :=
  diff_entries
    (fun n k => difference k_foreignKey n missing_in_db (Some (describeForeignKey k)) None)
    (fun n k k' => unless (same_fk k k')
       (difference k_foreignKey n mismatch (Some (describeForeignKey k)) (Some (describeForeignKey k'))))
    (fun n k => difference k_foreignKey n unexpected_in_db None (Some (describeForeignKey k))).

Definition paren (l : list string) : string := "(" +:+ join ", " l +:+ ")".

Definition diffTable (expected actual : CanonicalTable) : list DriftDifference :=
  diff_columns (ct_name expected) (ct_columns expected) (ct_columns actual) ++
  diff_indexes (ct_indexes expected) (ct_indexes actual) ++
  diff_foreignKeys (ct_foreignKeys expected) (ct_foreignKeys actual) ++
  unless (arraysEqual (ct_primaryKeyColumns expected) (ct_primaryKeyColumns actual))
    (difference k_primaryKey (ct_name expected) mismatch
       (Some (paren (ct_primaryKeyColumns expected))) (Some (paren (ct_primaryKeyColumns actual)))).

Definition diffSchemas (expected actual : CanonicalSchema) : list DriftDifference :=
  diff_enums (cs_enums expected) (cs_enums actual) ++
  diff_entries
    (fun n _ => difference k_table n missing_in_db None None)
    (fun _ t t' => diffTable t t')
    (fun n _ => difference k_table n unexpected_in_db None None)
    (cs_tables expected) (cs_tables actual).

(** *** Notes on defaults *)

Definition formatDefault (value : option string) : string :=
  match value with Some v => "`" +:+ v +:+ "`" | None => "(none)" end.

Definition collectDefaultNotes (expected actual : CanonicalSchema) : list string :=
  flat_map (fun e =>
    match rget e.1 (cs_tables actual) with
    | None => []
    | Some actualTable =>
        flat_map (fun c =>
          match rget c.1 (ct_columns actualTable) with
          | None => []
          | Some a =>
              if bool_decide (cc_default c.2 = cc_default a) then []
              else ["default differs on " +:+ e.1 +:+ "." +:+ c.1 +:+ ": expected " +:+ formatDefault (cc_default c.2)
                    +:+ ", live " +:+ formatDefault (cc_default a) +:+ " (informational — not treated as drift)"]
          end) (ct_columns e.2)
    end) (cs_tables expected).

Record DriftResult := {
  dr_hasDrift : bool; dr_expectedSnapshotTag : string; dr_differences : list DriftDifference;
  dr_notes : list string }.

(** [String(idx).padStart(4, '0')]. *)
Definition padStart4 (s : string) : string := on_text (fun t => repeat "0"%char (4 - length t) ++ t) s.

(** [checkDrift]: [introspect] runs the queries for the snapshot's tables. *)
Definition checkDrift (introspect : list string -> RawIntrospection) (snapshot : Snapshot) (expectedIdx : Z) :
    DriftResult :=
  let expected := projectSnapshot snapshot in
  let actual := assembleLiveSchema (introspect (map (fun e => st_name e.2) (snap_tables snapshot))) in
  let differences := diffSchemas expected actual in
  {| dr_hasDrift := (0 <? length differences)%nat;
     dr_expectedSnapshotTag := padStart4 (string_of_Z expectedIdx) +:+ "_snapshot";
     dr_differences := differences; dr_notes := collectDefaultNotes expected actual |}.

(** ** Migrations (migration-status.ts, planPreflight) *)

Record AppliedRow := { ar_id : Z; ar_hash : string; ar_created_at : Z }.
Record JournalEntry := { je_idx : Z; je_tag : string }.
Inductive MigrationState : Type := APPLIED | PENDING | UNKNOWN.
Record MigrationStatus := {
  ms_idx : Z; ms_tag : string; ms_status : MigrationState; ms_appliedAt : option Z; ms_hash : option string }.

Definition entry_status (entry : JournalEntry) (row : option AppliedRow) : MigrationStatus :=
  match row with
  | Some r => {| ms_idx := je_idx entry; ms_tag := je_tag entry; ms_status := APPLIED;
                 ms_appliedAt := Some (ar_created_at r); ms_hash := Some (ar_hash r) |}
  | None => {| ms_idx := je_idx entry; ms_tag := je_tag entry; ms_status := PENDING;
               ms_appliedAt := None; ms_hash := None |}
  end.

Definition unknown_status (i : nat) (r : AppliedRow) : MigrationStatus :=
  {| ms_idx := Z.of_nat i; ms_tag := "(unknown — applied, not in journal)"; ms_status := UNKNOWN;
     ms_appliedAt := Some (ar_created_at r); ms_hash := Some (ar_hash r) |}.

Definition computeMigrationStatus (entries : list JournalEntry) (appliedRows : list AppliedRow) :
    list MigrationStatus :=
  let entries := by_ord je_idx entries in
  imap (fun i e => entry_status e (appliedRows !! i)) entries ++
  imap (fun k r => unknown_status (length entries + k) r) (drop (length entries) appliedRows).

Definition resolveLastAppliedIdx (appliedRows : list AppliedRow) : Z := Z.of_nat (length appliedRows) - 1.

Inductive PreflightPlan : Type := skip_warned | skip_virgin | check (expectedIdx : Z).

Definition planPreflight (skip_env : option string) (appliedRows : list AppliedRow) : PreflightPlan :=
  if bool_decide (skip_env = Some "1") then skip_warned
  else match appliedRows with
       | [] => skip_virgin
       | _ => check (Z.of_nat (length appliedRows) - 1)
       end.
