(* ===== verification/DriftProps.v ===== *)
(** When the drift check is silent (see [Drift]). *)
From S2P Require Import Prelude Json Shared Drift.

(** ** Objects as maps *)

Lemma rget_in {X} k (x : X) o : rget k o = Some x -> (k, x) ∈ o.
Proof.
  induction o as [|[k' y] o IH]; simpl; [done|]. destruct (String.eqb_spec k k') as [->|]; [intros [= ->]; by left|].
  intros H. right. by apply IH.
Qed.

Lemma rget_nodup {X} k (x : X) o : NoDup o.*1 -> (k, x) ∈ o -> rget k o = Some x.
Proof.
  induction o as [|[k' y] o IH]; simpl; intros Hd Hin; [by apply elem_of_nil in Hin|].
  apply NoDup_cons in Hd as [Hk Hd]. apply elem_of_cons in Hin as [[= -> ->]|Hin]; [by rewrite String.eqb_refl|].
  destruct (String.eqb_spec k k') as [->|]; [|by apply IH].
  exfalso. apply Hk. apply list_elem_of_fmap. by exists (k', x).
Qed.

Lemma rget_rset {X} k k' (x : X) o : rget k (rset k' x o) = if decide (k = k') then Some x else rget k o.
Proof.
  induction o as [|[k0 y] o IH]; simpl; [by destruct (String.eqb_spec k k'), (decide (k = k'))|].
  destruct (String.eqb_spec k' k0) as [->|Hne]; simpl.
  - destruct (String.eqb_spec k k0); by case_decide.
  - rewrite IH. destruct (String.eqb_spec k k0) as [->|]; [by case_decide; congruence|done].
Qed.

Lemma rget_rupd {X} k k' d (f : X -> X) o :
  rget k (rupd k' d f o) = if decide (k = k') then Some (f (rget k o ?? d)) else rget k o.
Proof. unfold rupd. rewrite rget_rset. by case_decide; subst. Qed.

Lemma rset_keys {X} k (x : X) o : NoDup o.*1 -> NoDup (rset k x o).*1.
Proof.
  induction o as [|[k' y] o IH]; simpl; intros H; [by apply NoDup_singleton|].
  apply NoDup_cons in H as [Hk H]. destruct (String.eqb_spec k k') as [->|Hne]; simpl; constructor; auto.
  intros Hin. apply Hk. apply list_elem_of_fmap in Hin as ([k0 z] & -> & Hin). simpl in *.
  apply list_elem_of_fmap. clear -Hin Hne. induction o as [|[k1 w] o IH]; simpl in *.
  - apply list_elem_of_singleton in Hin. simplify_eq.
  - destruct (String.eqb_spec k k1) as [->|]; apply elem_of_cons in Hin as [Hin|Hin]; simplify_eq.
    + exists (k0, z). split; [done|]. by right.
    + exists (k1, w). split; [done|by left].
    + destruct (IH Hin) as (e & He & Hi). exists e. split; [done|by right].
Qed.

(** ** The comparison of two maps *)

(** The entries agree under every key. *)
Definition same_entries {X} (same : X -> X -> Prop) (a b : rec X) : Prop :=
  forall k, match rget k a, rget k b with
            | Some x, Some y => same x y
            | None, None => True
            | _, _ => False
            end.

Lemma flat_map_nil {X Y} (f : X -> list Y) l : flat_map f l = [] <-> Forall (fun x => f x = []) l.
Proof.
  induction l as [|x l IH]; simpl; [by split|]. rewrite Forall_cons, <- IH. split.
  - by intros [-> ->]%app_eq_nil.
  - by intros [-> ->].
Qed.

Lemma diff_entries_nil {X} missing compare unexpected (same : X -> X -> Prop) (a b : rec X) :
  NoDup a.*1 -> (forall k x y, (k, x) ∈ a -> compare k x y = [] <-> same x y) ->
  diff_entries missing compare unexpected a b = [] <-> same_entries same a b.
Proof.
  intros Hd Hc. unfold diff_entries, same_entries. split.
  - intros [H1 H2]%app_eq_nil k. rewrite flat_map_nil, Forall_forall in H1, H2.
    destruct (rget k a) as [x|] eqn:Ea.
    + specialize (H1 _ (rget_in _ _ _ Ea)). simpl in H1. destruct (rget k b); [by apply Hc in H1; [|by apply rget_in]|done].
    + destruct (rget k b) as [y|] eqn:Eb; [|done]. specialize (H2 _ (rget_in _ _ _ Eb)). simpl in H2.
      by rewrite Ea in H2.
  - intros H. rewrite (proj2 (flat_map_nil _ a)), (proj2 (flat_map_nil _ b)); [done| |];
      apply Forall_forall; intros [k x] Hin; specialize (H k); simpl.
    + destruct (rget k a) eqn:E; [done|]. destruct (rget k b) eqn:Eb; [done|].
      exfalso. clear -Hin Eb. induction b as [|[k' y] b IH]; [by apply elem_of_nil in Hin|]. simpl in Eb.
      destruct (String.eqb_spec k k') as [|]; [done|]. apply elem_of_cons in Hin as [Hin|Hin]; [by simplify_eq|auto].
    + rewrite (rget_nodup _ _ _ Hd Hin) in H. destruct (rget k b); [by apply Hc|done].
Qed.

Lemma unless_nil b d : unless b d = [] <-> b = true.
Proof. by destruct b. Qed.

(** ** Schemas that agree *)

Definition same_table (a b : CanonicalTable) : Prop :=
  same_entries same_column (ct_columns a) (ct_columns b) /\
  same_entries same_index (ct_indexes a) (ct_indexes b) /\
  same_entries same_fk (ct_foreignKeys a) (ct_foreignKeys b) /\
  ct_primaryKeyColumns a = ct_primaryKeyColumns b.

(** Both have the same enums and tables: the columns with their types and
    nullability, the indexes, the foreign keys, the primary keys. *)
Definition same_schema (a b : CanonicalSchema) : Prop :=
  same_entries eq (cs_enums a) (cs_enums b) /\ same_entries same_table (cs_tables a) (cs_tables b).

(** Every map has each key once, as an object has. *)
Record table_ok (t : CanonicalTable) : Prop := {
  to_columns : NoDup (ct_columns t).*1; to_indexes : NoDup (ct_indexes t).*1;
  to_fks : NoDup (ct_foreignKeys t).*1 }.
Record schema_ok (s : CanonicalSchema) : Prop := {
  so_enums : NoDup (cs_enums s).*1; so_tables : NoDup (cs_tables s).*1;
  so_all : Forall (fun e => table_ok e.2) (cs_tables s) }.

Lemma unless_true b d : unless b d = [] <-> Is_true b.
Proof. by destruct b. Qed.

Lemma diffTable_nil a b : table_ok a -> diffTable a b = [] <-> same_table a b.
Proof.
  intros [H1 H2 H3]. unfold diffTable, same_table, diff_columns, diff_indexes, diff_foreignKeys.
  rewrite !app_nil, unless_nil.
  rewrite (diff_entries_nil _ _ _ same_column) by (done || by intros; rewrite unless_true).
  rewrite (diff_entries_nil _ _ _ same_index) by (done || by intros; rewrite unless_true).
  rewrite (diff_entries_nil _ _ _ same_fk) by (done || by intros; rewrite unless_true).
  unfold arraysEqual. by rewrite bool_decide_eq_true.
Qed.

Lemma diffSchemas_nil expected actual :
  schema_ok expected -> diffSchemas expected actual = [] <-> same_schema expected actual.
Proof.
  intros [He Ht Ha]. unfold diffSchemas, same_schema, diff_enums. rewrite app_nil.
  rewrite (diff_entries_nil _ _ _ eq), (diff_entries_nil _ _ _ same_table); try done.
  - intros k x y Hin. apply diffTable_nil. rewrite Forall_forall in Ha. by apply (Ha _ Hin).
  - intros k x y _. rewrite unless_nil. unfold arraysEqual. by rewrite bool_decide_eq_true.
Qed.

(** The drift check reports nothing exactly when the live schema agrees
    with the expected one. *)
Theorem no_drift_iff_schemas_agree expected actual :
  schema_ok expected -> diffSchemas expected actual = [] <-> same_schema expected actual.
Proof. apply diffSchemas_nil. Qed.

(** ** The projection of a snapshot *)

Lemma collect_keys {X Y} (name : X -> string) (f : X -> Y) xs : NoDup (collect name f xs).*1.
Proof.
  unfold collect. assert (H : NoDup (@nil (string * Y)).*1) by constructor. revert H. generalize (@nil (string * Y)).
  induction xs as [|x xs IH]; intros o H; simpl; [done|]. by apply IH, rset_keys.
Qed.

Lemma rset_values {X} (Q : X -> Prop) k x (o : rec X) :
  Q x -> Forall (fun e => Q e.2) o -> Forall (fun e => Q e.2) (rset k x o).
Proof.
  intros Hx. induction 1 as [|[k' y] o Hy Ho IH]; simpl; [by repeat constructor|].
  by destruct (String.eqb k k'); constructor.
Qed.

Lemma collect_values {X Y} (name : X -> string) (f : X -> Y) (Q : Y -> Prop) xs :
  (forall x, Q (f x)) -> Forall (fun e => Q e.2) (collect name f xs).
Proof.
  intros HQ. unfold collect. assert (H : Forall (fun e => Q e.2) (@nil (string * Y))) by constructor.
  revert H. generalize (@nil (string * Y)). induction xs as [|x xs IH]; intros o H; simpl; [done|].
  by apply IH, rset_values.
Qed.

Lemma project_ok s : schema_ok (projectSnapshot s).
Proof.
  split; simpl; [apply collect_keys|apply collect_keys|].
  apply (collect_values _ _ table_ok). intros t. split; apply collect_keys.
Qed.

Lemma collect_get {X Y} (name : X -> string) (f : X -> Y) xs k :
  NoDup (map name xs) ->
  rget k (collect name f xs) = f <$> List.find (fun x => String.eqb (name x) k) xs.
Proof.
  unfold collect. intros Hd.
  assert (H : forall o, rget k (fold_left (fun o x => rset (name x) (f x) o) xs o) =
    match List.find (fun x => String.eqb (name x) k) xs with Some x => Some (f x) | None => rget k o end).
  { induction xs as [|x xs IH]; intros o; simpl; [done|]. simpl in Hd. apply NoDup_cons in Hd as [Hx Hd].
    rewrite (IH Hd). destruct (String.eqb_spec (name x) k) as [<-|Hne].
    - destruct (List.find _ xs) as [y|] eqn:E; [|by rewrite rget_rset, decide_True].
      apply find_some in E as [Hy E]. apply String.eqb_eq in E. exfalso. apply Hx. rewrite <- E.
      apply list_elem_of_In, in_map_iff. by exists y.
    - destruct (List.find _ xs); [done|]. by rewrite rget_rset, decide_False by congruence. }
  rewrite H. by destruct (List.find _ xs).
Qed.

(** ** What the catalog says of a database that holds the snapshot *)

Section faithful.
(** The type of a column in [information_schema]: [data_type], [udt_name] and
    the length. *)
Context (pg_type : string -> string * string * option Z).

Definition type_row (table : string) (c : SnapshotColumn) : RawColumnRow :=
  let '(data_type, udt, len) := pg_type (sc_type c) in
  {| rc_table := table; rc_column := sc_name c; rc_data_type := data_type; rc_udt := udt;
     rc_is_nullable := if sc_notNull c then "NO" else "YES"; rc_default := sc_default c; rc_length := len |}.

(** The types whose name is the [data_type] that PostgreSQL reports. *)
Definition plain_types : list string :=
  ["text"; "jsonb"; "json"; "integer"; "bigint"; "smallint"; "boolean"; "date"; "uuid"; "real"; "double precision";
   "timestamp with time zone"].

Definition sized_varchar (n : Z) : string := "varchar(" +:+ string_of_Z n +:+ ")".

(** What PostgreSQL reports of a plain type, of an enum of the snapshot and of a
    [varchar] with a length. *)
Record reports (s : Snapshot) : Prop := {
  rp_plain : forall ty, ty ∈ plain_types -> exists udt, pg_type ty = (ty, udt, None);
  rp_enum : forall ty, ty ∈ map sn_name (map snd (snap_enums s)) -> ty ∉ plain_types ->
    pg_type ty = ("USER-DEFINED", ty, None);
  rp_varchar : forall n, pg_type (sized_varchar n) = ("character varying", "varchar", Some n) }.

Definition understood (s : Snapshot) (ty : string) : Prop :=
  ty ∈ plain_types \/ ty ∈ map sn_name (map snd (snap_enums s)) \/ exists n, ty = sized_varchar n.

Lemma understood_read s table c :
  reports s -> understood s (sc_type c) -> canonicalizeLiveType (type_row table c) = sc_type c.
Proof.
  intros [Hp He Hv] Hc. unfold type_row, canonicalizeLiveType.
  destruct (decide (sc_type c ∈ plain_types)) as [H|H].
  - destruct (Hp _ H) as [udt ->]. simpl. unfold plain_types in H.
    repeat (apply elem_of_cons in H as [->|H]; [done|]). by apply elem_of_nil in H.
  - destruct Hc as [Hc|[Hc|[n Hn]]]; [done|by rewrite (He _ Hc H)|]. rewrite Hn, Hv. done.
Qed.

(** The rows of the queries, in the order of their ordinals; an expression has
    no attribute and gives no row. *)
Definition index_rows (t : SnapshotTable) (x : SnapshotIndex) : list RawIndexRow :=
  imap (fun i c => {| ri_index := si_name x; ri_table := st_name t; ri_unique := si_isUnique x;
                      ri_column := c; ri_ord := Z.of_nat i |}) (ci_columns (project_index x)).

(** The two usage views are joined by the constraint's name only. *)
Definition fk_rows (t : SnapshotTable) (k : SnapshotForeignKey) : list RawForeignKeyRow :=
  concat (imap (fun i from => map (fun to =>
    {| rf_name := sf_name k; rf_from := st_name t; rf_to := sf_tableTo k; rf_col_from := from; rf_col_to := to;
       rf_on_delete := sf_onDelete k ?? "no action"; rf_on_update := sf_onUpdate k ?? "no action";
       rf_ord := Z.of_nat i |}) (sf_columnsTo k)) (sf_columnsFrom k)).

Definition pk_rows (t : SnapshotTable) : list RawPrimaryKeyRow :=
  imap (fun i c => {| rp_table := st_name t; rp_column := c; rp_ord := Z.of_nat i |}) (project_pk t).

Definition catalog (s : Snapshot) : RawIntrospection :=
  let ts := map snd (snap_tables s) in
  {| raw_tables := map st_name ts;
     raw_columns := flat_map (fun t => map (type_row (st_name t)) (map snd (st_columns t))) ts;
     raw_enums := flat_map (fun e => map (fun v => {| re_name := sn_name e; re_value := v |}) (sn_values e))
                    (map snd (snap_enums s));
     raw_indexes := flat_map (fun t => flat_map (index_rows t) (map snd (st_indexes t))) ts;
     raw_fks := flat_map (fun t => flat_map (fk_rows t) (map snd (st_foreignKeys t))) ts;
     raw_pks := flat_map pk_rows ts |}.

(** Names are unique, those of foreign keys in the whole database; an index has a
    plain column, an enum a value, a foreign key one column on either side, and
    every column a type that is read back. *)
Record snapshot_table_ok (t : SnapshotTable) : Prop := {
  sto_columns : NoDup (map sc_name (map snd (st_columns t)));
  sto_indexes : NoDup (map si_name (map snd (st_indexes t)));
  sto_fks : NoDup (map sf_name (map snd (st_foreignKeys t)));
  sto_plain : Forall (fun x => ci_columns (project_index x) <> []) (map snd (st_indexes t));
  sto_single : Forall (fun k => length (sf_columnsFrom k) = 1%nat /\ length (sf_columnsTo k) = 1%nat)
                 (map snd (st_foreignKeys t)) }.
Record snapshot_ok (s : Snapshot) : Prop := {
  sok_tables : NoDup (map st_name (map snd (snap_tables s)));
  sok_enums : NoDup (map sn_name (map snd (snap_enums s)));
  sok_values : Forall (fun e => sn_values e <> []) (map snd (snap_enums s));
  sok_fk_names : NoDup (flat_map (fun t => map sf_name (map snd (st_foreignKeys t))) (map snd (snap_tables s)));
  sok_types : Forall (fun t => Forall (fun c => understood s (sc_type c)) (map snd (st_columns t))) (map snd (snap_tables s));
  sok_all : Forall snapshot_table_ok (map snd (snap_tables s)) }.

(** *** Rows of one object *)

Lemma filter_none {X} (p : X -> bool) l : (forall x, x ∈ l -> p x = false) -> List.filter p l = [].
Proof.
  induction l as [|x l IH]; intros H; simpl; [done|]. rewrite H by by left. apply IH. intros; apply H. by right.
Qed.

(** Of the rows of many objects with different names, those of one name. *)
Lemma rows_of_one {X Y} (name : X -> string) (key : Y -> string) (f : X -> list Y) xs n :
  NoDup (map name xs) -> (forall x y, y ∈ f x -> key y = name x) ->
  List.filter (fun y => String.eqb (key y) n) (flat_map f xs) =
  match List.find (fun x => String.eqb (name x) n) xs with Some x => f x | None => [] end.
Proof.
  intros Hd Hk. induction xs as [|x xs IH]; simpl; [done|]. simpl in Hd. apply NoDup_cons in Hd as [Hx Hd].
  rewrite List.filter_app, (IH Hd). destruct (String.eqb_spec (name x) n) as [<-|Hne].
  - rewrite filter_all by (intros y Hy%list_elem_of_In; apply String.eqb_eq; by apply Hk).
    destruct (List.find _ xs) as [z|] eqn:E; [|by rewrite app_nil_r].
    apply find_some in E as [Hz E]. apply String.eqb_eq in E. exfalso. apply Hx. rewrite <- E.
    apply list_elem_of_In, in_map_iff. by exists z.
  - rewrite filter_none; [done|]. intros y Hy. apply String.eqb_neq. by rewrite (Hk _ _ Hy).
Qed.

(** *** Rows in the order of their ordinals *)

Definition increasing {X} (ord : X -> Z) (l : list X) : Prop := StronglySorted (fun a b => (ord a < ord b)%Z) l.

Lemma increasing_same {X} (ord : X -> Z) l x y : increasing ord l -> x ∈ l -> y ∈ l -> ord x = ord y -> x = y.
Proof.
  induction 1 as [|z l Hl IH Hz]; intros Hx Hy E; [by apply elem_of_nil in Hx|].
  rewrite Forall_forall in Hz.
  apply elem_of_cons in Hx as [->|Hx], Hy as [->|Hy]; try done; [|apply Hz in Hx; lia|by apply IH].
  apply Hz in Hy. lia.
Qed.

Lemma filter_sorted {X} (R : X -> X -> Prop) (p : X -> bool) l : StronglySorted R l -> StronglySorted R (List.filter p l).
Proof.
  induction 1 as [|x l Hl IH Hx]; simpl; [constructor|]. destruct (p x); [|done]. constructor; [done|].
  apply Forall_forall. intros y Hy. rewrite Forall_forall in Hx. apply Hx.
  apply list_elem_of_In. by apply list_elem_of_In, filter_In in Hy as [? _].
Qed.

Lemma filter_perm {X} (p : X -> bool) (l l' : list X) : l ≡ₚ l' -> List.filter p l ≡ₚ List.filter p l'.
Proof.
  induction 1; simpl; [done|by destruct (p x); [constructor|]| |by etrans].
  destruct (p x), (p y); try done. constructor.
Qed.

Lemma filter_by_ord {X} (ord : X -> Z) (p : X -> bool) l :
  increasing ord (List.filter p l) -> List.filter p (by_ord ord l) = List.filter p l.
Proof.
  intros H. unfold by_ord.
  assert (Transitive (ord_le ord)) by (intros x y z; unfold ord_le; lia).
  assert (Total (ord_le ord)) by (intros x y; unfold ord_le; lia).
  assert (Hp : List.filter p (merge_sort (ord_le ord) l) ≡ₚ List.filter p l) by apply filter_perm, merge_sort_Permutation.
  apply (StronglySorted_unique_strong (ord_le ord)); [| | |done].
  - intros x y Hx Hy Hxy Hyx. rewrite Hp in Hx. eapply increasing_same; [done..|]. unfold ord_le in *. lia.
  - apply filter_sorted, Sorted_StronglySorted; [done|]. apply Sorted_merge_sort, _.
  - clear -H. induction H as [|x l' Hl IH Hx]; constructor; [done|].
    eapply Forall_impl; [done|]. unfold ord_le. simpl. intros. lia.
Qed.

Lemma imap_increasing {X Y} (ord : Y -> Z) (f : nat -> X -> Y) l :
  (forall i x, ord (f i x) = Z.of_nat i) -> increasing ord (imap f l).
Proof.
  intros H. unfold increasing.
  assert (G : forall k, StronglySorted (fun a b => (ord a < ord b)%Z) (imap (fun i => f (k + i)%nat) l)).
  { induction l as [|x l IH]; intros k; [constructor|]. rewrite imap_cons. constructor.
    - erewrite imap_ext; [apply (IH (S k))|]. intros i y _. simpl. f_equal. lia.
    - apply Forall_forall. intros y Hy. apply list_elem_of_lookup in Hy as (i & Hy).
      rewrite list_lookup_imap in Hy. destruct (l !! i); [|done]. injection Hy as <-. simpl. rewrite !H. lia. }
  erewrite imap_ext; [apply (G 0%nat)|]. by intros.
Qed.

(** *** Folds over the tables *)

Definition rows_at {R} (tbl : R -> string) (n : string) (rows : list R) : list R :=
  List.filter (fun r => String.eqb (tbl r) n) rows.

Lemma fold_tables {R} (tbl : R -> string) (g : R -> CanonicalTable -> CanonicalTable) rows ts n t :
  rget n ts = Some t ->
  rget n (fold_left (fun ts r => on_table (tbl r) (g r) ts) rows ts) =
    Some (fold_left (fun t r => g r t) (rows_at tbl n rows) t).
Proof.
  revert ts t. induction rows as [|r rows IH]; intros ts t H; [done|]. simpl.
  destruct (String.eqb_spec (tbl r) n) as [<-|Hne]; simpl; apply IH; unfold on_table; rewrite rget_rupd.
  - rewrite decide_True by done. by rewrite H.
  - by rewrite decide_False by congruence.
Qed.

Lemma fold_tables_none {R} (tbl : R -> string) (g : R -> CanonicalTable -> CanonicalTable) rows ts n :
  (forall r, r ∈ rows -> tbl r <> n) -> rget n ts = None ->
  rget n (fold_left (fun ts r => on_table (tbl r) (g r) ts) rows ts) = None.
Proof.
  revert ts. induction rows as [|r rows IH]; intros ts Hr H; [done|]. simpl. apply IH.
  - intros x Hx. apply Hr. by right.
  - unfold on_table. rewrite rget_rupd, decide_False; [done|]. intros E. apply (Hr r); [by left|done].
Qed.

(** Rows that only touch one field. *)
Lemma fold_field {R X} (g : R -> CanonicalTable -> CanonicalTable) (field : CanonicalTable -> X) rows t :
  (forall r t, field (g r t) = field t) -> field (fold_left (fun t r => g r t) rows t) = field t.
Proof. intros H. revert t. induction rows as [|r rows IH]; intros t; [done|]. simpl. by rewrite IH. Qed.

Lemma fold_columns rows t :
  ct_columns (fold_left (fun t r => add_column r t) rows t) =
  fold_left (fun o r => rset (rc_column r) {| cc_name := rc_column r; cc_type := canonicalizeLiveType r;
    cc_notNull := String.eqb (rc_is_nullable r) "NO"; cc_default := normalizeDefault (rc_default r) |} o)
    rows (ct_columns t).
Proof. revert t. induction rows as [|r rows IH]; intros t; [done|]. simpl. by rewrite IH. Qed.

Lemma fold_pks rows t :
  ct_primaryKeyColumns (fold_left (fun t r => add_pk r t) rows t) = ct_primaryKeyColumns t ++ map rp_column rows.
Proof.
  revert t. induction rows as [|r rows IH]; intros t; simpl; [by rewrite app_nil_r|].
  rewrite IH. simpl. by rewrite <- app_assoc.
Qed.

(** Grouping rows under a key, from no entry. *)
Lemma fold_group {R X} (key : R -> string) (d : R -> X) (push : R -> X -> X) rows (o : rec X) k :
  rget k o = None ->
  rget k (fold_left (fun o r => rupd (key r) (d r) (push r) o) rows o) =
  match rows_at key k rows with
  | [] => None
  | r :: rs => Some (fold_left (fun x r => push r x) (r :: rs) (d r))
  end.
Proof.
  assert (G : forall rows o x, rget k o = Some x ->
    rget k (fold_left (fun o r => rupd (key r) (d r) (push r) o) rows o) =
    Some (fold_left (fun x r => push r x) (rows_at key k rows) x)).
  { clear. induction rows as [|r rows IH]; intros o x H; [done|]. simpl.
    destruct (String.eqb_spec (key r) k) as [<-|Hne]; simpl; apply IH; rewrite rget_rupd.
    - rewrite decide_True by done. by rewrite H.
    - by rewrite decide_False by congruence. }
  revert o. induction rows as [|r rows IH]; intros o H; [done|]. simpl.
  destruct (String.eqb_spec (key r) k) as [<-|Hne]; simpl.
  - rewrite (G _ _ (push r (d r))); [done|]. rewrite rget_rupd, decide_True by done. by rewrite H.
  - apply IH. by rewrite rget_rupd, decide_False by congruence.
Qed.

Lemma fold_indexes rows t :
  ct_indexes (fold_left (fun t r => add_index r t) rows t) =
  fold_left (fun o r => rupd (ri_index r) {| ci_name := ri_index r; ci_columns := []; ci_isUnique := ri_unique r |}
    (push_index r) o) rows (ct_indexes t).
Proof. revert t. induction rows as [|r rows IH]; intros t; [done|]. simpl. by rewrite IH. Qed.

Lemma fold_fks rows t :
  ct_foreignKeys (fold_left (fun t r => add_fk r t) rows t) =
  fold_left (fun o r => rupd (rf_name r) {| cf_name := rf_name r; cf_columnsFrom := []; cf_tableTo := rf_to r;
    cf_columnsTo := []; cf_onDelete := normalizeAction (Some (rf_on_delete r));
    cf_onUpdate := normalizeAction (Some (rf_on_update r)) |} (push_fk r) o) rows (ct_foreignKeys t).
Proof. revert t. induction rows as [|r rows IH]; intros t; [done|]. simpl. by rewrite IH. Qed.

Lemma rget_map {X Y} (f : X -> Y) (o : rec X) k : rget k (map (fun e => (e.1, f e.2)) o) = f <$> rget k o.
Proof. induction o as [|[k' x] o IH]; simpl; [done|]. by destruct (String.eqb k k'). Qed.

Lemma fold_names names ts n :
  (n ∈ names \/ rget n ts = Some (new_table n)) -> (rget n ts = None \/ rget n ts = Some (new_table n)) ->
  rget n (fold_left (fun ts name => on_table name (fun t => t) ts) names ts) = Some (new_table n).
Proof.
  revert ts. induction names as [|m names IH]; intros ts H1 H2; simpl.
  - destruct H1 as [H1|H1]; [by apply elem_of_nil in H1|done].
  - apply IH; unfold on_table; rewrite rget_rupd; case_decide as E; subst.
    + right. by destruct H2 as [->| ->].
    + destruct H1 as [H1|H1]; [apply elem_of_cons in H1 as [|H1]; [done|by left]|by right].
    + right. by destruct H2 as [->| ->].
    + done.
Qed.

(** The last step of the assembly, on one table. *)
Definition assembled (raw : RawIntrospection) (n : string) : CanonicalTable :=
  fold_left (fun t r => add_pk r t) (rows_at rp_table n (by_ord rp_ord (raw_pks raw)))
    (fold_left (fun t r => add_fk r t) (rows_at rf_from n (by_ord rf_ord (raw_fks raw)))
      (fold_left (fun t r => add_index r t) (rows_at ri_table n (by_ord ri_ord (raw_indexes raw)))
        (fold_left (fun t r => add_column r t) (rows_at rc_table n (raw_columns raw)) (new_table n)))).

Lemma assembled_get raw n :
  n ∈ raw_tables raw ->
  rget n (cs_tables (assembleLiveSchema raw)) =
    Some (with_pk (sorted_names (ct_primaryKeyColumns (assembled raw n))) (assembled raw n)).
Proof.
  intros H. unfold assembleLiveSchema. cbn [cs_tables].
  rewrite (rget_map (fun t => with_pk (sorted_names (ct_primaryKeyColumns t)) t)).
  pose proof (fold_names (raw_tables raw) [] n (or_introl H) (or_introl eq_refl)) as E.
  apply (fold_tables rc_table add_column (raw_columns raw)) in E.
  apply (fold_tables ri_table add_index (by_ord ri_ord (raw_indexes raw))) in E.
  apply (fold_tables rf_from add_fk (by_ord rf_ord (raw_fks raw))) in E.
  apply (fold_tables rp_table add_pk (by_ord rp_ord (raw_pks raw))) in E.
  by rewrite E.
Qed.

Lemma elem_by_ord {X} (ord : X -> Z) l x : x ∈ by_ord ord l <-> x ∈ l.
Proof. unfold by_ord. by rewrite merge_sort_Permutation. Qed.

Lemma assembled_none raw n :
  n ∉ raw_tables raw -> (forall r, r ∈ raw_columns raw -> rc_table r <> n) ->
  (forall r, r ∈ raw_indexes raw -> ri_table r <> n) -> (forall r, r ∈ raw_fks raw -> rf_from r <> n) ->
  (forall r, r ∈ raw_pks raw -> rp_table r <> n) ->
  rget n (cs_tables (assembleLiveSchema raw)) = None.
Proof.
  intros H1 H2 H3 H4 H5. unfold assembleLiveSchema. cbn [cs_tables].
  rewrite (rget_map (fun t => with_pk (sorted_names (ct_primaryKeyColumns t)) t)).
  assert (E : rget n (fold_left (fun ts name => on_table name (fun t => t) ts) (raw_tables raw) []) = None).
  { by apply (fold_tables_none id (fun _ t => t)); [intros r Hr E; subst|]. }
  apply (fold_tables_none rc_table add_column (raw_columns raw)) in E; [|done].
  apply (fold_tables_none ri_table add_index (by_ord ri_ord (raw_indexes raw))) in E; [|intros r ?%elem_by_ord; auto].
  apply (fold_tables_none rf_from add_fk (by_ord rf_ord (raw_fks raw))) in E; [|intros r ?%elem_by_ord; auto].
  apply (fold_tables_none rp_table add_pk (by_ord rp_ord (raw_pks raw))) in E; [|intros r ?%elem_by_ord; auto].
  by rewrite E.
Qed.

(** *** The catalog's rows of one table *)

Lemma fold_left_map_here {X Y Z} (f : Z -> Y -> Z) (g : X -> Y) l z :
  fold_left (fun z x => f z (g x)) l z = fold_left f (map g l) z.
Proof. revert z. induction l as [|x l IH]; intros z; [done|]. simpl. by rewrite IH. Qed.

Lemma map_imap_id {X Y} (f : nat -> X -> Y) (g : Y -> X) l : (forall i x, g (f i x) = x) -> map g (imap f l) = l.
Proof.
  intros H. revert f H. induction l as [|x l IH]; intros f H; [done|]. rewrite imap_cons. simpl.
  by rewrite H, IH by (intros; apply H).
Qed.

Definition table_named (s : Snapshot) (n : string) : option SnapshotTable :=
  List.find (fun t => String.eqb (st_name t) n) (map snd (snap_tables s)).

Lemma type_row_table n c : rc_table (type_row n c) = n.
Proof. unfold type_row. by destruct (pg_type (sc_type c)) as [[]]. Qed.

Lemma type_row_column n c : rc_column (type_row n c) = sc_name c.
Proof. unfold type_row. by destruct (pg_type (sc_type c)) as [[]]. Qed.

Lemma imap_rows {X Y} (f : nat -> X -> Y) l y : y ∈ imap f l -> exists i x, y = f i x /\ x ∈ l.
Proof.
  intros H. apply list_elem_of_lookup in H as (i & H). rewrite list_lookup_imap in H.
  destruct (l !! i) as [x|] eqn:E; [|done]. injection H as <-. exists i, x.
  split; [done|]. by eapply list_elem_of_lookup_2.
Qed.

Lemma flat_map_elem {X Y} (f : X -> list Y) xs y : y ∈ flat_map f xs -> exists x, x ∈ xs /\ y ∈ f x.
Proof.
  intros H. apply list_elem_of_In, in_flat_map in H as (x & Hx & Hy). exists x.
  by split; apply list_elem_of_In.
Qed.

Lemma index_row t x r : r ∈ index_rows t x -> ri_table r = st_name t /\ ri_index r = si_name x.
Proof. unfold index_rows. intros (i & c & -> & _)%imap_rows. done. Qed.

Lemma fk_row t k r : r ∈ fk_rows t k -> rf_from r = st_name t /\ rf_name r = sf_name k.
Proof.
  unfold fk_rows. intros H. apply list_elem_of_In, in_concat in H as (l & Hl & H).
  apply list_elem_of_In, imap_rows in Hl as (i & c & -> & _). by apply in_map_iff in H as (? & <- & _).
Qed.

Lemma pk_row t r : r ∈ pk_rows t -> rp_table r = st_name t.
Proof. unfold pk_rows. by intros (i & c & -> & _)%imap_rows. Qed.

Section one_table.
Context (s : Snapshot) (Hrep : reports s) (Hs : snapshot_ok s) (n : string) (t : SnapshotTable) (Ht : table_named s n = Some t).

Lemma named_n : st_name t = n.
Proof. unfold table_named in Ht. apply find_some in Ht as [_ H]. by apply String.eqb_eq in H. Qed.

Lemma named_ok : snapshot_table_ok t.
Proof.
  destruct Hs as [_ _ _ _ _ Ha]. rewrite Forall_forall in Ha. apply Ha. apply list_elem_of_In.
  by apply find_some in Ht as [? _].
Qed.

Lemma named_types c : List.In c (map snd (st_columns t)) -> understood s (sc_type c).
Proof.
  intros Hc. pose proof (sok_types _ Hs) as H. rewrite Forall_forall in H.
  assert (Ht' : t ∈ map snd (snap_tables s)) by (apply list_elem_of_In; by apply find_some in Ht as [? _]).
  specialize (H _ Ht'). rewrite Forall_forall in H. by apply H, list_elem_of_In.
Qed.

Lemma columns_here : rows_at rc_table n (raw_columns (catalog s)) = map (type_row n) (map snd (st_columns t)).
Proof.
  unfold rows_at, catalog. simpl. rewrite (rows_of_one st_name rc_table); [|by destruct Hs|].
  - change (List.find _ _) with (table_named s n). rewrite Ht. by rewrite named_n.
  - intros x y H. apply list_elem_of_In, in_map_iff in H as (c & <- & _). apply type_row_table.
Qed.

Lemma pks_here : rows_at rp_table n (by_ord rp_ord (raw_pks (catalog s))) = pk_rows t.
Proof.
  assert (E : List.filter (fun r => String.eqb (rp_table r) n) (raw_pks (catalog s)) = pk_rows t).
  { unfold catalog. simpl. rewrite (rows_of_one st_name rp_table); [|by destruct Hs|by apply pk_row].
    change (List.find _ _) with (table_named s n). by rewrite Ht. }
  unfold rows_at. rewrite filter_by_ord; [done|]. rewrite E. by apply imap_increasing.
Qed.

(** The rows of one index of the table, and of one foreign key. *)
Lemma index_rows_here i :
  rows_at ri_index i (rows_at ri_table n (by_ord ri_ord (raw_indexes (catalog s)))) =
  match List.find (fun x => String.eqb (si_name x) i) (map snd (st_indexes t)) with
  | Some x => index_rows t x
  | None => []
  end.
Proof.
  assert (E : List.filter (fun r => String.eqb (ri_table r) n && String.eqb (ri_index r) i) (raw_indexes (catalog s)) =
    match List.find (fun x => String.eqb (si_name x) i) (map snd (st_indexes t)) with
    | Some x => index_rows t x | None => [] end).
  { rewrite <- filter_filter. unfold catalog. simpl. rewrite (rows_of_one st_name ri_table); [|by destruct Hs|].
    - change (List.find _ (map snd (snap_tables s))) with (table_named s n). rewrite Ht.
      apply rows_of_one; [apply named_ok|]. by intros x y [_ ?]%index_row.
    - by intros x y (z & _ & [? _]%index_row)%flat_map_elem. }
  unfold rows_at. rewrite filter_filter, filter_by_ord; [done|]. rewrite E.
  destruct (List.find _ _); [by apply imap_increasing|constructor].
Qed.

Lemma single_fk k : length (sf_columnsFrom k) = 1%nat /\ length (sf_columnsTo k) = 1%nat ->
  exists a b, sf_columnsFrom k = [a] /\ sf_columnsTo k = [b] /\ exists r, fk_rows t k = [r] /\
    rf_name r = sf_name k /\ rf_to r = sf_tableTo k /\ rf_col_from r = a /\ rf_col_to r = b /\
    rf_on_delete r = (sf_onDelete k ?? "no action") /\ rf_on_update r = (sf_onUpdate k ?? "no action").
Proof.
  intros [H1 H2]. destruct (sf_columnsFrom k) as [|a [|]] eqn:Ea; try done.
  destruct (sf_columnsTo k) as [|b [|]] eqn:Eb; try done. exists a, b. split; [done|]. split; [done|].
  unfold fk_rows. rewrite Ea, Eb. simpl. eexists. split; [reflexivity|]. done.
Qed.

Lemma fk_rows_here i :
  rows_at rf_name i (rows_at rf_from n (by_ord rf_ord (raw_fks (catalog s)))) =
  match List.find (fun k => String.eqb (sf_name k) i) (map snd (st_foreignKeys t)) with
  | Some k => fk_rows t k
  | None => []
  end.
Proof.
  assert (E : List.filter (fun r => String.eqb (rf_from r) n && String.eqb (rf_name r) i) (raw_fks (catalog s)) =
    match List.find (fun k => String.eqb (sf_name k) i) (map snd (st_foreignKeys t)) with
    | Some k => fk_rows t k | None => [] end).
  { rewrite <- filter_filter. unfold catalog. simpl. rewrite (rows_of_one st_name rf_from); [|by destruct Hs|].
    - change (List.find _ (map snd (snap_tables s))) with (table_named s n). rewrite Ht.
      apply rows_of_one; [apply named_ok|]. by intros x y [_ ?]%fk_row.
    - by intros x y (z & _ & [? _]%fk_row)%flat_map_elem. }
  unfold rows_at. rewrite filter_filter, filter_by_ord; [done|]. rewrite E.
  destruct (List.find _ _) as [k|] eqn:Ek; [|constructor].
  apply find_some in Ek as [Hk _]. pose proof (sto_single _ named_ok) as Hf. rewrite Forall_forall in Hf.
  apply list_elem_of_In, Hf, single_fk in Hk as (a & b & _ & _ & r & -> & _). repeat constructor.
Qed.

Lemma live_columns : same_entries same_column (ct_columns (project_table t)) (ct_columns (assembled (catalog s) n)).
Proof.
  intros k. unfold assembled. rewrite !(fold_field _ ct_columns) by done. rewrite fold_columns, columns_here.
  change (ct_columns (new_table n)) with (@nil (string * CanonicalColumn)). rewrite <- fold_left_map_here.
  cbn [project_table ct_columns]. rewrite collect_get by apply named_ok.
  set (g := fun c => {| cc_name := rc_column (type_row n c); cc_type := canonicalizeLiveType (type_row n c);
    cc_notNull := String.eqb (rc_is_nullable (type_row n c)) "NO";
    cc_default := normalizeDefault (rc_default (type_row n c)) |}).
  assert (E : fold_left (fun o c => rset (rc_column (type_row n c)) (g c) o) (map snd (st_columns t)) [] =
    collect sc_name g (map snd (st_columns t))).
  { unfold collect. generalize (@nil (string * CanonicalColumn)).
    induction (map snd (st_columns t)) as [|c cs IH]; intros o; [done|]. cbn [fold_left].
    by rewrite IH, type_row_column. }
  match goal with |- context [fold_left ?f ?l ?z] => change (fold_left f l z) with
    (fold_left (fun o c => rset (rc_column (type_row n c)) (g c) o) (map snd (st_columns t)) []) end.
  rewrite E, collect_get by apply named_ok. destruct (List.find _ _) as [c|] eqn:Ec; [|done]. simpl.
  apply find_some in Ec as [Ec _].
  unfold same_column, g. simpl. rewrite (understood_read s) by (done || by apply named_types). rewrite String.eqb_refl. simpl.
  unfold type_row. destruct (pg_type (sc_type c)) as [[]]. simpl. by destruct (sc_notNull c).
Qed.

Lemma push_indexes rows i :
  fold_left (fun x r => push_index r x) rows i =
  {| ci_name := ci_name i; ci_columns := ci_columns i ++ map ri_column rows; ci_isUnique := ci_isUnique i |}.
Proof.
  revert i. induction rows as [|r rows IH]; intros i; simpl; [rewrite app_nil_r; by destruct i|].
  rewrite IH. simpl. by rewrite <- app_assoc.
Qed.

Lemma live_indexes : same_entries same_index (ct_indexes (project_table t)) (ct_indexes (assembled (catalog s) n)).
Proof.
  intros k. unfold assembled. rewrite (fold_field (fun r t => add_pk r t) ct_indexes),
    (fold_field (fun r t => add_fk r t) ct_indexes) by done.
  rewrite fold_indexes, fold_group; [|by rewrite (fold_field (fun r t => add_column r t) ct_indexes)].
  rewrite index_rows_here. simpl. rewrite collect_get by apply named_ok.
  destruct (List.find _ _) as [x|] eqn:E; [|done]. simpl. apply find_some in E as [Hx _].
  pose proof (sto_plain _ named_ok) as Hp. rewrite Forall_forall in Hp. apply list_elem_of_In, Hp in Hx.
  assert (Hc : map ri_column (index_rows t x) = ci_columns (project_index x)) by by apply map_imap_id.
  destruct (index_rows t x) as [|r rs] eqn:Er; [by rewrite <- Hc in Hx|].
  rewrite push_indexes. unfold same_index. simpl in Hc |- *. rewrite Hc.
  assert (ri_unique r = si_isUnique x) as ->.
  { assert (Hr : r ∈ index_rows t x) by (rewrite Er; by left). by apply imap_rows in Hr as (i & c & -> & _). }
  rewrite Bool.eqb_reflx. unfold arraysEqual. by rewrite bool_decide_true.
Qed.

Lemma live_fks :
  same_entries same_fk (ct_foreignKeys (project_table t)) (ct_foreignKeys (assembled (catalog s) n)).
Proof.
  intros k. unfold assembled. rewrite (fold_field (fun r t => add_pk r t) ct_foreignKeys) by done.
  rewrite fold_fks, fold_group; [|by rewrite (fold_field (fun r t => add_index r t) ct_foreignKeys),
    (fold_field (fun r t => add_column r t) ct_foreignKeys)].
  rewrite fk_rows_here. simpl. rewrite collect_get by apply named_ok.
  destruct (List.find _ _) as [x|] eqn:E; [|done]. simpl. apply find_some in E as [Hx _].
  pose proof (sto_single _ named_ok) as Hp. rewrite Forall_forall in Hp.
  apply list_elem_of_In, Hp, single_fk in Hx as (a & b & Ea & Eb & r & -> & Hn & H1 & H2 & H3 & H4 & H5).
  simpl. unfold same_fk, project_fk. simpl. rewrite Ea, Eb, H1, H2, H3, H4, H5, !String.eqb_refl.
  unfold arraysEqual. by rewrite !bool_decide_true.
Qed.

Lemma live_pks : ct_primaryKeyColumns (assembled (catalog s) n) = project_pk t.
Proof.
  unfold assembled. rewrite fold_pks, pks_here. rewrite !(fold_field _ ct_primaryKeyColumns) by done. simpl.
  by apply map_imap_id.
Qed.
End one_table.

Lemma live_enums s k : snapshot_ok s ->
  rget k (cs_enums (assembleLiveSchema (catalog s))) = rget k (cs_enums (projectSnapshot s)).
Proof.
  intros Hs. simpl. rewrite collect_get by apply Hs. rewrite (fold_group re_name (fun _ => [])) by done.
  unfold rows_at. rewrite (rows_of_one sn_name re_name); [|apply Hs|].
  2:{ intros x y H. apply list_elem_of_In, in_map_iff in H as (v & <- & _). done. }
  destruct (List.find _ _) as [e|] eqn:E; [|done]. simpl. apply find_some in E as [He _].
  pose proof (sok_values _ Hs) as Hv. rewrite Forall_forall in Hv. apply list_elem_of_In, Hv in He.
  assert (G : forall vs l, fold_left (fun x r => x ++ [re_value r])
    (map (fun v => {| re_name := sn_name e; re_value := v |}) vs) l = l ++ vs).
  { induction vs as [|v vs IH]; intros l; simpl; [by rewrite app_nil_r|]. rewrite IH. by rewrite <- app_assoc. }
  destruct (sn_values e) as [|v vs] eqn:Ev; [done|]. cbn [map]. f_equal. exact (G (v :: vs) []).
Qed.

End faithful.

(** ** Witnesses, and where the check is not faithful *)

(** What PostgreSQL reports, where every type that is not built in is an enum. *)
Definition varchar_length (ty : string) : option Z :=
  match strip (list_ascii_of_string "varchar(") (list_ascii_of_string ty) with
  | Some t => match parse_number t with Some (JNum n, [")"%char]) => Some n | _ => None end
  | None => None
  end.

Definition demo_pg_type (ty : string) : string * string * option Z :=
  if bool_decide (ty ∈ plain_types) then (ty, ty, None)
  else match varchar_length ty with
       | Some n => ("character varying", "varchar", Some n)
       | None => ("USER-DEFINED", ty, None)
       end.

Definition text_column (n : string) (pk : bool) : SnapshotColumn :=
  {| sc_name := n; sc_type := "text"; sc_primaryKey := pk; sc_notNull := true; sc_default := None |}.

(** A table [n] with its columns, indexes and foreign keys. *)
Definition table_of (n : string) (cols : list string) (idxs : list SnapshotIndex) (fks : list SnapshotForeignKey)
    (uniques : list SnapshotConstraint) : SnapshotTable :=
  {| st_name := n; st_columns := imap (fun i c => (c, text_column c (i =? 0)%nat)) cols;
     st_indexes := map (fun x => (si_name x, x)) idxs; st_foreignKeys := map (fun k => (sf_name k, k)) fks;
     st_compositePrimaryKeys := []; st_uniqueConstraints := map (fun k => (sk_name k, k)) uniques |}.

Definition snapshot_of (ts : list SnapshotTable) (es : list SnapshotEnum) : Snapshot :=
  {| snap_tables := map (fun t => (st_name t, t)) ts; snap_enums := map (fun e => (sn_name e, e)) es |}.

Definition plain_index (n c : string) : SnapshotIndex :=
  {| si_name := n; si_columns := [{| ic_expression := c; ic_isExpression := false |}]; si_isUnique := false |}.
Definition fk_to (n : string) (from : list string) (tbl : string) (to : list string) : SnapshotForeignKey :=
  {| sf_name := n; sf_tableFrom := "runs"; sf_tableTo := tbl; sf_columnsFrom := from; sf_columnsTo := to;
     sf_onDelete := None; sf_onUpdate := None |}.

Definition snapshot_1 : Snapshot :=
  snapshot_of
    [table_of "sessions" ["session_id"; "agent_id"] [] [] [];
     table_of "runs" ["run_id"; "session_id"] [plain_index "runs_session_idx" "session_id"]
       [fk_to "runs_session_fk" ["session_id"] "sessions" ["session_id"]] []]
    [{| sn_name := "run_status"; sn_values := ["running"; "completed"] |}].

(** The rules hold of it, for a snapshot whose enums are not named like a type. *)
Lemma demo_reports s :
  Forall (fun n => varchar_length n = None) (map sn_name (map snd (snap_enums s))) -> reports demo_pg_type s.
Proof.
  intros He. split.
  - intros ty H. exists ty. unfold demo_pg_type. by rewrite bool_decide_true.
  - intros ty H Hn. rewrite Forall_forall in He. unfold demo_pg_type. rewrite bool_decide_false by done. by rewrite (He _ H).
  - intros n. unfold demo_pg_type. rewrite bool_decide_false.
    + unfold varchar_length, sized_varchar, string_of_Z. simpl strip.
      assert (E : forall t, list_ascii_of_string (string_of_list_ascii t +:+ ")") = t ++ [")"%char]).
      { induction t as [|c t IH]; [done|]. simpl. by rewrite IH. }
      match goal with |- context [list_ascii_of_string ("" +:+ ?x)] => change ("" +:+ x) with x end.
      rewrite E. by rewrite parse_print_int.
    + unfold plain_types, sized_varchar. intros H. repeat (apply elem_of_cons in H as [H|H]; [done|]).
      by apply elem_of_nil in H.
Qed.

Lemma no_drift_iff_schemas_agree_witness :
  diffSchemas (projectSnapshot snapshot_1) (projectSnapshot snapshot_1) = [] <->
  same_schema (projectSnapshot snapshot_1) (projectSnapshot snapshot_1).
Proof. apply (no_drift_iff_schemas_agree (projectSnapshot snapshot_1)), project_ok. Defined.

(** An index over an expression alone has no row in the catalog's query: a
    database that has it is reported as missing it. *)
Definition expression_index : SnapshotIndex :=
  {| si_name := "users_lower_email"; si_isUnique := true;
     si_columns := [{| ic_expression := "lower(email)"; ic_isExpression := true |}] |}.

Theorem expression_index_is_reported_missing :
  let s := snapshot_of [table_of "users" ["user_id"; "email"] [expression_index] [] []] [] in
  map dd_detail (diffSchemas (projectSnapshot s) (assembleLiveSchema (catalog demo_pg_type s))) = [missing_in_db].
Proof. reflexivity. Qed.

(** The columns of a foreign key over two columns are read back crossed. *)
Theorem composite_foreign_key_is_reported :
  let s := snapshot_of [table_of "user_keys" ["user_id"; "workspace_id"] []
    [fk_to "uk_fk" ["user_id"; "workspace_id"] "user_workspaces" ["user_id"; "workspace_id"]] []] [] in
  map dd_detail (diffSchemas (projectSnapshot s) (assembleLiveSchema (catalog demo_pg_type s))) = [mismatch].
Proof. reflexivity. Qed.

(** A unique constraint is not in the model: a database without it is as
    expected. *)
Theorem unique_constraints_are_not_compared :
  let with_it := table_of "users" ["user_id"; "cognito_sub"] [] []
    [{| sk_name := "users_cognito_sub_unique"; sk_columns := ["cognito_sub"] |}] in
  let without := table_of "users" ["user_id"; "cognito_sub"] [] [] [] in
  diffSchemas (projectSnapshot (snapshot_of [with_it] []))
    (assembleLiveSchema (catalog demo_pg_type (snapshot_of [without] []))) = [].
Proof. reflexivity. Qed.

(** A type that PostgreSQL reports under another name is read back as that name:
    the column of an array, of a [serial] or of a [numeric] with a precision is
    reported as drifted in a database that has it as declared. *)
Theorem other_types_are_reported pg_type :
  pg_type "text[]" = ("ARRAY", "_text", None) -> pg_type "serial" = ("integer", "int4", None) ->
  pg_type "numeric(10, 2)" = ("numeric", "numeric", None) ->
  let column ty := {| sc_name := ty; sc_type := ty; sc_primaryKey := false; sc_notNull := false; sc_default := None |} in
  let t := {| st_name := "t"; st_columns := map (fun ty => (ty, column ty)) ["text[]"; "serial"; "numeric(10, 2)"];
              st_indexes := []; st_foreignKeys := []; st_compositePrimaryKeys := []; st_uniqueConstraints := [] |} in
  let s := snapshot_of [t] [] in
  map dd_detail (diffSchemas (projectSnapshot s) (assembleLiveSchema (catalog pg_type s))) = [mismatch; mismatch; mismatch].
Proof. intros H1 H2 H3 column t s. unfold s, t, column, catalog, type_row. simpl. rewrite H1, H2, H3. reflexivity. Qed.
