(* ===== verification/Repos.v ===== *)
(** The database: tables, and the repositories' statements over them
    (packages/db/src/repositories/*.ts, schema/*.ts).

    A table with a primary key is a finite map; messages are a list in creation
    order, which is the order [listBySession] returns.  The primary keys and
    the foreign keys are those of the schema.  A statement that the database
    refuses throws. *)
From S2P Require Import Prelude Json Shared.

Record Db := {
  db_sessions : gmap string SessionRecord;
  db_agents : gmap string AgentRecord;
  db_runs : gmap string RunRecord;
  db_messages : list MessageRecord;
  db_toolCalls : gmap string ToolCallRecord }.

Definition set_runs (db : Db) runs : Db :=
  {| db_sessions := db_sessions db; db_agents := db_agents db; db_runs := runs;
     db_messages := db_messages db; db_toolCalls := db_toolCalls db |}.
Definition set_messages (db : Db) ms : Db :=
  {| db_sessions := db_sessions db; db_agents := db_agents db; db_runs := db_runs db;
     db_messages := ms; db_toolCalls := db_toolCalls db |}.
Definition set_toolCalls (db : Db) tcs : Db :=
  {| db_sessions := db_sessions db; db_agents := db_agents db; db_runs := db_runs db;
     db_messages := db_messages db; db_toolCalls := tcs |}.
Definition set_sessions (db : Db) ss : Db :=
  {| db_sessions := ss; db_agents := db_agents db; db_runs := db_runs db;
     db_messages := db_messages db; db_toolCalls := db_toolCalls db |}.

Definition constraint_error (what : string) : error := PlainError "PostgresError" what.

(** ** sessions and agents *)

Definition sessions_getById (id : string) (db : Db) : option SessionRecord := db_sessions db !! id.
Definition agents_getById (id : string) (db : Db) : option AgentRecord := db_agents db !! id.

(** ** runs (run-repo.ts) *)

(** A new run is [running], the column's default. *)
Definition runs_create (runId sessionId model : string) (db : Db) : res error Db :=
  match db_runs db !! runId, db_sessions db !! sessionId with
  | Some _, _ => Err (constraint_error "runs_pkey")
  | None, None => Err (constraint_error "runs_session_id_sessions_session_id_fk")
  | None, Some _ =>
      Ok (set_runs db (<[runId := {| run_runId := runId; run_sessionId := sessionId;
            run_status := running; run_model := model; run_tokenUsage := None |}]> (db_runs db)))
  end.

Definition with_status (s : RunStatus) (usage : option TokenUsage) (r : RunRecord) : RunRecord :=
  {| run_runId := run_runId r; run_sessionId := run_sessionId r; run_status := s;
     run_model := run_model r;
     run_tokenUsage := match usage with Some u => Some u | None => run_tokenUsage r end |}.

(** [UPDATE runs SET status = s WHERE run_id = id AND status = 'running'
    RETURNING *]: the row that transitioned, if one did. *)
Definition runs_transition (s : RunStatus) (usage : option TokenUsage) (runId : string) (db : Db) :
    option RunRecord * Db :=
  match db_runs db !! runId with
  | Some r =>
      if bool_decide (run_status r = running)
      then (Some (with_status s usage r),
            set_runs db (<[runId := with_status s usage r]> (db_runs db)))
      else (None, db)
  | None => (None, db)
  end.

Definition runs_complete (runId : string) (usage : TokenUsage) : Db -> option RunRecord * Db :=
  runs_transition completed (Some usage) runId.
Definition runs_fail : string -> Db -> option RunRecord * Db := runs_transition failed None.
Definition runs_cancel : string -> Db -> option RunRecord * Db := runs_transition cancelled None.
Definition runs_timeout : string -> Db -> option RunRecord * Db := runs_transition timed_out None.

(** The unguarded update. *)
Definition runs_updateStatus (runId : string) (s : RunStatus) (db : Db) : option RunRecord * Db :=
  match db_runs db !! runId with
  | Some r => (Some (with_status s None r), set_runs db (<[runId := with_status s None r]> (db_runs db)))
  | None => (None, db)
  end.

(** ** messages (message-repo.ts) *)

Definition has_message (id : string) (db : Db) : bool :=
  existsb (fun m => String.eqb (msg_messageId m) id) (db_messages db).

Definition messages_create (m : MessageRecord) (db : Db) : res error Db :=
  if has_message (msg_messageId m) db then Err (constraint_error "messages_pkey")
  else match db_sessions db !! msg_sessionId m with
  | None => Err (constraint_error "messages_session_id_sessions_session_id_fk")
  | Some _ =>
      match msg_runId m with
      | Some runId =>
          match db_runs db !! runId with
          | None => Err (constraint_error "messages_run_id_runs_run_id_fk")
          | Some _ => Ok (set_messages db (db_messages db ++ [m]))
          end
      | None => Ok (set_messages db (db_messages db ++ [m]))
      end
  end.

Definition messages_listBySession (sessionId : string) (db : Db) : list MessageRecord :=
  List.filter (fun m => String.eqb (msg_sessionId m) sessionId) (db_messages db).

(** [getLastN]: newest first, limited, then reversed. *)
Definition messages_getLastN (sessionId : string) (n : nat) (db : Db) : list MessageRecord :=
  reverse (take n (reverse (messages_listBySession sessionId db))).

(** ** tool calls (tool-call-repo.ts) *)

Definition toolCalls_create (callId runId toolName : string) (input : jsval) (db : Db) :
    res error Db :=
  match db_toolCalls db !! callId, db_runs db !! runId with
  | Some _, _ => Err (constraint_error "tool_calls_pkey")
  | None, None => Err (constraint_error "tool_calls_run_id_runs_run_id_fk")
  | None, Some _ =>
      Ok (set_toolCalls db (<[callId := {| tcr_callId := callId; tcr_runId := runId;
            tcr_toolName := toolName; tcr_input := input; tcr_output := None;
            tcr_status := tc_started |}]> (db_toolCalls db)))
  end.

Definition tc_with (s : ToolCallStatus) (output : jsval) (r : ToolCallRecord) : ToolCallRecord :=
  {| tcr_callId := tcr_callId r; tcr_runId := tcr_runId r; tcr_toolName := tcr_toolName r;
     tcr_input := tcr_input r; tcr_output := output; tcr_status := s |}.

(** [UPDATE tool_calls ... WHERE call_id = id AND status = 'started']. *)
Definition toolCalls_transition (f : ToolCallRecord -> ToolCallRecord) (callId : string) (db : Db) :
    option ToolCallRecord * Db :=
  match db_toolCalls db !! callId with
  | Some r =>
      if bool_decide (tcr_status r = tc_started)
      then (Some (f r), set_toolCalls db (<[callId := f r]> (db_toolCalls db)))
      else (None, db)
  | None => (None, db)
  end.

Definition toolCalls_updateResult (callId : string) (output : jsval) (status : ToolCallStatus) :
    Db -> option ToolCallRecord * Db :=
  toolCalls_transition (tc_with status output) callId.

Definition toolCalls_fail (callId : string) : Db -> option ToolCallRecord * Db :=
  toolCalls_transition (fun r => tc_with tc_failed (tcr_output r) r) callId.

(** ** What no statement of the runtime undoes *)

Definition run_terminal (r : RunRecord) : bool := negb (bool_decide (run_status r = running)).
Definition call_final (r : ToolCallRecord) : bool := negb (bool_decide (tcr_status r = tc_started)).

(** The order in which the database may move: rows are never deleted, a
    terminal run and a final tool call keep their row, messages are only
    appended, sessions and agents are untouched. *)
Record db_le (a b : Db) : Prop := {
  le_sessions : db_sessions a = db_sessions b;
  le_agents : db_agents a = db_agents b;
  le_runs : forall id r, db_runs a !! id = Some r ->
    exists r', db_runs b !! id = Some r' /\ run_sessionId r' = run_sessionId r /\
      (run_terminal r = true -> r' = r);
  le_calls : forall id r, db_toolCalls a !! id = Some r ->
    exists r', db_toolCalls b !! id = Some r' /\ tcr_runId r' = tcr_runId r /\
      (call_final r = true -> r' = r);
  le_messages : exists l, db_messages b = db_messages a ++ l }.

#[export] Instance db_le_refl : Reflexive db_le.
Proof. intros a. split; eauto. exists []. by rewrite app_nil_r. Qed.

#[export] Instance db_le_trans : Transitive db_le.
Proof.
  intros a b c [Hs1 Ha1 Hr1 Hc1 [l1 Hm1]] [Hs2 Ha2 Hr2 Hc2 [l2 Hm2]]. split; try congruence.
  - intros id r H. destruct (Hr1 _ _ H) as (r1 & H1 & E1 & T1).
    destruct (Hr2 _ _ H1) as (r2 & H2 & E2 & T2). exists r2. split; [done|].
    split; [congruence|]. intros T. rewrite (T1 T) in *. by apply T2.
  - intros id r H. destruct (Hc1 _ _ H) as (r1 & H1 & E1 & T1).
    destruct (Hc2 _ _ H1) as (r2 & H2 & E2 & T2). exists r2. split; [done|].
    split; [congruence|]. intros T. rewrite (T1 T) in *. by apply T2.
  - exists (l1 ++ l2). by rewrite Hm2, Hm1, app_assoc.
Qed.

Lemma runs_transition_le s u id db : db_le db (runs_transition s u id db).2.
Proof.
  unfold runs_transition. destruct (db_runs db !! id) as [r|] eqn:E; [|done].
  case_bool_decide as Hr; [|done]. split; simpl; eauto; [|exists []; by rewrite app_nil_r].
  intros id' r' H. rewrite lookup_insert. case_decide as Hd; [|eauto].
  simplify_eq. eexists; repeat split. unfold run_terminal.
  rewrite bool_decide_true by done. done.
Qed.

Lemma toolCalls_transition_le f id db :
  (forall r, tcr_runId (f r) = tcr_runId r) -> db_le db (toolCalls_transition f id db).2.
Proof.
  intros Hf. unfold toolCalls_transition. destruct (db_toolCalls db !! id) as [r|] eqn:E; [|done].
  case_bool_decide as Hr; [|done]. split; simpl; eauto; [|exists []; by rewrite app_nil_r].
  intros id' r' H. rewrite lookup_insert. case_decide as Hd; [|eauto].
  simplify_eq. eexists; repeat split; [apply Hf|]. unfold call_final.
  rewrite bool_decide_true by done. done.
Qed.

Lemma messages_create_le m db db' : messages_create m db = Ok db' -> db_le db db'.
Proof.
  unfold messages_create. repeat case_goal; try done; intros [= <-]; split; simpl; eauto.
Qed.

Lemma toolCalls_create_le c r t i db db' : toolCalls_create c r t i db = Ok db' -> db_le db db'.
Proof.
  unfold toolCalls_create. repeat case_goal; try done. intros [= <-]. split; simpl; eauto.
  - intros id x H. rewrite lookup_insert. case_decide; [congruence|eauto].
  - exists []. by rewrite app_nil_r.
Qed.

Lemma runs_create_le r s m db db' : runs_create r s m db = Ok db' -> db_le db db'.
Proof.
  unfold runs_create. repeat case_goal; try done. intros [= <-]. split; simpl; eauto.
  - intros id x H. rewrite lookup_insert. case_decide; [congruence|eauto].
  - exists []. by rewrite app_nil_r.
Qed.

(** What one transition does to the row it names. *)
Lemma runs_transition_row s u id db :
  db_runs (runs_transition s u id db).2 !! id =
  (fun r => if run_terminal r then r else with_status s u r) <$> db_runs db !! id.
Proof.
  unfold runs_transition, run_terminal. destruct (db_runs db !! id) as [r|] eqn:E; simpl.
  - case_bool_decide; simpl; [by rewrite lookup_insert_eq|by rewrite E].
  - by rewrite E.
Qed.

Lemma runs_transition_other s u id id' db :
  id <> id' -> db_runs (runs_transition s u id db).2 !! id' = db_runs db !! id'.
Proof.
  intros H. unfold runs_transition. destruct (db_runs db !! id); [|done].
  case_bool_decide; [|done]. simpl. by rewrite lookup_insert_ne.
Qed.

Lemma toolCalls_transition_row f id db :
  db_toolCalls (toolCalls_transition f id db).2 !! id =
  (fun r => if call_final r then r else f r) <$> db_toolCalls db !! id.
Proof.
  unfold toolCalls_transition, call_final. destruct (db_toolCalls db !! id) as [r|] eqn:E; simpl.
  - case_bool_decide; simpl; [by rewrite lookup_insert_eq|by rewrite E].
  - by rewrite E.
Qed.

Lemma toolCalls_transition_other f id id' db :
  id <> id' -> db_toolCalls (toolCalls_transition f id db).2 !! id' = db_toolCalls db !! id'.
Proof.
  intros H. unfold toolCalls_transition. destruct (db_toolCalls db !! id); [|done].
  case_bool_decide; [|done]. simpl. by rewrite lookup_insert_ne.
Qed.

#[export] Hint Resolve runs_transition_le messages_create_le toolCalls_create_le
  runs_create_le : swift.

(** The tables a statement leaves alone. *)
Lemma messages_create_runs m db db' : messages_create m db = Ok db' -> db_runs db' = db_runs db.
Proof. unfold messages_create. repeat case_goal; by intros [= <-]. Qed.

Lemma toolCalls_create_runs c r t i db db' :
  toolCalls_create c r t i db = Ok db' -> db_runs db' = db_runs db.
Proof. unfold toolCalls_create. repeat case_goal; by intros [= <-]. Qed.

Lemma toolCalls_transition_runs f id db :
  db_runs (toolCalls_transition f id db).2 = db_runs db.
Proof. unfold toolCalls_transition. by repeat case_goal. Qed.

Lemma messages_create_calls m db db' :
  messages_create m db = Ok db' -> db_toolCalls db' = db_toolCalls db.
Proof. unfold messages_create. repeat case_goal; by intros [= <-]. Qed.

Lemma runs_transition_calls s u id db :
  db_toolCalls (runs_transition s u id db).2 = db_toolCalls db.
Proof. unfold runs_transition. by repeat case_goal. Qed.

Lemma runs_create_calls r s m db db' :
  runs_create r s m db = Ok db' -> db_toolCalls db' = db_toolCalls db.
Proof. unfold runs_create. repeat case_goal; by intros [= <-]. Qed.
