(* ===== verification/Models.v ===== *)
(** The model layer (packages/models/src): stream chunks and their order, the
    model string, the provider registry, and the two deterministic providers. *)
From S2P Require Import Prelude Json Shared Deadlines Context Tools.

(** ** Requests and chunks (types.ts) *)

Record Usage := {
  u_inputTokens : option Z; u_outputTokens : option Z; u_totalTokens : option Z }.

Definition no_usage : Usage :=
  {| u_inputTokens := None; u_outputTokens := None; u_totalTokens := None |}.

Inductive ModelStreamChunk : Type :=
| ch_token (text : string)
| ch_tool_call (toolName callId : string) (arguments : jsval)
| ch_finish (finishReason : string) (usage : Usage).

Record ModelRequest := {
  mr_model : string; mr_messages : list ModelMessage; mr_tools : option (list ToolSchema);
  mr_temperature : jsval; mr_maxTokens : option Z; mr_signal : Signal }.

(** The [ModelError]s of this package. *)
Definition model_error (message : string) : error := PlainError "ModelError" message.

(** What a generator gives: its chunks, then its end or what it throws. *)
Abbreviation Stream := (list ModelStreamChunk * option error)%type.

(** ** The order of chunks (provider.ts)

    Tokens, then tool calls, then exactly one [finish], which is last. *)
Inductive chunk_phase : Type := in_tokens | in_calls | finished.

Definition chunk_step (p : chunk_phase) (c : ModelStreamChunk) : option chunk_phase :=
  match p, c with
  | in_tokens, ch_token _ => Some in_tokens
  | in_tokens, ch_tool_call _ _ _ => Some in_calls
  | in_calls, ch_tool_call _ _ _ => Some in_calls
  | (in_tokens | in_calls), ch_finish _ _ => Some finished
  | _, _ => None
  end.

Fixpoint chunk_run (p : chunk_phase) (cs : list ModelStreamChunk) : option chunk_phase :=
  match cs with
  | [] => Some p
  | c :: cs => match chunk_step p c with Some p => chunk_run p cs | None => None end
  end.

(** A stream keeps the contract: in order, and finished unless it threw. *)
Definition in_order (s : Stream) : bool :=
  match chunk_run in_tokens s.1 with
  | Some finished => true
  | Some _ => match s.2 with Some _ => true | None => false end
  | None => false
  end.

(** What a provider promises to the loop: at every request its stream keeps
    the order of chunks. *)
Class ModelProvider (P : Type) := {
  generate : P -> ModelRequest -> (nat -> bool) -> Stream;
  generate_in_order p req ab : in_order (generate p req ab) = true }.

(** ** Model strings (parser.ts) *)

Record ParsedModel := { pm_provider : string; pm_model : string }.

Definition PROVIDER_ALIASES (p : string) : option string :=
  if String.eqb p "openai" then Some "openai"
  else if String.eqb p "anthropic" then Some "anthropic"
  else if String.eqb p "google" then Some "google"
  else if String.eqb p "gemini" then Some "google"
  else if String.eqb p "claude" then Some "anthropic"
  else if String.eqb p "gpt" then Some "openai"
  else None.

Definition parseModelString (model : string) : res error ParsedModel :=
  if String.eqb model "" then Err (model_error "Model string must not be empty")
  else match split_at "/" model with
  | None => Err (model_error ("Invalid model string " +:+ quoted model +:+
                 ": expected format " +:+ quoted "provider/model-name"))
  | Some (rawProvider, modelName) =>
      if String.eqb rawProvider "" then
        Err (model_error ("Invalid model string " +:+ quoted model +:+ ": provider segment is empty"))
      else if String.eqb modelName "" then
        Err (model_error ("Invalid model string " +:+ quoted model +:+ ": model segment is empty"))
      else Ok {| pm_provider := PROVIDER_ALIASES rawProvider ?? rawProvider; pm_model := modelName |}
  end.

Definition formatModelString (provider model : string) : string :=
  (provider +:+ String "/" model)%string.

(** A canonical provider's name is its own alias, or no alias. *)
Definition canonical (p : string) : bool :=
  match PROVIDER_ALIASES p with Some q => String.eqb q p | None => true end.

Lemma parseModelString_format p m :
  p <> "" -> m <> "" -> canonical p = true -> (forall x, In x (list_ascii_of_string p) -> x <> "/"%char) ->
  parseModelString (formatModelString p m) = Ok {| pm_provider := p; pm_model := m |}.
Proof.
  intros Hp Hm Hc Hs. unfold parseModelString, formatModelString.
  rewrite (proj2 (String.eqb_neq _ "")) by (by destruct p).
  rewrite split_at_app by done. rewrite (proj2 (String.eqb_neq p "")) by done.
  rewrite (proj2 (String.eqb_neq m "")) by done. unfold canonical in Hc.
  destruct (PROVIDER_ALIASES p) as [q|]; [|done]. by reflect_bools; subst.
Qed.

(** Parsing is stable: what is parsed is canonical, and parses to itself. *)
Lemma parseModelString_spec s pm :
  parseModelString s = Ok pm ->
  exists raw, s = (raw +:+ String "/" (pm_model pm))%string /\ raw <> "" /\ pm_model pm <> "" /\
    pm_provider pm = PROVIDER_ALIASES raw ?? raw.
Proof.
  unfold parseModelString. destruct (String.eqb s ""); [done|].
  destruct (split_at "/" s) as [[raw m]|] eqn:E; [|done].
  destruct (String.eqb raw "") eqn:Er; [done|]. destruct (String.eqb m "") eqn:Em; [done|].
  intros [= <-]. reflect_bools. exists raw. split; [by apply split_at_spec in E|done].
Qed.

(** ** The registry (registry.ts) *)

Record ProviderConfig := {
  pc_apiKey : string; pc_baseUrl : option string; pc_defaultModel : option string;
  pc_timeout : option Z }.

(** [{ apiKey }]. *)
Definition key_config (apiKey : string) : ProviderConfig :=
  {| pc_apiKey := apiKey; pc_baseUrl := None; pc_defaultModel := None; pc_timeout := None |}.

Section registry.
Context {P : Type}.

Record ProviderRegistry := {
  factories : gmap string (ProviderConfig -> P);
  configs : gmap string ProviderConfig;
  instances : gmap string P }.

Definition empty_registry : ProviderRegistry :=
  {| factories := ∅; configs := ∅; instances := ∅ |}.

Definition register (providerId : string) (factory : ProviderConfig -> P)
    (config : option ProviderConfig) (r : ProviderRegistry) : ProviderRegistry :=
  {| factories := <[providerId := factory]> (factories r);
     configs := match config with
                | Some c => <[providerId := c]> (configs r)
                | None => configs r
                end;
     instances := delete providerId (instances r) |}.

Definition PROVIDER_KEY_MAP (p : string) : option string :=
  if String.eqb p "openai" then Some "OPENAI_API_KEY"
  else if String.eqb p "anthropic" then Some "ANTHROPIC_API_KEY"
  else if String.eqb p "google" then Some "GOOGLE_API_KEY"
  else None.

(** [process.env]. *)
Context (env : string -> option string).

Definition resolveConfig (providerId : string) (r : ProviderRegistry) : res error ProviderConfig :=
  match configs r !! providerId with
  | Some c => Ok c
  | None =>
      match PROVIDER_KEY_MAP providerId with
      | None => Err (model_error ("No config or known env var for provider " +:+ quoted providerId
                   +:+ ". Register with an explicit config or add a mapping to PROVIDER_KEY_MAP."))
      | Some envVar =>
          let missing := Err (model_error ("Missing API key for provider " +:+ quoted providerId
                   +:+ ": set the " +:+ envVar +:+ " environment variable")) in
          match env envVar with
          | Some apiKey => if String.eqb apiKey "" then missing else Ok (key_config apiKey)
          | None => missing
          end
      end
  end.

Definition getProvider (providerId : string) (r : ProviderRegistry) :
    res error (P * ProviderRegistry) :=
  match instances r !! providerId with
  | Some p => Ok (p, r)
  | None =>
      match factories r !! providerId with
      | None => Err (model_error ("No provider registered for " +:+ quoted providerId))
      | Some factory =>
          let? config := resolveConfig providerId r in
          let instance := factory config in
          Ok (instance, {| factories := factories r; configs := configs r;
                           instances := <[providerId := instance]> (instances r) |})
      end
  end.

Definition resolveForModel (modelString : string) (r : ProviderRegistry) :
    res error (P * string * ProviderRegistry) :=
  let? parsed := parseModelString modelString in
  let? p := getProvider (pm_provider parsed) r in
  Ok (p.1, pm_model parsed, p.2).

(** The cache is coherent: a cached instance is what its factory gives. *)
Definition registry_ok (r : ProviderRegistry) : Prop :=
  forall id p, instances r !! id = Some p ->
  exists f c, factories r !! id = Some f /\ resolveConfig id r = Ok c /\ p = f c.

Lemma empty_registry_ok : registry_ok empty_registry.
Proof. intros id p H. simpl in H. by rewrite lookup_empty in H. Qed.

Lemma register_ok id f c r : registry_ok r -> registry_ok (register id f c r).
Proof.
  intros H id' p. simpl. rewrite lookup_delete. case_decide as E; [done|]. intros Hp.
  destruct (H _ _ Hp) as (f' & c' & Hf & Hc & ->). exists f', c'.
  rewrite lookup_insert_ne by done. repeat split; [done|]. revert Hc.
  unfold resolveConfig. simpl. destruct c; [|done]. by rewrite lookup_insert_ne by done.
Qed.

Lemma getProvider_ok id r p r' :
  registry_ok r -> getProvider id r = Ok (p, r') ->
  registry_ok r' /\ exists f c, factories r !! id = Some f /\ resolveConfig id r = Ok c /\ p = f c.
Proof.
  intros H. unfold getProvider. destruct (instances r !! id) as [q|] eqn:Ei.
  - intros [= <- <-]. split; [done|]. by apply H.
  - destruct (factories r !! id) as [f|] eqn:Ef; [|done].
    destruct (resolveConfig id r) as [c|] eqn:Ec; [|done]. simpl. intros [= <- <-].
    split; [|by eauto 10]. intros id' q. simpl. rewrite lookup_insert. case_decide as E.
    + subst. intros [= <-]. exists f, c. done.
    + intros Hq. destruct (H _ _ Hq) as (f' & c' & ? & ? & ?). by exists f', c'.
Qed.

(** Resolving twice gives the same provider, the second time from the cache. *)
Lemma resolve_cached m r p id r' :
  resolveForModel m r = Ok (p, id, r') -> resolveForModel m r' = Ok (p, id, r').
Proof.
  unfold resolveForModel. destruct (parseModelString m) as [pm|]; [|done]. simpl.
  destruct (getProvider (pm_provider pm) r) as [[q r1]|] eqn:E; [|done]. simpl.
  intros [= <- <- <-]. unfold getProvider in E |- *.
  destruct (instances r !! pm_provider pm) as [q'|] eqn:Ei.
  - simplify_eq. rewrite Ei. done.
  - destruct (factories r !! _); [|done]. destruct (resolveConfig _ r); [|done]. simpl in E.
    simplify_eq. simpl. by rewrite lookup_insert_eq.
Qed.
End registry.
Arguments ProviderRegistry : clear implicits.

(** ** The echo provider (providers/echo.ts) *)

Fixpoint lastUserContent_rev (messages : list ModelMessage) : option string :=
  match messages with
  | [] => None
  | m :: ms =>
      match mm_role m, mm_content m with
      | user_role, Some (JStr s) => Some s
      | _, _ => lastUserContent_rev ms
      end
  end.

Definition lastUserContent (messages : list ModelMessage) : string :=
  lastUserContent_rev (reverse messages) ?? "echo".

(** [text.split(/(\s+)/).filter(t => t.length > 0)]: maximal runs of white
    space and of other characters. *)
Fixpoint runs_of (fuel : nat) (t : text) : list text :=
  match fuel, t with
  | O, _ | _, [] => []
  | S fuel, c :: _ =>
      let p := if is_space c then is_space else (fun x => negb (is_space x)) in
      take_while p t :: runs_of fuel (drop_while p t)
  end.

Definition tokenize (s : string) : list string :=
  let t := list_ascii_of_string s in
  match runs_of (length t) t with
  | [] => ["echo"]
  | ts => map string_of_list_ascii ts
  end%string.

(** Tokens are yielded while the signal, looked at before each, has not
    aborted; [ab k] is its state at the [k]-th look. *)
Fixpoint echo_tokens (ab : nat -> bool) (k : nat) (ts : list string) (usage : Usage) : Stream :=
  match ts with
  | [] => ([ch_finish "stop" usage], None)
  | t :: ts =>
      if ab k then ([], Some (model_error "Echo generation aborted"))
      else let '(cs, e) := echo_tokens ab (S k) ts usage in (ch_token t :: cs, e)
  end.

Definition echo_generate (request : ModelRequest) (ab : nat -> bool) : Stream :=
  if ab 0%nat then ([], Some (model_error "Echo generation aborted before start"))
  else
    let tokens := tokenize (lastUserContent (mr_messages request)) in
    let n := Z.of_nat (length tokens) in
    echo_tokens ab 1 tokens
      {| u_inputTokens := Some 0%Z; u_outputTokens := Some n; u_totalTokens := Some n |}.

Inductive EchoProvider : Type := createEchoProvider.

Lemma echo_tokens_in_order ab k ts u : in_order (echo_tokens ab k ts u) = true.
Proof.
  revert k. induction ts as [|t ts IH]; intros k; simpl; [done|].
  destruct (ab k); [done|]. specialize (IH (S k)). by destruct (echo_tokens ab (S k) ts u).
Qed.

Lemma echo_in_order p req ab :
  in_order ((fun (_ : EchoProvider) => echo_generate) p req ab) = true.
Proof.
  unfold echo_generate. destruct (ab 0%nat); [done|]. apply echo_tokens_in_order.
Qed.

#[export] Instance echo_provider : ModelProvider EchoProvider :=
  {| generate := fun _ => echo_generate; generate_in_order := echo_in_order |}.

Lemma drop_while_le {A} (p : A -> bool) l : (length (drop_while p l) <= length l)%nat.
Proof. induction l as [|x l IH]; simpl; [done|]. destruct (p x); simpl; lia. Qed.

Lemma runs_of_concat fuel t : (length t <= fuel)%nat -> concat (runs_of fuel t) = t.
Proof.
  revert t. induction fuel as [|fuel IH]; intros [|c t] Hf; simpl in *; try done; try lia.
  set (p := if is_space c then is_space else fun x => negb (is_space x)).
  assert (Hp : p c = true) by (subst p; destruct (is_space c) eqn:E; by rewrite ?E).
  rewrite Hp. simpl. rewrite IH; [by rewrite take_drop_while|].
  pose proof (drop_while_le p t). lia.
Qed.

Definition chunk_text (c : ModelStreamChunk) : string :=
  match c with ch_token t => t | _ => "" end.

Definition stream_text (cs : list ModelStreamChunk) : string :=
  foldr String.append "" (map chunk_text cs).

Lemma append_list_ascii l1 l2 :
  string_of_list_ascii (l1 ++ l2) = (string_of_list_ascii l1 +:+ string_of_list_ascii l2)%string.
Proof. induction l1 as [|c l IH]; simpl; [done|]. by rewrite IH. Qed.

Lemma echo_tokens_text k ts u :
  stream_text (echo_tokens (fun _ => false) k ts u).1 = foldr String.append "" ts.
Proof.
  revert k. induction ts as [|t ts IH]; intros k; simpl; [done|]. specialize (IH (S k)).
  destruct (echo_tokens _ (S k) ts u). unfold stream_text in *. simpl in *. by rewrite IH.
Qed.

Lemma tokenize_concat s : s <> ""%string -> foldr String.append "" (tokenize s) = s.
Proof.
  intros Hs. unfold tokenize. pose proof (runs_of_concat (length (list_ascii_of_string s))
    (list_ascii_of_string s) (Nat.le_refl _)) as H.
  assert (Hc : forall ls : list text, foldr String.append "" (map string_of_list_ascii ls)
               = string_of_list_ascii (concat ls)).
  { induction ls as [|l ls IH]; simpl; [done|]. by rewrite IH, append_list_ascii. }
  destruct (runs_of _ _) as [|r rs] eqn:E.
  - simpl in H. destruct s; [done|]. discriminate H.
  - rewrite Hc, H. apply string_of_list_ascii_of_string.
Qed.

(** ** The tool fixture (providers/tool-fixture.ts) *)

Definition FIXTURE_TOOL_NAME : string := "local_echo".
Definition FIXTURE_CALL_ID : string := "fixture_call_1".
Definition FIXTURE_ARGUMENTS : json :=
  JObj [("message", JStr "hello from the local fixture"); ("shout", JBool false)]%string.

Definition FINAL_TURN_TOKENS : list string :=
  ["The "; "local_echo "; "tool "; "responded "; "successfully."]%string.

Fixpoint fixture_tokens (ab : nat -> bool) (k : nat) (ts : list string) : Stream :=
  match ts with
  | [] => ([ch_finish "stop" {| u_inputTokens := Some 0; u_outputTokens := Some 5;
                                u_totalTokens := Some 5 |}%Z], None)
  | t :: ts =>
      if ab k then ([], Some (model_error "Tool-fixture generation aborted mid-stream"))
      else let '(cs, e) := fixture_tokens ab (S k) ts in (ch_token t :: cs, e)
  end.

(** The turn is the number of tool messages in the request. *)
Definition fixture_turn (request : ModelRequest) : nat :=
  length (List.filter (fun m => bool_decide (mm_role m = tool_role)) (mr_messages request)).

Definition fixture_generate (request : ModelRequest) (ab : nat -> bool) : Stream :=
  if ab 0%nat then ([], Some (model_error "Tool-fixture generation aborted before start"))
  else if (fixture_turn request =? 0)%nat then
    if ab 1%nat then
      ([ch_token "Calling local_echo… "],
       Some (model_error "Tool-fixture generation aborted mid-stream"))
    else
      ([ch_token "Calling local_echo… ";
        ch_tool_call FIXTURE_TOOL_NAME FIXTURE_CALL_ID (Some FIXTURE_ARGUMENTS);
        ch_finish "tool_calls" {| u_inputTokens := Some 0; u_outputTokens := Some 1;
                                  u_totalTokens := Some 1 |}%Z], None)
  else fixture_tokens ab 1 FINAL_TURN_TOKENS.

Inductive FixtureProvider : Type := createToolFixtureProvider.

Lemma fixture_in_order p req ab :
  in_order ((fun (_ : FixtureProvider) => fixture_generate) p req ab) = true.
Proof.
  unfold fixture_generate. destruct (ab 0%nat); [done|].
  destruct (_ =? 0)%nat; [by destruct (ab 1%nat)|]. simpl.
  by repeat match goal with |- context [ab ?n] => destruct (ab n) end.
Qed.

#[export] Instance fixture_provider : ModelProvider FixtureProvider :=
  {| generate := fun _ => fixture_generate; generate_in_order := fixture_in_order |}.

Definition is_call (c : ModelStreamChunk) : bool :=
  match c with ch_tool_call _ _ _ => true | _ => false end.

(** Once a request carries any tool message, the fixture calls no tool. *)
Lemma fixture_no_call req ab :
  (0 < fixture_turn req)%nat -> existsb is_call (fixture_generate req ab).1 = false.
Proof.
  intros H. unfold fixture_generate. destruct (ab 0%nat); [done|].
  destruct (fixture_turn req); [lia|]. simpl.
  by repeat match goal with |- context [ab ?n] => destruct (ab n) end.
Qed.
