(* ===== verification/Providers.v ===== *)
(** What the vendor providers share (packages/models/src): the errors of
    types.ts, the signals of signals.ts, values as text.

    A vendor's SDK is a parameter: what its client answers to a request, either
    a refusal or the events of the stream followed by its end or by what it
    throws.  What the providers make of the request and of the events is
    translated from the code. *)
From S2P Require Import Prelude Json Shared Deadlines Context Tools Models.

(** ** Errors (types.ts) *)

Record ModelError := {
  me_message : string; me_provider : string; me_statusCode : jsval; me_retryable : bool }.

(** What can be thrown: a [ModelError], an object (an [Error] or not) with its
    own [status] and [statusCode] and the message it reads as, or a primitive. *)
Inductive thrown : Type :=
| thrown_model (e : ModelError)
| thrown_object (status statusCode : jsval) (message : string)
| thrown_primitive (message : string).

Definition plain_thrown (message : string) : thrown := thrown_object None None message.

Definition as_number (v : jsval) : jsval :=
  match v with Some (JNum _ | JFloat _) => v | _ => None end.

Definition RETRYABLE_STATUS_CODES : list Z := [429; 500; 502; 503; 504]%Z.

Definition retryable_status (s : jsval) : bool :=
  match s with Some (JNum n) => existsb (Z.eqb n) RETRYABLE_STATUS_CODES | _ => false end.

Definition normalizeError (e : thrown) (provider : string) : ModelError :=
  match e with
  | thrown_model e => e
  | thrown_object status statusCode message =>
      let code := match as_number status with Some n => Some n | None => as_number statusCode end in
      {| me_message := message; me_provider := provider; me_statusCode := code;
         me_retryable := retryable_status code |}
  | thrown_primitive message =>
      {| me_message := message; me_provider := provider; me_statusCode := None;
         me_retryable := false |}
  end.

(** What the consumer of the generator catches. *)
Definition raised (e : ModelError) : error := model_error (me_message e).

(** ** Signals (signals.ts) *)

(** [AbortSignal.timeout(ms)] made at an instant. *)
Definition timeout_signal (ms now : Z) : Signal :=
  Some (now + ms, by_caller (PlainError "TimeoutError" "The operation was aborted due to timeout"))%Z.

Definition mergeSignals (userSignal : Signal) (timeoutMs : option Z) (now : Z) : Signal :=
  match timeoutMs with
  | Some ms => if (0 <? ms)%Z then any userSignal (timeout_signal ms now) else userSignal
  | None => userSignal
  end.

(** ** Values as text *)
Definition text_of (v : jsval) : string :=
  match v with Some v => to_text v | None => "undefined" end%string.

(** An element of a [join]. *)
Definition joined (v : jsval) : string :=
  match v with None | Some JNull => "" | Some v => to_text v end%string.

Definition role_string (r : MessageRole) : string :=
  match r with
  | system_role => "system" | user_role => "user" | assistant_role => "assistant"
  | tool_role => "tool" end.

(** The members of an object that is spread. *)
Definition members (v : json) : list (string * json) :=
  match v with JObj ms => ms | _ => [] end.

(** A non-empty list, as the guards [l && l.length > 0] let through. *)
Definition some_list {A} (l : option (list A)) : option (list A) :=
  match l with None | Some [] => None | l => l end.

(** ** Models and texts *)

(** [s1 || s2] on optional texts: the empty text is falsy. *)
Definition nonempty_text (s : option string) : option string :=
  match s with Some t => if String.eqb t "" then None else Some t | None => None end.

Definition no_model (provider : string) : ModelError :=
  normalizeError (plain_thrown "No model specified and no defaultModel configured") provider.

(** [request.model || defaultModel], when it is not empty. *)
Definition chosen_model (request : ModelRequest) (config : ProviderConfig) : option string :=
  match nonempty_text (Some (mr_model request)) with
  | Some m => Some m
  | None => nonempty_text (pc_defaultModel config)
  end.
