(* ===== verification/Anthropic.v ===== *)
(** The Anthropic provider (packages/models/src/providers/anthropic.ts): the
    request it makes of a conversation, and the chunks it makes of the events of
    the vendor's stream. *)
From S2P Require Import Prelude Json Shared Deadlines Context Tools Models Providers.

Inductive content_block : Type :=
| text_block
| tool_use_block (id name : string)
| other_block.

Inductive content_delta : Type :=
| text_delta (text : string)
| input_json_delta (partial_json : string)
| other_delta.

Inductive event : Type :=
| message_start (input_tokens : option Z)
| content_block_start (index : Z) (block : content_block)
| content_block_delta (index : Z) (delta : content_delta)
| content_block_stop (index : Z)
| message_delta (stop_reason : option string) (output_tokens : option Z)
| other_event.

Definition is_system (m : ModelMessage) : bool := bool_decide (mm_role m = system_role).

Definition extractSystemPrompt (messages : list ModelMessage) : option string :=
  match List.filter is_system messages with
  | [] => None
  | parts => Some (join (String "010" (String "010" "")) (map (fun m => joined (mm_content m)) parts))
  end.

Definition tool_use (tc : ModelToolCall) : json :=
  obj_literal [("type", Some (JStr "tool_use")); ("id", Some (mtc_callId tc));
               ("name", Some (mtc_toolName tc)); ("input", mtc_arguments tc)]%string.

Definition mapMessage (msg : ModelMessage) : json :=
  let plain := obj_literal [("role", Some (JStr (role_string (mm_role msg))));
                            ("content", mm_content msg)]%string in
  match mm_role msg, some_list (mm_toolCalls msg) with
  | tool_role, _ =>
      obj_literal [("role", Some (JStr "user"));
        ("content", Some (JArr [obj_literal [("type", Some (JStr "tool_result"));
           ("tool_use_id", nullish (mm_toolCallId msg) (Some (JStr "")));
           ("content", mm_content msg)]]))]%string
  | assistant_role, Some calls =>
      obj_literal [("role", Some (JStr "assistant"));
        ("content", Some (JArr (
           (if truthy_val (mm_content msg)
            then [obj_literal [("type", Some (JStr "text")); ("text", mm_content msg)]] else [])
           ++ map tool_use calls)))]%string
  | _, _ => plain
  end.

Definition mapTool (t : ToolSchema) : json :=
  JObj [("name", JStr (ts_name t)); ("description", JStr (ts_description t));
        ("input_schema", JObj (fold_left (fun o m => obj_set m.1 m.2 o)
           (members (ts_parameters t)) [("type", JStr "object")]))]%string.

Definition DEFAULT_MAX_TOKENS : Z := 4096.

(** The body of the request. *)
Definition params (request : ModelRequest) : json :=
  let nonSystem := List.filter (fun m => negb (is_system m)) (mr_messages request) in
  obj_literal [("model", Some (JStr (mr_model request)));
    ("messages", Some (JArr (map mapMessage nonSystem)));
    ("max_tokens", Some (JNum (mr_maxTokens request ?? DEFAULT_MAX_TOKENS)));
    ("system", JStr <$> extractSystemPrompt (mr_messages request));
    ("tools", (fun ts => JArr (map mapTool ts)) <$> some_list (mr_tools request));
    ("temperature", mr_temperature request);
    ("stream", Some (JBool true))]%string.

(** ** The stream *)

Record ToolCallBuffer := { tb_callId : string; tb_toolName : string; tb_jsonParts : list string }.

Record gen := { g_inputTokens : option Z; g_toolBuffers : gmap Z ToolCallBuffer }.

Definition gen0 : gen := {| g_inputTokens := None; g_toolBuffers := ∅ |}.

(** [raw.length > 0 ? JSON.parse(raw) : {}], and the text itself where it does
    not parse. *)
Definition parsed_input (raw : string) : json :=
  if String.eqb raw "" then JObj []
  else match parse raw with Some v => v | None => JStr raw end.

Definition push_part (p : string) (b : ToolCallBuffer) : ToolCallBuffer :=
  {| tb_callId := tb_callId b; tb_toolName := tb_toolName b; tb_jsonParts := tb_jsonParts b ++ [p] |}.

Definition call_chunk (b : ToolCallBuffer) : ModelStreamChunk :=
  ch_tool_call (tb_toolName b) (tb_callId b) (Some (parsed_input (join "" (tb_jsonParts b)))).

Definition total (i o : option Z) : option Z :=
  match i, o with Some i, Some o => Some (i + o)%Z | _, _ => None end.

Definition set_buffers f (g : gen) : gen :=
  {| g_inputTokens := g_inputTokens g; g_toolBuffers := f (g_toolBuffers g) |}.

(** One event of the stream: what is yielded, and the state. *)
Definition on_event (g : gen) (e : event) : list ModelStreamChunk * gen :=
  match e with
  | message_start i => ([], {| g_inputTokens := i; g_toolBuffers := g_toolBuffers g |})
  | content_block_start index (tool_use_block id name) =>
      ([], set_buffers (insert index {| tb_callId := id; tb_toolName := name; tb_jsonParts := [] |}) g)
  | content_block_start _ _ => ([], g)
  | content_block_delta _ (text_delta t) => ([ch_token t], g)
  | content_block_delta index (input_json_delta p) =>
      match g_toolBuffers g !! index with
      | Some b => ([], set_buffers (insert index (push_part p b)) g)
      | None => ([], g)
      end
  | content_block_delta _ other_delta => ([], g)
  | content_block_stop index =>
      match g_toolBuffers g !! index with
      | Some b => ([call_chunk b], set_buffers (delete index) g)
      | None => ([], g)
      end
  | message_delta stop out =>
      ([ch_finish (stop ?? "end_turn"%string)
          {| u_inputTokens := g_inputTokens g; u_outputTokens := out;
             u_totalTokens := total (g_inputTokens g) out |}], g)
  | other_event => ([], g)
  end.

Fixpoint on_events (g : gen) (es : list event) : list ModelStreamChunk * gen :=
  match es with
  | [] => ([], g)
  | e :: es =>
      let '(cs, g) := on_event g e in
      let '(cs', g) := on_events g es in (cs ++ cs', g)
  end.

Definition chunks (es : list event) : list ModelStreamChunk := (on_events gen0 es).1.

(** 529, overloaded, is worth a retry. *)
Definition wrapError (e : thrown) : ModelError :=
  let err := normalizeError e "anthropic" in
  match me_statusCode err with
  | Some (JNum 529) =>
      if me_retryable err then err
      else {| me_message := me_message err; me_provider := "anthropic";
              me_statusCode := Some (JNum 529); me_retryable := true |}
  | _ => err
  end.

(** The vendor's client, and the instant a request is made at. *)
Record provider := {
  config : ProviderConfig;
  create : json -> Signal -> res thrown (list event * option thrown);
  clock : ModelRequest -> Z }.

Definition generate (p : provider) (request : ModelRequest) (ab : nat -> bool) : Stream :=
  let signal := mergeSignals (mr_signal request) (pc_timeout (config p)) (clock p request) in
  match create p (params request) signal with
  | Err e => ([], Some (raised (wrapError e)))
  | Ok (es, e) => (chunks es, (fun e => raised (wrapError e)) <$> e)
  end.
