(* ===== verification/OpenAI.v ===== *)
(** The OpenAI provider (packages/models/src/providers/openai.ts): the request,
    the accumulator of streamed tool calls, and the chunks it yields. *)
From S2P Require Import Prelude Json Shared Deadlines Context Tools Models Providers.

Definition tool_call_json (tc : ModelToolCall) : json :=
  obj_literal [("id", Some (mtc_callId tc)); ("type", Some (JStr "function"));
    ("function", Some (obj_literal [("name", Some (mtc_toolName tc));
       ("arguments", match mtc_arguments tc with
                     | Some (JStr s) => Some (JStr s)
                     | a => JStr <$> stringify_val a
                     end)]))]%string.

Definition toOpenAIMessage (msg : ModelMessage) : json :=
  match mm_role msg with
  | system_role => obj_literal [("role", Some (JStr "system")); ("content", mm_content msg)]
  | user_role => obj_literal [("role", Some (JStr "user")); ("content", mm_content msg)]
  | assistant_role =>
      obj_literal [("role", Some (JStr "assistant"));
        ("content", if truthy_val (mm_content msg) then mm_content msg else Some JNull);
        ("tool_calls", (fun cs => JArr (map tool_call_json cs)) <$> some_list (mm_toolCalls msg))]
  | tool_role =>
      obj_literal [("role", Some (JStr "tool"));
        ("tool_call_id", nullish (mm_toolCallId msg) (Some (JStr ""))); ("content", mm_content msg)]
  end%string.

Definition toOpenAIMessages (messages : list ModelMessage) : list json := map toOpenAIMessage messages.

Definition toOpenAITools (tools : list ToolSchema) : list json :=
  map (fun t => JObj [("type", JStr "function");
    ("function", JObj [("name", JStr (ts_name t)); ("description", JStr (ts_description t));
                       ("parameters", ts_parameters t)])]%string) tools.

Definition params (model : string) (request : ModelRequest) : json :=
  obj_literal [("model", Some (JStr model));
    ("messages", Some (JArr (toOpenAIMessages (mr_messages request))));
    ("tools", (fun ts => JArr (toOpenAITools ts)) <$> some_list (mr_tools request));
    ("stream", Some (JBool true));
    ("stream_options", Some (JObj [("include_usage", JBool true)]));
    ("temperature", mr_temperature request);
    ("max_tokens", JNum <$> mr_maxTokens request)]%string.

(** ** The stream *)

Record tool_delta := {
  td_index : Z; td_id : option string; td_name : option string; td_arguments : option string }.

Record choice := {
  c_content : option string; c_tool_calls : list tool_delta; c_finish_reason : option string }.

(** A chunk: its first choice, and the usage that the last chunk carries. *)
Record chunk := { k_choice : option choice; k_usage : option Usage }.

Record PartialToolCall := { pt_id : string; pt_name : string; pt_arguments : string }.

Definition no_call : PartialToolCall := {| pt_id := ""; pt_name := ""; pt_arguments := "" |}.

(** The accumulator, a [Map] in insertion order. *)
Abbreviation accum := (list (Z * PartialToolCall)).

Fixpoint accum_get (i : Z) (m : accum) : option PartialToolCall :=
  match m with [] => None | (j, a) :: m => if Z.eqb i j then Some a else accum_get i m end.

Fixpoint accum_set (i : Z) (a : PartialToolCall) (m : accum) : accum :=
  match m with
  | [] => [(i, a)]
  | (j, b) :: m => if Z.eqb i j then (j, a) :: m else (j, b) :: accum_set i a m
  end.

Definition add_delta (d : tool_delta) (acc : PartialToolCall) : PartialToolCall :=
  {| pt_id := nonempty_text (td_id d) ?? pt_id acc;
     pt_name := nonempty_text (td_name d) ?? pt_name acc;
     pt_arguments := (pt_arguments acc +:+ nonempty_text (td_arguments d) ?? "")%string |}.

Definition on_delta (m : accum) (d : tool_delta) : accum :=
  accum_set (td_index d) (add_delta d (accum_get (td_index d) m ?? no_call)) m.

Record gen := { o_accum : accum; o_finishReason : string; o_usage : Usage }.

Definition gen0 : gen := {| o_accum := []; o_finishReason := "stop"; o_usage := no_usage |}.

Definition on_chunk (g : gen) (k : chunk) : list ModelStreamChunk * gen :=
  let usage := k_usage k ?? o_usage g in
  match k_choice k with
  | Some c =>
      (match nonempty_text (c_content c) with Some t => [ch_token t] | None => [] end,
       {| o_accum := fold_left on_delta (c_tool_calls c) (o_accum g);
          o_finishReason := nonempty_text (c_finish_reason c) ?? o_finishReason g;
          o_usage := usage |})
  | None => ([], {| o_accum := o_accum g; o_finishReason := o_finishReason g; o_usage := usage |})
  end.

Fixpoint on_chunks (g : gen) (ks : list chunk) : list ModelStreamChunk * gen :=
  match ks with
  | [] => ([], g)
  | k :: ks =>
      let '(cs, g) := on_chunk g k in
      let '(cs', g) := on_chunks g ks in (cs ++ cs', g)
  end.

Definition index_le (a b : Z * PartialToolCall) : Prop := (a.1 <= b.1)%Z.

#[export] Instance index_le_dec : RelDecision index_le.
Proof. intros a b. unfold index_le. apply _. Defined.

Definition parsedArgs (arguments : string) : json :=
  match parse (if String.eqb arguments "" then "{}" else arguments)%string with
  | Some v => v
  | None => JStr arguments
  end.

Definition call_chunk (c : Z * PartialToolCall) : ModelStreamChunk :=
  ch_tool_call (pt_name c.2) (pt_id c.2) (Some (parsedArgs (pt_arguments c.2))).

(** What is yielded once the stream is exhausted. *)
Definition flush (g : gen) : list ModelStreamChunk :=
  map call_chunk (merge_sort index_le (o_accum g)) ++ [ch_finish (o_finishReason g) (o_usage g)].

Record provider := {
  config : ProviderConfig;
  create : json -> Signal -> res thrown (list chunk * option thrown);
  clock : ModelRequest -> Z }.

Definition generate (p : provider) (request : ModelRequest) (ab : nat -> bool) : Stream :=
  let signal := mergeSignals (mr_signal request) (pc_timeout (config p)) (clock p request) in
  match chosen_model request (config p) with
  | None => ([], Some (raised (no_model "openai")))
  | Some model =>
      match create p (params model request) signal with
      | Err e => ([], Some (raised (normalizeError e "openai")))
      | Ok (ks, e) =>
          let '(cs, g) := on_chunks gen0 ks in
          match e with
          | Some e => (cs, Some (raised (normalizeError e "openai")))
          | None => (cs ++ flush g, None)
          end
      end
  end.
