(* ===== verification/Google.v ===== *)
(** The Google provider (packages/models/src/providers/google.ts): the request,
    and the chunks it makes of the candidates of the vendor's stream. *)
From S2P Require Import Prelude Json Shared Deadlines Context Tools Models Providers.

Definition FINISH_REASON_MAP (raw : string) : option string :=
  if String.eqb raw "STOP" then Some "stop"
  else if String.eqb raw "MAX_TOKENS" then Some "max_tokens"
  else if String.eqb raw "SAFETY" then Some "safety"
  else if String.eqb raw "RECITATION" then Some "recitation"
  else if String.eqb raw "OTHER" then Some "other"
  else None.

Definition lower_char (c : ascii) : ascii :=
  let n := nat_of_ascii c in
  if ((65 <=? n) && (n <=? 90) || (192 <=? n) && (n <=? 222) && negb (n =? 215))%nat
  then ascii_of_nat (n + 32) else c.

Definition toLowerCase (s : string) : string := on_text (map lower_char) s.

Definition mapFinishReason (raw : option string) : string :=
  match nonempty_text raw with
  | None => "stop"
  | Some raw => FINISH_REASON_MAP raw ?? toLowerCase raw
  end.

Definition is_object (v : jsval) : bool :=
  match v with Some (JArr _ | JObj _) => true | _ => false end.

Definition function_call (tc : ModelToolCall) : json :=
  JObj [("functionCall", JObj [("name", mtc_toolName tc);
     ("args", match mtc_arguments tc with
              | Some (JArr _ as a) | Some (JObj _ as a) => a | _ => JObj [] end)])]%string.

Definition content_json (role : string) (parts : list json) : json :=
  JObj [("role", JStr role); ("parts", JArr parts)]%string.

Definition text_part (v : jsval) : json := obj_literal [("text", v)]%string.

(** [JSON.parse(msg.content)], or the content as a result. *)
Definition tool_response (content : jsval) : json :=
  match parse (text_of content) with
  | Some v => v
  | None => obj_literal [("result", content)]%string
  end.

Record MappedMessages := { systemInstruction : jsval; contents : list json }.

Definition map_message (m : MappedMessages) (msg : ModelMessage) : MappedMessages :=
  let content c := {| systemInstruction := systemInstruction m; contents := contents m ++ [c] |} in
  match mm_role msg with
  | system_role =>
      {| systemInstruction :=
           if truthy_val (systemInstruction m)
           then Some (JStr (text_of (systemInstruction m) +:+ String "010" (text_of (mm_content msg))))
           else mm_content msg;
         contents := contents m |}
  | user_role => content (content_json "user" [text_part (mm_content msg)])
  | assistant_role =>
      content (content_json "model"
        ((if truthy_val (mm_content msg) then [text_part (mm_content msg)] else [])
         ++ map function_call (some_list (mm_toolCalls msg) ?? [])))
  | tool_role =>
      content (content_json "function"
        [JObj [("functionResponse", obj_literal
           [("name", nullish (mm_toolName msg) (nullish (mm_toolCallId msg) (Some (JStr ""))));
            ("response", Some (tool_response (mm_content msg)))])]])
  end%string.

Definition toGoogleMessages (messages : list ModelMessage) : MappedMessages :=
  fold_left map_message messages {| systemInstruction := None; contents := [] |}.

Definition toGoogleTools (tools : list ToolSchema) : list json :=
  map (fun t => JObj [("name", JStr (ts_name t)); ("description", JStr (ts_description t));
                      ("parameters", ts_parameters t)])%string tools.

(** The arguments of [getGenerativeModel] and of [generateContentStream]. *)
Definition model_params (model : string) (request : ModelRequest) : json :=
  let m := toGoogleMessages (mr_messages request) in
  obj_literal [("model", Some (JStr model));
    ("systemInstruction", if truthy_val (systemInstruction m) then systemInstruction m else None);
    ("generationConfig", (fun t => JObj [("temperature", t)]) <$> mr_temperature request)]%string.

Definition stream_params (request : ModelRequest) : json :=
  obj_literal [("contents", Some (JArr (contents (toGoogleMessages (mr_messages request)))));
    ("tools", (fun ts => JArr [JObj [("functionDeclarations", JArr (toGoogleTools ts))]])
              <$> some_list (mr_tools request));
    ("generationConfig", (fun n => JObj [("maxOutputTokens", JNum n)]) <$> mr_maxTokens request)]%string.

(** ** The stream *)

Record part := { p_text : option string; p_functionCall : option (string * jsval) }.

Record candidate := { cd_parts : list part; cd_finishReason : option string }.

Record chunk := { k_candidate : option candidate; k_usage : option Usage }.

Record gen := { g_finishReason : string; g_usage : Usage; g_ids : nat }.

Definition gen0 : gen := {| g_finishReason := "stop"; g_usage := no_usage; g_ids := 0 |}.

Section stream.
(** The identifiers that [nanoid] gives, in order. *)
Context (nanoid : nat -> string).

Definition on_part (ids : nat) (p : part) : list ModelStreamChunk * nat :=
  let tokens := match nonempty_text (p_text p) with Some t => [ch_token t] | None => [] end in
  match p_functionCall p with
  | Some (name, args) =>
      (tokens ++ [ch_tool_call name (prefixedId "tc_" (nanoid ids)) (nullish args (Some (JObj [])))],
       S ids)
  | None => (tokens, ids)
  end.

Fixpoint on_parts (ids : nat) (ps : list part) : list ModelStreamChunk * nat :=
  match ps with
  | [] => ([], ids)
  | p :: ps =>
      let '(cs, ids) := on_part ids p in
      let '(cs', ids) := on_parts ids ps in (cs ++ cs', ids)
  end.

Definition on_chunk (g : gen) (k : chunk) : list ModelStreamChunk * gen :=
  let usage := k_usage k ?? g_usage g in
  match k_candidate k with
  | Some c =>
      let '(cs, ids) := on_parts (g_ids g) (cd_parts c) in
      (cs, {| g_finishReason := match nonempty_text (cd_finishReason c) with
                                | Some r => mapFinishReason (Some r)
                                | None => g_finishReason g
                                end;
              g_usage := usage; g_ids := ids |})
  | None => ([], {| g_finishReason := g_finishReason g; g_usage := usage; g_ids := g_ids g |})
  end.

(** The loop over the vendor's chunks; [ab k] is the signal when the [k]-th
    arrives, and an aborted one leaves the loop without an error. *)
Fixpoint on_chunks (ab : nat -> bool) (k : nat) (g : gen) (ks : list chunk) (e : option thrown) :
    Stream :=
  match ks with
  | [] =>
      match e with
      | Some e => ([], Some (raised (normalizeError e "google")))
      | None => ([ch_finish (g_finishReason g) (g_usage g)], None)
      end
  | c :: ks =>
      if ab k then ([ch_finish (g_finishReason g) (g_usage g)], None)
      else
        let '(cs, g) := on_chunk g c in
        let '(cs', r) := on_chunks ab (S k) g ks e in (cs ++ cs', r)
  end.
End stream.

Record provider := {
  config : ProviderConfig;
  create : json -> json -> res thrown (list chunk * option thrown);
  ids : ModelRequest -> nat -> string }.

Definition generate (p : provider) (request : ModelRequest) (ab : nat -> bool) : Stream :=
  match chosen_model request (config p) with
  | None => ([], Some (raised (no_model "google")))
  | Some model =>
      match create p (model_params model request) (stream_params request) with
      | Err e => ([], Some (raised (normalizeError e "google")))
      | Ok (ks, e) => on_chunks (ids p request) ab 0 gen0 ks e
      end
  end.
