(* ===== verification/ProvidersProps.v ===== *)
(** What makes the vendor providers correct: the order of the chunks they
    yield, and the reassembly of tool calls that arrive in fragments. *)
From S2P Require Import Prelude Json Shared Deadlines Context Tools Models Providers Anthropic OpenAI Google.

(** ** Order of chunks *)

Definition is_token (c : ModelStreamChunk) : bool :=
  match c with ch_token _ => true | _ => false end.

Lemma chunk_run_app p cs cs' :
  chunk_run p (cs ++ cs') = match chunk_run p cs with Some q => chunk_run q cs' | None => None end.
Proof.
  revert p. induction cs as [|c cs IH]; intros p; simpl; [done|]. destruct (chunk_step p c); [|done].
  apply IH.
Qed.

Lemma chunk_run_tokens cs : forallb is_token cs = true -> chunk_run in_tokens cs = Some in_tokens.
Proof. induction cs as [|[] cs IH]; simpl; try done. Qed.

Lemma chunk_run_calls p cs r u :
  p <> finished -> forallb is_call cs = true -> chunk_run p (cs ++ [ch_finish r u]) = Some finished.
Proof.
  revert p. induction cs as [|[] cs IH]; intros p Hp; simpl; try done; [by destruct p|].
  intros Hc. destruct p; [by apply IH..|done].
Qed.

Lemma in_order_tokens ts e : forallb is_token ts = true -> in_order (ts, Some e) = true.
Proof. intros Ht. unfold in_order. simpl. by rewrite chunk_run_tokens. Qed.

Lemma in_order_complete ts cs r u :
  forallb is_token ts = true -> forallb is_call cs = true ->
  in_order (ts ++ cs ++ [ch_finish r u], None) = true.
Proof.
  intros Ht Hc. unfold in_order. simpl. rewrite chunk_run_app, chunk_run_tokens by done.
  by rewrite chunk_run_calls.
Qed.

(** ** Generic lemmas on sorting *)

Lemma list_merge_map {A B} (R : relation A) (S : relation B) `{!RelDecision R, !RelDecision S}
    (f : A -> B) (HR : forall a b, S (f a) (f b) <-> R a b) l1 l2 :
  list_merge S (map f l1) (map f l2) = map f (list_merge R l1 l2).
Proof.
  revert l2. induction l1 as [|x l1 IH1]; intros l2; [by destruct l2|].
  induction l2 as [|y l2 IH2]; [done|]. simpl.
  destruct (decide (R x y)) as [r|r].
  - rewrite decide_True by (by apply HR). simpl. f_equal. apply (IH1 (y :: l2)).
  - rewrite decide_False by (by rewrite HR). simpl. f_equal. apply IH2.
Qed.

Lemma merge_stack_map {A B} (R : relation A) (S : relation B) `{!RelDecision R, !RelDecision S}
    (f : A -> B) (HR : forall a b, S (f a) (f b) <-> R a b) st l :
  merge_list_to_stack S (map (fmap (map f)) st) (map f l)
  = map (fmap (map f)) (merge_list_to_stack R st l).
Proof.
  revert l. induction st as [|[l'|] st IH]; intros l; simpl; [done| |done].
  by rewrite (list_merge_map R S f HR), IH.
Qed.

Lemma merge_stack_done_map {A B} (R : relation A) (S : relation B)
    `{!RelDecision R, !RelDecision S} (f : A -> B) (HR : forall a b, S (f a) (f b) <-> R a b) st :
  merge_stack S (map (fmap (map f)) st) = map f (merge_stack R st).
Proof.
  induction st as [|[l|] st IH]; simpl; [done| |done]. by rewrite IH, (list_merge_map R S f HR).
Qed.

(** Sorting commutes with an order embedding. *)
Lemma merge_sort_map {A B} (R : relation A) (S : relation B) `{!RelDecision R, !RelDecision S}
    (f : A -> B) (HR : forall a b, S (f a) (f b) <-> R a b) l :
  merge_sort S (map f l) = map f (merge_sort R l).
Proof.
  unfold merge_sort. change (@nil (option (list B))) with (map (fmap (M := option) (map f)) []).
  generalize (@nil (option (list A))). induction l as [|x l IH]; intros st; simpl.
  - by apply merge_stack_done_map.
  - rewrite <- IH. f_equal. apply (merge_stack_map R S f HR st [x]).
Qed.

(** ** OpenAI *)
Module OpenAIProps.
Import OpenAI.

(** The reference: all the deltas of the stream, the calls they are about, and
    each call as its own deltas make it. *)
Definition deltas (ks : list chunk) : list tool_delta :=
  ks ≫= (fun k => match k_choice k with Some c => c_tool_calls c | None => [] end).

Definition call_at (ds : list tool_delta) (i : Z) : PartialToolCall :=
  fold_left (fun a d => add_delta d a) (List.filter (fun d => Z.eqb (td_index d) i) ds) no_call.

Definition indices (ds : list tool_delta) : list Z := merge_sort Z.le (remove_dups (map td_index ds)).

Definition assembled (ds : list tool_delta) : list ModelStreamChunk :=
  map (fun i => call_chunk (i, call_at ds i)) (indices ds).

Definition texts (ks : list chunk) : list ModelStreamChunk :=
  ks ≫= (fun k => match k_choice k with
                  | Some c => match nonempty_text (c_content c) with Some t => [ch_token t] | None => [] end
                  | None => [] end).

Lemma on_chunks_texts g ks : (on_chunks g ks).1 = texts ks.
Proof.
  revert g. induction ks as [|k ks IH]; intros g; [done|]. cbn [on_chunks texts].
  destruct (on_chunk g k) as [cs g'] eqn:E. specialize (IH g').
  destruct (on_chunks g' ks) as [cs' g'']. simpl in *. rewrite IH. unfold texts. csimpl.
  unfold on_chunk in E. by destruct (k_choice k); simplify_eq.
Qed.

Lemma on_chunks_accum g ks : o_accum (on_chunks g ks).2 = fold_left on_delta (deltas ks) (o_accum g).
Proof.
  revert g. induction ks as [|k ks IH]; intros g; [done|]. cbn [on_chunks].
  destruct (on_chunk g k) as [cs g'] eqn:E. specialize (IH g').
  destruct (on_chunks g' ks) as [cs' g'']. simpl in *. rewrite IH.
  unfold deltas. csimpl. rewrite fold_left_app. f_equal. unfold on_chunk in E.
  by destruct (k_choice k); simplify_eq.
Qed.

Lemma texts_tokens ks : forallb is_token (texts ks) = true.
Proof.
  induction ks as [|k ks IH]; [done|]. unfold texts in *. csimpl. rewrite forallb_app, IH.
  destruct (k_choice k); [|done]. by destruct (nonempty_text _).
Qed.

Lemma calls_are_calls l : forallb is_call (map call_chunk l) = true.
Proof. by induction l. Qed.

Lemma openai_in_order p req ab : in_order (generate p req ab) = true.
Proof.
  unfold generate. destruct (chosen_model _ _); [|done]. destruct (create _ _ _) as [[ks e]|]; [|done].
  pose proof (on_chunks_texts gen0 ks) as H. destruct (on_chunks gen0 ks) as [cs g]. simpl in H.
  subst cs. destruct e as [e|].
  - apply in_order_tokens, texts_tokens.
  - apply in_order_complete; [apply texts_tokens|apply calls_are_calls].
Qed.

#[export] Instance openai_provider : ModelProvider provider :=
  {| Models.generate := generate; Models.generate_in_order := openai_in_order |}.

(** *** The accumulator is the reference, in order of first appearance *)

Definition firsts (ds : list tool_delta) : list Z := reverse (remove_dups (reverse (map td_index ds))).

Lemma call_at_snoc ds d i :
  call_at (ds ++ [d]) i = if Z.eqb (td_index d) i then add_delta d (call_at ds i) else call_at ds i.
Proof.
  unfold call_at. rewrite List.filter_app, fold_left_app. simpl. by destruct (Z.eqb _ _).
Qed.

Lemma accum_get_map (f : Z -> PartialToolCall) i l :
  accum_get i (map (fun j => (j, f j)) l) = if decide (i ∈ l) then Some (f i) else None.
Proof.
  induction l as [|j l IH]; simpl; [done|]. rewrite IH.
  destruct (Z.eqb_spec i j) as [->|Hne]; [by rewrite decide_True by set_solver|].
  destruct (decide (i ∈ l)); [by rewrite decide_True by set_solver|by rewrite decide_False by set_solver].
Qed.

Lemma accum_set_map (f : Z -> PartialToolCall) i a l :
  NoDup l ->
  accum_set i a (map (fun j => (j, f j)) l) =
  map (fun j => (j, if Z.eqb i j then a else f j)) (if decide (i ∈ l) then l else l ++ [i]).
Proof.
  induction 1 as [|j l Hj Hn IH]; simpl; [by rewrite Z.eqb_refl|].
  destruct (Z.eqb_spec i j) as [->|Hne].
  - rewrite decide_True by set_solver. simpl. rewrite Z.eqb_refl. f_equal.
    apply map_ext_in. intros k Hk. destruct (Z.eqb_spec j k); [|done]. subst.
    exfalso. apply Hj. by apply list_elem_of_In.
  - rewrite IH. destruct (decide (i ∈ l)).
    + rewrite decide_True by set_solver. simpl. by rewrite (proj2 (Z.eqb_neq _ _) Hne).
    + rewrite decide_False by set_solver. simpl. by rewrite (proj2 (Z.eqb_neq _ _) Hne).
Qed.

Lemma firsts_snoc ds d :
  firsts (ds ++ [d]) =
  if decide (td_index d ∈ firsts ds) then firsts ds else firsts ds ++ [td_index d].
Proof.
  unfold firsts. rewrite map_app, reverse_app. simpl.
  assert (Hin : td_index d ∈ reverse (map td_index ds) <->
                td_index d ∈ reverse (remove_dups (reverse (map td_index ds)))).
  { by rewrite (elem_of_reverse _ (remove_dups _)), elem_of_remove_dups. }
  unfold decide_rel.
  destruct (list_elem_of_dec (td_index d) (reverse (map td_index ds))) as [H|H].
  - rewrite decide_True by (by apply Hin). done.
  - rewrite decide_False by (by rewrite <- Hin). by rewrite reverse_cons.
Qed.

Lemma firsts_nodup ds : NoDup (firsts ds).
Proof. unfold firsts. rewrite reverse_Permutation. apply NoDup_remove_dups. Qed.

Lemma call_at_absent ds i : i ∉ firsts ds -> call_at ds i = no_call.
Proof.
  unfold firsts. rewrite elem_of_reverse, elem_of_remove_dups, elem_of_reverse.
  intros Hi. unfold call_at. induction ds as [|d ds IH]; [done|]. simpl in *.
  destruct (Z.eqb_spec (td_index d) i) as [<-|]; set_solver.
Qed.

Lemma accum_reference ds :
  fold_left on_delta ds [] = map (fun i => (i, call_at ds i)) (firsts ds).
Proof.
  induction ds as [|d ds IH] using rev_ind; [done|].
  rewrite fold_left_app. simpl. rewrite IH. unfold on_delta.
  rewrite accum_get_map, accum_set_map by apply firsts_nodup. rewrite firsts_snoc.
  apply map_ext_in. intros i _. rewrite call_at_snoc.
  destruct (Z.eqb_spec (td_index d) i) as [->|]; [|done]. do 2 f_equal.
  case_decide as H; [done|]. by rewrite call_at_absent.
Qed.

Lemma firsts_sorted ds : merge_sort Z.le (firsts ds) = indices ds.
Proof.
  unfold indices. apply (Sorted_unique Z.le).
  - apply (Sorted_merge_sort Z.le).
  - apply (Sorted_merge_sort Z.le).
  - rewrite !merge_sort_Permutation. unfold firsts. rewrite reverse_Permutation.
    apply NoDup_Permutation; [apply NoDup_remove_dups..|]. intros i.
    by rewrite !elem_of_remove_dups, elem_of_reverse.
Qed.

Lemma flush_reference ks :
  flush (on_chunks gen0 ks).2 =
  assembled (deltas ks) ++ [ch_finish (o_finishReason (on_chunks gen0 ks).2)
                                      (o_usage (on_chunks gen0 ks).2)].
Proof.
  unfold flush. rewrite on_chunks_accum. change (o_accum gen0) with (@nil (Z * PartialToolCall)).
  rewrite accum_reference, (merge_sort_map Z.le index_le) by done.
  rewrite firsts_sorted. unfold assembled. by rewrite map_map.
Qed.
End OpenAIProps.

(** ** Anthropic *)
Module AnthropicProps.
Import Anthropic.

(** The fragments that a stream has for the block at an index. *)
Definition part_at (i : Z) (e : event) : option string :=
  match e with
  | content_block_delta j (input_json_delta p) => if Z.eqb i j then Some p else None
  | _ => None
  end.

Definition parts_at (i : Z) (es : list event) : list string := omap (part_at i) es.

(** Events that open or close the block at an index. *)
Definition bounds (i : Z) (e : event) : bool :=
  match e with
  | content_block_start j (tool_use_block _ _) | content_block_stop j => Z.eqb i j
  | _ => false
  end.

Lemma on_events_app g es es' :
  on_events g (es ++ es') =
  ((on_events g es).1 ++ (on_events (on_events g es).2 es').1, (on_events (on_events g es).2 es').2).
Proof.
  revert g. induction es as [|e es IH]; intros g; simpl; [by destruct (on_events g es')|].
  destruct (on_event g e) as [cs g']. rewrite IH. destruct (on_events g' es) as [cs1 g1]. simpl.
  destruct (on_events g1 es') as [cs2 g2]. simpl. by rewrite app_assoc.
Qed.

Lemma on_event_buffer g e i b :
  bounds i e = false -> g_toolBuffers g !! i = Some b ->
  g_toolBuffers (on_event g e).2 !! i =
  Some (match part_at i e with Some p => push_part p b | None => b end).
Proof.
  intros He Hb. destruct e as [| j []| j []| j | |]; simpl in *; try done; reflect_bools.
  - by rewrite lookup_insert_ne.
  - destruct (Z.eqb_spec i j) as [->|Hne].
    + rewrite Hb. simpl. by rewrite lookup_insert_eq.
    + destruct (g_toolBuffers g !! j); [|done]. simpl. by rewrite lookup_insert_ne.
  - destruct (g_toolBuffers g !! j); [|done]. simpl. by rewrite lookup_delete_ne.
Qed.

Lemma on_events_buffer es g i b :
  forallb (fun e => negb (bounds i e)) es = true -> g_toolBuffers g !! i = Some b ->
  g_toolBuffers (on_events g es).2 !! i =
  Some {| tb_callId := tb_callId b; tb_toolName := tb_toolName b;
          tb_jsonParts := tb_jsonParts b ++ parts_at i es |}.
Proof.
  revert g b. induction es as [|e es IH]; intros g b; simpl; [rewrite app_nil_r; by destruct b|].
  intros He Hb. apply andb_true_iff in He as [He Hes]. apply negb_true_iff in He.
  pose proof (on_event_buffer _ _ _ _ He Hb) as H. destruct (on_event g e) as [cs g']. simpl in H.
  specialize (IH _ _ Hes H). destruct (on_events g' es) as [cs' g'']. simpl in *. rewrite IH.
  unfold parts_at. csimpl. destruct (part_at i e); simpl; by rewrite <- ?app_assoc.
Qed.

Lemma parsed_input_stringify v : wf v = true -> parsed_input (stringify v) = v.
Proof.
  intros Hv. unfold parsed_input. rewrite (parse_stringify v Hv).
  destruct (String.eqb_spec (stringify v) "") as [E|]; [|done].
  exfalso. pose proof (parse_stringify v Hv) as H. by rewrite E in H.
Qed.

(** *** Order *)

(** A message as the vendor documents it, with the texts before the calls and
    one [message_delta], which is last. *)
Definition documented_step (p : chunk_phase) (e : event) : option chunk_phase :=
  match p, e with
  | finished, (message_start _ | other_event) => Some finished
  | finished, _ => None
  | in_tokens, content_block_delta _ (text_delta _) => Some in_tokens
  | in_calls, content_block_delta _ (text_delta _) => None
  | _, content_block_start _ (tool_use_block _ _) => Some in_calls
  | _, message_delta _ _ => Some finished
  | p, _ => Some p
  end.

Fixpoint documented_run (p : chunk_phase) (es : list event) : option chunk_phase :=
  match es with
  | [] => Some p
  | e :: es => match documented_step p e with Some p => documented_run p es | None => None end
  end.

Definition documented (r : list event * option thrown) : bool :=
  match documented_run in_tokens r.1 with
  | Some finished => true
  | Some _ => match r.2 with Some _ => true | None => false end
  | None => false
  end.

(** Before the first call no block of a call is open. *)
Definition phase_ok (p : chunk_phase) (g : gen) : Prop := p = in_tokens -> g_toolBuffers g = ∅.

(** The chunks may be behind the events: a call is yielded when it ends. *)
Definition behind (q p : chunk_phase) : Prop := q = p \/ (q = in_tokens /\ p = in_calls).

Lemma on_event_documented p q g e p' :
  documented_step p e = Some p' -> phase_ok p g -> behind q p ->
  phase_ok p' (on_event g e).2 /\
  exists q', chunk_run q (on_event g e).1 = Some q' /\ behind q' p'.
Proof.
  unfold phase_ok. intros Hs Hg Hb.
  destruct e as [j|j [| |]|j []|j|s o|]; destruct p; simplify_eq/=;
    try rewrite (Hg eq_refl); rewrite ?lookup_empty; simpl;
    destruct Hb as [->|[-> Hb]]; simplify_eq/=;
    repeat (case_match; simplify_eq/=); split; try done; eexists; (split; [done|]); unfold behind; auto.
Qed.

Lemma on_events_documented es p q g p' :
  documented_run p es = Some p' -> phase_ok p g -> behind q p ->
  exists q', chunk_run q (on_events g es).1 = Some q' /\ behind q' p'.
Proof.
  revert p q g. induction es as [|e es IH]; intros p q g; simpl; [intros [= <-]; eauto|].
  destruct (documented_step p e) as [p1|] eqn:E; [|done]. intros Hr Hg Hb.
  destruct (on_event_documented _ q _ _ _ E Hg Hb) as (Hg1 & q1 & Hq1 & Hb1).
  destruct (on_event g e) as [cs g1]. simpl in *.
  destruct (IH _ _ _ Hr Hg1 Hb1) as (q2 & Hq2 & Hb2). destruct (on_events g1 es) as [cs' g2].
  simpl in *. exists q2. by rewrite chunk_run_app, Hq1.
Qed.

Lemma documented_in_order es e :
  documented (es, e) = true -> in_order (chunks es, (fun e => raised (wrapError e)) <$> e) = true.
Proof.
  unfold documented, in_order, chunks. simpl. destruct (documented_run in_tokens es) as [p|] eqn:E; [|done].
  destruct (on_events_documented es in_tokens in_tokens gen0 p E) as (q & -> & Hq);
    [by intros _|by left|]. destruct Hq as [->|[-> ->]]; [destruct p|]; by destruct e.
Qed.

(** A client whose streams are documented messages. *)
Record documented_provider := {
  dp : provider;
  dp_documented body signal r : create dp body signal = Ok r -> documented r = true }.

Lemma anthropic_in_order (p : documented_provider) req ab : in_order (generate (dp p) req ab) = true.
Proof.
  unfold generate. destruct (create _ _ _) as [[es e]|] eqn:E; [|done].
  apply documented_in_order. by eapply dp_documented.
Qed.

#[export] Instance anthropic_provider : ModelProvider documented_provider :=
  Build_ModelProvider _ (fun p => generate (dp p)) anthropic_in_order.
End AnthropicProps.

(** ** Google *)
Module GoogleProps.
Import Google.

Section stream.
Context (nanoid : nat -> string).

(** Whatever the vendor sends, a stream without an error ends in one finish. *)
Definition ends_in_finish (s : Stream) : Prop :=
  s.2 = None -> exists cs r u, s.1 = cs ++ [ch_finish r u] /\
    forallb (fun c => match c with ch_finish _ _ => false | _ => true end) cs = true.

Lemma on_parts_no_finish ids ps :
  forallb (fun c => match c with ch_finish _ _ => false | _ => true end) (on_parts nanoid ids ps).1 = true.
Proof.
  revert ids. induction ps as [|p ps IH]; intros ids; simpl; [done|].
  destruct (on_part nanoid ids p) as [cs i1] eqn:E. specialize (IH i1).
  destruct (on_parts nanoid i1 ps) as [cs' i2]. simpl in *. rewrite forallb_app, IH.
  unfold on_part in E. destruct (p_functionCall p) as [[n a]|]; simplify_eq;
    by destruct (nonempty_text _).
Qed.

Lemma on_chunks_finish ab k g ks e : ends_in_finish (on_chunks nanoid ab k g ks e).
Proof.
  unfold ends_in_finish. revert k g. induction ks as [|c ks IH]; intros k g; cbn [on_chunks].
  - destruct e; [done|]. intros _. by exists [], (g_finishReason g), (g_usage g).
  - destruct (ab k); [intros _; by exists [], (g_finishReason g), (g_usage g)|].
    destruct (on_chunk nanoid g c) as [cs g1] eqn:E. specialize (IH (S k) g1).
    destruct (on_chunks nanoid ab (S k) g1 ks e) as [cs' r]. simpl in *. intros Hr.
    destruct (IH Hr) as (cs2 & f & u & -> & Hf). exists (cs ++ cs2), f, u.
    rewrite <- app_assoc. split; [done|]. rewrite forallb_app, Hf, andb_true_r.
    unfold on_chunk in E. destruct (k_candidate c) as [cd|]; [|by simplify_eq].
    pose proof (on_parts_no_finish (g_ids g) (cd_parts cd)) as Hp.
    destruct (on_parts nanoid (g_ids g) (cd_parts cd)) as [cs3 i3]. by simplify_eq.
Qed.

(** An aborted signal ends the stream as if the model had finished. *)
Lemma on_chunks_aborted ab k g c ks e :
  ab k = true -> on_chunks nanoid ab k g (c :: ks) e = ([ch_finish (g_finishReason g) (g_usage g)], None).
Proof. intros H. cbn [on_chunks]. by rewrite H. Qed.
End stream.
End GoogleProps.

(** ** Properties *)

Section openai.
Import OpenAI OpenAIProps.

(** C27: Whatever way OpenAI cuts its tool calls into deltas, and however the
    deltas of several calls interleave, the provider yields the texts as they
    came, then exactly one call per index, in the order of the indices, each
    made of the identifier, the name and the concatenated arguments of the
    deltas of its own index only, then one [finish]. *)
Theorem openai_calls_reassembled p request ab model ks :
  chosen_model request (config p) = Some model ->
  create p (params model request)
    (mergeSignals (mr_signal request) (pc_timeout (config p)) (clock p request)) = Ok (ks, None) ->
  exists reason usage,
    generate p request ab = (texts ks ++ assembled (deltas ks) ++ [ch_finish reason usage], None).
Proof.
  intros Hm Hc. unfold generate. rewrite Hm, Hc.
  pose proof (on_chunks_texts gen0 ks) as Ht. pose proof (flush_reference ks) as Hf.
  destruct (on_chunks gen0 ks) as [cs g]. simpl in *. subst cs. rewrite Hf. eauto.
Qed.

Definition demo_delta (i : Z) (id name args : string) : tool_delta :=
  {| td_index := i; td_id := Some id; td_name := Some name; td_arguments := Some args |}.

Definition demo_chunk (text : string) (ds : list tool_delta) : chunk :=
  {| k_choice := Some {| c_content := Some text; c_tool_calls := ds; c_finish_reason := None |};
     k_usage := None |}.

(** The text of some arguments, and its two halves. *)
Definition demo_args : json := JObj [("x", JNum 7)]%string.
Definition demo_half (k : nat) : string :=
  let s := stringify demo_args in
  if (k =? 0)%nat then substring 0 4 s else substring 4 (String.length s) s.

Definition demo_chunks : list chunk :=
  [demo_chunk "hi" []; demo_chunk "" [demo_delta 1 "b" "second" (demo_half 0)];
   demo_chunk "" [demo_delta 0 "a" "first" ""; demo_delta 1 "" "" (demo_half 1)]].

Definition demo_openai : provider :=
  {| config := key_config "k"; create := fun _ _ => Ok (demo_chunks, None); clock := fun _ => 0%Z |}.

Definition demo_request : ModelRequest :=
  {| mr_model := "gpt"; mr_messages := []; mr_tools := None; mr_temperature := None;
     mr_maxTokens := None; mr_signal := None |}.

Lemma openai_calls_reassembled_witness :
  texts demo_chunks ++ assembled (deltas demo_chunks) =
  [ch_token "hi"; ch_tool_call "first" "a" (Some (JObj []));
   ch_tool_call "second" "b" (Some demo_args)]%string /\
  exists reason usage, generate demo_openai demo_request (fun _ => false) =
    (texts demo_chunks ++ assembled (deltas demo_chunks) ++ [ch_finish reason usage], None).
Proof.
  split; [by vm_compute|].
  apply (openai_calls_reassembled demo_openai demo_request (fun _ => false) "gpt" demo_chunks);
    reflexivity.
Defined.
End openai.

Section anthropic.
Import Anthropic AnthropicProps.

(** A tool call that Anthropic streams is yielded when its block ends with
    the identifier and the name of its start and with the arguments whose text
    the fragments spell, wherever the text is cut and whatever events of other
    blocks come in between; a block without fragments is a call without
    arguments. *)
Theorem anthropic_call_reassembled before between i id name v :
  forallb (fun e => negb (bounds i e)) between = true ->
  (join "" (parts_at i between) = stringify v /\ wf v = true)
  \/ (join "" (parts_at i between) = ""%string /\ v = JObj []) ->
  let started := before ++ content_block_start i (tool_use_block id name) :: between in
  chunks (started ++ [content_block_stop i]) = chunks started ++ [ch_tool_call name id (Some v)].
Proof.
  intros Hb Hv. cbn zeta. unfold chunks. rewrite on_events_app.
  set (b0 := {| tb_callId := id; tb_toolName := name; tb_jsonParts := [] |}).
  assert (Hi : g_toolBuffers (on_events gen0
      (before ++ content_block_start i (tool_use_block id name) :: between)).2 !! i =
    Some {| tb_callId := id; tb_toolName := name; tb_jsonParts := parts_at i between |}).
  { rewrite on_events_app. cbn [on_events on_event snd]. set (g := (on_events gen0 before).2).
    pose proof (on_events_buffer between (set_buffers (insert i b0) g) i b0 Hb
      ltac:(simpl; by rewrite lookup_insert_eq)) as H.
    unfold b0 in *. destruct (on_events _ between). simpl in *. exact H. }
  simpl fst. cbn [on_events on_event]. rewrite Hi. simpl. unfold call_chunk. simpl.
  destruct Hv as [[-> Hw]|[-> ->]]; [by rewrite parsed_input_stringify|done].
Qed.

Definition demo_events : list event :=
  [content_block_delta 1 (input_json_delta (demo_half 0));
   content_block_start 2 (tool_use_block "b" "second"); content_block_delta 2 (input_json_delta "{}");
   content_block_delta 1 (input_json_delta (demo_half 1)); content_block_stop 2]%string.

Lemma anthropic_call_reassembled_witness :
  chunks (message_start None :: content_block_start 1 (tool_use_block "a" "first") :: demo_events
          ++ [content_block_stop 1]) =
  [ch_tool_call "second" "b" (Some (JObj []));
   ch_tool_call "first" "a" (Some demo_args)]%string.
Proof.
  exact (anthropic_call_reassembled [message_start None] demo_events 1 "a" "first"
    demo_args eq_refl (or_introl (conj eq_refl eq_refl))).
Defined.

(** A text after a call is yielded after it, against the provider contract. *)
Lemma anthropic_text_after_call :
  in_order (chunks [content_block_start 0 (tool_use_block "a" "t"); content_block_stop 0;
                    content_block_delta 1 (text_delta "then"); message_delta None None], None) = false.
Proof. reflexivity. Qed.
End anthropic.

Section google.
Import Google GoogleProps.

(** When a run's signal aborts while Google streams, the provider stops
    reading and ends the stream with a [finish] chunk and no error, exactly as
    it does when the model has finished: the loop is not told. *)
Theorem google_abort_ends_normally p request ab model c ks e :
  chosen_model request (config p) = Some model ->
  create p (model_params model request) (stream_params request) = Ok (c :: ks, e) ->
  ab 0%nat = true ->
  generate p request ab = ([ch_finish "stop" no_usage], None).
Proof.
  intros Hm Hc Ha. unfold generate. rewrite Hm, Hc. by apply (on_chunks_aborted _ _ 0).
Qed.

Definition demo_google : provider :=
  {| config := key_config "k"; ids := fun _ n => string_of_Z (Z.of_nat n);
     create := fun _ _ => Ok ([{| k_candidate := None; k_usage := None |}],
                              Some (thrown_primitive "never read")) |}.

Lemma google_abort_ends_normally_witness :
  generate demo_google demo_request (fun _ => true) = ([ch_finish "stop" no_usage], None).
Proof.
  exact (google_abort_ends_normally demo_google demo_request (fun _ => true) "gpt" _ _ _
    eq_refl eq_refl eq_refl).
Defined.
End google.

(** ** A call goes back to the vendor as it came *)

(** What a vendor reads of a call: identifier, name and arguments. *)
Definition read_call : Type := json * json * json.

Definition read_openai_call (v : json) : option read_call :=
  match field "id" v, field "function" v with
  | Some id, Some f =>
      match field "name" f, field "arguments" f with
      | Some name, Some (JStr args) => (fun a => (id, name, a)) <$> parse args
      | _, _ => None
      end
  | _, _ => None
  end.

Definition openai_calls (message : json) : option (list read_call) :=
  match field "tool_calls" message with
  | Some (JArr calls) => mapM read_openai_call calls
  | _ => None
  end.

Definition read_anthropic_call (v : json) : option read_call :=
  match field "id" v, field "name" v, field "input" v with
  | Some id, Some name, Some input => Some (id, name, input)
  | _, _, _ => None
  end.

Definition is_tool_use (v : json) : bool :=
  match field "type" v with Some (JStr t) => String.eqb t "tool_use" | _ => false end.

Definition anthropic_calls (message : json) : option (list read_call) :=
  match field "content" message with
  | Some (JArr blocks) => mapM read_anthropic_call (List.filter is_tool_use blocks)
  | _ => None
  end.

(** A call whose arguments are an object with one text. *)
Definition object_args (c : PersistedToolCall) : bool :=
  match ptc_arguments c with Some (JObj ms) => wf (JObj ms) | _ => false end.

Definition as_read (c : PersistedToolCall) : read_call :=
  (JStr (ptc_providerCallId c), JStr (ptc_toolName c), ptc_arguments c ?? JNull).

Lemma read_openai_persisted c :
  object_args c = true -> read_openai_call (OpenAI.tool_call_json (model_call c)) = Some (as_read c).
Proof.
  unfold object_args, as_read. destruct c as [s p t [[]|]]; simpl; try done. intros Hw.
  unfold read_openai_call. cbn -[wf parse stringify]. by rewrite parse_stringify.
Qed.

Lemma read_anthropic_persisted c :
  object_args c = true -> read_anthropic_call (Anthropic.tool_use (model_call c)) = Some (as_read c).
Proof. unfold object_args, as_read. by destruct c as [s p t [[]|]]. Qed.

Lemma mapM_reads {A} (f : A -> json) (read : json -> option read_call) (g : A -> read_call)
    (p : A -> bool) (l : list A) :
  (forall x, p x = true -> read (f x) = Some (g x)) -> forallb p l = true ->
  mapM read (map f l) = Some (map g l).
Proof.
  intros Hr. induction l as [|x l IH]; [done|]. simpl. intros [Hx Hl]%andb_true_iff.
  by rewrite Hr, IH.
Qed.

Lemma object_args_wf calls :
  forallb object_args calls = true -> forallb (fun c => args_wf (ptc_arguments c)) calls = true.
Proof.
  rewrite !forallb_forall. intros H c Hc. specialize (H c Hc). unfold object_args in H.
  by destruct (ptc_arguments c) as [[]|].
Qed.

Lemma tool_uses_filtered calls :
  List.filter is_tool_use (map Anthropic.tool_use calls) = map Anthropic.tool_use calls.
Proof. induction calls as [|[i n a] calls IH]; [done|]. cbn [map List.filter]. by rewrite IH; destruct a. Qed.

(** C28: the calls of a turn survive the whole way: what the loop persisted as
    an assistant message is read back by the context builder and given to
    OpenAI and to Anthropic with, for each call, the identifier the vendor
    itself had chosen, the tool's name and the same arguments. *)
Theorem calls_return_to_the_vendor names r text calls :
  msg_content r = assistant_content text calls ->
  calls <> [] -> forallb object_args calls = true ->
  let m := (mapAssistantMessage names r).1 in
  openai_calls (OpenAI.toOpenAIMessage m) = Some (map as_read calls) /\
  anthropic_calls (Anthropic.mapMessage m) = Some (map as_read calls).
Proof.
  intros Hr Hne Hw. cbn zeta.
  rewrite (mapAssistantMessage_persisted names r text calls Hr (object_args_wf _ Hw)).
  destruct calls as [|c calls]; [done|]. set (cs := c :: calls) in *. split.
  - unfold openai_calls. destruct (String.eqb text "") eqn:E; cbn -[mapM]; rewrite ?E; cbn -[mapM];
      rewrite map_map; exact (mapM_reads _ _ _ _ cs read_openai_persisted Hw).
  - unfold anthropic_calls. destruct (String.eqb text "") eqn:E; cbn -[mapM List.filter]; rewrite E;
      cbn -[mapM List.filter]; (etrans; [|exact (mapM_reads _ _ _ _ cs read_anthropic_persisted Hw)]);
      f_equal; rewrite <- (map_map model_call); exact (tool_uses_filtered (map model_call cs)).
Qed.

Definition demo_persisted : PersistedToolCall :=
  {| ptc_swiftCallId := "tc_1"; ptc_providerCallId := "call_a"; ptc_toolName := "first";
     ptc_arguments := Some demo_args |}.

Lemma calls_return_to_the_vendor_witness :
  openai_calls (OpenAI.toOpenAIMessage (mapAssistantMessage []
    {| msg_messageId := "msg_1"; msg_sessionId := "ses_1"; msg_runId := None; msg_role := assistant_role;
       msg_content := assistant_content "so" [demo_persisted] |}).1)
  = Some [(JStr "call_a", JStr "first", demo_args)]%string.
Proof.
  exact (proj1 (calls_return_to_the_vendor [] {| msg_messageId := "msg_1"; msg_sessionId := "ses_1";
    msg_runId := None; msg_role := assistant_role;
    msg_content := assistant_content "so" [demo_persisted] |} "so" [demo_persisted] eq_refl
    ltac:(discriminate) eq_refl)).
Defined.
