(* ===== verification/Loop.v ===== *)
(** The agent loop (packages/runtime/src/loop.ts).

    [runAgentLoop] is an async generator; it is modelled as a computation over
    its local variables, the database and the events it has yielded.  What
    happens outside it is an oracle, indexed by the number of the effect: how
    long each effect takes, which statements the database refuses to execute,
    what the provider streams, what the executor answers, and at which [yield]
    the consumer abandons the generator. *)
From S2P Require Import Prelude Json Shared Deadlines Context Tools Models Repos Effects.
Local Open Scope eff_scope.

(** ** Types (types.ts) *)
Definition DEFAULT_MAX_TOOL_ITERATIONS : nat := 10.
Definition DEFAULT_LAST_N : nat := 50.

Record AgentEngineOptions := {
  o_maxToolIterations : option nat; o_toolTimeoutMs : option Z; o_modelTimeoutMs : option Z;
  o_totalRunMs : option Z; o_memoryStrategy : option MemoryStrategyName; o_lastN : option nat }.

Record RunContext := {
  ctx_sessionId : string; ctx_runId : string; ctx_agentConfig : AgentRecord;
  ctx_abortSignal : Signal; ctx_iterationCount : nat }.

(** The statements of the loop, as the database may refuse them. *)
Inductive stmt : Type :=
| st_message_create | st_messages_list | st_run_create | st_run_complete | st_run_fail
| st_run_cancel | st_run_timeout | st_call_create | st_call_result | st_call_fail.

Inductive span_op : Type :=
| sp_model_start (model : string) | sp_usage (promptTokens completionTokens : Z)
| sp_model_end (ok : bool) | sp_tool_start (toolName callId : string) | sp_tool_end (ok : bool)
| sp_finish (ok : bool).

(** ** The generator's state *)
Record LoopState := {
  l_clock : Z;                        (* milliseconds *)
  l_tick : nat;                       (* effects performed *)
  l_fresh : nat;                      (* identifiers minted *)
  l_db : Db;
  l_events : list ChatEvent;          (* yielded so far, in order *)
  l_text : string;                    (* assistantText *)
  l_usage : Usage;                    (* lastUsage *)
  l_open : list string;               (* openToolCalls *)
  l_deadline : option RunTimeoutError; (* deadlineHit *)
  l_traceError : bool;                (* traceStatus = 'error' *)
  l_iter : nat;                       (* ctx.iterationCount *)
  l_executed : list ToolCall;         (* calls given to the executor *)
  l_requests : list ModelRequest;     (* requests given to the provider *)
  l_spans : list span_op }.

Definition set_db d s := {| l_clock := l_clock s; l_tick := l_tick s; l_fresh := l_fresh s;
  l_db := d; l_events := l_events s; l_text := l_text s; l_usage := l_usage s; l_open := l_open s;
  l_deadline := l_deadline s; l_traceError := l_traceError s; l_iter := l_iter s;
  l_executed := l_executed s; l_requests := l_requests s; l_spans := l_spans s |}.
Definition set_time c n s := {| l_clock := c; l_tick := n; l_fresh := l_fresh s;
  l_db := l_db s; l_events := l_events s; l_text := l_text s; l_usage := l_usage s; l_open := l_open s;
  l_deadline := l_deadline s; l_traceError := l_traceError s; l_iter := l_iter s;
  l_executed := l_executed s; l_requests := l_requests s; l_spans := l_spans s |}.
Definition set_fresh f s := {| l_clock := l_clock s; l_tick := l_tick s; l_fresh := f;
  l_db := l_db s; l_events := l_events s; l_text := l_text s; l_usage := l_usage s; l_open := l_open s;
  l_deadline := l_deadline s; l_traceError := l_traceError s; l_iter := l_iter s;
  l_executed := l_executed s; l_requests := l_requests s; l_spans := l_spans s |}.
Definition add_event e s := {| l_clock := l_clock s; l_tick := l_tick s; l_fresh := l_fresh s;
  l_db := l_db s; l_events := l_events s ++ [e]; l_text := l_text s; l_usage := l_usage s;
  l_open := l_open s;
  l_deadline := l_deadline s; l_traceError := l_traceError s; l_iter := l_iter s;
  l_executed := l_executed s; l_requests := l_requests s; l_spans := l_spans s |}.
Definition set_text t s := {| l_clock := l_clock s; l_tick := l_tick s; l_fresh := l_fresh s;
  l_db := l_db s; l_events := l_events s; l_text := t; l_usage := l_usage s; l_open := l_open s;
  l_deadline := l_deadline s; l_traceError := l_traceError s; l_iter := l_iter s;
  l_executed := l_executed s; l_requests := l_requests s; l_spans := l_spans s |}.
Definition set_usage u s := {| l_clock := l_clock s; l_tick := l_tick s; l_fresh := l_fresh s;
  l_db := l_db s; l_events := l_events s; l_text := l_text s; l_usage := u; l_open := l_open s;
  l_deadline := l_deadline s; l_traceError := l_traceError s; l_iter := l_iter s;
  l_executed := l_executed s; l_requests := l_requests s; l_spans := l_spans s |}.
Definition set_open o s := {| l_clock := l_clock s; l_tick := l_tick s; l_fresh := l_fresh s;
  l_db := l_db s; l_events := l_events s; l_text := l_text s; l_usage := l_usage s; l_open := o;
  l_deadline := l_deadline s; l_traceError := l_traceError s; l_iter := l_iter s;
  l_executed := l_executed s; l_requests := l_requests s; l_spans := l_spans s |}.
Definition set_deadline d s := {| l_clock := l_clock s; l_tick := l_tick s; l_fresh := l_fresh s;
  l_db := l_db s; l_events := l_events s; l_text := l_text s; l_usage := l_usage s; l_open := l_open s;
  l_deadline := d; l_traceError := l_traceError s; l_iter := l_iter s;
  l_executed := l_executed s; l_requests := l_requests s; l_spans := l_spans s |}.
Definition set_traceError b s := {| l_clock := l_clock s; l_tick := l_tick s; l_fresh := l_fresh s;
  l_db := l_db s; l_events := l_events s; l_text := l_text s; l_usage := l_usage s; l_open := l_open s;
  l_deadline := l_deadline s; l_traceError := b; l_iter := l_iter s;
  l_executed := l_executed s; l_requests := l_requests s; l_spans := l_spans s |}.
Definition set_iter i s := {| l_clock := l_clock s; l_tick := l_tick s; l_fresh := l_fresh s;
  l_db := l_db s; l_events := l_events s; l_text := l_text s; l_usage := l_usage s; l_open := l_open s;
  l_deadline := l_deadline s; l_traceError := l_traceError s; l_iter := i;
  l_executed := l_executed s; l_requests := l_requests s; l_spans := l_spans s |}.
Definition add_executed c s := {| l_clock := l_clock s; l_tick := l_tick s; l_fresh := l_fresh s;
  l_db := l_db s; l_events := l_events s; l_text := l_text s; l_usage := l_usage s; l_open := l_open s;
  l_deadline := l_deadline s; l_traceError := l_traceError s; l_iter := l_iter s;
  l_executed := l_executed s ++ [c]; l_requests := l_requests s; l_spans := l_spans s |}.
Definition add_request r s := {| l_clock := l_clock s; l_tick := l_tick s; l_fresh := l_fresh s;
  l_db := l_db s; l_events := l_events s; l_text := l_text s; l_usage := l_usage s; l_open := l_open s;
  l_deadline := l_deadline s; l_traceError := l_traceError s; l_iter := l_iter s;
  l_executed := l_executed s; l_requests := l_requests s ++ [r]; l_spans := l_spans s |}.
Definition add_span p s := {| l_clock := l_clock s; l_tick := l_tick s; l_fresh := l_fresh s;
  l_db := l_db s; l_events := l_events s; l_text := l_text s; l_usage := l_usage s; l_open := l_open s;
  l_deadline := l_deadline s; l_traceError := l_traceError s; l_iter := l_iter s;
  l_executed := l_executed s; l_requests := l_requests s; l_spans := l_spans s ++ [p] |}.

(** The state at the call of the generator. *)
Definition init_state (now : Z) (db : Db) (iter : nat) : LoopState :=
  {| l_clock := now; l_tick := 0; l_fresh := 0; l_db := db; l_events := []; l_text := "";
     l_usage := no_usage; l_open := []; l_deadline := None; l_traceError := false;
     l_iter := iter; l_executed := []; l_requests := []; l_spans := [] |}.

(** What [JSON.stringify] makes of a thrown value: [toJSON] of a
    [SwiftAgentError]; the own fields of other errors are not kept. *)
Definition error_json (e : error) : json :=
  match e with
  | SwiftAgentError c m st =>
      JObj [("code", JStr (code_string c)); ("message", JStr m); ("statusCode", JNum st)]%string
  | PlainError _ _ => JObj []
  end.

(** ** The outside, as an oracle *)
Record Outside (P : Type) := {
  took : nat -> N;                                   (* duration of each effect *)
  refused : nat -> stmt -> option error;             (* statements that throw *)
  torn : nat -> bool;                                (* teardown at a yield *)
  streams : nat -> P -> ModelRequest -> Stream;      (* the provider's chunks *)
  executes : nat -> ToolCall -> ToolCallContext -> Signal -> ToolCallResult + error;
  nanoid : nat -> string;
  traced : bool;                                     (* a tracer is configured *)
  finish_fails : bool }.                             (* the trace sink throws *)
Arguments took {P}. Arguments refused {P}. Arguments torn {P}. Arguments streams {P}.
Arguments executes {P}. Arguments nanoid {P}. Arguments traced {P}. Arguments finish_fails {P}.

Section loop.
Context {P : Type} (outside : Outside P).
Context (ajv_compile : json -> res string ValidateFunction).
Context (registry : ProviderRegistry P) (penv : string -> option string).
Context (ctx : RunContext) (userContent : string) (options : AgentEngineOptions).
(** [PreparedRunPersistence]: the user message's id when the run and the
    message were persisted upstream. *)
Context (prepared : option string).

Abbreviation L := (M LoopState error).
Let agent := ctx_agentConfig ctx.
Let sid := ctx_sessionId ctx.
Let rid := ctx_runId ctx.

Definition maxToolIterations : nat :=
  o_maxToolIterations options ?? DEFAULT_MAX_TOOL_ITERATIONS.

Definition memoryStrategyName : MemoryStrategyName :=
  match o_memoryStrategy options with
  | Some n => n
  | None => (mem_strategy <$> ag_memoryConfig agent) ?? last_n
  end.

Definition lastN : nat :=
  match o_lastN options with
  | Some n => n
  | None => (ag_memoryConfig agent ≫= mem_maxMessages) ?? DEFAULT_LAST_N
  end.

(** *** Primitive effects *)

(** One effect of the outside: time passes. *)
Definition wait : L unit :=
  modify (fun s => set_time (l_clock s + Z.of_N (took outside (l_tick s))) (S (l_tick s)) s).

Definition now : L Z := gets l_clock.

Definition fresh_id (prefix : string) : L string :=
  n <~ gets l_fresh ;;
  modify (set_fresh (S n)) ;;;
  ret (prefixedId prefix (nanoid outside n)).

(** A statement: refused by the outside, or run against the tables. *)
Definition query {A} (k : stmt) (f : Db -> res error (A * Db)) : L A := fun s =>
  let n := l_tick s in
  let s := (wait s).2 in
  match refused outside n k with
  | Some e => (Throw e, s)
  | None =>
      match f (l_db s) with
      | Ok (a, db) => (Ret a, set_db db s)
      | Err e => (Throw e, s)
      end
  end.

Definition insert_stmt (k : stmt) (f : Db -> res error Db) : L unit :=
  query k (fun db => let? db := f db in Ok (tt, db)).

Definition update_stmt {A} (k : stmt) (f : Db -> option A * Db) : L (option A) :=
  query k (fun db => Ok (f db)).

(** [yield e]: the consumer has the event; it may not come back. *)
Definition yield (e : ChatEvent) : L unit := fun s =>
  let n := l_tick s in
  let s := (wait (add_event e s)).2 in
  if torn outside n then (Torn, s) else (Ret tt, s).

Definition span (p : span_op) : L unit :=
  whenM (traced outside) (modify (add_span p)).

Definition message_create (id : string) (role : MessageRole) (content : string) : L unit :=
  insert_stmt st_message_create
    (messages_create {| msg_messageId := id; msg_sessionId := sid; msg_runId := Some rid;
                        msg_role := role; msg_content := content |}).

Definition throwIfAborted : L unit :=
  t <~ now ;;
  match reason_at (ctx_abortSignal ctx) t with
  | Some r => throw (reason_error r)
  | None => ret tt
  end.

(** *** One model call *)

Record ToolCallChunk := { tcc_toolName : string; tcc_callId : string; tcc_arguments : jsval }.

(** The body of the [for await] loop, and the loop: the tool-call chunks. *)
Definition process_chunk (assistantMessageId : string) (c : ModelStreamChunk)
    (acc : list ToolCallChunk) : L (list ToolCallChunk) :=
  throwIfAborted ;;;
  match c with
  | ch_token t =>
      modify (fun s => set_text (l_text s +:+ t)%string s) ;;;
      yield (token t assistantMessageId rid sid) ;;;
      ret acc
  | ch_tool_call name id args =>
      ret (acc ++ [{| tcc_toolName := name; tcc_callId := id; tcc_arguments := args |}])
  | ch_finish _ usage => modify (set_usage usage) ;;; ret acc
  end.

Fixpoint process_chunks (assistantMessageId : string) (cs : list ModelStreamChunk)
    (acc : list ToolCallChunk) : L (list ToolCallChunk) :=
  match cs with
  | [] => ret acc
  | c :: cs =>
      wait ;;;
      acc <~ process_chunk assistantMessageId c acc ;;
      process_chunks assistantMessageId cs acc
  end.

Definition consume (assistantMessageId : string) (stream : Stream) : L (list ToolCallChunk) :=
  acc <~ process_chunks assistantMessageId stream.1 [] ;;
  wait ;;;
  match stream.2 with Some e => throw e | None => ret acc end.

Definition model_signal (start : Z) : Signal :=
  deriveCallDeadline (ctx_abortSignal ctx) model_scope (o_modelTimeoutMs options) start.

Definition model_request (modelId : string) (messages : list ModelMessage) (signal : Signal) :
    ModelRequest :=
  let toolSchemas := toModelToolSchemas (ag_tools agent) in
  {| mr_model := modelId; mr_messages := messages;
     mr_tools := match toolSchemas with [] => None | _ => Some toolSchemas end;
     mr_temperature := mc_temperature (ag_modelConfig agent);
     mr_maxTokens := mc_maxTokens (ag_modelConfig agent); mr_signal := signal |}.

(** The model call under its deadline and its span; the deadline's timer is
    local to the call, and nothing looks at its signal after the call. *)
Definition model_call (assistantMessageId : string) (provider : P) (modelId : string)
    (messages : list ModelMessage) : L (list ToolCallChunk) :=
  start <~ now ;;
  span (sp_model_start modelId) ;;;
  try_catch
    (n <~ gets l_tick ;;
     let request := model_request modelId messages (model_signal start) in
     modify (add_request request) ;;;
     acc <~ consume assistantMessageId (streams outside n provider request) ;;
     u <~ gets l_usage ;;
     span (sp_usage (u_inputTokens u ?? 0%Z) (u_outputTokens u ?? 0%Z)) ;;;
     span (sp_model_end true) ;;;
     ret acc)
    (fun err =>
     span (sp_model_end false) ;;;
     t <~ now ;;
     (match timeoutReason (model_signal start) t with
      | Some fired => modify (set_deadline (Some fired))
      | None => ret tt
      end) ;;;
     throw err).

(** *** Tool calls *)

Fixpoint mint_calls (cs : list ToolCallChunk) : L (list PersistedToolCall) :=
  match cs with
  | [] => ret []
  | c :: cs =>
      id <~ fresh_id PREFIX_TOOL_CALL ;;
      rest <~ mint_calls cs ;;
      ret ({| ptc_swiftCallId := id; ptc_providerCallId := tcc_callId c;
              ptc_toolName := tcc_toolName c; ptc_arguments := tcc_arguments c |} :: rest)
  end.

Definition toolIndex : ToolIndex := buildToolIndex ajv_compile (ag_tools agent).

Definition close_open (id : string) : L unit :=
  modify (fun s => set_open (List.filter (fun x => negb (String.eqb x id)) (l_open s)) s).

(** An executor that throws is normalised to a failure. *)
Definition execute_tool (call : ToolCall) (signal : Signal) : L ToolCallResult := fun s =>
  let n := l_tick s in
  let c := {| tcc_sessionId := sid; tcc_runId := rid; tcc_userId := None;
              Tools.tcc_metadata := None |} in
  let s := (wait (add_executed call s)).2 in
  match executes outside n call c signal with
  | inl r => (Ret r, s)
  | inr e => (Ret (result_err (error_message e)), s)
  end.

(** The status and the text of a call that validation let through. *)
Definition run_tool (p : PersistedToolCall) : L (ToolCallStatus * option string) :=
  start <~ now ;;
  span (sp_tool_start (ptc_toolName p) (ptc_swiftCallId p)) ;;;
  result <~ execute_tool
    {| call_toolName := ptc_toolName p; call_callId := ptc_swiftCallId p;
       call_arguments := ptc_arguments p |}
    (deriveCallDeadline (ctx_abortSignal ctx) tool_scope (o_toolTimeoutMs options) start) ;;
  t <~ now ;;
  let toolFired := timeoutReason
    (disposedCallDeadline (ctx_abortSignal ctx) tool_scope (o_toolTimeoutMs options) start t) t in
  st <~ (match result with
   | result_ok output =>
       update_stmt st_call_result (toolCalls_updateResult (ptc_swiftCallId p) output tc_completed) ;;;
       span (sp_tool_end true) ;;;
       ret (tc_completed, stringify_val output)
   | result_err message =>
       update_stmt st_call_result
         (toolCalls_updateResult (ptc_swiftCallId p) (Some (JStr message)) tc_failed) ;;;
       span (sp_tool_end false) ;;;
       ret (tc_failed, Some message)
   end) ;;
  close_open (ptc_swiftCallId p) ;;;
  (match toolFired with
   | Some fired => modify (set_deadline (Some fired))
   | None => ret tt
   end) ;;;
  ret st.

(** A call that validation rejected never reaches the executor. *)
Definition reject_tool (p : PersistedToolCall) (code : ValidationCode) (message : string) :
    L (ToolCallStatus * option string) :=
  let resultText := ("Tool call rejected (" +:+ validation_code_string code +:+ "): " +:+ message)%string in
  update_stmt st_call_result
    (toolCalls_updateResult (ptc_swiftCallId p) (Some (JStr resultText)) tc_failed) ;;;
  close_open (ptc_swiftCallId p) ;;;
  ret (tc_failed, Some resultText).

Definition throw_deadline : L unit :=
  d <~ gets l_deadline ;;
  match d with Some fired => throw (rte_error fired) | None => ret tt end.

(** One pass of the loop over the prepared calls. *)
Definition tool_step (p : PersistedToolCall) : L unit :=
  yield (tool_call_started (ptc_swiftCallId p) rid sid (ptc_toolName p)) ;;;
  insert_stmt st_call_create
    (toolCalls_create (ptc_swiftCallId p) rid (ptc_toolName p) (ptc_arguments p)) ;;;
  modify (fun s => set_open (l_open s ++ [ptc_swiftCallId p]) s) ;;;
  st <~ (match validateToolCall toolIndex (ptc_toolName p) (ptc_arguments p) with
         | invalid code message => reject_tool p code message
         | valid => run_tool p
         end) ;;
  yield (tool_call_completed (ptc_swiftCallId p) rid sid (ptc_toolName p) st.1) ;;;
  id <~ fresh_id PREFIX_MESSAGE ;;
  message_create id tool_role
    (tool_content {| tmc_swiftCallId := ptc_swiftCallId p;
                     tmc_providerCallId := ptc_providerCallId p;
                     tmc_toolName := ptc_toolName p; tmc_result := st.2 |}) ;;;
  throw_deadline.

Definition tool_calls (chunks : list ToolCallChunk) : L unit :=
  calls <~ mint_calls chunks ;;
  id <~ fresh_id PREFIX_MESSAGE ;;
  text <~ gets l_text ;;
  message_create id assistant_role (assistant_content text calls) ;;;
  modify (set_text "") ;;;
  for_each calls tool_step ;;;
  modify (fun s => set_iter (S (l_iter s)) s).

(** *** Rounds *)

(** One pass of the outer loop: whether it continues. *)
Definition round (assistantMessageId : string) : L bool :=
  throwIfAborted ;;;
  history <~ query st_messages_list (fun db => Ok (messages_listBySession sid db, db)) ;;
  let context := build (ag_systemPrompt agent)
                   (createMemoryStrategy memoryStrategyName (Some lastN)) history in
  match resolveForModel penv (mc_model (ag_modelConfig agent)) registry with
  | Err e => throw e
  | Ok (provider, modelId, _) =>
      chunks <~ model_call assistantMessageId provider modelId context ;;
      match chunks with
      | [] => ret false
      | _ => tool_calls chunks ;;; ret true
      end
  end.

(** [while (ctx.iterationCount < maxToolIterations)]: every pass that
    continues counts one iteration, so [maxToolIterations] passes are enough
    fuel ([rounds_fuel]). *)
Fixpoint rounds (fuel : nat) (assistantMessageId : string) : L unit :=
  match fuel with
  | O => ret tt
  | S fuel =>
      it <~ gets l_iter ;;
      if (it <? maxToolIterations)%nat then
        continue <~ round assistantMessageId ;;
        if continue : bool then rounds fuel assistantMessageId else ret tt
      else ret tt
  end.

Definition persist_text (assistantMessageId : string) : L unit :=
  text <~ gets l_text ;;
  whenM (negb (String.eqb text "")) (message_create assistantMessageId assistant_role text).

(** *** The body of the [try] block *)
Definition body (messageId : string) : L unit :=
  whenM (bool_decide (prepared = None)) (message_create messageId user_role userContent) ;;;
  yield (message_started messageId rid sid) ;;;
  whenM (bool_decide (prepared = None))
    (insert_stmt st_run_create (runs_create rid sid (mc_model (ag_modelConfig agent)))) ;;;
  assistantMessageId <~ fresh_id PREFIX_MESSAGE ;;
  rounds maxToolIterations assistantMessageId ;;;
  it <~ gets l_iter ;;
  if (maxToolIterations <=? it)%nat then
    persist_text assistantMessageId ;;;
    modify (set_traceError true) ;;;
    update_stmt st_run_fail (runs_fail rid) ;;;
    yield (run_failed rid sid "MAX_ITERATIONS"
      ("Run exceeded maximum tool iterations (" +:+ string_of_Z (Z.of_nat maxToolIterations)
       +:+ ")")%string None)
  else
    persist_text assistantMessageId ;;;
    u <~ gets l_usage ;;
    update_stmt st_run_complete (runs_complete rid
      {| inputTokens := u_inputTokens u ?? 0%Z; outputTokens := u_outputTokens u ?? 0%Z;
         totalTokens := u_totalTokens u ?? 0%Z |}) ;;;
    yield (message_completed assistantMessageId rid sid).

(** *** Classification and the [catch] block *)

Inductive terminal_cause : Type := by_timeout | by_cancel | by_failure.

Definition classifyTerminal (deadlineHit : option RunTimeoutError) (t : Z) : terminal_cause :=
  match deadlineHit, timeoutReason (ctx_abortSignal ctx) t with
  | Some _, _ | None, Some _ => by_timeout
  | None, None => if aborted (ctx_abortSignal ctx) t then by_cancel else by_failure
  end.

Definition failure_code (e : error) : string :=
  match e with SwiftAgentError c _ _ => code_string c | PlainError _ _ => "INTERNAL" end.

Definition on_error (err : error) : L unit :=
  modify (set_traceError true) ;;;
  t <~ now ;;
  d <~ gets l_deadline ;;
  cm <~ (match classifyTerminal d t with
   | by_timeout =>
       let fired := match d with Some f => Some f | None => timeoutReason (ctx_abortSignal ctx) t end in
       swallow (update_stmt st_run_timeout (runs_timeout rid)) ;;;
       ret ("TIMED_OUT", (rte_message <$> fired) ?? "Run timed out")%string
   | by_cancel =>
       swallow (update_stmt st_run_cancel (runs_cancel rid)) ;;;
       ret ("CANCELLED", "Run was cancelled")%string
   | by_failure =>
       swallow (update_stmt st_run_fail (runs_fail rid)) ;;;
       ret (failure_code err, error_message err)
   end) ;;
  yield (run_failed rid sid cm.1 cm.2 (Some (error_json err))).

(** *** The [finally] block *)
Definition finalize : L unit :=
  open <~ gets l_open ;;
  for_each open (fun id => swallow (update_stmt st_call_fail (toolCalls_fail id))) ;;;
  st <~ gets l_traceError ;;
  try_catch
    (span (sp_finish (negb st)) ;;;
     if traced outside && finish_fails outside
     then throw (PlainError "Error" "trace sink") else ret tt)
    (fun _ => ret tt).

(** The whole generator. *)
Definition runAgentLoop : L unit :=
  messageId <~ (match prepared with Some id => ret id | None => fresh_id PREFIX_MESSAGE end) ;;
  try_finally (try_catch (body messageId) on_error) finalize.
End loop.
