(* ===== verification/LoopFacts.v ===== *)
(** What the agent loop guarantees, whatever happens outside it. *)
From S2P Require Import Prelude Json Shared Deadlines Context Tools Models Repos Effects Loop.
Local Open Scope eff_scope.

(** ** The protocol of events

    [message_started], then tokens and bracketed tool calls, then exactly one
    terminal event; a failure may come at any point before it. *)
Inductive chat_phase : Type :=
| ph_init | ph_stream | ph_tool (callId : string) | ph_done.

#[export] Instance chat_phase_eq_dec : EqDecision chat_phase.
Proof. solve_decision. Defined.

Definition chat_step (p : chat_phase) (e : ChatEvent) : option chat_phase :=
  match p, e with
  | ph_init, message_started _ _ _ => Some ph_stream
  | ph_stream, token _ _ _ _ => Some ph_stream
  | ph_stream, tool_call_started c _ _ _ => Some (ph_tool c)
  | ph_tool c, tool_call_completed c' _ _ _ _ => if String.eqb c c' then Some ph_stream else None
  | ph_stream, message_completed _ _ _ => Some ph_done
  | (ph_init | ph_stream | ph_tool _), run_failed _ _ _ _ _ => Some ph_done
  | _, _ => None
  end.

Fixpoint chat_run (p : chat_phase) (es : list ChatEvent) : option chat_phase :=
  match es with
  | [] => Some p
  | e :: es => match chat_step p e with Some p => chat_run p es | None => None end
  end.

Lemma chat_run_app p es es' :
  chat_run p (es ++ es') = chat_run p es ≫= fun q => chat_run q es'.
Proof.
  revert p. induction es as [|e es IH]; intros p; simpl; [done|].
  by destruct (chat_step p e).
Qed.

(** The status a terminal event announces. *)
Definition announced (e : ChatEvent) : option RunStatus :=
  match e with
  | message_completed _ _ _ => Some completed
  | run_failed _ _ code _ _ =>
      Some (if String.eqb code "TIMED_OUT" then timed_out
            else if String.eqb code "CANCELLED" then cancelled else failed)
  | _ => None
  end.

(** Some time passes. *)
Abbreviation elapse d n s := (set_time (l_clock s + Z.of_N d) n s).

Section primitives.
Context {P : Type} (outside : Outside P) (ctx : RunContext).
Abbreviation L := (M LoopState error).

(** ** Rules for the primitive effects *)

Lemma post_query {A} (Pre : LoopState -> Prop) k (f : Db -> res error (A * Db)) Q :
  (forall s c n e, Pre s -> Q (Throw e) (elapse c n s)) ->
  (forall s c n a db, Pre s -> refused outside (l_tick s) k = None ->
     f (l_db s) = Ok (a, db) -> Q (Ret a) (set_db db (elapse c n s))) ->
  post Pre (query outside k f) Q.
Proof.
  intros Ht Hr s Hs. unfold query. simpl.
  destruct (refused outside (l_tick s) k) as [e|] eqn:E; simpl; [by apply Ht|].
  destruct (f (l_db s)) as [[a db]|e] eqn:Ef; simpl; [by eapply Hr|by apply Ht].
Qed.

Lemma post_yield (Pre : LoopState -> Prop) e Q :
  (forall s c n, Pre s -> Q (Ret tt) (elapse c n (add_event e s))) ->
  (forall s c n, Pre s -> Q Torn (elapse c n (add_event e s))) ->
  post Pre (yield outside e) Q.
Proof. intros Hr Ht s Hs. unfold yield. simpl. destruct (torn outside _); [by apply (Ht s)|by apply (Hr s)]. Qed.

(** *** Moving along a relation that ignores time *)
Section moving.
Context (R : LoopState -> LoopState -> Prop) `{!Reflexive R} `{!Transitive R}.

Lemma moves_query {A} k (f : Db -> res error (A * Db)) :
  (forall s c n, R s (elapse c n s)) ->
  (forall s c n a db, f (l_db s) = Ok (a, db) -> R s (set_db db (elapse c n s))) ->
  moves R (query outside k f).
Proof.
  intros Ht Hf s. unfold query. simpl. destruct (refused outside (l_tick s) k); simpl; [apply Ht|].
  destruct (f (l_db s)) as [[a db]|] eqn:E; simpl; [by eapply Hf|apply Ht].
Qed.
Lemma moves_yield e :
  (forall s c n, R s (elapse c n (add_event e s))) -> moves R (yield outside e).
Proof. intros H s. unfold yield. simpl. destruct (torn outside _); apply H. Qed.
Lemma moves_span p : (forall s p, R s (add_span p s)) -> moves R (span outside p).
Proof. intros H. unfold span. apply_move @moves_whenM. by apply moves_modify. Qed.
Lemma moves_execute call sg :
  (forall s c n, R s (elapse c n (add_executed call s))) ->
  moves R (execute_tool outside ctx call sg).
Proof. intros H s. unfold execute_tool. simpl. destruct (executes outside _ _ _ _); apply H. Qed.
End moving.

End primitives.

(** Unfolds the small definitions of the loop down to primitive effects. *)
Ltac expose := unfold message_create, insert_stmt, update_stmt, fresh_id, close_open,
  throwIfAborted, throw_deadline, now, wait, persist_text, run_tool, reject_tool, finalize.

(** Walks through a computation along a relation; [leaf] closes what is left
    at each primitive effect. *)
Ltac walk leaf :=
  repeat first
    [ move_step
    | apply_move @moves_modify; intros ?; leaf
    | apply moves_query; [intros ? ? ?; leaf | intros ? ? ? ? ? ?; leaf]
    | apply moves_yield; intros ? ? ?; leaf
    | apply moves_span; [typeclasses eauto | intros ? ?; leaf]
    | apply moves_execute; intros ? ? ?; leaf
    | progress expose ].

(** What a statement did, as equations on the table it names. *)
Ltac open_statement :=
  repeat match goal with
  | H : Ok _ = Ok _ |- _ => injection H as H
  | H : res_bind ?m _ = Ok _ |- _ => destruct m eqn:?; simpl in H; [|discriminate H]
  | H : (?a, ?b) = (_, _) |- _ => injection H as ? ?
  | H : ?x = (_, ?db) |- _ => apply (f_equal snd) in H; simpl in H
  end; simpl in *; subst.

Section facts.
Context {P : Type} (outside : Outside P).
Context (ajv_compile : json -> res string ValidateFunction).
Context (registry : ProviderRegistry P) (penv : string -> option string).
Context (ctx : RunContext) (userContent : string) (options : AgentEngineOptions).
Context (prepared : option string).

Abbreviation L := (M LoopState error).
Abbreviation run := (runAgentLoop outside ajv_compile registry penv ctx userContent options prepared).
Abbreviation body' := (body outside ajv_compile registry penv ctx userContent options prepared).
Abbreviation rounds' := (rounds outside ajv_compile registry penv ctx options).
Abbreviation round' := (round outside ajv_compile registry penv ctx options).
Abbreviation tool_step' := (tool_step outside ajv_compile ctx options).
Abbreviation tool_calls' := (tool_calls outside ajv_compile ctx options).
Abbreviation model_call' := (model_call outside ctx options).
Abbreviation run_tool' := (run_tool outside ctx options).
Abbreviation reject_tool' := (reject_tool outside).

(** ** Events *)
Definition same_events (s s' : LoopState) : Prop := l_events s' = l_events s.

#[local] Instance same_events_refl : Reflexive same_events.
Proof. done. Qed.
#[local] Instance same_events_trans : Transitive same_events.
Proof. intros a b c. unfold same_events. congruence. Qed.

Lemma quiet_run_tool p : moves same_events (run_tool' p).
Proof. walk ltac:(done). Qed.
Lemma quiet_reject_tool p c m : moves same_events (reject_tool' p c m).
Proof. walk ltac:(done). Qed.
Lemma quiet_mint_calls cs : moves same_events (mint_calls outside cs).
Proof. induction cs; cbn [mint_calls]; walk ltac:(done). done. Qed.
Lemma quiet_finalize : moves same_events (finalize outside).
Proof. walk ltac:(done). Qed.

Definition in_phase (p : chat_phase) (s : LoopState) : Prop :=
  chat_run ph_init (l_events s) = Some p.
Definition live (s : LoopState) : Prop := exists p, in_phase p s /\ p <> ph_done.
Definition accepted (s : LoopState) : Prop := exists p, in_phase p s.

Lemma in_phase_live p s : p <> ph_done -> in_phase p s -> live s.
Proof. intros. by exists p. Qed.
Lemma live_accepted s : live s -> accepted s.
Proof. intros (p & H & _). by exists p. Qed.

Lemma in_phase_add p q e s :
  chat_step p e = Some q -> in_phase p s -> in_phase q (add_event e s).
Proof.
  unfold in_phase. intros He Hs. simpl. rewrite chat_run_app, Hs. simpl. by rewrite He.
Qed.

Lemma quiet_keeps {A} (m : L A) p : moves same_events m -> keeps (in_phase p) m.
Proof. intros H s Hs. unfold in_phase. by rewrite (H s). Qed.

(** A step that yields nothing, in a phase that is not the last. *)
Lemma quiet_tri {A} (m : L A) p :
  p <> ph_done -> moves same_events m -> tri (in_phase p) live accepted m.
Proof.
  intros Hp Hm. apply tri_keeps; [by apply quiet_keeps|..]; intros s Hs.
  - by eapply in_phase_live. - by exists p.
Qed.

Lemma yield_phase p q e :
  chat_step p e = Some q ->
  post (in_phase p) (yield outside e) (fun o s => match o with
    Ret _ => in_phase q s | Throw _ => False | Torn => accepted s end).
Proof.
  intros He. apply post_yield; intros s c n Hs; [|exists q]; by apply (in_phase_add p).
Qed.

Lemma yield_then {A} p q e (k : L A) Q :
  chat_step p e = Some q ->
  post (in_phase q) k Q -> (forall s, accepted s -> Q Torn s) ->
  post (in_phase p) (yield outside e ;;; k) Q.
Proof.
  intros He Hk Ht. eapply post_bind; [by apply yield_phase|..]; simpl; [by intros []|done|done].
Qed.

Lemma quiet_then {A B} p (m : L A) (k : A -> L B) Q :
  moves same_events m -> (forall a, post (in_phase p) (k a) Q) ->
  (forall e s, in_phase p s -> Q (Throw e) s) -> (forall s, in_phase p s -> Q Torn s) ->
  post (in_phase p) (x <~ m ;; k x) Q.
Proof.
  intros Hm Hk He Ht. eapply post_bind; [by apply quiet_keeps|..]; done.
Qed.

Abbreviation streaming m := (tri (in_phase ph_stream) live accepted m).

Lemma tool_step_streaming p : streaming (tool_step' p).
Proof.
  unfold tool_step, tri. set (c := ptc_swiftCallId p).
  eapply (yield_then ph_stream (ph_tool c)); [done| |done].
  assert (Hlive : forall s, in_phase (ph_tool c) s -> live s /\ accepted s).
  { intros s Hs. split; [by apply (in_phase_live (ph_tool c))|by exists (ph_tool c)]. }
  apply quiet_then; [walk ltac:(done)|intros _|intros; by apply Hlive|intros; by apply Hlive].
  apply quiet_then; [walk ltac:(done)|intros _|intros; by apply Hlive|intros; by apply Hlive].
  apply quiet_then; [|intros st|intros; by apply Hlive|intros; by apply Hlive].
  { destruct (validateToolCall _ _ _); [apply quiet_run_tool|apply quiet_reject_tool]. }
  eapply (yield_then (ph_tool c) ph_stream); [by simpl; rewrite String.eqb_refl| |done].
  apply quiet_tri; [done|]. walk ltac:(done).
Qed.

Lemma process_chunks_streaming id cs acc : streaming (process_chunks outside ctx id cs acc).
Proof.
  revert acc. induction cs as [|c cs IH]; intros acc; cbn [process_chunks]; [apply tri_ret|].
  apply tri_bind; [apply quiet_tri; [done|walk ltac:(done)]|intros _].
  apply tri_bind; [|intros acc'; apply IH]. unfold process_chunk.
  apply tri_bind; [apply quiet_tri; [done|walk ltac:(done)]|intros _].
  destruct c as [t|name i args|reason u]; [|apply tri_ret|apply quiet_tri; [done|walk ltac:(done)]].
  apply tri_bind; [apply quiet_tri; [done|walk ltac:(done)]|intros _].
  eapply yield_then; [done| |done]. apply tri_ret.
Qed.

Lemma model_call_streaming id pr m ms : streaming (model_call' id pr m ms).
Proof.
  unfold model_call. apply tri_bind; [apply tri_gets|intros start].
  apply tri_bind; [apply quiet_tri; [done|walk ltac:(done)]|intros _].
  apply tri_catch_rethrow.
  - apply tri_bind; [apply tri_gets|intros n].
    apply tri_bind; [apply quiet_tri; [done|walk ltac:(done)]|intros _].
    apply tri_bind; [|intros acc; apply quiet_tri; [done|walk ltac:(done)]].
    unfold consume. apply tri_bind; [apply process_chunks_streaming|intros acc].
    apply quiet_tri; [done|]. walk ltac:(done).
  - intros e s (p & Hp & Hd).
    assert (Hq : moves same_events (span outside (sp_model_end false) ;;; t <~ now ;;
      (match timeoutReason (model_signal ctx options start) t with
       | Some fired => modify (set_deadline (Some fired)) | None => ret tt end) ;;;
      throw (A := list ToolCallChunk) e)) by walk ltac:(done).
    specialize (Hq s). unfold same_events in Hq.
    assert (Hl : forall s', l_events s' = l_events s -> live s').
    { intros s' E. exists p. split; [unfold in_phase; by rewrite E|done]. }
    revert Hq. unfold span, now, modify, gets, throw, bind, whenM, ret.
    destruct (traced outside); simpl; destruct (timeoutReason _ _); simpl; intros; by apply Hl.
Qed.

Lemma tool_calls_streaming chunks : streaming (tool_calls' chunks).
Proof.
  unfold tool_calls. apply tri_bind; [apply quiet_tri; [done|apply quiet_mint_calls]|intros calls].
  apply tri_bind; [apply quiet_tri; [done|walk ltac:(done)]|intros id].
  apply tri_bind; [apply tri_gets|intros t].
  apply tri_bind; [apply quiet_tri; [done|walk ltac:(done)]|intros _].
  apply tri_bind; [apply quiet_tri; [done|walk ltac:(done)]|intros _].
  apply tri_bind; [apply tri_for_each; intros p; apply tool_step_streaming|intros _].
  apply quiet_tri; [done|]. walk ltac:(done).
Qed.

Lemma rounds_streaming fuel id : streaming (rounds' fuel id).
Proof.
  induction fuel as [|fuel IH]; cbn [rounds]; [apply tri_ret|].
  apply tri_bind; [apply tri_gets|intros it]. destruct (_ <? _)%nat; [|apply tri_ret].
  apply tri_bind; [|intros []; [done|apply tri_ret]]. unfold round.
  apply tri_bind; [apply quiet_tri; [done|walk ltac:(done)]|intros _].
  apply tri_bind; [apply quiet_tri; [done|walk ltac:(done)]|intros h].
  destruct (resolveForModel _ _ _) as [[[pr m] r']|e];
    [|apply quiet_tri; [done|walk ltac:(done)]].
  apply tri_bind; [apply model_call_streaming|intros chunks].
  destruct chunks as [|c cs]; [apply tri_ret|].
  apply tri_bind; [apply tool_calls_streaming|intros _; apply tri_ret].
Qed.

(** The end of the body: in both branches one terminal event is yielded. *)
Definition body_end (id : string) : L unit :=
  it <~ gets l_iter ;;
  if (maxToolIterations options <=? it)%nat then
    persist_text outside ctx id ;;;
    modify (set_traceError true) ;;;
    update_stmt outside st_run_fail (runs_fail (ctx_runId ctx)) ;;;
    yield outside (run_failed (ctx_runId ctx) (ctx_sessionId ctx) "MAX_ITERATIONS"
      ("Run exceeded maximum tool iterations (" +:+ string_of_Z (Z.of_nat (maxToolIterations options))
       +:+ ")")%string None)
  else
    persist_text outside ctx id ;;;
    u <~ gets l_usage ;;
    update_stmt outside st_run_complete (runs_complete (ctx_runId ctx)
      {| inputTokens := u_inputTokens u ?? 0%Z; outputTokens := u_outputTokens u ?? 0%Z;
         totalTokens := u_totalTokens u ?? 0%Z |}) ;;;
    yield outside (message_completed id (ctx_runId ctx) (ctx_sessionId ctx)).

Definition ended (o : outcome error unit) (s : LoopState) : Prop :=
  match o with Ret _ => in_phase ph_done s | Throw _ => live s | Torn => accepted s end.

Lemma body_end_phase id : post (in_phase ph_stream) (body_end id) ended.
Proof.
  assert (Hlive : forall s, in_phase ph_stream s -> live s /\ accepted s).
  { intros s Hs. split; [by apply (in_phase_live ph_stream)|by exists ph_stream]. }
  assert (Hy : forall e, chat_step ph_stream e = Some ph_done ->
    post (in_phase ph_stream) (yield outside e) ended).
  { intros e He. eapply post_weaken; [exact (fun _ H => H)| |by apply yield_phase].
    by intros [[]| |] s. }
  unfold body_end. apply quiet_then; [walk ltac:(done)|intros it|intros; by apply Hlive..].
  destruct (_ <=? _)%nat;
    repeat (apply quiet_then; [walk ltac:(done)|intros ?|intros; by apply Hlive..]);
    by apply Hy.
Qed.

Lemma body_phase mid : post (in_phase ph_init) (body' mid) ended.
Proof.
  assert (Hlive : forall p s, p <> ph_done -> in_phase p s -> live s /\ accepted s).
  { intros p s Hp Hs. split; [by apply (in_phase_live p)|by exists p]. }
  unfold body.
  apply quiet_then; [walk ltac:(done)|intros _|intros; by apply (Hlive ph_init)..].
  eapply yield_then; [done| |done].
  apply quiet_then; [walk ltac:(done)|intros _|intros; by apply (Hlive ph_stream)..].
  apply quiet_then; [walk ltac:(done)|intros aid|intros; by apply (Hlive ph_stream)..].
  eapply post_bind; [apply rounds_streaming| |done|done].
  intros u. exact (body_end_phase aid).
Qed.

Lemma query_never_torn {A} k (f : Db -> res error (A * Db)) : never_torn (query outside k f).
Proof.
  intros s. unfold query. simpl. destruct (refused outside _ _); [done|].
  by destruct (f (l_db s)) as [[a db]|].
Qed.

(** What the [catch] block does before it yields the terminal event. *)
Definition settle_run (err : error) (d : option RunTimeoutError) (t : Z) : L (string * string) :=
  match classifyTerminal ctx d t with
  | by_timeout =>
      let fired := match d with Some f => Some f | None => timeoutReason (ctx_abortSignal ctx) t end in
      swallow (update_stmt outside st_run_timeout (runs_timeout (ctx_runId ctx))) ;;;
      ret ("TIMED_OUT", (rte_message <$> fired) ?? "Run timed out")%string
  | by_cancel =>
      swallow (update_stmt outside st_run_cancel (runs_cancel (ctx_runId ctx))) ;;;
      ret ("CANCELLED", "Run was cancelled")%string
  | by_failure =>
      swallow (update_stmt outside st_run_fail (runs_fail (ctx_runId ctx))) ;;;
      ret (failure_code err, error_message err)
  end.

Lemma settle_run_returns err d t : returns (settle_run err d t).
Proof.
  unfold settle_run. repeat first [return_step | apply query_never_torn].
Qed.

Lemma finalize_returns : returns (finalize outside).
Proof.
  unfold finalize. repeat first [return_step | apply query_never_torn].
  intros s. unfold try_catch, span, whenM, bind, modify, ret, throw.
  destruct (traced outside), (finish_fails outside); simpl; eauto.
Qed.

Definition ended_quietly (o : outcome error unit) (s : LoopState) : Prop :=
  match o with Ret _ => in_phase ph_done s | Throw _ => False | Torn => accepted s end.

Lemma on_error_phase e : post live (on_error outside ctx e) ended_quietly.
Proof.
  intros s (p & Hp & Hd). revert s Hp.
  change (post (in_phase p) (on_error outside ctx e) ended_quietly).
  assert (Hb : forall A (m : L A) (k : A -> L unit), moves same_events m -> returns m ->
    (forall a, post (in_phase p) (k a) ended_quietly) ->
    post (in_phase p) (bind m k) ended_quietly).
  { intros A m k Hm Hr Hk s Hs. specialize (Hm s). destruct (Hr s) as [a Ha]. unfold bind.
    destruct (m s) as [o s']; simpl in *; subst. apply Hk. unfold in_phase. by rewrite Hm. }
  unfold on_error.
  apply Hb; [walk ltac:(done)|repeat first [return_step | progress unfold now]|intros _].
  apply Hb; [walk ltac:(done)|repeat first [return_step | progress unfold now]|intros t].
  apply Hb; [walk ltac:(done)|repeat first [return_step | progress unfold now]|intros d].
  apply Hb; [walk ltac:(done)|exact (settle_run_returns e d t)|intros cm].
  eapply post_weaken; [exact (fun _ H => H)| |by apply (yield_phase p ph_done); destruct p].
  by intros [[]| |] s.
Qed.

Lemma run_phase : post (in_phase ph_init) run ended_quietly.
Proof.
  unfold runAgentLoop. eapply post_bind.
  - instantiate (1 := fun o s => match o with Ret _ => in_phase ph_init s | _ => False end).
    destruct prepared as [id|]; [by intros s Hs|]. by intros s Hs.
  - intros mid. simpl. eapply post_try_finally.
    + eapply post_try_catch; [apply body_phase|intros e; apply on_error_phase|by intros [] s|done].
    + intros o. simpl. assert (Hq := quiet_finalize). intros s Hs.
      destruct (finalize_returns s) as [a Ha]. rewrite Ha. specialize (Hq s).
      unfold ended_quietly, in_phase, accepted in *.
      destruct o; simpl in *; unfold same_events in Hq; unfold in_phase; rewrite ?Hq; done.
  - by intros e s.
  - by intros s.
Qed.

(** ** The run's row *)
Definition same_runs (s s' : LoopState) : Prop := db_runs (l_db s') = db_runs (l_db s).

#[local] Instance same_runs_refl : Reflexive same_runs.
Proof. done. Qed.
#[local] Instance same_runs_trans : Transitive same_runs.
Proof. intros a b c. unfold same_runs. congruence. Qed.

Ltac runs_leaf :=
  unfold same_runs; open_statement;
  eauto using messages_create_runs, toolCalls_create_runs, toolCalls_transition_runs.

Lemma keep_runs_tool_step p : moves same_runs (tool_step' p).
Proof. unfold tool_step. walk ltac:(runs_leaf). Qed.
Lemma keep_runs_process_chunks id cs acc : moves same_runs (process_chunks outside ctx id cs acc).
Proof.
  revert acc. induction cs as [|c cs IH]; intros acc; cbn [process_chunks];
    unfold process_chunk; repeat first [apply IH | walk ltac:(runs_leaf)].
Qed.
Lemma keep_runs_mint cs : moves same_runs (mint_calls outside cs).
Proof. induction cs; cbn [mint_calls]; walk ltac:(runs_leaf). done. Qed.
Lemma keep_runs_round id : moves same_runs (round' id).
Proof.
  unfold round, model_call, consume, tool_calls.
  repeat first [ apply keep_runs_tool_step | apply keep_runs_process_chunks | apply keep_runs_mint
               | walk ltac:(runs_leaf) ].
Qed.
Lemma keep_runs_rounds fuel id : moves same_runs (rounds' fuel id).
Proof.
  induction fuel as [|fuel IH]; cbn [rounds];
    repeat first [ apply IH | apply keep_runs_round | walk ltac:(runs_leaf)].
Qed.

Definition status_is (st : RunStatus) (s : LoopState) : Prop :=
  run_status <$> db_runs (l_db s) !! ctx_runId ctx = Some st.

(** The last event announces the status of the row. *)
Definition settled (s : LoopState) : Prop :=
  exists es e st, l_events s = es ++ [e] /\ announced e = Some st /\ status_is st s.

Lemma same_runs_status st s s' : same_runs s s' -> status_is st s -> status_is st s'.
Proof. unfold same_runs, status_is. by intros ->. Qed.

Lemma keep_runs_status {A} st (m : L A) : moves same_runs m -> keeps (status_is st) m.
Proof. intros Hm s Hs. eapply same_runs_status; [apply Hm|exact Hs]. Qed.

Lemma transition_status s db st u :
  run_status <$> db_runs db !! ctx_runId ctx = Some running ->
  db_runs (l_db s) = db_runs (runs_transition st u (ctx_runId ctx) db).2 -> status_is st s.
Proof.
  unfold status_is. intros Hr ->. rewrite runs_transition_row.
  destruct (db_runs db !! _) as [r|]; simpl in *; [|done]. simplify_eq.
  unfold run_terminal. rewrite bool_decide_true by done. done.
Qed.

(** A transition out of [running], not refused, then its event. *)
Lemma transition_post k st u :
  post (status_is running) (update_stmt outside k (runs_transition st u (ctx_runId ctx)))
    (fun o => match o with Ret _ => status_is st | _ => status_is running end).
Proof.
  apply post_query; [done|]. intros s c n a db Hs _ H. injection H as H.
  apply (f_equal snd) in H. simpl in H. subst db. by eapply transition_status.
Qed.

Lemma announce_post e st :
  announced e = Some st ->
  post (status_is st) (yield outside e) (fun o s => match o with
    Ret _ => settled s | Throw _ => False | Torn => True end).
Proof. intros He. apply post_yield; [|done]. intros s c n Hs. by exists (l_events s), e, st. Qed.

Definition settles (o : outcome error unit) (s : LoopState) : Prop :=
  match o with Ret _ => settled s | Throw _ => status_is running s | Torn => True end.

Lemma running_then {A} (m : L A) (k : A -> L unit) :
  moves same_runs m -> (forall a, post (status_is running) (k a) settles) ->
  post (status_is running) (x <~ m ;; k x) settles.
Proof.
  intros Hm Hk. eapply post_bind; [by apply keep_runs_status| |done|done]. exact Hk.
Qed.

Lemma end_settles k st u e :
  announced e = Some st ->
  post (status_is running)
    (update_stmt outside k (runs_transition st u (ctx_runId ctx)) ;;; yield outside e) settles.
Proof.
  intros He. eapply post_bind; [apply transition_post| |done|done]. intros r.
  eapply post_weaken; [exact (fun _ H => H)| |by apply announce_post]. by intros [[]| |].
Qed.

Lemma body_settles mid : prepared <> None -> post (status_is running) (body' mid) settles.
Proof.
  intros Hp. unfold body. rewrite bool_decide_false by done. simpl.
  apply running_then; [walk ltac:(runs_leaf)|intros _].
  apply running_then; [walk ltac:(runs_leaf)|intros _].
  apply running_then; [walk ltac:(runs_leaf)|intros _].
  apply running_then; [walk ltac:(runs_leaf)|intros aid].
  apply running_then; [apply keep_runs_rounds|intros _].
  apply running_then; [walk ltac:(runs_leaf)|intros it]. case_match.
  - do 2 (apply running_then; [walk ltac:(runs_leaf)|intros _]). by apply end_settles.
  - apply running_then; [walk ltac:(runs_leaf)|intros _].
    apply running_then; [walk ltac:(runs_leaf)|intros u]. by apply end_settles.
Qed.

Lemma failure_code_announced e m :
  announced (run_failed (ctx_runId ctx) (ctx_sessionId ctx) (failure_code e) m (Some (error_json e)))
  = Some failed.
Proof. by destruct e as [[]|]. Qed.

Section settling.
Hypothesis never_refused : forall n k,
  k = st_run_fail \/ k = st_run_cancel \/ k = st_run_timeout -> refused outside n k = None.

Lemma swallowed_transition k st u :
  k = st_run_fail \/ k = st_run_cancel \/ k = st_run_timeout ->
  post (status_is running) (swallow (update_stmt outside k (runs_transition st u (ctx_runId ctx))))
    (fun o s => match o with Ret _ => status_is st s | _ => False end).
Proof.
  intros Hk s Hs. unfold swallow, try_catch, bind, update_stmt, query. cbn -[runs_transition].
  rewrite never_refused by done. cbn -[runs_transition].
  destruct (runs_transition _ _ _ _) as [r db] eqn:E. simpl.
  apply (f_equal snd) in E. simpl in E. eapply transition_status; [exact Hs|]. by rewrite E.
Qed.

Lemma on_error_settles e : post (status_is running) (on_error outside ctx e)
  (fun o s => match o with Ret _ => settled s | Throw _ => False | Torn => True end).
Proof.
  unfold on_error. set (Q := fun o s => _).
  assert (Hq : forall A (m : L A) k, moves same_runs m -> returns m ->
    (forall a, post (status_is running) (k a) Q) -> post (status_is running) (x <~ m ;; k x) Q).
  { intros A m k Hm Hr Hk s Hs. destruct (Hr s) as [a Ha]. specialize (Hm s). unfold bind.
    destruct (m s) as [o s']. simpl in *. subst o. apply Hk. by eapply same_runs_status. }
  apply Hq; [walk ltac:(runs_leaf)|apply returns_modify|intros _].
  apply Hq; [walk ltac:(runs_leaf)|apply returns_gets|intros t].
  apply Hq; [walk ltac:(runs_leaf)|apply returns_gets|intros d].
  assert (Hs : forall k st u cm, announced (run_failed (ctx_runId ctx) (ctx_sessionId ctx) cm.1 cm.2
      (Some (error_json e))) = Some st ->
    k = st_run_fail \/ k = st_run_cancel \/ k = st_run_timeout ->
    post (status_is running)
      (x <~ (swallow (update_stmt outside k (runs_transition st u (ctx_runId ctx))) ;;; ret cm) ;;
       yield outside (run_failed (ctx_runId ctx) (ctx_sessionId ctx) x.1 x.2 (Some (error_json e)))) Q).
  { intros k st u cm Ha Hk. eapply (post_bind _ _ _ (fun o s => match o with
      Ret x => x = cm /\ status_is st s | _ => False end)); [| |done|done].
    - eapply post_bind; [by apply swallowed_transition| |done|done]. by intros [] s.
    - intros x s (-> & Hs). by apply (announce_post _ st). }
  destruct (classifyTerminal _ _ _); apply Hs; auto. apply failure_code_announced.
Qed.

Lemma run_settles : prepared <> None ->
  post (status_is running) run (fun o s => match o with Ret _ => settled s | _ => True end).
Proof.
  intros Hp. unfold runAgentLoop.
  eapply (post_bind _ _ _ (fun o s => match o with Ret _ => status_is running s | _ => True end));
    [|intros mid|done|done].
  { destruct prepared; [intros s0 Hs0; exact Hs0|done]. }
  eapply post_try_finally.
  - eapply post_try_catch; [by apply body_settles|intros e; apply on_error_settles|by intros [] s|done].
  - intros o s Hs. simpl in *. pose proof (quiet_finalize s) as Hq.
    assert (moves same_runs (finalize outside)) as Hm by walk ltac:(runs_leaf).
    specialize (Hm s). destruct (finalize_returns s) as [a Ha]. rewrite Ha.
    destruct o as [[]| |]; [|done..]. destruct Hs as (es & e & st & He & Hst & Hrow).
    exists es, e, st. split_and!; [|done|by eapply same_runs_status].
    unfold same_events in Hq. by rewrite Hq.
Qed.
End settling.
End facts.
