(* ===== verification/LoopInvariants.v ===== *)
(** Invariants of the agent loop: what reaches the executor and the provider,
    what happens to the tool calls it opened, and why a run ends. *)
From S2P Require Import Prelude Json Shared Deadlines Context Tools Models Repos Effects Loop LoopFacts.
Local Open Scope eff_scope.

Section invariants.
Context {P : Type} (outside : Outside P).
Context (ajv_compile : json -> res string ValidateFunction).
Context (registry : ProviderRegistry P) (penv : string -> option string).
Context (ctx : RunContext) (userContent : string) (options : AgentEngineOptions).
Context (prepared : option string).

Abbreviation L := (M LoopState error).
Abbreviation run := (runAgentLoop outside ajv_compile registry penv ctx userContent options prepared).
Abbreviation body' := (body outside ajv_compile registry penv ctx userContent options prepared).
Abbreviation rounds' := (rounds outside ajv_compile registry penv ctx options).
Abbreviation round' := (round outside ajv_compile registry penv ctx options).
Abbreviation tool_step' := (tool_step outside ajv_compile ctx options).
Abbreviation tool_calls' := (tool_calls outside ajv_compile ctx options).
Abbreviation model_call' := (model_call outside ctx options).
Abbreviation maxIt := (maxToolIterations options).

(** ** A relation the whole loop moves along *)
Section whole.
Context (R : LoopState -> LoopState -> Prop) `{!Reflexive R} `{!Transitive R}.
Hypothesis R_time : forall s c n, R s (elapse c n s).
Hypothesis R_text : forall s t, R s (set_text t s).
Hypothesis R_usage : forall s u, R s (set_usage u s).
Hypothesis R_span : forall s p, R s (add_span p s).
Hypothesis R_event : forall s c n e, R s (elapse c n (add_event e s)).

Ltac whole_leaf := open_statement; eauto.

Lemma whole_chunks id cs acc : moves R (process_chunks outside ctx id cs acc).
Proof.
  revert acc. induction cs as [|c cs IH]; intros acc; cbn [process_chunks];
    unfold process_chunk; repeat first [apply IH | walk ltac:(whole_leaf)].
Qed.

Lemma whole_consume id st : moves R (consume outside ctx id st).
Proof. unfold consume. repeat first [apply whole_chunks | walk ltac:(whole_leaf)]. Qed.

(** When setting the deadline and recording the request are steps of [R]. *)
Lemma whole_model_call id pr m ms :
  (forall s d, R s (set_deadline d s)) -> (forall s q, R s (add_request q s)) ->
  moves R (model_call' id pr m ms).
Proof.
  intros Hd Hq. unfold model_call. repeat first [apply whole_consume | walk ltac:(whole_leaf)].
Qed.

Hypothesis R_model_call : forall id pr m ms, moves R (model_call' id pr m ms).
Hypothesis R_tool_step : forall p, moves R (tool_step' p).
Hypothesis R_fresh : forall s n, R s (set_fresh n s).
Hypothesis R_trace : forall s b, R s (set_traceError b s).
Hypothesis R_iter : forall s n, R s (set_iter n s).
Hypothesis R_messages : forall s c n m db,
  messages_create m (l_db s) = Ok db -> R s (set_db db (elapse c n s)).
Hypothesis R_run_create : forall s c n i j m db,
  runs_create i j m (l_db s) = Ok db -> R s (set_db db (elapse c n s)).
Hypothesis R_runs : forall s c n st u id,
  R s (set_db (runs_transition st u id (l_db s)).2 (elapse c n s)).

Lemma whole_mint cs : moves R (mint_calls outside cs).
Proof. induction cs; cbn [mint_calls]; repeat first [apply IHcs | walk ltac:(whole_leaf)]. Qed.

Lemma whole_round id : moves R (round' id).
Proof.
  unfold round, tool_calls.
  repeat first [ apply R_tool_step | apply R_model_call | apply whole_mint
               | walk ltac:(whole_leaf) ].
Qed.

Lemma whole_rounds fuel id : moves R (rounds' fuel id).
Proof.
  induction fuel as [|fuel IH]; cbn [rounds];
    repeat first [ apply IH | apply whole_round | walk ltac:(whole_leaf) ].
Qed.

Lemma whole_body mid : moves R (body' mid).
Proof.
  unfold body, runs_complete, runs_fail.
  repeat first [ apply whole_rounds | walk ltac:(whole_leaf) ].
Qed.

Lemma whole_on_error e : moves R (on_error outside ctx e).
Proof. unfold on_error, runs_timeout, runs_cancel, runs_fail. walk ltac:(whole_leaf). Qed.

Lemma whole_run :
  moves R (finalize outside) -> moves R run.
Proof.
  intros Hf. unfold runAgentLoop. move_step; [walk ltac:(whole_leaf)|].
  move_step; [|exact Hf]. move_step; [apply whole_body|apply whole_on_error].
Qed.
End whole.

(** ** Only validated calls reach the executor *)
Definition admitted (call : ToolCall) : Prop :=
  validateToolCall (toolIndex ajv_compile ctx) (call_toolName call) (call_arguments call) = valid.

Definition keeps_admitted (s s' : LoopState) : Prop :=
  Forall admitted (l_executed s) -> Forall admitted (l_executed s').

#[local] Instance keeps_admitted_refl : Reflexive keeps_admitted.
Proof. intros a. exact id. Qed.
#[local] Instance keeps_admitted_trans : Transitive keeps_admitted.
Proof. intros a b c. unfold keeps_admitted. auto. Qed.

Lemma admitted_tool_step p : moves keeps_admitted (tool_step' p).
Proof.
  unfold tool_step. walk ltac:(try (intros Hs; exact Hs)).
  intros Hs. simpl. apply Forall_app; split; [done|]. by constructor.
Qed.

Lemma admitted_run : moves keeps_admitted run.
Proof.
  apply whole_run; try typeclasses eauto; try apply admitted_tool_step;
    try (intros; intros Hs; exact Hs); [|walk ltac:(intros Hs; exact Hs)].
  intros. apply whole_model_call; try typeclasses eauto; intros; intros Hs; exact Hs.
Qed.

(** ** No tool call is left open *)
Section dangling.
Context (db0 : Db).
Hypothesis fail_not_refused : forall n, refused outside n st_call_fail = None.

(** A row that is still [started] is in [l], or was there from the start. *)
Definition tracked (l : list string) (s : LoopState) : Prop :=
  forall id r, db_toolCalls (l_db s) !! id = Some r -> tcr_status r = tc_started ->
    id ∈ l \/ db_toolCalls db0 !! id = Some r.
Definition bracketed (s : LoopState) : Prop := tracked (l_open s) s.

(** Steps that open no call and forget none. *)
Definition safe_calls (s s' : LoopState) : Prop :=
  l_open s' = l_open s /\ db_toolCalls (l_db s') = db_toolCalls (l_db s).

#[local] Instance safe_calls_refl : Reflexive safe_calls.
Proof. by intros a. Qed.
#[local] Instance safe_calls_trans : Transitive safe_calls.
Proof. intros a b c [H1 H2] [H3 H4]. split; congruence. Qed.

Lemma safe_bracketed s s' : safe_calls s s' -> bracketed s -> bracketed s'.
Proof. unfold bracketed, tracked. intros [-> ->]. done. Qed.

Ltac calls_leaf := open_statement; split; simpl;
  eauto using messages_create_calls, runs_transition_calls, runs_create_calls.

Lemma safe_keeps {A} (m : L A) : moves safe_calls m -> keeps bracketed m.
Proof. intros Hm s Hs. eapply safe_bracketed; [apply Hm|exact Hs]. Qed.

Lemma tracked_transition f id l s db :
  (forall r, tcr_status (f r) <> tc_started) ->
  db_toolCalls db = db_toolCalls (toolCalls_transition f id (l_db s)).2 ->
  tracked l s ->
  tracked (List.filter (fun x => negb (String.eqb x id)) l) (set_db db s).
Proof.
  unfold tracked. simpl. intros Hf -> Hs id' r Hr Hst.
  destruct (decide (id = id')) as [<-|Hne].
  - rewrite toolCalls_transition_row in Hr. destruct (db_toolCalls _ !! id) as [r0|]; [|done].
    simpl in Hr. unfold call_final in Hr. case_bool_decide; simpl in Hr; simplify_eq.
    by destruct (Hf r0).
  - rewrite toolCalls_transition_other in Hr by done.
    destruct (Hs id' r Hr Hst) as [H|H]; [left|by right].
    apply list_elem_of_In, filter_In. split; [by apply list_elem_of_In|].
    apply negb_true_iff, String.eqb_neq. congruence.
Qed.

Lemma tracked_open id l s :
  tracked l s -> tracked (l ++ [id]) s.
Proof. intros Hs id' r Hr Hst. destruct (Hs id' r Hr Hst); [left; set_solver|by right]. Qed.

(** Between the update of a row and the update of the open set: the row of
    [id] is final, whatever the open set says. *)
Definition closing (id : string) (s : LoopState) : Prop :=
  tracked (List.filter (fun x => negb (String.eqb x id)) (l_open s)) s.

Lemma closing_bracketed id s : closing id s -> bracketed s.
Proof.
  intros Hs id' r Hr Hst. destruct (Hs id' r Hr Hst) as [H|H]; [left|by right].
  apply list_elem_of_In in H. apply filter_In in H as [H _]. by apply list_elem_of_In.
Qed.

Lemma safe_closing {A} id (m : L A) : moves safe_calls m -> keeps (closing id) m.
Proof.
  intros Hm s Hs. destruct (Hm s) as [E1 E2]. change (closing id (m s).2).
  unfold closing, tracked. rewrite E1, E2. exact Hs.
Qed.

Lemma update_closing id out st :
  st <> tc_started ->
  post bracketed (update_stmt outside st_call_result (toolCalls_updateResult id out st))
    (fun o => match o with Ret _ => closing id | _ => bracketed end).
Proof.
  intros Hst. apply post_query; [done|]. intros s c n a db Hs _ H. injection H as H.
  apply (f_equal snd) in H. simpl in H. subst db. unfold closing. simpl.
  apply (tracked_transition (tc_with st out) id _ (elapse c n s)); done.
Qed.

Lemma close_bracketed id : post (closing id) (close_open id) (fun _ => bracketed).
Proof. by intros s Hs. Qed.

Lemma settle_call {A} id out st (k : L unit) (a : A) :
  st <> tc_started -> moves safe_calls k ->
  post bracketed
    (update_stmt outside st_call_result (toolCalls_updateResult id out st) ;;; k ;;; ret a)
    (fun o => match o with Ret _ => closing id | _ => bracketed end).
Proof.
  intros Hst Hk.
  eapply post_bind; [by apply update_closing| |done|done]. intros r.
  eapply post_weaken; [exact (fun _ H => H)| |
    apply safe_closing; move_step; [exact Hk|apply_move @moves_ret]].
  intros [] s; simpl; [done|apply closing_bracketed..].
Qed.

Lemma close_then {A} id (m : L A) (k : A -> L unit) :
  post bracketed m (fun o => match o with Ret _ => closing id | _ => bracketed end) ->
  (forall a, moves safe_calls (k a)) ->
  keeps bracketed (x <~ m ;; close_open id ;;; k x ;;; ret x).
Proof.
  intros Hm Hk. eapply post_bind; [exact Hm| |done|done]. intros x.
  eapply post_bind; [apply close_bracketed| |done|done]. intros [].
  apply safe_keeps. move_step; [apply Hk|apply_move @moves_ret].
Qed.

Lemma bracketed_run_tool p : keeps bracketed (run_tool outside ctx options p).
Proof.
  unfold run_tool. do 4 (apply keeps_bind; [apply safe_keeps; walk ltac:(calls_leaf)|intros ?]).
  cbv zeta. apply (close_then _ _ (fun _ => _)); [|intros; walk ltac:(calls_leaf)].
  case_match; (apply settle_call; [done|walk ltac:(calls_leaf)]).
Qed.

Lemma bracketed_reject_tool p c m : keeps bracketed (reject_tool outside p c m).
Proof.
  unfold reject_tool. eapply post_bind; [by apply update_closing| |done|done]. intros r.
  eapply post_bind; [apply close_bracketed| |done|done]. intros []. apply keeps_ret.
Qed.

Lemma bracketed_create p :
  keeps bracketed
    (insert_stmt outside st_call_create
       (toolCalls_create (ptc_swiftCallId p) (ctx_runId ctx) (ptc_toolName p) (ptc_arguments p)) ;;;
     modify (fun s => set_open (l_open s ++ [ptc_swiftCallId p]) s)).
Proof.
  set (id := ptc_swiftCallId p).
  eapply (post_bind _ _ _ (fun o => match o with
    Ret _ => fun s => tracked (l_open s ++ [id]) s | _ => bracketed end)); [| |done|done].
  - apply post_query; [done|]. intros s c n a db Hs _ H. open_statement.
    revert Heqr. unfold toolCalls_create. repeat case_goal; try done. intros [= <-].
    intros id' r'. simpl. rewrite lookup_insert. case_decide as Hd; [left; set_solver|].
    intros Hr Hst. destruct (Hs id' r' Hr Hst); [left; set_solver|by right].
  - intros a s Hs. exact Hs.
Qed.

Lemma bracketed_tool_step p : keeps bracketed (tool_step' p).
Proof.
  unfold tool_step. apply keeps_bind; [apply safe_keeps; walk ltac:(calls_leaf)|intros _].
  assert (forall A B (a : L A) (b : L B) (c : L unit),
    keeps bracketed (a ;;; b) -> keeps bracketed c -> keeps bracketed (a ;;; b ;;; c)) as Hassoc.
  { intros A B a b c Hab Hc s Hs. specialize (Hab s Hs). revert Hab. unfold bind.
    destruct (a s) as [[x|e|] s1]; [|done..]. destruct (b s1) as [[y|e|] s2]; [|done..].
    simpl. intros Hs2. by apply Hc. }
  apply Hassoc; [apply bracketed_create|].
  apply keeps_bind; [case_match; [apply bracketed_run_tool|apply bracketed_reject_tool]|].
  intros st. apply safe_keeps. walk ltac:(calls_leaf).
Qed.

Definition keeps_bracketed (s s' : LoopState) : Prop := bracketed s -> bracketed s'.

#[local] Instance keeps_bracketed_refl : Reflexive keeps_bracketed.
Proof. intros a. exact id. Qed.
#[local] Instance keeps_bracketed_trans : Transitive keeps_bracketed.
Proof. intros a b c. unfold keeps_bracketed. auto. Qed.

Ltac bracketed_leaf := intros; intros Hb; eapply safe_bracketed; [|exact Hb]; split; simpl;
  eauto using messages_create_calls, runs_transition_calls, runs_create_calls.

Lemma bracketed_model_call id pr m ms : moves keeps_bracketed (model_call' id pr m ms).
Proof. apply whole_model_call; first [typeclasses eauto | bracketed_leaf]. Qed.

Lemma bracketed_body mid : keeps bracketed (body' mid).
Proof.
  apply (whole_body keeps_bracketed); first [typeclasses eauto | exact bracketed_tool_step | exact bracketed_model_call | bracketed_leaf].
Qed.

Lemma bracketed_on_error e : keeps bracketed (on_error outside ctx e).
Proof. apply (whole_on_error keeps_bracketed); first [typeclasses eauto | exact bracketed_model_call | bracketed_leaf]. Qed.

Lemma fail_one id l :
  post (tracked (id :: l)) (swallow (update_stmt outside st_call_fail (toolCalls_fail id)))
    (fun o s => tracked l s /\ is_Some (match o with Ret u => Some u | _ => None end)).
Proof.
  intros s Hs. unfold swallow, try_catch, bind, update_stmt, query. cbn -[toolCalls_fail].
  rewrite fail_not_refused. cbn -[toolCalls_fail].
  destruct (toolCalls_fail id (l_db s)) as [r db] eqn:E. apply (f_equal snd) in E. simpl in E.
  split; [|by eexists]. simpl.
  assert (Ht := tracked_transition (fun r => tc_with tc_failed (tcr_output r) r) id (id :: l)
    (set_time (l_clock s + Z.of_N (took outside (l_tick s))) (S (l_tick s)) s) db).
  ospecialize (Ht _ _ Hs); [done|by subst db|].
  intros id' r' Hr Hst. destruct (Ht id' r' Hr Hst) as [H|H]; [left|by right].
  simpl in H. rewrite String.eqb_refl in H. simpl in H.
  apply list_elem_of_In, filter_In in H as [H _]. by apply list_elem_of_In.
Qed.

Lemma fail_all l :
  post (tracked l) (for_each l (fun id => swallow (update_stmt outside st_call_fail (toolCalls_fail id))))
    (fun _ => tracked []).
Proof.
  induction l as [|id l IH]; simpl; [by intros s Hs|].
  eapply post_bind; [apply fail_one| |by intros e s [_ [? ?]]|by intros s [_ [? ?]]].
  intros a s [Hs _]. by apply IH.
Qed.

Lemma safe_tracked {A} l (m : L A) : moves safe_calls m -> keeps (tracked l) m.
Proof. intros Hm s Hs. destruct (Hm s) as [_ E]. unfold tracked. by rewrite E. Qed.

Lemma finalize_closes : post bracketed (finalize outside) (fun _ => tracked []).
Proof.
  unfold finalize.
  eapply (post_bind _ _ _ (fun o s => match o with Ret l => tracked l s | _ => False end));
    [by intros s Hs| |done|done].
  intros l. eapply post_bind; [apply fail_all| |done|done].
  intros u. apply safe_tracked. walk ltac:(calls_leaf).
Qed.

Lemma run_closes : post bracketed run (fun _ => tracked []).
Proof.
  unfold runAgentLoop. eapply (post_bind _ _ _ (fun o s => match o with Ret _ => bracketed s | _ => False end));
    [|intros mid|done|done].
  { destruct prepared; intros s0 Hs0; exact Hs0. }
  eapply (post_try_finally _ _ _ (fun _ => bracketed)).
  - apply keeps_try_catch; [apply bracketed_body|apply bracketed_on_error].
  - intros o s Hs. assert (H := finalize_closes s Hs). by destruct (finalize outside s).1.
Qed.
End dangling.

(** ** Iterations *)
Definition same_iter (s s' : LoopState) : Prop :=
  l_iter s' = l_iter s /\ l_requests s' = l_requests s.

#[local] Instance same_iter_refl : Reflexive same_iter.
Proof. by intros a. Qed.
#[local] Instance same_iter_trans : Transitive same_iter.
Proof. intros a b c [H1 H2] [H3 H4]. split; congruence. Qed.

Lemma iter_tool_step p : moves same_iter (tool_step' p).
Proof. unfold tool_step. walk ltac:(done). Qed.
Lemma iter_chunks id cs acc : moves same_iter (process_chunks outside ctx id cs acc).
Proof.
  revert acc. induction cs as [|c cs IH]; intros acc; cbn [process_chunks];
    unfold process_chunk; repeat first [apply IH | walk ltac:(done)].
Qed.
Lemma iter_mint cs : moves same_iter (mint_calls outside cs).
Proof. induction cs; cbn [mint_calls]; repeat first [apply IHcs | walk ltac:(done)]. Qed.

Definition iters (n q : nat) (s : LoopState) : Prop :=
  l_iter s = n /\ length (l_requests s) = q.

Lemma same_iter_keeps {A} n q (m : L A) : moves same_iter m -> keeps (iters n q) m.
Proof. intros Hm s [H1 H2]. destruct (Hm s) as [E1 E2]. split; congruence. Qed.

(** A model call gives one request to the provider. *)
Lemma iter_model_call id pr m ms n q :
  post (iters n q) (model_call' id pr m ms) (fun _ => iters n (S q)).
Proof.
  unfold model_call. set (I := iters n (S q)).
  do 2 (eapply (post_bind _ _ _ (fun o s => match o with Ret _ => iters n q s | _ => False end));
    [intros s Hs; unfold span, now, whenM; destruct (traced outside); exact Hs| |done|done]; intros ?).
  eapply (post_try_catch _ _ _ (fun _ => I)); [|intros e|done|done].
  - eapply (post_bind _ _ _ (fun o s => match o with Ret _ => iters n q s | _ => False end));
      [by intros s Hs|intros t|done|done].
    eapply (post_bind _ _ _ (fun o s => match o with Ret _ => I s | _ => False end));
      [|intros u|done|done].
    + intros s [H1 H2]. split; [done|]. simpl. rewrite length_app. simpl. lia.
    + apply same_iter_keeps. unfold consume. repeat first [apply iter_chunks | walk ltac:(done)].
  - apply same_iter_keeps. walk ltac:(done).
Qed.

Lemma iter_tool_calls cs n q :
  post (iters n q) (tool_calls' cs) (fun o => match o with Ret _ => iters (S n) q | _ => iters n q end).
Proof.
  unfold tool_calls.
  do 4 (eapply post_bind; [apply (same_iter_keeps n q);
    repeat first [apply iter_mint | walk ltac:(done)]| |done|done]; intros ?).
  do 1 (eapply post_bind; [apply (same_iter_keeps n q); walk ltac:(done)| |done|done]; intros ?).
  eapply post_bind; [apply (same_iter_keeps n q)| |done|done].
  - apply_move @moves_for_each. intros x. apply iter_tool_step.
  - intros u s [H1 H2]. split; simpl; congruence.
Qed.

Definition iter_bound (n q : nat) (s : LoopState) : Prop :=
  l_iter s = n /\ length (l_requests s) <= S q.

Definition round_iters (n q : nat) (o : outcome error bool) : LoopState -> Prop :=
  match o with Ret true => iters (S n) (S q) | _ => iter_bound n q end.

Lemma iters_bound n q q' s : q' <= S q -> iters n q' s -> iter_bound n q s.
Proof. intros Hq [H1 H2]. split; [done|lia]. Qed.

Lemma iter_round id n q : post (iters n q) (round' id) (round_iters n q).
Proof.
  unfold round.
  eapply post_bind; [apply (same_iter_keeps n q); walk ltac:(done)| |
    intros e s; apply iters_bound; lia|intros s; apply iters_bound; lia]. intros u.
  eapply post_bind; [apply (same_iter_keeps n q); walk ltac:(done)| |
    intros e s; apply iters_bound; lia|intros s; apply iters_bound; lia]. intros h. cbv zeta.
  destruct (resolveForModel _ _ _) as [[[pr m] r']|e];
    [|intros s Hs; eapply iters_bound; [|exact Hs]; lia].
  eapply post_bind; [apply iter_model_call| |
    intros e s; apply iters_bound; lia|intros s; apply iters_bound; lia]. intros chunks.
  destruct chunks as [|c cs]; [intros s Hs; eapply iters_bound; [|exact Hs]; lia|].
  eapply post_bind; [apply iter_tool_calls| |
    intros e s; apply iters_bound; lia|intros s; apply iters_bound; lia].
  by intros _ s Hs.
Qed.

Lemma rounds_requests fuel id n q :
  post (iters n q) (rounds' fuel id) (fun _ s => length (l_requests s) <= q + (maxIt - n)).
Proof.
  revert n q. induction fuel as [|fuel IH]; intros n q; cbn [rounds].
  { intros s [_ H]. simpl. lia. }
  intros s Hs. unfold bind at 1. simpl. destruct Hs as [Hn Hq]. rewrite Hn.
  destruct (n <? maxIt)%nat eqn:E; [apply Nat.ltb_lt in E|simpl; lia].
  assert (H := iter_round id n q s (conj Hn Hq)). unfold bind.
  destruct (round' id s) as [[[]|e|] s']; simpl in H.
  - specialize (IH (S n) (S q) s' H). simpl in IH. lia.
  - destruct H. simpl. lia.
  - destruct H. simpl. lia.
  - destruct H. simpl. lia.
Qed.

(** A round that continues counts one iteration. *)
Lemma rounds_enough id f1 f2 s :
  maxIt - l_iter s <= f1 -> maxIt - l_iter s <= f2 -> rounds' f1 id s = rounds' f2 id s.
Proof.
  revert f2 s. assert (Hdone : forall f s, maxIt - l_iter s = 0 -> rounds' f id s = (Ret tt, s)).
  { intros [|f] s H; [done|]. cbn [rounds]. unfold bind at 1. simpl.
    destruct (_ <? _)%nat eqn:E; [apply Nat.ltb_lt in E; lia|done]. }
  induction f1 as [|f1 IH]; intros f2 s H1 H2; [rewrite !Hdone by lia; done|].
  destruct f2 as [|f2]; [rewrite !Hdone by lia; done|]. cbn [rounds]. unfold bind at 1 3. simpl.
  destruct (_ <? _)%nat eqn:E; [|done]. apply Nat.ltb_lt in E. unfold bind.
  assert (H := iter_round id (l_iter s) (length (l_requests s)) s (conj eq_refl eq_refl)).
  destruct (round' id s) as [[[]|e|] s']; simpl in H; [|done..]. destruct H as [H _].
  apply IH; lia.
Qed.

Lemma run_requests :
  post (iters (ctx_iterationCount ctx) 0) run
    (fun _ s => length (l_requests s) <= maxIt - ctx_iterationCount ctx).
Proof.
  set (n := ctx_iterationCount ctx). set (B := fun s => length (l_requests s) <= maxIt - n).
  assert (Hq : forall A (m : L A), moves same_iter m -> keeps B m).
  { intros A m Hm s Hs. destruct (Hm s) as [_ E]. unfold B. by rewrite E. }
  assert (Hb : forall s, iters n 0 s -> B s). { intros s [_ E]. unfold B. lia. }
  unfold runAgentLoop. eapply (post_bind _ _ _ (fun o s => match o with Ret _ => iters n 0 s | _ => False end));
    [|intros mid|done|done].
  { destruct prepared; intros s0 Hs0; exact Hs0. }
  eapply (post_try_finally _ _ _ (fun _ => B)).
  - eapply (post_try_catch _ _ _ (fun _ => B)); [|intros e; apply Hq; unfold on_error; walk ltac:(done)|done|done].
    unfold body.
    do 4 (eapply post_bind; [apply (same_iter_keeps n 0); walk ltac:(done)| |
      intros e s; apply Hb|intros s; apply Hb]; intros ?).
    eapply post_bind; [apply rounds_requests| |done|done]. intros u.
    eapply post_weaken; [exact (fun _ H => H)| |apply Hq; walk ltac:(done)]. done.
  - intros o s Hs. assert (Hf := Hq _ (finalize outside) ltac:(walk ltac:(done)) s Hs).
    by destruct (finalize outside s).1.
Qed.

(** ** Why a run ends *)
Abbreviation base := (ctx_abortSignal ctx).

Definition call_timeout (scope : DeadlineScope) : option Z :=
  match scope with
  | model_scope => o_modelTimeoutMs options
  | tool_scope => o_toolTimeoutMs options
  | total_scope => None
  end.

(** A deadline that fired between two instants: the run's own, or the one of a
    call begun in between. *)
Definition fired_between (t0 t1 : Z) (f : RunTimeoutError) : Prop :=
  exists scope start t, (t0 <= start <= t)%Z /\ (t <= t1)%Z /\
    timeoutReason (deriveCallDeadline base scope (call_timeout scope) start) t = Some f.

Definition sound_deadline (s s' : LoopState) : Prop :=
  (l_clock s <= l_clock s')%Z /\
  forall f, l_deadline s' = Some f ->
    l_deadline s = Some f \/ fired_between (l_clock s) (l_clock s') f.

Lemma fired_widen t0 t1 u0 u1 f :
  (u0 <= t0)%Z -> (t1 <= u1)%Z -> fired_between t0 t1 f -> fired_between u0 u1 f.
Proof. intros H0 H1 (sc & st & t & Hs & Ht & Hf). exists sc, st, t. split_and!; [lia..|done]. Qed.

#[local] Instance sound_deadline_refl : Reflexive sound_deadline.
Proof. intros a. split; [lia|auto]. Qed.
#[local] Instance sound_deadline_trans : Transitive sound_deadline.
Proof.
  intros a b c [H1 D1] [H2 D2]. split; [lia|]. intros f Hf.
  destruct (D2 f Hf) as [Hb|Hb]; [destruct (D1 f Hb) as [Ha|Ha]|]; [by left|right..];
    (eapply fired_widen; [| |done]; lia).
Qed.

Ltac sound_leaf := intros; open_statement; split; simpl; [lia|auto].

(** Since [s0], with an instant [t] in between. *)
Definition since (s0 : LoopState) (t : Z) (s : LoopState) : Prop :=
  sound_deadline s0 s /\ (l_clock s0 <= t <= l_clock s)%Z.

Lemma since_moves {A} s0 t (m : L A) : moves sound_deadline m -> keeps (since s0 t) m.
Proof.
  intros Hm s [Hs Ht]. specialize (Hm s). split; [by etrans|]. destruct Hm as [Hc _]. simpl. lia.
Qed.

Lemma since_now {B} s0 t (k : Z -> L B) Q :
  (forall t', post (since s0 t') (k t') Q) -> post (since s0 t) (t' <~ now ;; k t') Q.
Proof. intros Hk s [Hs Ht]. apply Hk. split; [done|lia]. Qed.

(** Recording what the deadline of a call begun at [s0] said at [t]. *)
Lemma since_record s0 t scope fired :
  fired = timeoutReason (deriveCallDeadline base scope (call_timeout scope) (l_clock s0)) t ->
  keeps (E := error) (since s0 t)
    (match fired with Some f => modify (set_deadline (Some f)) | None => ret tt end).
Proof.
  intros ->. destruct (timeoutReason _ _) as [f|] eqn:Hf; [|apply keeps_ret].
  intros s [[Hc Hd] Ht]. split; [split; [done|]|done].
  simpl. intros f' [= <-]. right. exists scope, (l_clock s0), t. split_and!; [lia..|done].
Qed.

Lemma since_begin {B} (k : Z -> L B) :
  (forall s0, post (since s0 (l_clock s0)) (k (l_clock s0)) (fun _ => sound_deadline s0)) ->
  moves sound_deadline (start <~ now ;; k start).
Proof. intros H s. apply (H s). split; [done|lia]. Qed.

Lemma since_sound {A} s0 t (m : L A) :
  keeps (since s0 t) m -> post (since s0 t) m (fun _ => sound_deadline s0).
Proof. intros Hm s Hs. by destruct (Hm s Hs). Qed.

Lemma sound_consume id st : moves sound_deadline (consume outside ctx id st).
Proof. apply (whole_consume sound_deadline); first [typeclasses eauto | sound_leaf]. Qed.

Lemma since_now_keeps {B} s0 t (k : Z -> L B) :
  (forall t', keeps (since s0 t') (k t')) -> post (since s0 t) (t' <~ now ;; k t') (fun _ => sound_deadline s0).
Proof. intros Hk. apply since_now. intros t'. by apply since_sound. Qed.

Lemma sound_model_call id pr m ms : moves sound_deadline (model_call' id pr m ms).
Proof.
  unfold model_call. apply since_begin. intros s0. set (t0 := l_clock s0).
  eapply (post_bind _ _ _ (fun _ => since s0 t0));
    [apply since_moves; walk ltac:(sound_leaf)| |by intros ? ? []|by intros ? []]. intros _.
  eapply (post_try_catch _ _ _ (fun _ => since s0 t0)); [| |by intros ? ? []|by intros ? []].
  - apply since_moves. repeat first [apply sound_consume | walk ltac:(sound_leaf)].
  - intros e. eapply (post_bind _ _ _ (fun _ => since s0 t0));
      [apply since_moves; walk ltac:(sound_leaf)| |by intros ? ? []|by intros ? []]. intros _.
    apply since_now_keeps. intros t. apply keeps_bind; [by apply (since_record _ _ model_scope)|].
    intros _. apply keeps_throw.
Qed.

Lemma timeoutReason_disposed scope ms start t :
  timeoutReason (disposedCallDeadline base scope ms start t) t
  = timeoutReason (deriveCallDeadline base scope ms start) t.
Proof. unfold timeoutReason. by rewrite disposed_before by lia. Qed.

Lemma sound_run_tool p : moves sound_deadline (run_tool outside ctx options p).
Proof.
  unfold run_tool. apply since_begin. intros s0. set (t0 := l_clock s0).
  do 2 (eapply (post_bind _ _ _ (fun _ => since s0 t0));
    [apply since_moves; walk ltac:(sound_leaf)| |by intros ? ? []|by intros ? []]; intros ?).
  apply since_now_keeps. intros t. cbv zeta.
  apply keeps_bind; [apply since_moves; walk ltac:(sound_leaf)|intros st].
  apply keeps_bind; [apply since_moves; walk ltac:(sound_leaf)|intros u].
  apply keeps_bind; [|intros ?; apply keeps_ret].
  apply (since_record _ _ tool_scope). by rewrite timeoutReason_disposed.
Qed.

Lemma sound_tool_step p : moves sound_deadline (tool_step' p).
Proof.
  unfold tool_step.
  repeat lazymatch goal with
  | |- moves _ (run_tool _ _ _ _) => apply sound_run_tool
  | |- moves _ (match ?v with _ => _ end) => destruct v
  | |- moves _ (bind _ _) => move_step
  | |- _ => walk ltac:(sound_leaf)
  end.
Qed.

Lemma sound_body mid : moves sound_deadline (body' mid).
Proof.
  apply (whole_body sound_deadline);
    first [typeclasses eauto | exact sound_tool_step | exact sound_model_call | sound_leaf].
Qed.

(** What a terminal event says of the signals. *)
Definition cause_ok (t0 : Z) (s : LoopState) : Prop :=
  forall es e, l_events s = es ++ [e] ->
    (announced e = Some cancelled ->
       exists t r, (t <= l_clock s)%Z /\ reason_at base t = Some r /\
         timeoutReason base t = None) /\
    (announced e = Some timed_out -> exists f, fired_between t0 (l_clock s) f).

(** The two announcements of an interrupted run, as they were classified. *)
Definition classified (d : option RunTimeoutError) (t : Z) (e : ChatEvent) : Prop :=
  (announced e = Some cancelled ->
     exists r, reason_at base t = Some r /\ timeoutReason base t = None) /\
  (announced e = Some timed_out ->
     exists f, d = Some f \/ timeoutReason base t = Some f).

Lemma settle_run_classified err d t j :
  post (fun _ => True) (settle_run outside ctx err d t) (fun o _ => forall cm, o = Ret cm ->
    classified d t (run_failed (ctx_runId ctx) (ctx_sessionId ctx) cm.1 cm.2 j)).
Proof.
  assert (Hthen : forall A (m : L A) v Q, Q v ->
    post (fun _ => True) (m ;;; ret v) (fun o (_ : LoopState) => forall cm : string * string, o = Ret cm -> Q cm)).
  { intros A m v Q HQ s _ cm. unfold bind. destruct (m s) as [[]]; simpl; congruence. }
  unfold settle_run, classifyTerminal, classified.
  destruct d as [f|]; [apply Hthen; split; [done|by exists f; left]|].
  destruct (timeoutReason base t) as [f|] eqn:Hf; [apply Hthen; split; [done|by exists f; right]|].
  unfold aborted. destruct (reason_at base t) as [r|] eqn:Hr.
  - apply Hthen. split; [by exists r|done].
  - apply Hthen. by destruct err as [[]|].
Qed.

Lemma yield_last e : post (fun _ => True) (yield outside e) (fun o s => exists es, l_events s = es ++ [e]).
Proof. apply post_yield; intros s c n _; by exists (l_events s). Qed.

Lemma on_error_cause s0 err :
  l_deadline s0 = None ->
  post (sound_deadline s0) (on_error outside ctx err) (fun _ => cause_ok (l_clock s0)).
Proof.
  intros H0 s Hs. set (d := l_deadline s). set (t := l_clock s).
  set (k := fun cm : string * string => yield outside
    (run_failed (ctx_runId ctx) (ctx_sessionId ctx) cm.1 cm.2 (Some (error_json err)))).
  change (on_error outside ctx err s) with
    (bind (settle_run outside ctx err d t) k (set_traceError true s)).
  assert (Hmono : moves sound_deadline (bind (settle_run outside ctx err d t) k)).
  { unfold settle_run, k, runs_timeout, runs_cancel, runs_fail. walk ltac:(sound_leaf). }
  specialize (Hmono (set_traceError true s)). revert Hmono. unfold bind.
  destruct (settle_run_returns outside ctx err d t (set_traceError true s)) as [cm Hcm].
  assert (Hcl := settle_run_classified err d t (Some (error_json err)) (set_traceError true s) I cm Hcm).
  destruct (settle_run outside ctx err d t _) as [o s1]. simpl in Hcm. subst o. intros [Hc _].
  destruct (yield_last (run_failed (ctx_runId ctx) (ctx_sessionId ctx) cm.1 cm.2
    (Some (error_json err))) s1 I) as [es Hes]. fold (k cm) in Hes.
  destruct Hs as [Hs0 Hd]. simpl in Hc. fold t in Hc. intros es' e' He'. rewrite Hes in He'.
  apply app_inj_tail in He' as [_ <-]. destruct Hcl as [Hcan Hto]. split.
  - intros Ha. destruct (Hcan Ha) as (r & Hr & Hn). exists t, r. split_and!; done.
  - intros Ha. destruct (Hto Ha) as (f & [Hf|Hf]); exists f.
    + destruct (Hd f Hf) as [?|Hb]; [congruence|]. eapply fired_widen; [reflexivity| |exact Hb].
      exact Hc.
    + exists total_scope, t, t. split_and!; [subst t; lia|exact (Z.le_refl t)|exact Hc|done].
Qed.

Lemma body_last mid :
  post (fun _ => True) (body' mid) (fun o s => forall u es e, o = Ret u -> l_events s = es ++ [e] ->
    announced e = Some failed \/ announced e = Some completed).
Proof.
  assert (Hend : forall e, announced e = Some failed \/ announced e = Some completed ->
    post (fun _ => True) (yield outside e) (fun o s => forall u es e', o = Ret u ->
      l_events s = es ++ [e'] -> announced e' = Some failed \/ announced e' = Some completed)).
  { intros e He s _ u es e' _. destruct (yield_last e s I) as [es' ->]. intros E.
    apply app_inj_tail in E as [_ <-]. done. }
  assert (Hb : forall A B (m : L A) (k : A -> L B) Q, (forall a, post (fun _ => True) (k a) Q) ->
    (forall e s, Q (Throw e) s) -> (forall s, Q Torn s) -> post (fun _ => True) (bind m k) Q).
  { intros A B m k Q Hk He Ht. apply (post_bind _ _ _ (fun _ _ => True)); auto. by intros s. }
  unfold body. do 6 (apply Hb; [intros ?|done|done]). case_match;
    do 3 (apply Hb; [intros ?|done|done]); apply Hend; auto.
Qed.

Lemma cause_widen t0 t1 s s' :
  (t1 <= t0)%Z -> l_events s' = l_events s -> (l_clock s <= l_clock s')%Z ->
  cause_ok t0 s -> cause_ok t1 s'.
Proof.
  intros Ht He Hc Hs es e Hes. rewrite He in Hes. destruct (Hs es e Hes) as [H1 H2]. split.
  - intros Ha. destruct (H1 Ha) as (t & r & Hle & Hr & Hn). exists t, r. split_and!; [lia|done..].
  - intros Ha. destruct (H2 Ha) as (f & Hf). exists f. by eapply fired_widen.
Qed.

Lemma run_cause t0 :
  post (fun s => (t0 <= l_clock s)%Z /\ l_deadline s = None) run
    (fun o s => match o with Ret _ => cause_ok t0 s | _ => True end).
Proof.
  unfold runAgentLoop.
  eapply (post_bind _ _ _ (fun o s => match o with
    Ret _ => (t0 <= l_clock s)%Z /\ l_deadline s = None | _ => True end)); [|intros mid|done|done].
  { destruct prepared; intros s0 Hs0; exact Hs0. }
  eapply (post_try_finally _ _ _ (fun o s => match o with Ret _ => cause_ok t0 s | _ => True end)).
  - intros s [Ht Hd]. unfold try_catch. assert (Hs := sound_body mid s).
    assert (Hl := body_last mid s I). destruct (body' mid s) as [[u|e|] s1]; [|simpl in *|done].
    + intros es e He. simpl in *. destruct (Hl u es e eq_refl He) as [Ha|Ha]; rewrite Ha;
        split; discriminate.
    + assert (Hc := on_error_cause s e Hd s1 Hs). destruct (on_error outside ctx e s1) as [[]]; [|done..].
      simpl in *. by eapply cause_widen.
  - intros o s Hs. assert (Hq := quiet_finalize outside s).
    assert (Hm : moves sound_deadline (finalize outside)) by walk ltac:(sound_leaf).
    destruct (Hm s) as [Hc _]. destruct (finalize_returns outside s) as [a Ha]. rewrite Ha.
    destruct o; [|done..]. by eapply cause_widen.
Qed.

(** ** The database only moves forward *)
Definition forward (s s' : LoopState) : Prop := db_le (l_db s) (l_db s').

#[local] Instance forward_refl : Reflexive forward.
Proof. intros a. by unfold forward. Qed.
#[local] Instance forward_trans : Transitive forward.
Proof. intros a b c. unfold forward. by etrans. Qed.

Lemma updateResult_le id out st db : db_le db (toolCalls_updateResult id out st db).2.
Proof. by apply toolCalls_transition_le. Qed.
Lemma toolCalls_fail_le id db : db_le db (toolCalls_fail id db).2.
Proof. by apply toolCalls_transition_le. Qed.

Ltac forward_leaf := intros; open_statement; unfold forward; simpl;
  first [done | eauto using updateResult_le, toolCalls_fail_le with swift].

Lemma forward_tool_step p : moves forward (tool_step' p).
Proof. unfold tool_step. walk ltac:(forward_leaf). Qed.
Lemma forward_model_call id pr m ms : moves forward (model_call' id pr m ms).
Proof. apply whole_model_call; first [typeclasses eauto | forward_leaf]. Qed.
Lemma forward_run : moves forward run.
Proof.
  apply (whole_run forward); first [typeclasses eauto | exact forward_tool_step
    | exact forward_model_call | walk ltac:(forward_leaf); fail | forward_leaf].
Qed.

(** ** A run that was not prepared *)
Lemma unprepared_body mid s :
  prepared = None -> db_runs (l_db s) !! ctx_runId ctx = None ->
  exists e n t, body' mid s = (Throw e, set_time t n s).
Proof.
  intros Hp Hr. unfold body. rewrite bool_decide_true by done. unfold bind at 1. simpl.
  unfold message_create, insert_stmt, query. simpl.
  destruct (refused outside (l_tick s) st_message_create) as [e|]; [by do 3 eexists|].
  unfold messages_create. simpl. rewrite Hr.
  repeat case_match; simplify_eq; simpl in *; simplify_eq; by do 3 eexists.
Qed.

(** What neither the [catch] nor the [finally] block changes when the run has
    no row. *)
Definition idle (s s' : LoopState) : Prop :=
  l_requests s' = l_requests s /\ l_executed s' = l_executed s /\
  db_messages (l_db s') = db_messages (l_db s) /\
  (db_runs (l_db s) !! ctx_runId ctx = None -> db_runs (l_db s') !! ctx_runId ctx = None).

#[local] Instance idle_refl : Reflexive idle.
Proof. by intros a. Qed.
#[local] Instance idle_trans : Transitive idle.
Proof. intros a b c (?&?&?&?) (?&?&?&?). split_and!; try congruence. auto. Qed.

Lemma runs_transition_idle st u id db :
  db_messages (runs_transition st u id db).2 = db_messages db /\
  (db_runs db !! ctx_runId ctx = None ->
   db_runs (runs_transition st u id db).2 !! ctx_runId ctx = None).
Proof.
  unfold runs_transition. destruct (db_runs db !! id) as [r|] eqn:E; [|done].
  case_bool_decide; [|done]. split; [done|]. simpl. intros Hn.
  rewrite lookup_insert_ne; [done|]. congruence.
Qed.

Lemma toolCalls_fail_idle id db :
  db_messages (toolCalls_fail id db).2 = db_messages db /\
  db_runs (toolCalls_fail id db).2 = db_runs db.
Proof. unfold toolCalls_fail, toolCalls_transition. by repeat case_goal. Qed.

Ltac idle_leaf := intros; open_statement; first
  [ done
  | split_and!; simpl;
      rewrite ?(proj1 (toolCalls_fail_idle _ _)), ?(proj2 (toolCalls_fail_idle _ _)); solve [done]
  | split_and!; simpl; solve [done | apply runs_transition_idle] ].

Lemma unprepared_run :
  prepared = None ->
  forall s, db_runs (l_db s) !! ctx_runId ctx = None -> idle s (run s).2.
Proof.
  intros Hp s Hr. unfold runAgentLoop. rewrite Hp.
  assert (Hid : forall n, idle s (set_fresh n s)) by done.
  unfold bind, fresh_id. cbn -[body on_error]. unfold try_finally, try_catch.
  destruct (unprepared_body (prefixedId PREFIX_MESSAGE (nanoid outside (l_fresh s)))
    (set_fresh (S (l_fresh s)) s) Hp Hr) as (e & n & t & Hb).
  rewrite Hp in Hb. rewrite Hb.
  assert (Hm : moves idle (on_error outside ctx e)).
  { unfold on_error, runs_timeout, runs_cancel, runs_fail. walk ltac:(idle_leaf). }
  assert (Hf : moves idle (finalize outside)) by walk ltac:(idle_leaf).
  set (s1 := set_time t n _). transitivity s1; [done|]. specialize (Hm s1).
  destruct (on_error outside ctx e s1) as [o s2]. transitivity s2; [done|]. specialize (Hf s2).
  destruct (finalize outside s2) as [[]]; done.
Qed.

(** ** The ids of the events *)

(** The message that [message_started] names, and the one whose tokens follow. *)
Definition started_id : string :=
  match prepared with Some id => id | None => prefixedId PREFIX_MESSAGE (nanoid outside 0) end.
Definition assistant_id : string :=
  prefixedId PREFIX_MESSAGE (nanoid outside (match prepared with Some _ => 0 | None => 1 end)%nat).

Definition names (mid aid : string) (e : ChatEvent) : Prop :=
  match e with
  | message_started m _ _ => m = mid
  | token _ m _ _ | message_completed m _ _ => m = aid
  | _ => True
  end.

Definition all_named (mid aid : string) (s : LoopState) : Prop := Forall (names mid aid) (l_events s).
Definition keeps_named (mid aid : string) (s s' : LoopState) : Prop := all_named mid aid s -> all_named mid aid s'.

#[local] Instance keeps_named_refl mid aid : Reflexive (keeps_named mid aid).
Proof. intros a. exact id. Qed.
#[local] Instance keeps_named_trans mid aid : Transitive (keeps_named mid aid).
Proof. intros a b c. unfold keeps_named. auto. Qed.

Ltac named_leaf := intros; let H := fresh in intros H; first
  [ exact H | apply Forall_app; split; [exact H|by repeat constructor] ].

Lemma named_chunks mid aid cs acc : moves (keeps_named mid aid) (process_chunks outside ctx aid cs acc).
Proof.
  revert acc. induction cs as [|c cs IH]; intros acc; cbn [process_chunks];
    unfold process_chunk; repeat first [apply IH | walk ltac:(named_leaf)].
Qed.

Lemma named_model_call mid aid pr m ms : moves (keeps_named mid aid) (model_call' aid pr m ms).
Proof. unfold model_call, consume. repeat first [apply named_chunks | walk ltac:(named_leaf)]. Qed.

Lemma named_mint mid aid cs : moves (keeps_named mid aid) (mint_calls outside cs).
Proof. induction cs; cbn [mint_calls]; repeat first [apply IHcs | walk ltac:(named_leaf)]. Qed.

Lemma named_rounds mid aid fuel : moves (keeps_named mid aid) (rounds' fuel aid).
Proof.
  induction fuel as [|fuel IH]; cbn [rounds]; unfold round, tool_calls, tool_step;
    repeat first [ apply IH | apply named_mint | apply named_model_call | walk ltac:(named_leaf) ].
Qed.

Lemma moves_named {A} mid aid (m : L A) : moves (keeps_named mid aid) m -> keeps (all_named mid aid) m.
Proof. intros H s. apply H. Qed.

(** Before the assistant's id is made. *)
Definition first_steps (s s' : LoopState) : Prop :=
  keeps_named started_id assistant_id s s' /\ l_fresh s' = l_fresh s.

#[local] Instance first_steps_refl : Reflexive first_steps.
Proof. by intros a. Qed.
#[local] Instance first_steps_trans : Transitive first_steps.
Proof. intros a b c [A1 A2] [B1 B2]. split; [by etransitivity|congruence]. Qed.

Lemma named_body n :
  assistant_id = prefixedId PREFIX_MESSAGE (nanoid outside n) ->
  post (fun s => all_named started_id assistant_id s /\ l_fresh s = n) (body' started_id)
    (fun _ => all_named started_id assistant_id).
Proof.
  intros En. set (I0 := fun s => all_named started_id assistant_id s /\ l_fresh s = n).
  assert (Hpre : forall A B (m : L A) (k : A -> L B), moves first_steps m ->
    (forall a, post I0 (k a) (fun _ => all_named started_id assistant_id)) ->
    post I0 (bind m k) (fun _ => all_named started_id assistant_id)).
  { intros A B m k Hm Hk. eapply (post_bind _ _ _ (fun _ => I0)); [|exact Hk|by intros ? ? [? ?]|by intros ? [? ?]].
    intros s [H1 H2]. destruct (Hm s) as [M1 M2]. split; [by apply M1|congruence]. }
  unfold body. do 3 (apply Hpre; [walk ltac:(intros; split; [named_leaf|done])|intros ?]).
  eapply (post_bind _ _ _ (fun o s => all_named started_id assistant_id s /\
    match o with Ret aid => aid = assistant_id | _ => True end)); [|intros aid|by intros ? ? [? ?]|by intros ? [? ?]].
  - intros s [H1 H2]. split; [exact H1|]. simpl. by rewrite H2, En.
  - intros s [H1 ->]. revert s H1. apply moves_named.
    repeat first [apply named_rounds | walk ltac:(named_leaf)].
Qed.

(** Whatever happens, the events of a run name two messages: the one that asked,
    and a new one that answers. *)
Lemma run_named db now iter :
  all_named started_id assistant_id (run (init_state now db iter)).2.
Proof.
  assert (H : post (fun s => l_events s = [] /\ l_fresh s = 0%nat) run (fun _ => all_named started_id assistant_id)).
  2: { by apply H. }
  unfold runAgentLoop. eapply (post_bind _ _ _ (fun o s => l_events s = [] /\
    match o with Ret mid => mid = started_id | _ => True end /\
    l_fresh s = match prepared with Some _ => 0 | None => 1 end%nat));
    [|intros mid|intros ? ? [E _]; unfold all_named; by rewrite E|intros ? [E _]; unfold all_named; by rewrite E].
  - unfold started_id. destruct prepared; intros s0 [H1 H2]; simpl; by rewrite ?H2.
  - intros s0 (He & -> & Hf). revert s0 He Hf.
    enough (Hk : post (fun s => all_named started_id assistant_id s /\ l_fresh s = match prepared with Some _ => 0 | None => 1 end%nat)
      (try_finally (try_catch (body' started_id) (on_error outside ctx)) (finalize outside)) (fun _ => all_named started_id assistant_id)).
    { intros s0 He Hf. apply Hk. split; [|done]. unfold all_named. rewrite He. constructor. }
    eapply (post_try_finally _ _ _ (fun _ => all_named started_id assistant_id)).
    + eapply post_try_catch; [by apply named_body|intros e|done|done]. apply moves_named.
      unfold on_error. walk ltac:(named_leaf).
    + intros o. eapply post_weaken; [exact (fun _ H => H)| |apply moves_named; walk ltac:(named_leaf)].
      by intros [] s0.
Qed.
End invariants.
