(* ===== verification/LoopProps.v ===== *)
(** What the agent loop promises: the protocol of its events, the row of its
    run, its tool calls, its iterations and the causes it reports, with a
    concrete run that exercises them. *)
From S2P Require Import Prelude Json Shared Deadlines Context Tools Models Repos Effects Loop LoopFacts LoopInvariants.

(** ** A concrete run: the tool fixture and one tool *)

Definition demo_tool : ToolDefinition :=
  {| tool_name := FIXTURE_TOOL_NAME; tool_description := "echoes"; inputSchema := JObj [] |}.

Definition demo_agent : AgentRecord :=
  {| ag_agentId := "agt_1"; ag_workspaceId := "ws_1"; ag_name := "demo";
     ag_modelConfig := {| mc_model := "fixture/demo"; mc_temperature := None; mc_maxTokens := None |};
     ag_systemPrompt := "Be brief."; ag_memoryConfig := None; ag_toolRunnerUrl := None;
     ag_tools := [demo_tool] |}%string.

Definition demo_ctx (signal : Signal) : RunContext :=
  {| ctx_sessionId := "ses_1"; ctx_runId := "run_1"; ctx_agentConfig := demo_agent;
     ctx_abortSignal := signal; ctx_iterationCount := 0 |}%string.

Definition demo_options : AgentEngineOptions :=
  {| o_maxToolIterations := None; o_toolTimeoutMs := Some 50%Z; o_modelTimeoutMs := None;
     o_totalRunMs := None; o_memoryStrategy := None; o_lastN := None |}.

Definition demo_run (s : RunStatus) : RunRecord :=
  {| run_runId := "run_1"; run_sessionId := "ses_1"; run_status := s;
     run_model := "fixture/demo"; run_tokenUsage := None |}.

Definition demo_db (runs : gmap string RunRecord) : Db :=
  {| db_sessions := {["ses_1" := {| ses_sessionId := "ses_1"; ses_agentId := "agt_1";
                                    ses_userId := None; ses_status := active |}]};
     db_agents := {["agt_1" := demo_agent]}; db_runs := runs;
     db_messages := [{| msg_messageId := "msg_user"; msg_sessionId := "ses_1"; msg_runId := None;
                        msg_role := user_role; msg_content := "hi" |}];
     db_toolCalls := ∅ |}%string.

Definition demo_prepared_db : Db := demo_db {["run_1"%string := demo_run running]}.

(** Every effect takes a millisecond; the executor answers, or overruns. *)
Definition demo_outside (slow : bool) : Outside FixtureProvider :=
  {| took := fun n => if slow && (n =? 10)%nat then 60%N else 1%N;
     refused := fun _ _ => None; torn := fun _ => false;
     streams := fun _ p req => generate p req (fun _ => false);
     executes := fun _ call _ _ => inl (result_ok (call_arguments call));
     nanoid := fun n => string_of_Z (Z.of_nat n); traced := false; finish_fails := false |}.

Definition demo_registry : ProviderRegistry FixtureProvider :=
  register "fixture" (fun _ => createToolFixtureProvider) (Some (key_config "k")) empty_registry.

Definition accept_all : json -> res string ValidateFunction := fun _ => Ok (fun _ => None).

Definition demo (slow : bool) (signal : Signal) : outcome error unit * LoopState :=
  runAgentLoop (demo_outside slow) accept_all demo_registry (fun _ => None) (demo_ctx signal) ""
    demo_options (Some "msg_user"%string) (init_state 0 demo_prepared_db 0).

Example demo_completes :
  map event_type (l_events (demo false None).2) =
    ["message_started"; "token"; "tool_call_started"; "tool_call_completed";
     "token"; "token"; "token"; "token"; "token"; "message_completed"]%string /\
  run_status <$> db_runs (l_db (demo false None).2) !! "run_1"%string = Some completed /\
  length (db_messages (l_db (demo false None).2)) = 4.
Proof. by vm_compute. Qed.

Example demo_times_out :
  map announced (l_events (demo true None).2) = [None; None; None; None; Some timed_out] /\
  run_status <$> db_runs (l_db (demo true None).2) !! "run_1"%string = Some timed_out.
Proof. by vm_compute. Qed.

Example demo_cancelled :
  map announced (l_events (demo false (Some (5%Z, by_caller (PlainError "AbortError" "stop")))).2)
  = [None; None; Some cancelled].
Proof. by vm_compute. Qed.

(** ** The theorems *)
Section theorems.
Context {P : Type} (outside : Outside P).
Context (ajv_compile : json -> res string ValidateFunction).
Context (registry : ProviderRegistry P) (penv : string -> option string).
Context (ctx : RunContext) (userContent : string) (options : AgentEngineOptions).
Context (prepared : option string) (now : Z) (db : Db).

(** The outcome and the last state of a run called with these tables. *)
Definition final : outcome error unit * LoopState :=
  runAgentLoop outside ajv_compile registry penv ctx userContent options prepared
    (init_state now db (ctx_iterationCount ctx)).

Abbreviation rid := (ctx_runId ctx).

(** C1: whatever the database, the provider, the executor, the signals and the
    consumer do, the generator never throws, and the events it yields follow
    the protocol: [message_started], tokens and bracketed tool calls, then
    exactly one terminal event, after which it yields nothing. *)
Theorem run_follows_protocol :
  match final.1 with
  | Ret _ => chat_run ph_init (l_events final.2) = Some ph_done
  | Throw _ => False
  | Torn => exists p, chat_run ph_init (l_events final.2) = Some p
  end.
Proof.
  assert (H := run_phase outside ajv_compile registry penv ctx userContent options prepared
    (init_state now db (ctx_iterationCount ctx)) eq_refl).
  fold final in H. by destruct final.1.
Qed.

(** C2: the terminal event tells the truth about the row: when the run's row
    is [running] at the start and the database accepts the transitions that
    the catch block asks for, the last event announces the status the row ends
    in - also when completing the run is what failed. *)
Theorem terminal_event_matches_row :
  prepared <> None ->
  run_status <$> db_runs db !! rid = Some running ->
  (forall n k, k = st_run_fail \/ k = st_run_cancel \/ k = st_run_timeout ->
     refused outside n k = None) ->
  final.1 = Ret tt ->
  exists es e st, l_events final.2 = es ++ [e] /\ announced e = Some st /\
    run_status <$> db_runs (l_db final.2) !! rid = Some st.
Proof.
  intros Hp Hr Hk He.
  assert (H := run_settles outside ajv_compile registry penv ctx userContent options prepared Hk Hp
    (init_state now db (ctx_iterationCount ctx)) Hr).
  fold final in H. rewrite He in H. exact H.
Qed.

(** C3: however the run ends - also when its consumer abandons it in the middle
    of a tool call - no tool call it opened is left [started]: a row that is
    still [started] was there before. *)
Theorem no_call_left_started id r :
  (forall n, refused outside n st_call_fail = None) ->
  db_toolCalls (l_db final.2) !! id = Some r -> tcr_status r = tc_started ->
  db_toolCalls db !! id = Some r.
Proof.
  intros Hf Hr Hst.
  assert (H := run_closes outside ajv_compile registry penv ctx userContent options prepared db Hf
    (init_state now db (ctx_iterationCount ctx)) (fun id r Hr _ => or_intror Hr) id r Hr Hst).
  destruct H as [H|H]; [by apply elem_of_nil in H|done].
Qed.

(** C4: a call reaches the executor only if its tool is one of the agent's and
    its compiled schema accepts the arguments: neither a name the model made
    up nor a tool whose schema does not compile is ever executed. *)
Theorem executed_calls_validated call :
  In call (l_executed final.2) ->
  exists def validate, In def (ag_tools (ctx_agentConfig ctx)) /\
    tool_name def = call_toolName call /\
    ajv_compile (inputSchema def) = Ok validate /\ validate (call_arguments call) = None.
Proof.
  intros Hin.
  assert (H := admitted_run outside ajv_compile registry penv ctx userContent options prepared
    (init_state now db (ctx_iterationCount ctx)) (Forall_nil_2 _)).
  rewrite Forall_forall in H. apply list_elem_of_In in Hin. apply H in Hin.
  by apply validateToolCall_valid in Hin.
Qed.

(** One run never sends more than [maxToolIterations] requests to the
    provider (less what its context has already counted), whatever the model
    keeps asking for. *)
Theorem requests_bounded :
  length (l_requests final.2) <= maxToolIterations options - ctx_iterationCount ctx.
Proof.
  by apply (run_requests outside ajv_compile registry penv ctx userContent options prepared
    (init_state now db (ctx_iterationCount ctx))).
Qed.

(** C20: the [while] loop terminates: [maxToolIterations] passes always reach
    its exit, so more fuel changes neither the outcome nor the state. *)
Theorem rounds_fuel fuel id s :
  maxToolIterations options <= fuel ->
  rounds outside ajv_compile registry penv ctx options fuel id s
  = rounds outside ajv_compile registry penv ctx options (maxToolIterations options) id s.
Proof. intros Hf. apply rounds_enough; lia. Qed.

(** An interruption is reported for what it was: a run announced
    [CANCELLED] had its signal aborted by a caller and by no deadline, and one
    announced [TIMED_OUT] had a deadline fire - the run's own, or the one of a
    call made during this run. *)
Theorem interruption_has_a_cause es e :
  final.1 = Ret tt -> l_events final.2 = es ++ [e] ->
  (announced e = Some cancelled ->
     exists t r, (t <= l_clock final.2)%Z /\ reason_at (ctx_abortSignal ctx) t = Some r /\
       timeoutReason (ctx_abortSignal ctx) t = None) /\
  (announced e = Some timed_out -> exists scope start t f,
     (now <= start <= t)%Z /\ (t <= l_clock final.2)%Z /\
     timeoutReason (deriveCallDeadline (ctx_abortSignal ctx) scope (call_timeout options scope) start) t
     = Some f).
Proof.
  intros He Hes.
  assert (H := run_cause outside ajv_compile registry penv ctx userContent options prepared now
    (init_state now db (ctx_iterationCount ctx)) (conj (Z.le_refl now) eq_refl)).
  fold final in H. rewrite He in H. destruct (H es e Hes) as [H1 H2]. split; [done|].
  intros Ha. destruct (H2 Ha) as (f & sc & st & t & ?). by exists sc, st, t, f.
Qed.

(** The loop only moves the database forward: it deletes no row, rewrites
    no message, and touches neither a run that is already terminal nor a tool
    call that is already final - also those of other runs. *)
Theorem run_moves_forward : db_le db (l_db final.2).
Proof.
  exact (forward_run outside ajv_compile registry penv ctx userContent options prepared
    (init_state now db (ctx_iterationCount ctx))).
Qed.

(** A run started without its row (the engine's direct path) never
    reaches the model: the user message names the run, whose row is created
    only afterwards, and the foreign key refuses it.  No request is sent, no
    message and no run are stored. *)
Theorem unprepared_run_never_starts :
  prepared = None -> db_runs db !! rid = None ->
  l_requests final.2 = [] /\ l_executed final.2 = [] /\
  db_messages (l_db final.2) = db_messages db /\ db_runs (l_db final.2) !! rid = None.
Proof.
  intros Hp Hr.
  destruct (unprepared_run outside ajv_compile registry penv ctx userContent options prepared Hp
    (init_state now db (ctx_iterationCount ctx)) Hr) as (?&?&?&H).
  split_and!; [done..|by apply H].
Qed.
End theorems.

(** ** Witnesses *)

Lemma terminal_event_matches_row_witness :
  exists es e st, l_events (demo true None).2 = es ++ [e] /\ announced e = Some st /\
    run_status <$> db_runs (l_db (demo true None).2) !! "run_1"%string = Some st.
Proof.
  apply (terminal_event_matches_row (demo_outside true) accept_all demo_registry (fun _ => None)
    (demo_ctx None) "" demo_options (Some "msg_user"%string) 0 demo_prepared_db).
  - discriminate.
  - vm_compute. reflexivity.
  - intros n k _. reflexivity.
  - vm_compute. reflexivity.
Defined.

(** The consumer leaves while the tool runs: its row was [started]. *)
Definition torn_outside : Outside FixtureProvider :=
  {| took := fun _ => 1%N; refused := fun _ _ => None; torn := fun n => (n =? 13)%nat;
     streams := fun _ p req => generate p req (fun _ => false);
     executes := fun _ call _ _ => inr (PlainError "Error" "boom");
     nanoid := fun n => string_of_Z (Z.of_nat n); traced := false; finish_fails := false |}.

Definition torn_db : Db :=
  set_toolCalls demo_prepared_db
    {["old"%string := {| tcr_callId := "old"; tcr_runId := "run_0"; tcr_toolName := "t";
       tcr_input := None; tcr_output := None; tcr_status := tc_started |}]}.

Lemma no_call_left_started_witness :
  db_toolCalls torn_db !! "old"%string <> None /\ db_toolCalls torn_db !! "old"%string =
  Some {| tcr_callId := "old"; tcr_runId := "run_0"; tcr_toolName := "t";
          tcr_input := None; tcr_output := None; tcr_status := tc_started |}.
Proof.
  split; [vm_compute; discriminate|].
  apply (no_call_left_started torn_outside accept_all demo_registry (fun _ => None)
    (demo_ctx None) "" demo_options (Some "msg_user"%string) 0 torn_db).
  - intros n. reflexivity.
  - vm_compute. reflexivity.
  - reflexivity.
Defined.

Lemma executed_calls_validated_witness :
  exists def validate, In def [demo_tool] /\ tool_name def = FIXTURE_TOOL_NAME /\
    accept_all (inputSchema def) = Ok validate /\ validate (Some FIXTURE_ARGUMENTS) = None.
Proof.
  apply (executed_calls_validated (demo_outside false) accept_all demo_registry (fun _ => None)
    (demo_ctx None) "" demo_options (Some "msg_user"%string) 0 demo_prepared_db
    {| call_toolName := FIXTURE_TOOL_NAME; call_callId := "tc_1";
       call_arguments := Some FIXTURE_ARGUMENTS |}).
  vm_compute. left. reflexivity.
Defined.

Lemma rounds_fuel_witness :
  rounds (demo_outside false) accept_all demo_registry (fun _ => None) (demo_ctx None) demo_options
    25 "msg_a" (init_state 0 demo_prepared_db 0)
  = rounds (demo_outside false) accept_all demo_registry (fun _ => None) (demo_ctx None) demo_options
    10 "msg_a" (init_state 0 demo_prepared_db 0).
Proof. apply (rounds_fuel (demo_outside false)). vm_compute. repeat constructor. Defined.

Lemma interruption_has_a_cause_witness :
  exists scope start t f, (0 <= start <= t)%Z /\ (t <= 75)%Z /\
    timeoutReason (deriveCallDeadline None scope (call_timeout demo_options scope) start) t = Some f.
Proof.
  apply (interruption_has_a_cause (demo_outside true) accept_all demo_registry (fun _ => None)
    (demo_ctx None) "" demo_options (Some "msg_user"%string) 0 demo_prepared_db
    (take 4 (l_events (demo true None).2))
    (run_failed "run_1" "ses_1" "TIMED_OUT" "Run exceeded the tool deadline of 50ms"
       (Some (error_json (rte_error {| rte_scope := tool_scope; rte_timeoutMs := 50 |}))))%string).
  - vm_compute. reflexivity.
  - vm_compute. reflexivity.
  - reflexivity.
Defined.

Lemma unprepared_run_never_starts_witness :
  l_requests (runAgentLoop (demo_outside false) accept_all demo_registry (fun _ => None)
    (demo_ctx None) "hi" demo_options None (init_state 0 (demo_db ∅) 0)).2 = [].
Proof.
  apply (unprepared_run_never_starts (demo_outside false) accept_all demo_registry (fun _ => None)
    (demo_ctx None) "hi" demo_options None 0 (demo_db ∅)); vm_compute; reflexivity.
Defined.
