(* ===== verification/ObservabilityProps.v ===== *)
(** What bounding a span's record keeps, the shape of a finished trace, and the
    spans that the loop leaves in it (see [Observability] and [Loop]). *)
From S2P Require Import Prelude Json Shared Deadlines Context Tools Models Repos Effects Loop LoopFacts LoopInvariants LoopProps.
From S2P Require Import Observability.

(** ** Object lookups *)

Lemma obj_get_app k a b :
  obj_get k (a ++ b) = match obj_get k a with Some v => Some v | None => obj_get k b end.
Proof. induction a as [|[k' v] a IH]; simpl; [done|]. by destruct (String.eqb k k'). Qed.

Lemma obj_get_set_ne k k' v o : k <> k' -> obj_get k (obj_set k' v o) = obj_get k o.
Proof.
  intros Hne. induction o as [|[k0 v0] o IH]; simpl.
  - by destruct (String.eqb_spec k k').
  - destruct (String.eqb_spec k' k0) as [->|]; simpl; [by destruct (String.eqb_spec k k0)|by rewrite IH].
Qed.

Lemma obj_get_none k o : k ∉ o.*1 -> obj_get k o = None.
Proof.
  induction o as [|[k' v] o IH]; simpl; [done|]. intros H. apply not_elem_of_cons in H as [Hne Ho].
  destruct (String.eqb_spec k k'); [done|by apply IH].
Qed.

(** ** Bounding keeps what the metrics read *)

Lemma whitelisted_elem k : whitelisted k = true <-> k ∈ METADATA_WHITELIST.
Proof.
  unfold whitelisted. rewrite existsb_exists. split.
  - intros (x & Hx & E). apply String.eqb_eq in E as ->. by apply list_elem_of_In.
  - intros H. exists k. split; [by apply list_elem_of_In|apply String.eqb_refl].
Qed.

(** The walk keeps every other key, in its place. *)
Lemma bound_rest_keys n t ms :
  (bound_rest n t ms).1.*1 = (List.filter (fun m => negb (whitelisted m.1)) ms).*1.
Proof.
  revert n t. induction ms as [|[k v] ms IH]; intros n t; simpl; [done|].
  destruct (whitelisted k); simpl; [apply IH|].
  destruct t; [|destruct (Nat.ltb _ _)];
    match goal with |- context [bound_rest ?a ?b ms] =>
      specialize (IH a b); destruct (bound_rest a b ms); simpl in *; by f_equal end.
Qed.

Lemma bound_rest_not_listed n t ms k : whitelisted k = true -> obj_get k (bound_rest n t ms).1 = None.
Proof.
  intros Hk. apply obj_get_none. rewrite bound_rest_keys. intros H.
  apply list_elem_of_fmap in H as (m & -> & Hm).
  apply list_elem_of_In, filter_In in Hm as [_ Hm]. by rewrite Hk in Hm.
Qed.

Lemma pick_keys ks ms k : k ∈ (pick ks ms).*1 -> k ∈ ks /\ obj_get k ms <> None.
Proof.
  induction ks as [|k0 ks IH]; simpl; [by intros ?%elem_of_nil|].
  destruct (obj_get k0 ms) eqn:E; simpl; intros H;
    [apply elem_of_cons in H as [->|H]; [split; [by left|by rewrite E]|]|];
    destruct (IH H); split; try done; by right.
Qed.

Lemma pick_get ks k ms : k ∈ ks -> obj_get k (pick ks ms) = obj_get k ms.
Proof.
  intros H. destruct (obj_get k ms) as [v|] eqn:Ev.
  - induction ks as [|k0 ks IH]; simpl; [by apply elem_of_nil in H|].
    destruct (String.eqb_spec k k0) as [->|Hne]; [by rewrite Ev; simpl; rewrite String.eqb_refl|].
    apply elem_of_cons in H as [|H]; [done|]. destruct (obj_get k0 ms); simpl; [|by apply IH].
    rewrite (proj2 (String.eqb_neq _ _) Hne). by apply IH.
  - apply obj_get_none. intros Hk. by apply pick_keys in Hk as [_ Hk].
Qed.

Lemma bound_keeps k ms : whitelisted k = true -> obj_get k (boundMetadata ms) = obj_get k ms.
Proof.
  intros Hk. unfold boundMetadata. destruct (bound_rest 0 false ms) as [rest t] eqn:E.
  assert (H : obj_get k (pick METADATA_WHITELIST ms ++ rest) = obj_get k ms).
  { rewrite obj_get_app, pick_get by by apply whitelisted_elem.
    pose proof (bound_rest_not_listed 0 false ms k Hk) as Hn. rewrite E in Hn. simpl in Hn.
    rewrite Hn. by destruct (obj_get k ms). }
  destruct t; [|done]. rewrite obj_get_set_ne; [done|]. by intros ->.
Qed.

Lemma latency_bound l : latency (map boundSpanRecord l) = latency l.
Proof.
  unfold latency. set (f := fun sum r => _). generalize 0%Z as z.
  induction l as [|r l IH]; intros z; simpl; [done|]. apply IH.
Qed.

Lemma tokens_bound l o :
  fold_left add_tokens (map boundSpanRecord l) o = fold_left add_tokens l o.
Proof.
  revert o. induction l as [|r l IH]; intros o; simpl; [done|]. rewrite IH. f_equal.
  unfold add_tokens, token_count. simpl. by rewrite !bound_keeps.
Qed.

Lemma filter_bound ty l :
  List.filter (of_type ty) (map boundSpanRecord l) = map boundSpanRecord (List.filter (of_type ty) l).
Proof.
  induction l as [|r l IH]; simpl; [done|].
  change (of_type ty (boundSpanRecord r)) with (of_type ty r).
  destruct (of_type ty r); simpl; by rewrite IH.
Qed.

Lemma find_bound ty l :
  List.find (of_type ty) (map boundSpanRecord l) = boundSpanRecord <$> List.find (of_type ty) l.
Proof.
  induction l as [|r l IH]; simpl; [done|].
  change (of_type ty (boundSpanRecord r)) with (of_type ty r). by destruct (of_type ty r).
Qed.

(** Bounding the records of a trace changes none of the metrics
    that are derived from them. *)
Theorem metrics_survive_bounding spans :
  deriveRunMetrics (map boundSpanRecord spans) = deriveRunMetrics spans.
Proof.
  unfold deriveRunMetrics. rewrite !filter_bound, find_bound, !latency_bound, !length_map, tokens_bound.
  f_equal; destruct (List.find _ spans); simpl; try done.
  by destruct (List.filter _ spans).
Qed.

(** ** Bounds *)

Lemma length_substring_0 s n : (n <= String.length s)%nat -> String.length (substring 0 n s) = n.
Proof.
  revert n. induction s as [|c s IH]; intros [|n] H; simpl in *; [done|lia|done|].
  f_equal. apply IH. lia.
Qed.

Lemma length_sapp a b : String.length (a +:+ b) = (String.length a + String.length b)%nat.
Proof. induction a as [|c a IH]; simpl; [done|]. by rewrite IH. Qed.

(** The bytes of the values under the keys that are not in the list. *)
Fixpoint value_bytes (ms : list (string * json)) : nat :=
  match ms with
  | [] => 0
  | (k, v) :: ms => (if whitelisted k then 0 else byteLength (stringify v)) + value_bytes ms
  end%nat.

Lemma value_bytes_app a b : value_bytes (a ++ b) = (value_bytes a + value_bytes b)%nat.
Proof. induction a as [|[k v] a IH]; simpl; [done|]. lia. Qed.

Lemma value_bytes_pick ks ms : (forall k, k ∈ ks -> whitelisted k = true) -> value_bytes (pick ks ms) = 0%nat.
Proof.
  intros H. induction ks as [|k ks IH]; simpl; [done|].
  assert (IH' : value_bytes (pick ks ms) = 0%nat) by (apply IH; intros; apply H; by right).
  destruct (obj_get k ms); [|done]. simpl. rewrite H by by left. done.
Qed.

Lemma value_bytes_set k v o :
  (value_bytes (obj_set k v o) <= value_bytes o + byteLength (stringify v))%nat.
Proof.
  induction o as [|[k' w] o IH]; cbn [obj_set value_bytes]; [destruct (whitelisted k); lia|].
  destruct (String.eqb_spec k k') as [->|]; cbn [value_bytes].
  - destruct (whitelisted k'); lia.
  - destruct (whitelisted k'); lia.
Qed.

Definition marker_bytes : nat := byteLength (stringify TRUNCATED_VALUE).

Lemma truncating_bytes n ms :
  (value_bytes (bound_rest n true ms).1 <= marker_bytes * length ms)%nat.
Proof.
  induction ms as [|[k v] ms IH]; [simpl; lia|]. cbn [bound_rest length].
  destruct (whitelisted k) eqn:Hk; [lia|].
  destruct (bound_rest n true ms) as [r t]. cbn [fst value_bytes] in *. rewrite Hk.
  unfold marker_bytes in *. lia.
Qed.

Lemma bound_rest_bytes n ms :
  (n <= MAX_SPAN_METADATA_BYTES)%nat ->
  (n + value_bytes (bound_rest n false ms).1 <= MAX_SPAN_METADATA_BYTES + marker_bytes * length ms)%nat.
Proof.
  revert n. induction ms as [|[k v] ms IH]; intros n Hn; cbn [bound_rest length fst value_bytes]; [lia|].
  destruct (whitelisted k) eqn:Hk; [specialize (IH n Hn); lia|].
  destruct (Nat.ltb_spec MAX_SPAN_METADATA_BYTES (n + byteLength (stringify v))) as [Hb|Hb].
  - pose proof (truncating_bytes n ms) as Ht. destruct (bound_rest n true ms) as [r t].
    cbn [fst value_bytes] in *. rewrite Hk. unfold marker_bytes in *. lia.
  - specialize (IH _ Hb). destruct (bound_rest _ false ms) as [r t].
    cbn [fst value_bytes] in *. rewrite Hk. lia.
Qed.

(** The values outside the list are within the budget, but for the markers. *)
Lemma metadata_budget ms :
  (value_bytes (boundMetadata ms) <= MAX_SPAN_METADATA_BYTES + marker_bytes * length ms + 4)%nat.
Proof.
  unfold boundMetadata. pose proof (bound_rest_bytes 0 ms ltac:(lia)) as H.
  destruct (bound_rest 0 false ms) as [rest t]. cbn [fst] in H.
  assert (E : value_bytes (pick METADATA_WHITELIST ms ++ rest) = value_bytes rest).
  { rewrite value_bytes_app, value_bytes_pick; [done|]. by intros k ?%whitelisted_elem. }
  destruct t; [|lia]. etrans; [apply value_bytes_set|].
  pose proof (eq_refl : byteLength (stringify (JBool true)) = 4%nat). lia.
Qed.

Lemma boundError_length e :
  (String.length (se_message (boundError e)) <=
   MAX_SPAN_ERROR_MESSAGE_CHARS + String.length TRUNCATION_SUFFIX)%nat.
Proof.
  unfold boundError. destruct (Nat.leb_spec (String.length (se_message e)) MAX_SPAN_ERROR_MESSAGE_CHARS);
    [lia|]. cbn [se_message]. rewrite length_sapp, length_substring_0; lia.
Qed.

(** ** The trace of a run *)

(** What the loop does with a trace: it starts spans, and ends them or adds to
    their metadata. *)
Inductive trace_call : Type :=
| model_call (spanId modelName : string) (now : Z)
| tool_call (spanId toolName callId : string) (now : Z)
| end_span (i : nat) (now : Z) (status : SpanStatus) (error : option (string * option string))
| add_to_span (i : nat) (partial : list (string * json)).

Definition trace_step (t : RunTrace) (c : trace_call) : RunTrace :=
  match c with
  | model_call spanId modelName now => startModelCall spanId modelName now t
  | tool_call spanId toolName callId now => startToolCall spanId toolName callId now t
  | end_span i now status error => on_span i (span_end now status error) t
  | add_to_span i partial => on_span i (addMetadata partial) t
  end.

(** A child of the root, in the root's trace. *)
Definition child_of (root c : Span) : Prop :=
  sp_traceId c = sp_traceId root /\ sp_parentSpanId c = Some (sp_spanId root) /\ sp_type c <> run_span.

Lemma trace_step_tree t c :
  Forall (child_of (rt_root t)) (rt_children t) ->
  rt_root (trace_step t c) = rt_root t /\ rt_runId (trace_step t c) = rt_runId t /\
  Forall (child_of (rt_root t)) (rt_children (trace_step t c)).
Proof.
  intros Ht. split; [by destruct c|]. split; [by destruct c|].
  destruct c; simpl; try (by apply Forall_alter; [|intros ? _ ?]); apply Forall_app; split; try done;
    by apply Forall_singleton.
Qed.

Lemma trace_steps_tree cs t :
  Forall (child_of (rt_root t)) (rt_children t) ->
  rt_root (fold_left trace_step cs t) = rt_root t /\
  rt_runId (fold_left trace_step cs t) = rt_runId t /\
  Forall (child_of (rt_root t)) (rt_children (fold_left trace_step cs t)).
Proof.
  revert t. induction cs as [|c cs IH]; intros t Ht; [done|]. simpl.
  destruct (trace_step_tree t c Ht) as (H1 & H2 & H3). rewrite <- H1 in H3.
  destruct (IH _ H3) as (H4 & H5 & H6). rewrite H1 in *. by rewrite H4, H5, H2.
Qed.

(** C31: A finished trace is one tree: its first span is the root, a
    run span that spans the run, and every other span is a child of the root in
    the same trace, whatever the loop did in between. *)
Theorem finished_trace_is_a_tree traceId rootSpanId runId start cs now status error :
  let t := fold_left trace_step cs (startRunTrace traceId rootSpanId runId start) in
  let '(tr, spans) := trace_finish now status error t in
  tr = {| tr_traceId := traceId; tr_runId := runId; tr_rootSpanId := rootSpanId; tr_startedAt := start;
          tr_completedAt := Some now; tr_totalDurationMs := Some (now - start)%Z |} /\
  (exists root children, spans = root :: children /\
     sr_spanId root = rootSpanId /\ sr_parentSpanId root = None /\ sr_traceId root = traceId /\
     sr_type root = run_span /\ sr_durationMs root = Some (now - start)%Z /\
     Forall (fun c => sr_traceId c = traceId /\ sr_parentSpanId c = Some rootSpanId /\
                      sr_type c <> run_span) children) /\
  m_totalRunDurationMs (deriveRunMetrics spans) = Some (now - start)%Z.
Proof.
  intros t. destruct (trace_steps_tree cs (startRunTrace traceId rootSpanId runId start)) as (Hr & Hi & Hc);
    [constructor|]. fold t in Hr, Hi, Hc. unfold trace_finish. rewrite Hr, Hi.
  split; [done|]. split; [|done].
  eexists _, _. split; [reflexivity|]. repeat (split; [done|]).
  apply Forall_fmap. by eapply Forall_impl.
Qed.

(** ** The spans of a run

    The loop is sequential: the span that it ends or adds to is the one it
    started last. *)
Inductive span_phase : Type := at_rest | in_model (counted : bool) | in_tool | persisted.

Definition span_step (p : span_phase) (op : span_op) : option span_phase :=
  match p, op with
  | at_rest, sp_model_start _ => Some (in_model false)
  | in_model false, sp_usage _ _ => Some (in_model true)
  | in_model _, sp_model_end _ => Some at_rest
  | at_rest, sp_tool_start _ _ => Some in_tool
  | in_tool, sp_tool_end _ => Some at_rest
  | (at_rest | in_model _ | in_tool), sp_finish _ => Some persisted
  | _, _ => None
  end.

Fixpoint span_run (p : span_phase) (ops : list span_op) : option span_phase :=
  match ops with [] => Some p | op :: ops => q ← span_step p op; span_run q ops end.

Lemma span_run_snoc p ops op : span_run p (ops ++ [op]) = q ← span_run p ops; span_step q op.
Proof.
  revert p. induction ops as [|o ops IH]; intros p; simpl; [by destruct (span_step p op)|].
  destruct (span_step p o); [apply IH|done].
Qed.

Definition starts_model (op : span_op) : bool := match op with sp_model_start _ => true | _ => false end.
Definition starts_tool (op : span_op) : bool := match op with sp_tool_start _ _ => true | _ => false end.
Definition models (s : LoopState) : nat := length (List.filter starts_model (l_spans s)).
Definition tools (s : LoopState) : nat := length (List.filter starts_tool (l_spans s)).

Section spans.
Local Open Scope eff_scope.
Context {P : Type} (outside : Outside P).
Context (ajv_compile : json -> res string ValidateFunction).
Context (registry : ProviderRegistry P) (penv : string -> option string).
Context (ctx : RunContext) (userContent : string) (options : AgentEngineOptions).
Context (prepared : option string).
Hypothesis is_traced : traced outside = true.

Abbreviation L := (M LoopState error).

(** The spans are in a phase; [dm] and [dt] spans have no request, or call, yet. *)
Definition spanned (dm dt : nat) (p : span_phase) (s : LoopState) : Prop :=
  span_run at_rest (l_spans s) = Some p /\
  models s = (dm + length (l_requests s))%nat /\ tools s = (dt + length (l_executed s))%nat.
Abbreviation in_span := (spanned 0 0).
Definition unfinished (s : LoopState) : Prop := exists p, in_span p s /\ p <> persisted.

Definition same_spans (s s' : LoopState) : Prop :=
  l_spans s' = l_spans s /\ l_requests s' = l_requests s /\ l_executed s' = l_executed s.

#[local] Instance same_spans_refl : Reflexive same_spans.
Proof. by intros a. Qed.
#[local] Instance same_spans_trans : Transitive same_spans.
Proof. intros a b c (?&?&?) (?&?&?). unfold same_spans. split_and!; congruence. Qed.

Lemma still_keeps {A} (m : L A) dm dt p : moves same_spans m -> keeps (spanned dm dt p) m.
Proof.
  intros H s Hs. destruct (H s) as (E1 & E2 & E3). unfold spanned, models, tools in *. by rewrite E1, E2, E3.
Qed.

Lemma in_span_unfinished p s : p <> persisted -> in_span p s -> unfinished s.
Proof. intros. by exists p. Qed.

Abbreviation rests m := (tri (in_span at_rest) unfinished unfinished m).

Lemma still_rests {A} (m : L A) : moves same_spans m -> rests m.
Proof.
  intros H. apply tri_keeps; [by apply still_keeps|..]; intros s; by apply in_span_unfinished.
Qed.

(** A call of a span. *)
Lemma span_calls {A} dm dt p op q (k : L A) Q :
  span_step p op = Some q ->
  post (spanned (dm + (if starts_model op then 1 else 0)) (dt + (if starts_tool op then 1 else 0)) q) k Q ->
  post (spanned dm dt p) (span outside op ;;; k) Q.
Proof.
  intros Hq Hk s (H1 & H2 & H3). unfold span. rewrite is_traced. unfold whenM, bind, modify. simpl. apply Hk.
  unfold spanned, models, tools in *. simpl. rewrite span_run_snoc, H1, !List.filter_app, !length_app, H2, H3. split; [done|].
  simpl. destruct (starts_model op), (starts_tool op); simpl; lia.
Qed.

Lemma still_then {A B} dm dt p (m : L A) (k : A -> L B) Q :
  moves same_spans m -> (forall a, post (spanned dm dt p) (k a) Q) ->
  (forall e s, spanned dm dt p s -> Q (Throw e) s) -> (forall s, spanned dm dt p s -> Q Torn s) ->
  post (spanned dm dt p) (x <~ m ;; k x) Q.
Proof. intros Hm Hk He Ht. eapply post_bind; [by apply still_keeps|..]; done. Qed.

Lemma still_chunks id cs acc : moves same_spans (process_chunks outside ctx id cs acc).
Proof.
  revert acc. induction cs as [|c cs IH]; intros acc; cbn [process_chunks]; unfold process_chunk;
    repeat first [apply IH | walk ltac:(done)].
Qed.

(** The request is out: what the stream gives, and the end of its span. *)
Lemma stream_spans id st :
  post (in_span (in_model false))
    (acc <~ consume outside ctx id st ;;
     u <~ gets l_usage ;;
     span outside (sp_usage (u_inputTokens u ?? 0%Z) (u_outputTokens u ?? 0%Z)) ;;;
     span outside (sp_model_end true) ;;;
     ret acc)
    (fun o => match o with Ret _ => in_span at_rest | Throw _ => in_span (in_model false) | Torn => unfinished end).
Proof.
  assert (Hu : forall s, in_span (in_model false) s -> unfinished s) by (intros; by apply (in_span_unfinished (in_model false))).
  apply still_then; [unfold consume; repeat first [apply still_chunks|walk ltac:(done)]|intros acc|done|done].
  apply still_then; [walk ltac:(done)|intros u|done|done].
  eapply (span_calls 0 0); [done|]. eapply (span_calls 0 0); [done|]. by intros s'.
Qed.

Lemma model_call_spans id pr m ms : rests (Loop.model_call outside ctx options id pr m ms).
Proof.
  assert (Hr : forall s, in_span at_rest s -> unfinished s) by (intros; by apply (in_span_unfinished at_rest)).
  unfold Loop.model_call, tri. apply still_then; [walk ltac:(done)|intros start|done|done].
  eapply (span_calls 0 0); [done|]. cbn [starts_model starts_tool Nat.add].
  eapply (post_try_catch _ _ _ (fun o => match o with
    Ret _ => in_span at_rest | Throw _ => in_span (in_model false) | Torn => unfinished end)); [|intros e|done|done].
  - intros s (H1 & H2 & H3). unfold bind at 1, gets at 1. cbn [fst snd]. unfold bind at 1, modify. cbn [fst snd].
    apply stream_spans. split; [exact H1|]. unfold models, tools in *. simpl. rewrite length_app. simpl. lia.
  - eapply (span_calls 0 0); [done|]. cbn [starts_model starts_tool Nat.add].
    apply still_then; [walk ltac:(done)|intros t|done|done].
    apply still_then; [walk ltac:(done)|intros ?|done|done]. intros s Hs. by apply Hr.
Qed.

Lemma run_tool_spans p : rests (run_tool outside ctx options p).
Proof.
  assert (Hr : forall s, in_span at_rest s -> unfinished s) by (intros; by apply (in_span_unfinished at_rest)).
  assert (Ht : forall s, in_span in_tool s -> unfinished s) by (intros; by apply (in_span_unfinished in_tool)).
  unfold run_tool, tri. apply still_then; [walk ltac:(done)|intros start|done|done].
  eapply (span_calls 0 0); [done|]. cbn [starts_model starts_tool Nat.add].
  eapply (post_bind _ _ _ (fun o => match o with Ret _ => in_span in_tool | _ => fun _ => False end)); [|intros r|done|done].
  { intros s (H1 & H2 & H3). unfold execute_tool. destruct (executes outside _ _ _ _); simpl;
      (split; [exact H1|]); unfold models, tools in *; simpl in *; rewrite length_app; simpl; lia. }
  apply still_then; [walk ltac:(done)|intros t|done|done]. cbv zeta.
  eapply (post_bind _ _ _ (fun o => match o with Ret _ => in_span at_rest | _ => unfinished end)); [|intros st|done|done].
  - destruct r; (apply still_then; [walk ltac:(done)|intros ?|done|done]);
      (eapply (span_calls 0 0); [done|]); by intros s.
  - apply (still_rests (close_open (ptc_swiftCallId p) ;;; _)). walk ltac:(done).
Qed.

Ltac still := solve [apply still_rests; walk ltac:(done)].

Lemma tool_step_spans p : rests (tool_step outside ajv_compile ctx options p).
Proof.
  unfold tool_step. repeat (apply tri_bind; [still|intros ?]).
  apply tri_bind; [|intros st; still].
  destruct (validateToolCall _ _ _); [apply run_tool_spans|still].
Qed.

Lemma still_mint cs : moves same_spans (mint_calls outside cs).
Proof. induction cs; cbn [mint_calls]; repeat first [apply IHcs|walk ltac:(done)]. Qed.

Lemma rounds_spans fuel id : rests (rounds outside ajv_compile registry penv ctx options fuel id).
Proof.
  induction fuel as [|fuel IH]; cbn [rounds]; [apply tri_ret|].
  apply tri_bind; [apply tri_gets|intros it]. destruct (_ <? _)%nat; [|apply tri_ret].
  apply tri_bind; [|intros []; [done|apply tri_ret]]. unfold round.
  apply tri_bind; [still|intros _]. apply tri_bind; [still|intros h].
  destruct (resolveForModel _ _ _) as [[[pr m] r']|e]; [|still].
  apply tri_bind; [apply model_call_spans|intros chunks]. destruct chunks as [|c cs]; [apply tri_ret|].
  apply tri_bind; [|intros _; apply tri_ret]. unfold tool_calls.
  apply tri_bind; [apply still_rests, still_mint|intros calls]. apply tri_bind; [still|intros id'].
  apply tri_bind; [apply tri_gets|intros t]. apply tri_bind; [still|intros _]. apply tri_bind; [still|intros _].
  apply tri_bind; [apply tri_for_each; intros p; apply tool_step_spans|intros _; still].
Qed.

Lemma body_spans mid :
  rests (body outside ajv_compile registry penv ctx userContent options prepared mid).
Proof.
  unfold body. repeat (apply tri_bind; [still|intros ?]). apply tri_bind; [apply rounds_spans|intros _]. still.
Qed.

Lemma still_unfinished {A} (m : L A) : moves same_spans m -> keeps unfinished m.
Proof. intros H s (p & Hp & Hd). exists p. split; [|done]. by apply (still_keeps m 0 0 p H s). Qed.

(** The last call of the trace. *)
Lemma finish_spans ok :
  post unfinished
    (try_catch (span outside (sp_finish ok) ;;;
                if traced outside && finish_fails outside then throw (PlainError "Error" "trace sink") else ret tt)
       (fun _ => ret tt))
    (fun _ => in_span persisted).
Proof.
  intros s (p & (H1 & H2 & H3) & Hp). assert (Hf : in_span persisted (add_span (sp_finish ok) s)).
  { split; [simpl; rewrite span_run_snoc, H1; by destruct p as [|[]| |]|]. unfold models, tools in *. simpl.
    rewrite !List.filter_app, !length_app. simpl. lia. }
  unfold try_catch, span, whenM, bind, modify, throw, ret. rewrite is_traced. simpl. by destruct (finish_fails outside).
Qed.

Lemma finalize_spans : post unfinished (finalize outside) (fun _ => in_span persisted).
Proof.
  assert (Hq : forall A B (m : L A) (k : A -> L B), returns m -> moves same_spans m ->
    (forall a, post unfinished (k a) (fun _ => in_span persisted)) ->
    post unfinished (bind m k) (fun _ => in_span persisted)).
  { intros A B m k Hr Hm Hk s Hs. destruct (Hr s) as [a Ha]. pose proof (still_unfinished m Hm s Hs) as Hu.
    unfold bind. destruct (m s) as [o s']. simpl in *. subst o. by apply Hk. }
  unfold finalize. apply Hq; [repeat return_step|walk ltac:(done)|intros o].
  apply Hq; [repeat first [return_step|apply query_never_torn]|walk ltac:(done)|intros u].
  apply Hq; [repeat return_step|walk ltac:(done)|intros st]. apply finish_spans.
Qed.

Lemma run_spans :
  post (in_span at_rest) (runAgentLoop outside ajv_compile registry penv ctx userContent options prepared)
    (fun _ => in_span persisted).
Proof.
  unfold runAgentLoop. eapply (post_bind _ _ _ (fun o s => match o with Ret _ => in_span at_rest s | _ => False end));
    [intros s Hs; by destruct prepared|intros mid|done|done].
  eapply (post_try_finally _ _ _ (fun _ => unfinished)).
  - eapply post_try_catch; [apply body_spans|intros e; apply still_unfinished; unfold on_error; walk ltac:(done)| |done].
    intros a s. by apply in_span_unfinished.
  - intros o. eapply post_weaken; [exact (fun _ H => H)| |apply finalize_spans]. intros o' s Hs. by destruct o'.
Qed.
End spans.

(** *** The trace that the loop's calls make *)
Section traces.
Context (clock : nat -> Z) (ids : nat -> string) (errs : nat -> option (string * option string)).

(** The [n]th call. *)
Definition trace_op (n : nat) (t : RunTrace) (op : span_op) : RunTrace :=
  let current := (length (rt_children t) - 1)%nat in
  match op with
  | sp_model_start model => startModelCall (ids n) model (clock n) t
  | sp_usage prompt completion =>
      on_span current (addMetadata [("promptTokens", JNum prompt); ("completionTokens", JNum completion)]%string) t
  | sp_model_end ok | sp_tool_end ok => on_span current (span_end (clock n) (if ok then span_ok else span_error) (errs n)) t
  | sp_tool_start toolName callId => startToolCall (ids n) toolName callId (clock n) t
  | sp_finish _ => t
  end.

Fixpoint trace_ops (n : nat) (ops : list span_op) (t : RunTrace) : RunTrace :=
  match ops with [] => t | op :: ops => trace_ops (S n) ops (trace_op n t op) end.

Lemma trace_ops_snoc n ops op t : trace_ops n (ops ++ [op]) t = trace_op (n + length ops) (trace_ops n ops t) op.
Proof.
  revert n t. induction ops as [|o ops IH]; intros n t; simpl; [by rewrite Nat.add_0_r|].
  rewrite IH. f_equal. lia.
Qed.

(** The tokens that the loop reported. *)
Definition reported (ops : list span_op) : Z :=
  fold_left (fun sum op => match op with sp_usage p c => sum + p + c | _ => sum end)%Z ops 0%Z.

Lemma reported_snoc ops op :
  reported (ops ++ [op]) = match op with sp_usage p c => reported ops + p + c | _ => reported ops end%Z.
Proof. unfold reported. by rewrite fold_left_app. Qed.

Definition span_tokens (sum : option Z) (s : Span) : option Z :=
  n ← sum; p ← token_count "promptTokens" (sp_metadata s); c ← token_count "completionTokens" (sp_metadata s); Some (n + p + c)%Z.

Definition count_type (ty : SpanType) (l : list Span) : nat := length (List.filter (fun s => bool_decide (sp_type s = ty)) l).

(** A span that reported nothing yet. *)
Definition silent (s : Span) : Prop :=
  obj_get "promptTokens" (sp_metadata s) = None /\ obj_get "completionTokens" (sp_metadata s) = None.

(** What the children of the trace are after [ops]. *)
Record traced_as (ops : list span_op) (q : span_phase) (l : list Span) : Prop := {
  ta_models : count_type model_call_span l = length (List.filter starts_model ops);
  ta_tools : count_type tool_call_span l = length (List.filter starts_tool ops);
  ta_tokens : fold_left span_tokens l (Some 0%Z) = Some (reported ops);
  ta_current : match q with
               | in_model false => exists pre s, l = pre ++ [s] /\ silent s
               | in_model true | in_tool => exists pre s, l = pre ++ [s]
               | _ => True
               end }.

Lemma alter_last {A} (f : A -> A) pre x : alter f (length (pre ++ [x]) - 1)%nat (pre ++ [x]) = pre ++ [f x].
Proof. rewrite length_app. simpl. rewrite Nat.add_sub. rewrite alter_app_r_alt by lia. by rewrite Nat.sub_diag. Qed.

Lemma count_snoc ty l s : count_type ty (l ++ [s]) = (count_type ty l + if bool_decide (sp_type s = ty) then 1 else 0)%nat.
Proof. unfold count_type. rewrite List.filter_app, length_app. simpl. by destruct (bool_decide _). Qed.

(** A new span. *)
Lemma traced_start ops q q' l op s :
  traced_as ops q l -> silent s ->
  starts_model op = bool_decide (sp_type s = model_call_span) -> starts_tool op = bool_decide (sp_type s = tool_call_span) ->
  q' = in_model false \/ q' = in_tool -> (forall p c, op <> sp_usage p c) ->
  traced_as (ops ++ [op]) q' (l ++ [s]).
Proof.
  intros [T1 T2 T3 T4] Hs Hm Ht Hq Hu. split.
  - rewrite count_snoc, T1, List.filter_app, length_app, <- Hm. simpl. by destruct (starts_model op).
  - rewrite count_snoc, T2, List.filter_app, length_app, <- Ht. simpl. by destruct (starts_tool op).
  - rewrite fold_left_app, T3, reported_snoc. destruct Hs as [S1 S2]. simpl. unfold token_count. rewrite S1, S2. simpl.
    destruct op; try (by destruct (Hu promptTokens completionTokens)); by rewrite !Z.add_0_r.
  - destruct Hq as [->| ->]; eauto.
Qed.

(** The current span changes, but for its type. *)
Lemma traced_change ops q q' pre s f op (d : Z) :
  traced_as ops q (pre ++ [s]) -> sp_type (f s) = sp_type s ->
  starts_model op = false -> starts_tool op = false ->
  (forall sum n, span_tokens sum s = Some n -> span_tokens sum (f s) = Some (n + d)%Z) ->
  reported (ops ++ [op]) = (reported ops + d)%Z ->
  (q' = at_rest \/ q' = in_model true) ->
  traced_as (ops ++ [op]) q' (pre ++ [f s]).
Proof.
  intros [T1 T2 T3 T4] Hty Hm Ht Hf Hr Hq. split.
  - rewrite count_snoc in *. rewrite Hty, T1, List.filter_app, length_app. simpl. rewrite Hm. simpl. lia.
  - rewrite count_snoc in *. rewrite Hty, T2, List.filter_app, length_app. simpl. rewrite Ht. simpl. lia.
  - rewrite fold_left_app in *. simpl in *. rewrite Hr. by apply Hf.
  - destruct Hq as [->| ->]; eauto.
Qed.

Lemma span_end_tokens now st e s sum n :
  span_tokens sum s = Some n -> span_tokens sum (span_end now st e s) = Some (n + 0)%Z.
Proof. rewrite Z.add_0_r. done. Qed.

Lemma usage_tokens p c s sum n :
  silent s -> span_tokens sum s = Some n ->
  span_tokens sum (addMetadata [("promptTokens", JNum p); ("completionTokens", JNum c)]%string s) = Some (n + (p + c))%Z.
Proof.
  intros [S1 S2]. unfold span_tokens. destruct sum as [k|]; [|done]. simpl. unfold token_count. rewrite S1, S2. simpl.
  intros [= <-]. rewrite !obj_get_set. simpl. f_equal. lia.
Qed.

Lemma traced_finish ops q ok l : traced_as ops q l -> traced_as (ops ++ [sp_finish ok]) persisted l.
Proof.
  intros [T1 T2 T3 _]. split; [| |by rewrite reported_snoc|done]; rewrite List.filter_app, length_app; simpl; lia.
Qed.

Lemma traced_op n ops q q' t op :
  traced_as ops q (rt_children t) -> span_step q op = Some q' ->
  traced_as (ops ++ [op]) q' (rt_children (trace_op n t op)) /\ rt_root (trace_op n t op) = rt_root t.
Proof.
  intros Ht Hq. split; [|by destruct op].
  assert (Hcur : (exists pre s, rt_children t = pre ++ [s]) -> forall f d,
    (forall s, sp_type (f s) = sp_type s) -> starts_model op = false -> starts_tool op = false ->
    (forall pre s, rt_children t = pre ++ [s] -> forall sum n, span_tokens sum s = Some n -> span_tokens sum (f s) = Some (n + d)%Z) ->
    reported (ops ++ [op]) = (reported ops + d)%Z -> q' = at_rest \/ q' = in_model true ->
    traced_as (ops ++ [op]) q' (alter f (length (rt_children t) - 1)%nat (rt_children t))).
  { intros (pre & s & E) f d Hty Hm Htl Hf Hr Hq'. rewrite E in *. rewrite alter_last.
    apply (traced_change ops q q' pre s f op d); eauto. }
  pose proof (ta_current _ _ _ Ht) as Hc. destruct q as [|[]| |], op; simplify_eq/=;
    try (eapply traced_start; [exact Ht|done|done|done|by auto|done]);
    try (by eapply traced_finish);
    try (apply (Hcur ltac:(first [exact Hc|destruct Hc as (pre & s & E & _); by eauto]) _ 0%Z); try done;
         [by intros; apply span_end_tokens|by rewrite reported_snoc, Z.add_0_r|by left]).
  destruct Hc as (pre & s & E & Hs).
  apply (Hcur ltac:(by eauto) _ (promptTokens + completionTokens)%Z); try done; [|by rewrite reported_snoc; lia|by right].
  intros pre' s' E' sum m Hm. rewrite E in E'. apply app_inj_tail in E' as [_ <-]. by apply usage_tokens.
Qed.

Lemma traced_ops ops q t :
  rt_children t = [] -> span_run at_rest ops = Some q ->
  traced_as ops q (rt_children (trace_ops 0 ops t)) /\ rt_root (trace_ops 0 ops t) = rt_root t.
Proof.
  intros Hn. revert q. induction ops as [|op ops IH] using rev_ind; intros q Hq.
  { simpl. rewrite Hn. simpl in Hq. by simplify_eq. }
  rewrite span_run_snoc in Hq. destruct (span_run at_rest ops) as [p|] eqn:E; [|done]. destruct (IH p eq_refl) as [H1 H2].
  rewrite trace_ops_snoc. destruct (traced_op (0 + length ops) ops p q _ op H1 Hq) as [H3 H4]. by rewrite H4.
Qed.
End traces.

Lemma record_tokens now sum s : add_tokens sum (toRecord now s) = span_tokens sum s.
Proof. unfold add_tokens, span_tokens, token_count. simpl. by rewrite !bound_keeps. Qed.

Lemma records_tokens now l sum : fold_left add_tokens (map (toRecord now) l) sum = fold_left span_tokens l sum.
Proof. revert sum. induction l as [|s l IH]; intros sum; simpl; [done|]. by rewrite record_tokens. Qed.

Lemma records_of_type now ty l : length (List.filter (of_type ty) (map (toRecord now) l)) = count_type ty l.
Proof.
  induction l as [|s l IH]; [done|]. unfold count_type in *. simpl. change (of_type ty (toRecord now s)) with (bool_decide (sp_type s = ty)).
  destruct (bool_decide _); simpl; by rewrite IH.
Qed.

(** ** The tokens of the providers' streams

    A call is charged what the last finish chunk of its stream says, or, where
    the stream has none, what the call before it was. *)
Definition last_usage (u : Usage) (cs : list ModelStreamChunk) : Usage :=
  fold_left (fun u c => match c with ch_finish _ u' => u' | _ => u end) cs u.

Definition charge (u : Usage) : Z := ((u_inputTokens u ?? 0) + (u_outputTokens u ?? 0))%Z.

Fixpoint tokens_of (u : Usage) (sts : list Stream) : Z :=
  match sts with
  | [] => 0
  | st :: sts => let u := last_usage u st.1 in (charge u + tokens_of u sts)%Z
  end.

Definition usage_after (u : Usage) (sts : list Stream) : Usage := fold_left (fun u st => last_usage u st.1) sts u.

Lemma tokens_snoc u sts st :
  tokens_of u (sts ++ [st]) = (tokens_of u sts + charge (last_usage (usage_after u sts) st.1))%Z.
Proof. revert u. induction sts as [|x sts IH]; intros u; simpl; [lia|]. rewrite IH. unfold usage_after. simpl. lia. Qed.

Lemma usage_snoc u sts st : usage_after u (sts ++ [st]) = last_usage (usage_after u sts) st.1.
Proof. unfold usage_after. by rewrite fold_left_app. Qed.

Definition completes (e : ChatEvent) : bool := match e with message_completed _ _ _ => true | _ => false end.

Section meter.
Local Open Scope eff_scope.
Context {P : Type} (outside : Outside P).
Context (ajv_compile : json -> res string ValidateFunction).
Context (registry : ProviderRegistry P) (penv : string -> option string).
Context (ctx : RunContext) (userContent : string) (options : AgentEngineOptions).
Context (prepared : option string).
Hypothesis is_traced : traced outside = true.

Abbreviation L := (M LoopState error).

(** The streams that answered the requests, each to its end and without an error. *)
Definition answered_by : list ModelRequest -> list Stream -> Prop :=
  Forall2 (fun rq st => (exists n provider, st = streams outside n provider rq) /\ st.2 = None).

(** Every request so far has been answered and charged. *)
Definition metered (s : LoopState) : Prop :=
  forallb (fun e => negb (completes e)) (l_events s) = true /\
  exists sts, answered_by (l_requests s) sts /\ l_usage s = usage_after no_usage sts /\
    reported (l_spans s) = tokens_of no_usage sts.

(** Every request, or every one but the last, and then the run has not completed. *)
Definition charged (s : LoopState) : Prop :=
  exists sts, reported (l_spans s) = tokens_of no_usage sts /\
    (answered_by (l_requests s) sts \/
     forallb (fun e => negb (completes e)) (l_events s) = true /\
     exists rqs rq, l_requests s = rqs ++ [rq] /\ answered_by rqs sts).

Lemma metered_charged s : metered s -> charged s.
Proof. intros (_ & sts & H1 & _ & H3). exists sts. split; [done|by left]. Qed.

(** The moves that charge nothing; [uncharged] may yet read a usage. *)
Definition uncharged (s s' : LoopState) : Prop :=
  l_requests s' = l_requests s /\ reported (l_spans s') = reported (l_spans s) /\
  (forallb (fun e => negb (completes e)) (l_events s) = true ->
   forallb (fun e => negb (completes e)) (l_events s') = true).
Definition same_usage (s s' : LoopState) : Prop := l_usage s' = l_usage s.
Definition unmetered (s s' : LoopState) : Prop := uncharged s s' /\ same_usage s s'.

#[local] Instance uncharged_refl : Reflexive uncharged.
Proof. by intros a. Qed.
#[local] Instance uncharged_trans : Transitive uncharged.
Proof. intros a b c (?&?&?) (?&?&?). unfold uncharged. split_and!; [congruence..|auto]. Qed.
#[local] Instance same_usage_refl : Reflexive same_usage.
Proof. by intros a. Qed.
#[local] Instance same_usage_trans : Transitive same_usage.
Proof. unfold same_usage. intros a b c. congruence. Qed.
#[local] Instance unmetered_refl : Reflexive unmetered.
Proof. by intros a. Qed.
#[local] Instance unmetered_trans : Transitive unmetered.
Proof. intros a b c [] []. split; by etrans. Qed.

Definition no_usage_op (op : span_op) : bool := match op with sp_usage _ _ => false | _ => true end.

Lemma span_uncharged op : no_usage_op op = true -> moves unmetered (span outside op).
Proof.
  intros Hop s. unfold span. destruct (traced outside); [|done]. split; [|done].
  split_and!; [done| |done]. simpl. rewrite reported_snoc. by destruct op.
Qed.

Ltac meter_leaf :=
  unfold unmetered, uncharged, same_usage; simpl; split_and?;
  solve [done | intros ?; rewrite forallb_app; by apply andb_true_iff].
Ltac meter :=
  repeat first
    [ apply span_uncharged; done
    | move_step
    | apply_move @moves_modify; intros ?; meter_leaf
    | apply moves_query; [intros ? ? ?; meter_leaf | intros ? ? ? ? ? ?; meter_leaf]
    | apply moves_yield; intros ? ? ?; meter_leaf
    | apply moves_execute; intros ? ? ?; meter_leaf
    | progress expose ].

Lemma unmetered_keeps {A} (m : L A) : moves unmetered m -> keeps metered m.
Proof.
  intros H s (Hc & sts & H1 & H2 & H3). destruct (H s) as [(E1 & E2 & E3) E4]. unfold same_usage in E4.
  split; [by apply E3|]. exists sts. by rewrite E1, E2, E4.
Qed.

Lemma uncharged_keeps {A} (m : L A) : moves uncharged m -> keeps charged m.
Proof.
  intros H s (sts & H1 & H2). destruct (H s) as (E1 & E2 & E3). exists sts. rewrite E1, E2. split; [done|].
  destruct H2 as [H2|[H2 H3]]; [by left|right; auto].
Qed.

Abbreviation meters m := (tri metered charged charged m).

Lemma unmetered_meters {A} (m : L A) : moves unmetered m -> meters m.
Proof. intros H. apply tri_keeps; [by apply unmetered_keeps|..]; intros s; apply metered_charged. Qed.

(** *** A model call *)

Lemma chunks_uncharged id cs acc : moves uncharged (process_chunks outside ctx id cs acc).
Proof.
  revert acc. induction cs as [|c cs IH]; intros acc; cbn [process_chunks]; unfold process_chunk;
    repeat first [apply IH | progress meter].
Qed.

Lemma chunk_usage id c acc s acc' s' :
  process_chunk outside ctx id c acc s = (Ret acc', s') -> l_usage s' = last_usage (l_usage s) [c].
Proof.
  unfold process_chunk. assert (Ht : moves same_usage (throwIfAborted ctx)) by meter. unfold bind at 1.
  destruct (throwIfAborted ctx s) as [[[]|e|] s1] eqn:E; try done. pose proof (Ht s) as H1. rewrite E in H1.
  unfold same_usage in H1. simpl in H1. destruct c as [t|n i a|r u].
  - assert (Hy : moves same_usage (modify (fun s => set_text (l_text s +:+ t)%string s) ;;;
      yield outside (token t id (ctx_runId ctx) (ctx_sessionId ctx)) ;;; ret acc)) by meter.
    intros H. pose proof (Hy s1) as H2. rewrite H in H2. unfold same_usage in H2. simpl in *. congruence.
  - intros [= _ <-]. done.
  - intros [= _ <-]. done.
Qed.

Lemma chunks_usage id cs acc s acc' s' :
  process_chunks outside ctx id cs acc s = (Ret acc', s') -> l_usage s' = last_usage (l_usage s) cs.
Proof.
  revert acc s. induction cs as [|c cs IH]; intros acc s; cbn [process_chunks]; [by intros [= _ <-]|].
  unfold bind at 1, wait at 1, modify at 1. cbn [fst snd]. unfold bind at 1.
  destruct (process_chunk _ _ _ _ _ _) as [[a|e|] s1] eqn:E; try done. apply chunk_usage in E. intros H.
  apply IH in H. rewrite H, E. done.
Qed.

Lemma consume_usage id st s acc s' :
  consume outside ctx id st s = (Ret acc, s') -> l_usage s' = last_usage (l_usage s) st.1 /\ st.2 = None.
Proof.
  unfold consume. unfold bind at 1. destruct (process_chunks _ _ _ _ _ _) as [[a|e|] s1] eqn:E; try done.
  apply chunks_usage in E. unfold bind, wait, modify. simpl. destruct st.2; [done|]. by intros [= _ <-].
Qed.
Lemma consume_uncharged id st : moves uncharged (consume outside ctx id st).
Proof. unfold consume. repeat first [apply chunks_uncharged | progress meter]. Qed.

Lemma stream_meters id pr m ms start :
  meters (n <~ gets l_tick ;;
    let request := model_request ctx m ms (model_signal ctx options start) in
    modify (add_request request) ;;;
    acc <~ consume outside ctx id (streams outside n pr request) ;;
    u <~ gets l_usage ;;
    span outside (sp_usage (u_inputTokens u ?? 0%Z) (u_outputTokens u ?? 0%Z)) ;;;
    span outside (sp_model_end true) ;;;
    ret acc).
Proof.
  intros s (Hc & sts & H1 & H2 & H3). match goal with |- context [(?m s).1] => destruct (m s) as [out sf] eqn:EM end.
  unfold bind at 1, gets at 1 in EM. cbv zeta in EM.
  set (rq := model_request _ _ _ _) in EM. set (st := streams outside (l_tick s) pr rq) in EM.
  unfold bind at 1, modify at 1 in EM. unfold bind at 1 in EM.
  destruct (consume_uncharged id st (add_request rq s)) as (E1 & E2 & E3).
  destruct (consume outside ctx id st (add_request rq s)) as [o s2] eqn:E. cbn [snd] in E1, E2, E3.
  assert (Hf : charged s2).
  { exists sts. rewrite E2. split; [done|]. right. split; [by apply E3|]. by exists (l_requests s), rq. }
  destruct o as [acc|e|]; [|injection EM as <- <-; exact Hf..]. apply consume_usage in E as [Eu En].
  unfold bind, gets, span, whenM, modify, ret in EM. rewrite is_traced in EM. injection EM as <- <-.
  split; [by apply E3|]. exists (sts ++ [st]). simpl. rewrite E1. split_and!.
  - apply Forall2_app; [done|]. constructor; [|done]. split; [by eexists _, _|done].
  - rewrite usage_snoc, <- H2. exact Eu.
  - rewrite !reported_snoc, tokens_snoc, <- H2, <- H3, E2. simpl in Eu. rewrite Eu. unfold charge. simpl. lia.
Qed.

Lemma model_call_meters id pr m ms : meters (Loop.model_call outside ctx options id pr m ms).
Proof.
  unfold Loop.model_call. apply tri_bind; [apply unmetered_meters; meter|intros start].
  apply tri_bind; [apply unmetered_meters; meter|intros _]. apply tri_catch_rethrow; [apply stream_meters|]. intros e.
  assert (Hk : forall A (m : L A), moves unmetered m -> keeps charged m).
  { intros A k H. apply uncharged_keeps. intros s. by destruct (H s). }
  eapply post_bind; [apply (Hk _ (span outside (sp_model_end false))); meter|intros []|done|done].
  eapply post_bind; [apply (Hk _ now); meter|intros t|done|done].
  eapply post_bind; [apply Hk; meter|intros []|done|done]. by intros s Hs.
Qed.

(** *** The rest of a run *)

Ltac unmeter := solve [apply unmetered_meters; meter].

Lemma tool_step_meters p : meters (tool_step outside ajv_compile ctx options p).
Proof. apply unmetered_meters. unfold tool_step. meter. Qed.

Lemma mint_unmetered cs : moves unmetered (mint_calls outside cs).
Proof. induction cs; cbn [mint_calls]; repeat first [apply IHcs|progress meter]. Qed.

Lemma rounds_meters fuel id : meters (rounds outside ajv_compile registry penv ctx options fuel id).
Proof.
  induction fuel as [|fuel IH]; cbn [rounds]; [apply tri_ret|].
  apply tri_bind; [apply tri_gets|intros it]. destruct (_ <? _)%nat; [|apply tri_ret].
  apply tri_bind; [|intros []; [done|apply tri_ret]]. unfold round.
  apply tri_bind; [unmeter|intros _]. apply tri_bind; [unmeter|intros h].
  destruct (resolveForModel _ _ _) as [[[pr m] r']|e]; [|unmeter].
  apply tri_bind; [apply model_call_meters|intros chunks]. destruct chunks as [|c cs]; [apply tri_ret|].
  apply tri_bind; [|intros _; apply tri_ret]. unfold tool_calls.
  apply tri_bind; [apply unmetered_meters, mint_unmetered|intros calls]. apply tri_bind; [unmeter|intros id'].
  apply tri_bind; [apply tri_gets|intros t]. apply tri_bind; [unmeter|intros _]. apply tri_bind; [unmeter|intros _].
  apply tri_bind; [apply tri_for_each; intros p; apply tool_step_meters|intros _; unmeter].
Qed.

(** The last event may be the completion. *)
Lemma last_event_meters e : post metered (yield outside e) (fun _ => charged).
Proof.
  assert (H : forall s c n, metered s -> charged (set_time (l_clock s + Z.of_N c) n (add_event e s))).
  { intros s c n (_ & sts & H1 & _ & H3). exists sts. split; [done|by left]. }
  by apply post_yield.
Qed.

Lemma body_meters mid :
  post metered (body outside ajv_compile registry penv ctx userContent options prepared mid) (fun _ => charged).
Proof.
  assert (Hb : forall A (m : L A) (k : A -> L unit), meters m -> (forall a, post metered (k a) (fun _ => charged)) ->
    post metered (bind m k) (fun _ => charged)) by (intros A m k Hm Hk; by eapply post_bind).
  unfold body. do 4 (apply Hb; [unmeter|intros ?]). apply Hb; [apply rounds_meters|intros _].
  apply Hb; [unmeter|intros it]. destruct (_ <=? _)%nat.
  - do 3 (apply Hb; [unmeter|intros ?]). apply last_event_meters.
  - do 3 (apply Hb; [unmeter|intros ?]). apply last_event_meters.
Qed.

Lemma run_meters :
  post metered (runAgentLoop outside ajv_compile registry penv ctx userContent options prepared) (fun _ => charged).
Proof.
  assert (Hk : forall A (m : L A), moves unmetered m -> keeps charged m).
  { intros A k H. apply uncharged_keeps. intros s. by destruct (H s). }
  unfold runAgentLoop. eapply (post_bind _ _ _ (fun o => match o with Ret _ => metered | _ => charged end));
    [apply unmetered_meters; destruct prepared; meter|intros mid|done|done].
  eapply (post_try_finally _ _ _ (fun _ => charged)).
  - eapply post_try_catch; [apply body_meters|intros e; apply Hk; unfold on_error; meter|done|done].
  - intros o. eapply post_weaken; [exact (fun _ H => H)| |apply Hk; meter]. intros o' s Hs. by destruct o'.
Qed.
End meter.

(** C30: The metrics of a run count its model calls, the calls that reached the
    executor, and the tokens that the providers' streams reported: the trace that
    the loop leaves, whatever interrupts it, has a span for each, and its tokens
    are those of the streams of all calls - or, where the run did not complete,
    perhaps of all but the last, whose stream was not read to its end.  (A stream
    without a finish chunk counts as the one before it: [tokens_of].) *)
Theorem metrics_count_the_run {P} (outside : Outside P) ajv_compile registry penv ctx userContent options prepared now db
    clock ids errs traceId rootSpanId finished status error :
  traced outside = true ->
  let s := (final outside ajv_compile registry penv ctx userContent options prepared now db).2 in
  let t := trace_ops clock ids errs 0 (l_spans s) (startRunTrace traceId rootSpanId (ctx_runId ctx) now) in
  let m := deriveRunMetrics (trace_finish finished status error t).2 in
  m_modelCallCount m = length (l_requests s) /\ m_toolCallCount m = length (l_executed s) /\
  exists sts, m_totalTokens m = Some (tokens_of no_usage sts) /\
    (answered_by outside (l_requests s) sts \/
     forallb (fun e => negb (completes e)) (l_events s) = true /\
     exists rqs rq, l_requests s = rqs ++ [rq] /\ answered_by outside rqs sts).
Proof.
  intros Htr s t m. assert (Hs : spanned 0 0 persisted s) by (by apply run_spans).
  destruct Hs as (H1 & H2 & H3).
  assert (Hc : charged outside s).
  { apply (run_meters outside ajv_compile registry penv ctx userContent options prepared Htr). split; [done|].
    exists []. split_and!; [constructor|done|done]. }
  destruct (traced_ops clock ids errs (l_spans s) persisted (startRunTrace traceId rootSpanId (ctx_runId ctx) now) eq_refl H1)
    as [[T1 T2 T3 _] Hr]. fold t in T1, T2, T3, Hr. unfold m, trace_finish. cbn [snd].
  assert (Hroot : sp_type (span_end finished status error (rt_root t)) = run_span /\
                  sp_metadata (span_end finished status error (rt_root t)) = []) by (by rewrite Hr).
  destruct Hroot as [R1 R2]. revert R1 R2. generalize (span_end finished status error (rt_root t)). intros root R1 R2.
  unfold deriveRunMetrics. cbn [m_modelCallCount m_toolCallCount m_totalTokens].
  rewrite !records_of_type, records_tokens. unfold count_type in *. simpl. rewrite R1. simpl. rewrite T1, T2.
  split_and!; [exact H2|exact H3|]. destruct Hc as (sts & Hc & Ha). exists sts. split; [|exact Ha].
  unfold token_count. rewrite R2, <- Hc. exact T3.
Qed.

(** ** A traced run *)
Definition demo_traced : Outside FixtureProvider :=
  {| took := took (demo_outside false); refused := refused (demo_outside false); torn := torn (demo_outside false);
     streams := streams (demo_outside false); executes := executes (demo_outside false);
     nanoid := nanoid (demo_outside false); traced := true; finish_fails := false |}.

Definition demo_state : LoopState :=
  (final demo_traced accept_all demo_registry (fun _ => None) (demo_ctx None) "" demo_options (Some "msg_user"%string) 0
     demo_prepared_db).2.

Definition demo_metrics : RunMetrics :=
  deriveRunMetrics (trace_finish 100 span_ok None
    (trace_ops (fun n => Z.of_nat n) (fun n => string_of_Z (Z.of_nat n)) (fun _ => None) 0 (l_spans demo_state)
       (startRunTrace "trc_1" "spn_0" "run_1" 0))).2.

(** The row's usage is that of the last call, where the trace has them all. *)
Example row_reports_the_last_call :
  m_totalTokens demo_metrics = Some 6%Z /\
  (run_tokenUsage <$> db_runs (l_db demo_state) !! "run_1"%string) =
    Some (Some {| inputTokens := 0; outputTokens := 5; totalTokens := 5 |}).
Proof. split; vm_compute; reflexivity. Qed.

(** A stream without a finish chunk is charged what the one before it was. *)
Example unfinished_stream_repeats_usage u :
  tokens_of no_usage [([ch_finish "stop" u], None); ([ch_token "hi"], None)] = (2 * charge u)%Z.
Proof. cbn -[charge]. change (last_usage u [ch_token "hi"]) with u. change (last_usage no_usage _) with u. lia. Qed.

Lemma metrics_count_the_run_witness :
  m_modelCallCount demo_metrics = 2%nat /\ m_toolCallCount demo_metrics = 1%nat /\ m_totalTokens demo_metrics = Some 6%Z /\
  exists sts, m_totalTokens demo_metrics = Some (tokens_of no_usage sts) /\
    answered_by demo_traced (l_requests demo_state) sts.
Proof.
  destruct (metrics_count_the_run demo_traced accept_all demo_registry (fun _ => None) (demo_ctx None) "" demo_options
    (Some "msg_user"%string) 0 demo_prepared_db (fun n => Z.of_nat n) (fun n => string_of_Z (Z.of_nat n)) (fun _ => None)
    "trc_1" "spn_0" 100 span_ok None eq_refl) as (H1 & H2 & sts & H3 & [H4|[H4 _]]);
    [|exfalso; vm_compute in H4; discriminate H4].
  split_and!; [etransitivity; [first [exact H1|exact H2]|vm_compute; reflexivity]..|vm_compute; reflexivity|].
  exact (ex_intro _ sts (conj H3 H4)).
Defined.
