(* ===== verification/History.v ===== *)
(** The history a run leaves for the next request: every tool call that the
    model is shown is followed by its results.

    The vendors refuse a request in which an assistant message with tool calls
    is not followed by one result per call, or in which a result answers no
    call.  The loop's runs are followed through the messages they store, from
    what the context builder reads back to what is sent. *)
From S2P Require Import Prelude Json Shared Deadlines Context Tools Models Repos Effects Loop LoopFacts LoopInvariants.
Local Open Scope eff_scope.

(** ** Answered conversations *)

(** The calls that still wait for a result, after a message. *)
Definition answer_step (waiting : list json) (m : ModelMessage) : option (list json) :=
  match mm_role m, waiting with
  | tool_role, id :: waiting =>
      match mm_toolCallId m with
      | Some id' => if same_key id id' then Some waiting else None
      | None => None
      end
  | tool_role, [] => None
  | assistant_role, [] => Some (map mtc_callId (mm_toolCalls m ?? []))
  | (system_role | user_role), [] => Some []
  | _, _ :: _ => None
  end.

Fixpoint answer_run (waiting : list json) (ms : list ModelMessage) : option (list json) :=
  match ms with
  | [] => Some waiting
  | m :: ms => match answer_step waiting m with Some w => answer_run w ms | None => None end
  end.

(** Every call has its result, and every result its call. *)
Definition answered (ms : list ModelMessage) : bool :=
  match answer_run [] ms with Some [] => true | _ => false end.

Lemma answer_run_app w ms ms' :
  answer_run w (ms ++ ms') = match answer_run w ms with Some v => answer_run v ms' | None => None end.
Proof.
  revert w. induction ms as [|m ms IH]; intros w; simpl; [done|].
  destruct (answer_step w m); [apply IH|done].
Qed.

(** The calls waiting at the end of a stored history. *)
Definition waiting_after (history : list MessageRecord) : option (list json) :=
  answer_run [] (build_records [] history).

Lemma waiting_after_snoc h m w :
  waiting_after h = Some w ->
  exists names, waiting_after (h ++ [m]) = answer_run w (build_record names m).1.
Proof.
  unfold waiting_after. intros Hw. destruct (build_records_app [] h [m]) as [names ->].
  exists names. rewrite answer_run_app, Hw. cbn [build_records].
  destruct (build_record names m). simpl. by rewrite app_nil_r.
Qed.

(** A text that the builder would take for an assistant message with calls. *)
Definition reads_as_calls (content : string) : bool :=
  match parse content with
  | Some v => has_field "text" v && match field "toolCalls" v with Some (JArr _) => true | _ => false end
  | None => false
  end.

Lemma answered_build {M} `{Memory M} prompt (memory : M) h :
  waiting_after h = Some [] -> non_system (trim_history memory h) = non_system h ->
  answered (build prompt memory h) = true.
Proof.
  unfold waiting_after, answered, build. intros Hw Ht. rewrite answer_run_app.
  rewrite build_records_system, Ht, <- build_records_system.
  by destruct (String.eqb prompt ""); simpl; rewrite Hw.
Qed.

Section history.
Context {P : Type} (outside : Outside P).
Context (ajv_compile : json -> res string ValidateFunction).
Context (registry : ProviderRegistry P) (penv : string -> option string).
Context (ctx : RunContext) (userContent : string) (options : AgentEngineOptions).
Context (prepared : option string).

(** The provider's arguments are values with one text, and tools do not return
    [undefined]. *)
Hypothesis streams_wf : forall n p req name id args,
  In (ch_tool_call name id args) (streams outside n p req).1 -> args_wf args = true.
Hypothesis outputs_defined : forall n call c sg, executes outside n call c sg <> inl (result_ok None).

Abbreviation L := (M LoopState error).
Abbreviation run := (runAgentLoop outside ajv_compile registry penv ctx userContent options prepared).
Abbreviation body' := (body outside ajv_compile registry penv ctx userContent options prepared).
Abbreviation memory' := (createMemoryStrategy (memoryStrategyName ctx options) (Some (lastN ctx options))).

Definition stored (s : LoopState) : list MessageRecord :=
  messages_listBySession (ctx_sessionId ctx) (l_db s).

(** A request was built from an answered history. *)
Definition from_answered (r : ModelRequest) : Prop :=
  exists h, waiting_after h = Some [] /\
    mr_messages r = build (ag_systemPrompt (ctx_agentConfig ctx)) memory' h.

Definition sent (s : LoopState) : Prop := Forall from_answered (l_requests s).

Definition at_ (w : list json) (s : LoopState) : Prop := waiting_after (stored s) = Some w /\ sent s.

(** *** Steps that store no message of the session and send no request *)
Definition same_history (s s' : LoopState) : Prop :=
  stored s' = stored s /\ l_requests s' = l_requests s.

#[local] Instance same_history_refl : Reflexive same_history.
Proof. by intros a. Qed.
#[local] Instance same_history_trans : Transitive same_history.
Proof. intros a b c [H1 H2] [H3 H4]. split; congruence. Qed.

Lemma stored_db s s' : db_messages (l_db s') = db_messages (l_db s) -> stored s' = stored s.
Proof. unfold stored, messages_listBySession. by intros ->. Qed.

Lemma runs_transition_messages st u id db :
  db_messages (runs_transition st u id db).2 = db_messages db.
Proof. unfold runs_transition. by repeat case_match. Qed.

Lemma toolCalls_transition_messages f id db :
  db_messages (toolCalls_transition f id db).2 = db_messages db.
Proof. unfold toolCalls_transition. by repeat case_match. Qed.

Lemma runs_create_messages i j m db db' :
  runs_create i j m db = Ok db' -> db_messages db' = db_messages db.
Proof. unfold runs_create. by repeat case_match; intros; simplify_eq. Qed.

Lemma toolCalls_create_messages c r t i db db' :
  toolCalls_create c r t i db = Ok db' -> db_messages db' = db_messages db.
Proof. unfold toolCalls_create. by repeat case_match; intros; simplify_eq. Qed.

Ltac history_leaf := intros; open_statement; split; try done;
  apply stored_db; simpl; eauto using runs_transition_messages, toolCalls_transition_messages,
    runs_create_messages, toolCalls_create_messages.

Lemma same_at {A} w (m : L A) : moves same_history m -> keeps (at_ w) m.
Proof. intros Hm s [Hw Hs]. destruct (Hm s) as [E1 E2]. unfold at_, sent. by rewrite E1, E2. Qed.

Lemma same_sent {A} (m : L A) : moves same_history m -> keeps sent m.
Proof. intros Hm s Hs. destruct (Hm s) as [_ E]. unfold sent. by rewrite E. Qed.

Lemma at_sent w s : at_ w s -> sent s.
Proof. by intros [_ H]. Qed.

(** A step that leaves the history alone, and what follows it. *)
Lemma quiet_at {A B} w (m : L A) (k : A -> L B) Q :
  moves same_history m -> (forall a, post (at_ w) (k a) Q) ->
  (forall e s, sent s -> Q (Throw e) s) -> (forall s, sent s -> Q Torn s) ->
  post (at_ w) (x <~ m ;; k x) Q.
Proof.
  intros Hm Hk He Ht. eapply post_bind; [by apply (same_at w)|exact Hk|..].
  - intros e s Hs. eapply He, at_sent, Hs.
  - intros s Hs. eapply Ht, at_sent, Hs.
Qed.

(** *** Storing a message *)

Lemma messages_create_stored s m db :
  messages_create m (l_db s) = Ok db -> msg_sessionId m = ctx_sessionId ctx ->
  stored (set_db db s) = stored s ++ [m].
Proof.
  unfold messages_create, stored, messages_listBySession. intros H Hm.
  assert (E : db_messages db = db_messages (l_db s) ++ [m]).
  { revert H. by repeat case_match; intros; simplify_eq. }
  simpl. rewrite E, List.filter_app. simpl. by rewrite Hm, String.eqb_refl.
Qed.

(** What is waiting after a message of the run has been stored. *)
Lemma message_create_at w w' id role content :
  (forall names, answer_run w (build_record names
     {| msg_messageId := id; msg_sessionId := ctx_sessionId ctx; msg_runId := Some (ctx_runId ctx);
        msg_role := role; msg_content := content |}).1 = Some w') ->
  post (at_ w) (message_create outside ctx id role content)
    (fun o s => match o with Ret _ => at_ w' s | _ => sent s end).
Proof.
  intros Hw. unfold message_create, insert_stmt. apply post_query.
  - intros s c n e [_ Hs]. exact Hs.
  - intros s c n a db [Hh Hs] _ H. open_statement. split; [|exact Hs].
    erewrite (messages_create_stored (elapse c n s)); [|eassumption|reflexivity].
    destruct (waiting_after_snoc (stored s) {| msg_messageId := id; msg_sessionId := ctx_sessionId ctx;
      msg_runId := Some (ctx_runId ctx); msg_role := role; msg_content := content |} w Hh) as [names E].
    unfold stored at 1. simpl. fold (stored s). by rewrite E, Hw.
Qed.

(** *** One tool call *)

Lemma execute_defined call sg :
  post (fun _ => True) (execute_tool outside ctx call sg) (fun o _ => o <> Ret (result_ok None)).
Proof.
  intros s _. unfold execute_tool. pose proof (outputs_defined (l_tick s) call) as H.
  simpl. specialize (H {| tcc_sessionId := ctx_sessionId ctx; tcc_runId := ctx_runId ctx;
    tcc_userId := None; Tools.tcc_metadata := None |} sg).
  destruct (executes outside _ _ _ _); simpl; congruence.
Qed.

Lemma post_and {A} (I : LoopState -> Prop) (X : Prop) (m : L A) Q :
  (X -> post I m Q) -> post (fun s => I s /\ X) m Q.
Proof. intros H s [Hi Hx]. by apply H. Qed.

Lemma post_pure {A} (X : Prop) (m : L A) Q :
  (X -> post (fun _ => True) m Q) -> post (fun _ => X) m Q.
Proof. intros H s Hx. by apply H. Qed.

(** The text of a result is never [undefined]. *)
Definition has_text (o : outcome error (ToolCallStatus * option string)) : Prop :=
  forall st, o = Ret st -> st.2 <> None.

Lemma post_any {A B} (m : L A) (k : A -> L B) (Q : outcome error B -> LoopState -> Prop) :
  (forall a, post (fun _ => True) (k a) Q) ->
  (forall e s, Q (Throw e) s) -> (forall s, Q Torn s) -> post (fun _ => True) (x <~ m ;; k x) Q.
Proof. intros Hk He Ht. apply (post_bind _ _ _ (fun _ _ => True)); [done| |done|done]. auto. Qed.

Lemma run_tool_text p : post (fun _ => True) (run_tool outside ctx options p) (fun o _ => has_text o).
Proof.
  unfold run_tool. apply post_any; [intros start|done|done]. apply post_any; [intros _|done|done].
  eapply post_bind; [apply execute_defined|intros result|done|done].
  apply (post_pure (Ret (E := error) result <> Ret (result_ok None))). intros Hr.
  apply post_any; [intros t|done|done]. cbv zeta.
  apply (post_bind _ _ _ (fun o _ => has_text o)); [|intros st|done|done].
  - destruct result as [output|message]; do 2 (apply post_any; [intros _|done|done]);
      intros s _ st [= <-]; [by destruct output|done].
  - apply (post_pure (has_text (Ret st))). intros Hst.
    do 2 (apply post_any; [intros _|done|done]). intros s _. exact Hst.
Qed.

Lemma reject_tool_text p c m : post (fun _ => True) (reject_tool outside p c m) (fun o _ => has_text o).
Proof.
  unfold reject_tool. do 2 (apply post_any; [intros _|done|done]). by intros s _ st [= <-].
Qed.

Lemma tool_step_at p w :
  post (at_ (JStr (ptc_providerCallId p) :: w)) (tool_step outside ajv_compile ctx options p)
    (fun o s => match o with Ret _ => at_ w s | _ => sent s end).
Proof.
  unfold tool_step. do 3 (apply quiet_at; [walk ltac:(history_leaf)|intros _|done|done]).
  set (W := at_ (_ :: w)).
  eapply (post_bind _ _ _ (fun o s => W s /\ has_text o)).
  - intros s Hs. split.
    + apply same_at; [|exact Hs]. destruct (validateToolCall _ _ _); walk ltac:(history_leaf).
    + destruct (validateToolCall _ _ _); [by apply run_tool_text|by apply reject_tool_text].
  - intros st. apply (post_and W (has_text (Ret st))). intros Ht.
    assert (Hst : st.2 <> None) by (by apply Ht).
    apply quiet_at; [walk ltac:(history_leaf)|intros _|done|done].
    apply quiet_at; [walk ltac:(history_leaf)|intros id|done|done].
    eapply post_bind; [apply (message_create_at _ w)|intros []|done|done].
    + intros names. cbn [build_record msg_role fst].
      destruct st.2 as [text|] eqn:E; [|done].
      erewrite mapToolMessage_persisted; [|reflexivity|reflexivity].
      cbn. by rewrite String.eqb_refl.
    + eapply post_weaken; [by intros s Hs; exact Hs| |apply (same_at w); walk ltac:(history_leaf)].
      intros o s Hs. destruct o; [exact Hs|by apply (at_sent w)..].
  - intros e s [Hs _]. by eapply at_sent.
  - intros s [Hs _]. by eapply at_sent.
Qed.

Lemma tool_steps_at calls w :
  post (at_ (map (fun p => JStr (ptc_providerCallId p)) calls ++ w))
    (for_each calls (tool_step outside ajv_compile ctx options))
    (fun o s => match o with Ret _ => at_ w s | _ => sent s end).
Proof.
  induction calls as [|p calls IH]; simpl; [by intros s Hs|].
  eapply post_bind; [apply tool_step_at|intros []; exact IH|done|done].
Qed.

(** *** A model call *)

Definition chunk_wf (c : ToolCallChunk) : bool := args_wf (tcc_arguments c).

(** The calls that are returned have arguments with one text. *)
Definition chunks_wf (w : list json) (o : outcome error (list ToolCallChunk)) (s : LoopState) : Prop :=
  match o with Ret cs => at_ w s /\ forallb chunk_wf cs = true | _ => sent s end.

Lemma at_chunks_wf {A} w (m : L A) (k : A -> L (list ToolCallChunk)) :
  moves same_history m -> (forall a, post (at_ w) (k a) (chunks_wf w)) ->
  post (at_ w) (x <~ m ;; k x) (chunks_wf w).
Proof. intros Hm Hk. by apply quiet_at. Qed.

Lemma sent_chunks_wf {A} w (m : L A) (k : A -> L (list ToolCallChunk)) :
  moves same_history m -> (forall a, post sent (k a) (chunks_wf w)) ->
  post sent (x <~ m ;; k x) (chunks_wf w).
Proof. intros Hm Hk. apply (post_bind _ _ _ (fun _ => sent)); [by apply same_sent|exact Hk|done|done]. Qed.

Lemma process_chunks_at w id cs acc :
  (forall name i args, In (ch_tool_call name i args) cs -> args_wf args = true) ->
  forallb chunk_wf acc = true ->
  post (at_ w) (process_chunks outside ctx id cs acc) (chunks_wf w).
Proof.
  revert acc. induction cs as [|c cs IH]; intros acc Hcs Hacc; cbn [process_chunks]; [by intros s Hs|].
  apply at_chunks_wf; [walk ltac:(history_leaf)|intros _].
  eapply (post_bind _ _ _ (chunks_wf w)); [|intros acc'|done|done].
  - unfold process_chunk. apply at_chunks_wf; [walk ltac:(history_leaf)|intros _].
    destruct c as [t|name i args|reason u].
    + do 2 (apply at_chunks_wf; [walk ltac:(history_leaf)|intros _]). by intros s Hs.
    + intros s Hs. split; [exact Hs|]. rewrite forallb_app, Hacc. simpl.
      unfold chunk_wf. simpl. by rewrite (Hcs name i args) by (by left).
    + apply at_chunks_wf; [walk ltac:(history_leaf)|intros _]. by intros s Hs.
  - apply (post_and (at_ w) (forallb chunk_wf acc' = true)). intros Ha.
    apply IH; [|exact Ha]. intros name i args Hin. apply (Hcs name i). by right.
Qed.

Lemma model_call_at w id pr m ms :
  (forall q, mr_messages q = ms -> from_answered q) ->
  post (at_ w) (model_call outside ctx options id pr m ms) (chunks_wf w).
Proof.
  intros Hq. unfold model_call. do 2 (apply at_chunks_wf; [walk ltac:(history_leaf)|intros ?]).
  eapply (post_try_catch _ _ _ (chunks_wf w)); [|intros e|done|done].
  - apply at_chunks_wf; [walk ltac:(history_leaf)|intros n]. cbv zeta.
    eapply (post_bind _ _ _ (fun _ => at_ w)); [|intros _|intros e s; apply at_sent|intros s; apply at_sent].
    { intros s [Hh Hs]. split; [exact Hh|]. apply Forall_app. split; [exact Hs|].
      apply Forall_singleton. by apply Hq. }
    eapply (post_bind _ _ _ (chunks_wf w)); [|intros acc|done|done].
    + unfold consume. eapply (post_bind _ _ _ (chunks_wf w)); [|intros acc|done|done].
      * apply process_chunks_at; [|done]. intros. by eapply streams_wf.
      * apply (post_and (at_ w) (forallb chunk_wf acc = true)). intros Ha.
        apply at_chunks_wf; [walk ltac:(history_leaf)|intros _].
        destruct (streams outside n pr _).2; [by intros s Hs; apply (at_sent w)|by intros s Hs].
    + apply (post_and (at_ w) (forallb chunk_wf acc = true)). intros Ha.
      do 3 (apply at_chunks_wf; [walk ltac:(history_leaf)|intros ?]). by intros s Hs.
  - change (chunks_wf w (Throw e)) with sent.
    do 3 (apply sent_chunks_wf; [walk ltac:(history_leaf)|intros ?]). by intros s Hs.
Qed.

(** *** The calls of a round *)

Lemma mint_calls_at w cs :
  forallb chunk_wf cs = true ->
  post (at_ w) (mint_calls outside cs) (fun o s => match o with
    | Ret calls => at_ w s /\ forallb (fun c => args_wf (ptc_arguments c)) calls = true
    | _ => sent s end).
Proof.
  induction cs as [|c cs IH]; cbn [mint_calls forallb]; [by intros _ s Hs|]. intros [Hc Hcs]%andb_true_iff.
  apply quiet_at; [walk ltac:(history_leaf)|intros id|done|done].
  eapply post_bind; [by apply IH|intros rest|done|done]. intros s [Hs Hr]. split; [exact Hs|].
  simpl. by rewrite Hr, andb_true_r.
Qed.

Lemma tool_calls_at cs :
  forallb chunk_wf cs = true ->
  post (at_ []) (tool_calls outside ajv_compile ctx options cs)
    (fun o s => match o with Ret _ => at_ [] s | _ => sent s end).
Proof.
  intros Hcs. unfold tool_calls.
  eapply post_bind; [by apply mint_calls_at|intros calls|done|done].
  apply (post_and (at_ []) (forallb (fun c => args_wf (ptc_arguments c)) calls = true)). intros Hw.
  do 2 (apply quiet_at; [walk ltac:(history_leaf)|intros ?|done|done]).
  set (W := map (fun p => JStr (ptc_providerCallId p)) calls).
  eapply post_bind; [apply (message_create_at _ W)|intros []|done|done].
  - intros names. cbn [build_record msg_role].
    pose proof (mapAssistantMessage_persisted names {| msg_messageId := a; msg_sessionId := ctx_sessionId ctx;
      msg_runId := Some (ctx_runId ctx); msg_role := assistant_role;
      msg_content := assistant_content a0 calls |} a0 calls eq_refl Hw) as E.
    destruct (mapAssistantMessage names _) as [m n]. simpl in E. subst m. cbn. by rewrite map_map.
  - apply quiet_at; [walk ltac:(history_leaf)|intros _|done|done].
    eapply (post_bind _ _ _ (fun o s => match o with Ret _ => at_ [] s | _ => sent s end)); [|intros []|done|done].
    + pose proof (tool_steps_at calls []) as H. rewrite app_nil_r in H. exact H.
    + eapply post_weaken; [by intros s Hs; exact Hs| |apply (same_at []); walk ltac:(history_leaf)].
      intros o s Hs. destruct o; [exact Hs|by apply (at_sent [])..].
Qed.

(** *** Rounds and the whole run *)

(** [at_ []] when it returns, and otherwise what was sent is still right. *)
Definition settled_at {A} (o : outcome error A) (s : LoopState) : Prop :=
  match o with Ret _ => at_ [] s | _ => sent s end.

Lemma quiet_settled {A B} (m : L A) (k : A -> L B) :
  moves same_history m -> (forall a, post (at_ []) (k a) settled_at) ->
  post (at_ []) (x <~ m ;; k x) settled_at.
Proof. intros Hm Hk. by apply quiet_at. Qed.

Lemma same_settled {A} (m : L A) : moves same_history m -> post (at_ []) m settled_at.
Proof.
  intros Hm s Hs. pose proof (same_at [] m Hm s Hs) as H. unfold settled_at.
  destruct (m s).1; [exact H|by apply (at_sent [])..].
Qed.

Lemma settled_bind {A B} (m : L A) (k : A -> L B) :
  post (at_ []) m settled_at -> (forall a, post (at_ []) (k a) settled_at) ->
  post (at_ []) (x <~ m ;; k x) settled_at.
Proof. intros Hm Hk. eapply (post_bind _ _ _ settled_at); done. Qed.

Lemma round_at id : post (at_ []) (round outside ajv_compile registry penv ctx options id) settled_at.
Proof.
  unfold round. apply quiet_settled; [walk ltac:(history_leaf)|intros _].
  apply (post_bind _ _ _ (fun o s => at_ [] s /\ forall h, o = Ret h -> h = stored s)).
  - apply post_query.
    + intros s c n e Hs. split; [exact Hs|by intros ? [=]].
    + intros s c n h db Hs _ E. open_statement. split; [exact Hs|by intros ? [= <-]].
  - intros h. cbv zeta. destruct (resolveForModel _ _ _) as [[[pr m] r]|e].
    2: { intros s [Hs _]. by apply (at_sent []). }
    intros s [Hs Hh]. specialize (Hh h eq_refl). revert s Hs Hh.
    cut (forall h0, waiting_after h0 = Some [] -> h = h0 -> post (at_ [])
      (chunks <~ model_call outside ctx options id pr m
         (build (ag_systemPrompt (ctx_agentConfig ctx)) memory' h) ;;
       match chunks with
       | [] => ret false
       | _ => tool_calls outside ajv_compile ctx options chunks ;;; ret true
       end) settled_at).
    { intros H s Hs Hh. by apply (H (stored s)); [apply Hs|..]. }
    intros h0 Hw ->. eapply post_bind; [apply (model_call_at [])|intros cs|done|done].
    { intros q Hq. by exists h0. }
    apply (post_and (at_ []) (forallb chunk_wf cs = true)). intros Hcs.
    destruct cs as [|c cs]; [by intros s Hs|].
    apply settled_bind; [by apply tool_calls_at|intros _]. by intros s Hs.
  - intros e s [Hs _]. by apply (at_sent []).
  - intros s [Hs _]. by apply (at_sent []).
Qed.

Lemma rounds_at fuel id :
  post (at_ []) (rounds outside ajv_compile registry penv ctx options fuel id) settled_at.
Proof.
  induction fuel as [|fuel IH]; cbn [rounds]; [by intros s Hs|].
  apply quiet_settled; [walk ltac:(history_leaf)|intros it]. destruct (_ <? _)%nat; [|by intros s Hs].
  apply settled_bind; [apply round_at|intros []]; [exact IH|by intros s Hs].
Qed.

(** A run that completes leaves an answered history, unless the model's last
    text reads as a message with calls. *)
Definition completed_at (o : outcome error unit) (s : LoopState) : Prop :=
  sent s /\ (forall u, o = Ret u -> waiting_after (stored s) = Some [] \/ reads_as_calls (l_text s) = true).

Lemma plain_text_at names r :
  reads_as_calls (msg_content r) = false -> msg_role r = assistant_role ->
  answer_run [] (build_record names r).1 = Some [].
Proof.
  unfold reads_as_calls, build_record, mapAssistantMessage. intros Hr ->.
  destruct (parse (msg_content r)) as [v|]; [|done]. destruct (has_field "text" v); [|done].
  destruct (field "toolCalls" v) as [[]|]; done.
Qed.

Definition same_text (s s' : LoopState) : Prop := same_history s s' /\ l_text s' = l_text s.

#[local] Instance same_text_refl : Reflexive same_text.
Proof. by intros a. Qed.
#[local] Instance same_text_trans : Transitive same_text.
Proof. intros a b c [H1 H2] [H3 H4]. split; [by etrans|congruence]. Qed.

Ltac text_leaf := intros; open_statement; (split; [split|]); try done;
  apply stored_db; simpl; eauto using runs_transition_messages, toolCalls_transition_messages,
    runs_create_messages, toolCalls_create_messages.

Lemma same_completed {A} (m : L A) :
  moves same_text m -> post (completed_at (Ret tt)) m (fun _ => completed_at (Ret tt)).
Proof.
  intros Hm s [Hs Hw]. destruct (Hm s) as [[E1 E2] E3]. unfold completed_at, sent.
  by rewrite E1, E2, E3.
Qed.

Lemma completed_any o s : completed_at (Ret tt) s -> completed_at o s.
Proof. intros [Hs Hw]. split; [done|]. intros u _. by apply (Hw tt). Qed.

Lemma persist_text_at id :
  post (at_ []) (persist_text outside ctx id)
    (fun o s => match o with Ret _ => completed_at (Ret tt) s | _ => sent s end).
Proof.
  intros s Hs. change (persist_text outside ctx id s) with
    (whenM (negb (String.eqb (l_text s) "")) (message_create outside ctx id assistant_role (l_text s)) s).
  destruct (String.eqb (l_text s) ""); [split; [apply Hs|left; apply Hs]|]. cbn [negb whenM].
  enough (H : forall t, post (fun s => at_ [] s /\ l_text s = t)
    (message_create outside ctx id assistant_role t)
    (fun o s => match o with Ret _ => completed_at (Ret tt) s | _ => sent s end)).
  { exact (H (l_text s) s (conj Hs eq_refl)). }
  clear s Hs. intros t.
  apply post_query; [intros s c n e [Hs _]; exact (at_sent [] s Hs)|].
  intros s c n [] db [Hs Ht] _ E. open_statement. split; [exact (at_sent [] s Hs)|]. intros _ _. simpl.
  destruct (reads_as_calls (l_text s)) eqn:Er; [by right|left].
  erewrite (messages_create_stored (elapse c n s)); [|eassumption|done].
  destruct (waiting_after_snoc (stored s) {| msg_messageId := id; msg_sessionId := ctx_sessionId ctx;
    msg_runId := Some (ctx_runId ctx); msg_role := assistant_role; msg_content := l_text s |} []
    (proj1 Hs)) as [names En].
  change (stored (elapse c n s)) with (stored s). by rewrite En, plain_text_at.
Qed.

Lemma body_history mid : post (at_ []) (body' mid) completed_at.
Proof.
  assert (Hsent : forall o s, (match o with Ret _ => at_ [] s | _ => sent s end) ->
    completed_at o s).
  { intros o s Hs. split; [destruct o; [by apply (at_sent [])|done..]|]. intros u ->. left. apply Hs. }
  assert (Hq : forall A B (m : L A) (k : A -> L B) Q, post (at_ []) m settled_at ->
    (forall a, post (at_ []) (k a) Q) -> (forall e s, sent s -> Q (Throw e) s) ->
    (forall s, sent s -> Q Torn s) -> post (at_ []) (x <~ m ;; k x) Q).
  { intros A B m k Q Hm Hk He Ht. by eapply (post_bind _ _ _ settled_at). }
  assert (Hfail : (forall e s, sent s -> completed_at (Throw e) s) /\
                  forall s, sent s -> completed_at Torn s) by done.
  unfold body. apply Hq; [|intros _|apply Hfail..].
  { destruct (bool_decide _); [|by apply same_settled; apply moves_ret].
    apply (message_create_at []). intros names. done. }
  do 3 (apply Hq; [apply same_settled; walk ltac:(history_leaf)|intros ?|apply Hfail..]).
  apply Hq; [apply rounds_at|intros _|apply Hfail..].
  apply Hq; [apply same_settled; walk ltac:(history_leaf)|intros it|apply Hfail..].
  destruct (_ <=? it)%nat; (eapply post_bind; [apply persist_text_at|intros []|apply Hfail|apply Hfail]);
    (eapply post_weaken; [intros s Hs; exact Hs|intros o s; apply completed_any|
       apply same_completed; unfold runs_complete, runs_fail; walk ltac:(text_leaf)]).
Qed.

(** Where the last event announces a completion, the run has left an answered
    history, unless its last text reads as a message with calls. *)
Definition left_at (o : outcome error unit) (s : LoopState) : Prop :=
  sent s /\ forall u es e, o = Ret u -> l_events s = es ++ [e] -> announced e = Some completed ->
    waiting_after (stored s) = Some [] \/ reads_as_calls (l_text s) = true.

(** The catch block announces a failure. *)
Lemma on_error_left err : post sent (on_error outside ctx err) left_at.
Proof.
  intros s Hs. split.
  { apply same_sent; [|exact Hs]. unfold on_error, runs_timeout, runs_cancel, runs_fail.
    walk ltac:(history_leaf). }
  intros u es e _. set (d := l_deadline s). set (t := l_clock s).
  set (k := fun cm : string * string => yield outside
    (run_failed (ctx_runId ctx) (ctx_sessionId ctx) cm.1 cm.2 (Some (error_json err)))).
  change (on_error outside ctx err s) with
    (bind (settle_run outside ctx err d t) k (set_traceError true s)).
  unfold bind. destruct (settle_run_returns outside ctx err d t (set_traceError true s)) as [cm Hcm].
  destruct (settle_run outside ctx err d t _) as [o s1]. simpl in Hcm. subst o.
  destruct (yield_last outside (run_failed (ctx_runId ctx) (ctx_sessionId ctx) cm.1 cm.2
    (Some (error_json err))) s1 I) as [es1 Hes]. fold (k cm) in Hes. rewrite Hes.
  intros [_ <-]%app_inj_tail. simpl. by repeat case_match.
Qed.

Lemma finalize_left o : post (left_at o) (finalize outside) (fun _ => left_at o).
Proof.
  set (R := fun s s' => same_text s s' /\ l_events s' = l_events s).
  assert (HR : Reflexive R) by (intros s; split; done).
  assert (HT : Transitive R) by (intros a b c [H1 H2] [H3 H4]; split; [by etrans|congruence]).
  assert (Hm : moves R (finalize outside)).
  { walk ltac:(intros; open_statement; (split; [split; [split|]|]); try done; apply stored_db; simpl;
      apply toolCalls_transition_messages). }
  intros s [Hs Hw]. destruct (Hm s) as [[[E1 E2] E3] E4]. unfold left_at, sent.
  by rewrite E1, E2, E3, E4.
Qed.

Lemma run_history : post (at_ []) run left_at.
Proof.
  unfold runAgentLoop. eapply (post_bind _ _ _ (fun o s => match o with Ret _ => at_ [] s | _ => False end));
    [|intros mid|done|done].
  { destruct prepared; intros s0 Hs0; exact Hs0. }
  eapply (post_try_finally _ _ _ left_at).
  - eapply (post_try_catch _ _ _ completed_at); [apply body_history|intros e| |].
    + intros s [Hs _]. by apply on_error_left.
    + intros [] s [Hs Hw]. split; [exact Hs|]. intros _ _ _ _ _ _. by apply (Hw tt).
    + intros s [Hs _]. by split.
  - intros o s Hs. pose proof (finalize_left o s Hs) as H. destruct (finalize_returns outside s) as [[] E].
    by rewrite E.
Qed.
End history.
