(* ===== verification/HistoryProps.v ===== *)
(** What the model is shown: the tool calls of every request are answered, and
    the ways in which a session's history stops being so. *)
From S2P Require Import Prelude Json Shared Deadlines Context Tools Models Repos Effects Loop LoopFacts LoopInvariants LoopProps History.

Lemma trim_all name n h :
  length (non_system h) <= n ->
  non_system (trim_history (createMemoryStrategy name (Some n)) h) = non_system h.
Proof.
  intros Hn. destruct name; simpl; [|done]. unfold last_n_trim. simpl.
  rewrite (proj2 (Nat.leb_le _ _) Hn). apply filter_idem.
Qed.

Section theorems.
Context {P : Type} (outside : Outside P).
Context (ajv_compile : json -> res string ValidateFunction).
Context (registry : ProviderRegistry P) (penv : string -> option string).
Context (ctx : RunContext) (userContent : string) (options : AgentEngineOptions).
Context (prepared : option string) (now : Z) (db : Db).

Abbreviation final' := (final outside ajv_compile registry penv ctx userContent options prepared now db).
Abbreviation memory' := (createMemoryStrategy (memoryStrategyName ctx options) (Some (lastN ctx options))).
Abbreviation history db := (messages_listBySession (ctx_sessionId ctx) db).

(** C26: a run on a session whose stored history is answered only sends the
    provider answered conversations: each request is built from a history in
    which every assistant message with tool calls is followed by one result per
    call, in order, and no result stands alone; the request itself is answered
    when that history fits the memory window.  A run that completes leaves its
    session so for the next one, unless the model's last text reads as a stored
    message with calls. *)
Theorem requests_are_answered :
  (forall n p req name id args,
     In (ch_tool_call name id args) (streams outside n p req).1 -> args_wf args = true) ->
  (forall n call c sg, executes outside n call c sg <> inl (result_ok None)) ->
  waiting_after (history db) = Some [] ->
  (forall r, In r (l_requests final'.2) -> exists h,
     mr_messages r = build (ag_systemPrompt (ctx_agentConfig ctx)) memory' h /\
     waiting_after h = Some [] /\
     (length (non_system h) <= lastN ctx options -> answered (mr_messages r) = true)) /\
  (final'.1 = Ret tt -> forall es e, l_events final'.2 = es ++ [e] -> announced e = Some completed ->
     waiting_after (history (l_db final'.2)) = Some [] \/ reads_as_calls (l_text final'.2) = true).
Proof.
  intros Hs Ho Hw.
  destruct (run_history outside ajv_compile registry penv ctx userContent options prepared Hs Ho
    (init_state now db (ctx_iterationCount ctx)) (conj Hw (Forall_nil_2 _))) as [Hr Hl].
  split; [|intros He es e; by apply (Hl tt)].
  intros r Hin. unfold sent in Hr. rewrite Forall_forall in Hr.
  destruct (Hr r (proj2 (list_elem_of_In _ _) Hin)) as (h & Hh & Hm). exists h.
  split_and!; [done|done|]. intros Hn. rewrite Hm. by apply answered_build; [|apply trim_all].
Qed.
End theorems.

(** ** A provider that asks for two tools at once *)

Definition ask (id : string) : ModelStreamChunk := ch_tool_call FIXTURE_TOOL_NAME id (Some (JObj [])).

Definition two_calls (slow : option nat) : Outside FixtureProvider :=
  {| took := fun n => if bool_decide (slow = Some n) then 60%N else 1%N; refused := fun _ _ => None; torn := fun _ => false;
     streams := fun _ _ req =>
       if existsb (fun m => bool_decide (mm_role m = tool_role)) (mr_messages req)
       then ([ch_token "done"; ch_finish "stop" no_usage], None)
       else ([ask "call_a"; ask "call_b"; ch_finish "tool_use" no_usage], None);
     executes := fun _ _ _ _ => inl (result_ok (Some (JStr "ok")));
     nanoid := fun n => string_of_Z (Z.of_nat n); traced := false; finish_fails := false |}%string.

Definition two_calls_run (slow : option nat) (options : AgentEngineOptions) (db : Db) :=
  runAgentLoop (two_calls slow) accept_all demo_registry (fun _ => None) (demo_ctx None) ""
    options (Some "msg_user"%string) (init_state 0 db 0).

Lemma requests_are_answered_witness :
  map (fun r => length (mr_messages r)) (l_requests (two_calls_run None demo_options demo_prepared_db).2) = [2; 5] /\
  (forall r, In r (l_requests (two_calls_run None demo_options demo_prepared_db).2) -> exists h,
     mr_messages r = build "Be brief." (createMemoryStrategy last_n (Some 50)) h /\
     waiting_after h = Some [] /\ (length (non_system h) <= 50 -> answered (mr_messages r) = true)).
Proof.
  split; [by vm_compute|].
  apply (requests_are_answered (two_calls None) accept_all demo_registry (fun _ => None) (demo_ctx None) ""
    demo_options (Some "msg_user"%string) 0 demo_prepared_db).
  - intros n p req name id args. simpl. destruct (existsb _ _); simpl.
    + intros [[=]|[[=]|[]]].
    + intros [[= <- <- <-]|[[= <- <- <-]|[[=]|[]]]]; reflexivity.
  - intros n call c sg. simpl. discriminate.
  - vm_compute. reflexivity.
Defined.

(** ** Where it stops *)

(** ** Where it stops *)

(** A call that waits when a user speaks is never answered. *)
Lemma waiting_forever h id w m :
  waiting_after h = Some (id :: w) -> msg_role m = user_role ->
  forall l, waiting_after (h ++ m :: l) = None.
Proof.
  intros Hw Hm l'. unfold waiting_after in *.
  destruct (build_records_app [] h (m :: l')) as [names ->]. rewrite answer_run_app, Hw.
  cbn [build_records]. unfold build_record. by rewrite Hm.
Qed.

(** The run's first tool overruns its deadline: the run times out before the
    second call of the same turn, and stores no result for it. *)
Definition timed_out_db : Db := l_db (two_calls_run (Some 9) demo_options demo_prepared_db).2.

(** When a tool overruns its deadline in a turn that asked for two, the run
    times out with the second call stored but without a result; from the next
    user message on no continuation of the session's history is ever answered
    again, so every request that still shows that turn is one the vendors
    refuse. *)
Theorem timed_out_turn_is_never_answered :
  last (l_events (two_calls_run (Some 9) demo_options demo_prepared_db).2) ≫= announced = Some timed_out /\
  waiting_after (messages_listBySession "ses_1" timed_out_db) = Some [JStr "call_b"] /\
  forall m l, msg_role m = user_role ->
    waiting_after (messages_listBySession "ses_1" timed_out_db ++ m :: l) = None.
Proof.
  assert (H : waiting_after (messages_listBySession "ses_1" timed_out_db) = Some [JStr "call_b"%string])
    by (by vm_compute).
  split_and!; [by vm_compute|exact H|]. intros m l Hm. by apply (waiting_forever _ _ _ m H).
Qed.

(** A window shorter than a turn: the second request of a run starts with the
    results of calls it does not show. *)
Definition short_window : AgentEngineOptions :=
  {| o_maxToolIterations := None; o_toolTimeoutMs := None; o_modelTimeoutMs := None;
     o_totalRunMs := None; o_memoryStrategy := None; o_lastN := Some 2 |}.

Lemma trimmed_request_is_unanswered :
  map (fun r => answered (mr_messages r))
    (l_requests (two_calls_run None short_window demo_prepared_db).2) = [true; false].
Proof. by vm_compute. Qed.
