(* ===== verification/RunService.v ===== *)
(** The owner of runs (packages/runtime/src/run-execution-service.ts,
    session-lock.ts, and the prerequisites and the prepared execution of
    engine.ts).

    The service is one JavaScript object shared by concurrent calls: its state
    changes atomically between two [await]s.  Each run is a task with the
    point it waits at; a step resumes one task with the reply of what it
    awaited, serves one call, or lets the database move under the loops and
    the other processes. *)
From S2P Require Import Prelude Json Shared Deadlines Repos.

(** ** The session lock *)
Module SessionLock.

Record SessionLock := { locks : gmap string string }.

Definition acquire (sessionId runId : string) (l : SessionLock) : res error SessionLock :=
  match locks l !! sessionId with
  | Some existing =>
      Err (swift_error CONFLICT
        ("Session " +:+ sessionId +:+ " already has an active run: " +:+ existing))
  | None => Ok {| locks := <[sessionId := runId]> (locks l) |}
  end.

Definition release (sessionId runId : string) (l : SessionLock) : SessionLock :=
  match locks l !! sessionId with
  | Some existing =>
      if String.eqb existing runId then {| locks := delete sessionId (locks l) |} else l
  | None => l
  end.

Definition isActive (sessionId : string) (l : SessionLock) : bool :=
  bool_decide (is_Some (locks l !! sessionId)).

Lemma acquire_holder s r l l' s' :
  acquire s r l = Ok l' ->
  locks l' !! s' = if decide (s = s') then Some r else locks l !! s'.
Proof.
  unfold acquire. destruct (locks l !! s); [done|]. intros [= <-]. simpl.
  case_decide; subst; [by rewrite lookup_insert_eq|by rewrite lookup_insert_ne].
Qed.

Lemma release_holder s r l s' :
  locks (release s r l) !! s' =
  if decide (s = s' /\ locks l !! s = Some r) then None else locks l !! s'.
Proof.
  unfold release. destruct (locks l !! s) as [r'|] eqn:E.
  - destruct (String.eqb_spec r' r) as [->|Hne]; simpl.
    + case_decide as H; [destruct H as [-> _]; by rewrite lookup_delete_eq|].
      rewrite lookup_delete_ne; [done|]. naive_solver.
    + case_decide as H; [destruct H as [_ H]; congruence|done].
  - case_decide as H; [by destruct H|done].
Qed.
End SessionLock.

(** ** Prerequisites of a run (engine.ts) *)

(** [resolveRunPrereqs] awaits the session, its agent, then the executor. *)
Inductive prereq : Type :=
| await_session
| await_agent (agentId : string)
| await_executor (agent : AgentRecord).

Inductive prereq_step : Type :=
| prereq_next (p : prereq)
| prereq_done (agent : AgentRecord)
| prereq_throw (e : error).

(** One reply: an error of the awaited operation, or its row. *)
Definition resolveRunPrereqs (sessionId : string) (p : prereq) (reply : option error) (db : Db) :
    prereq_step :=
  match reply with
  | Some e => prereq_throw e
  | None =>
      match p with
      | await_session =>
          match sessions_getById sessionId db with
          | None => prereq_throw (swift_error NOT_FOUND ("Session " +:+ sessionId +:+ " not found"))
          | Some session =>
              if bool_decide (ses_status session = active)
              then prereq_next (await_agent (ses_agentId session))
              else prereq_throw (swift_error VALIDATION ("Session " +:+ sessionId +:+ " is "
                     +:+ session_status_string (ses_status session) +:+ ", not active"))
          end
      | await_agent agentId =>
          match agents_getById agentId db with
          | None => prereq_throw (swift_error NOT_FOUND ("Agent " +:+ agentId +:+ " not found"))
          | Some agent => prereq_next (await_executor agent)
          end
      | await_executor agent => prereq_done agent
      end
  end.

(** ** Tasks *)

(** Where a run waits: in [start] (before the run exists), in [drive]. *)
Inductive pc : Type :=
| setup_prereq (p : prereq)        (* start: resolveRunPrereqs *)
| setup_run (model : string)       (* start: runs.create *)
| setup_message                    (* start: messages.create *)
| drive_prereq (p : prereq)        (* executePreparedRun: resolveRunPrereqs *)
| looping                          (* the agent loop *)
| finalizing                       (* finally: runs.cancel *)
| finished
| rejected.

Record Task := {
  t_session : string; t_content : string;
  t_streaming : bool;                        (* opts.onEvent was given *)
  t_pc : pc;
  t_drive : option error;                    (* what [drive] will throw *)
  t_result : option (res error unit) }.      (* how [start] settled *)

Definition at_pc (p : pc) (t : Task) : Task :=
  {| t_session := t_session t; t_content := t_content t; t_streaming := t_streaming t;
     t_pc := p; t_drive := t_drive t; t_result := t_result t |}.
Definition settle (r : res error unit) (t : Task) : Task :=
  {| t_session := t_session t; t_content := t_content t; t_streaming := t_streaming t;
     t_pc := t_pc t; t_drive := t_drive t; t_result := Some r |}.
Definition drive_throws (e : option error) (t : Task) : Task :=
  {| t_session := t_session t; t_content := t_content t; t_streaming := t_streaming t;
     t_pc := t_pc t; t_drive := e; t_result := t_result t |}.

Definition live (t : Task) : bool :=
  match t_pc t with finished | rejected => false | _ => true end.

(** The run's row has been created. *)
Definition prepared (t : Task) : bool :=
  match t_pc t with
  | setup_message | drive_prereq _ | looping | finalizing | finished => true
  | _ => false
  end.

(** ** The service *)
Record Service := {
  sessionLock : SessionLock.SessionLock;
  activeRuns : gmap string bool;             (* the run's controller: aborted? *)
  cancelledRuns : gset string;
  tasks : gmap string Task;
  s_db : Db }.

Definition createRunExecutionService (db : Db) : Service :=
  {| sessionLock := {| SessionLock.locks := ∅ |}; activeRuns := ∅; cancelledRuns := ∅;
     tasks := ∅; s_db := db |}.

Definition set_task (runId : string) (t : Task) (s : Service) : Service :=
  {| sessionLock := sessionLock s; activeRuns := activeRuns s; cancelledRuns := cancelledRuns s;
     tasks := <[runId := t]> (tasks s); s_db := s_db s |}.
Definition with_db (db : Db) (s : Service) : Service :=
  {| sessionLock := sessionLock s; activeRuns := activeRuns s; cancelledRuns := cancelledRuns s;
     tasks := tasks s; s_db := db |}.

(** [activeRuns.delete(runId); sessionLock.release(sessionId, runId)]. *)
Definition free (sessionId runId : string) (s : Service) : Service :=
  {| sessionLock := SessionLock.release sessionId runId (sessionLock s);
     activeRuns := delete runId (activeRuns s); cancelledRuns := cancelledRuns s;
     tasks := tasks s; s_db := s_db s |}.

Definition uncancel (runId : string) (s : Service) : Service :=
  {| sessionLock := sessionLock s; activeRuns := activeRuns s;
     cancelledRuns := cancelledRuns s ∖ {[runId]}; tasks := tasks s; s_db := s_db s |}.

(** The call of [start], up to its first [await]. *)
Definition start (runId sessionId content : string) (streaming : bool) (s : Service) :
    res error Service :=
  let? l := SessionLock.acquire sessionId runId (sessionLock s) in
  Ok {| sessionLock := l; activeRuns := <[runId := false]> (activeRuns s);
        cancelledRuns := cancelledRuns s;
        tasks := <[runId := {| t_session := sessionId; t_content := content;
                     t_streaming := streaming; t_pc := setup_prereq await_session;
                     t_drive := None; t_result := None |}]> (tasks s);
        s_db := s_db s |}.

(** [requestCancel]: it always reports [{ requested: true }]. *)
Definition requestCancel (runId : string) (s : Service) : Service :=
  match activeRuns s !! runId with
  | Some _ =>
      {| sessionLock := sessionLock s; activeRuns := <[runId := true]> (activeRuns s);
         cancelledRuns := {[runId]} ∪ cancelledRuns s; tasks := tasks s; s_db := s_db s |}
  | None => s
  end.

(** The [catch] of [start]. *)
Definition setup_failed (runId : string) (t : Task) (e : error) (s : Service) : Service :=
  free (t_session t) runId (set_task runId (at_pc rejected (settle (Err e) t)) s).

(** The end of [drive], and of [start] for a streaming caller. *)
Definition end_drive (runId : string) (t : Task) (s : Service) : Service :=
  let r := match t_drive t with Some e => Err e | None => Ok tt end in
  let t' := at_pc finished (if t_streaming t then settle r t else t) in
  free (t_session t) runId (set_task runId t' s).

(** The [finally] of [drive], up to its [await]. *)
Definition drive_finally (runId : string) (t : Task) (s : Service) : Service :=
  if bool_decide (runId ∈ cancelledRuns s)
  then set_task runId (at_pc finalizing t) s
  else end_drive runId t s.

(** Resuming a task with the reply of what it awaits; [userMessageId] is the
    id the service mints.  A task in its loop is resumed by the loop only. *)
Definition resume (runId : string) (reply : option error) (userMessageId : string) (s : Service) :
    option Service :=
  match tasks s !! runId with
  | None => None
  | Some t =>
      match t_pc t with
      | setup_prereq p =>
          Some match resolveRunPrereqs (t_session t) p reply (s_db s) with
               | prereq_next p => set_task runId (at_pc (setup_prereq p) t) s
               | prereq_done agent =>
                   set_task runId (at_pc (setup_run (mc_model (ag_modelConfig agent))) t) s
               | prereq_throw e => setup_failed runId t e s
               end
      | setup_run model =>
          Some match reply, runs_create runId (t_session t) model (s_db s) with
               | Some e, _ | None, Err e => setup_failed runId t e s
               | None, Ok db => with_db db (set_task runId (at_pc setup_message t) s)
               end
      | setup_message =>
          Some match reply, messages_create
                 {| msg_messageId := userMessageId; msg_sessionId := t_session t;
                    msg_runId := Some runId; msg_role := user_role; msg_content := t_content t |}
                 (s_db s) with
               | Some e, _ | None, Err e => setup_failed runId t e s
               | None, Ok db =>
                   let t := at_pc (drive_prereq await_session) t in
                   with_db db (set_task runId (if t_streaming t then t else settle (Ok tt) t) s)
               end
      | drive_prereq p =>
          Some match resolveRunPrereqs (t_session t) p reply (s_db s) with
               | prereq_next p => set_task runId (at_pc (drive_prereq p) t) s
               | prereq_done agent => set_task runId (at_pc looping t) s
               | prereq_throw e => drive_finally runId (drive_throws (Some e) t) s
               end
      | finalizing =>
          let s := match reply with
                   | Some _ => s
                   | None => with_db (runs_cancel runId (s_db s)).2 s
                   end in
          Some (end_drive runId t (uncancel runId s))
      | looping | finished | rejected => None
      end
  end.

(** ** Steps *)

(** What a transaction that deletes nothing keeps of the runs table: a row
    stays, with its session, and a terminal row does not change
    ([run_moves_forward] for the loop). *)
Definition runs_le (a b : Db) : Prop :=
  forall id r, db_runs a !! id = Some r ->
  exists r', db_runs b !! id = Some r' /\ run_sessionId r' = run_sessionId r /\
    (run_terminal r = true -> r' = r).

Definition row_terminal (db : Db) (runId : string) : Prop :=
  exists r, db_runs db !! runId = Some r /\ run_terminal r = true.

Inductive step : Service -> Service -> Prop :=
| step_start runId sessionId content streaming s s' :
    tasks s !! runId = None -> start runId sessionId content streaming s = Ok s' -> step s s'
| step_cancel runId s : step s (requestCancel runId s)
| step_resume runId reply mid s s' : resume runId reply mid s = Some s' -> step s s'
(* the loop's statements and the other processes: anything *)
| step_db db s : step s (with_db db s)
(* the iteration ends - the loop never throws, and its terminal write may have
   been refused - or the caller's [onEvent] throws and tears the loop *)
| step_loop runId t threw s :
    tasks s !! runId = Some t -> t_pc t = looping -> step s (drive_finally runId (drive_throws threw t) s).

Inductive reachable (db : Db) : Service -> Prop :=
| reach_init : reachable db (createRunExecutionService db)
| reach_step s s' : reachable db s -> step s s' -> reachable db s'.

(** The steps of the service alone, executed. *)
Inductive call : Type :=
| c_start (runId sessionId content : string) (streaming : bool)
| c_cancel (runId : string)
| c_resume (runId : string) (reply : option error) (mid : string)
| c_loop (runId : string) (threw : option error).

Definition serve (c : call) (s : Service) : option Service :=
  match c with
  | c_start r sid content streaming =>
      match tasks s !! r, start r sid content streaming s with
      | None, Ok s' => Some s'
      | _, _ => None
      end
  | c_cancel r => Some (requestCancel r s)
  | c_resume r reply mid => resume r reply mid s
  | c_loop r threw =>
      match tasks s !! r with
      | Some t => match t_pc t with
                  | looping => Some (drive_finally r (drive_throws threw t) s)
                  | _ => None
                  end
      | None => None
      end
  end.

Fixpoint serves (cs : list call) (s : Service) : option Service :=
  match cs with
  | [] => Some s
  | c :: cs => match serve c s with Some s' => serves cs s' | None => None end
  end.

Lemma serve_step c s s' : serve c s = Some s' -> step s s'.
Proof.
  destruct c as [r sid content b|r|r reply mid|r threw]; simpl.
  - destruct (tasks s !! r) eqn:E; [done|]. destruct (start r sid content b s) eqn:Es; [|done].
    intros [= <-]. by econstructor.
  - intros [= <-]. constructor.
  - by econstructor.
  - destruct (tasks s !! r) as [t|] eqn:E; [|done]. destruct (t_pc t) eqn:Ep; try done.
    intros [= <-]. by apply step_loop.
Qed.

Lemma serves_reachable db cs s s' : reachable db s -> serves cs s = Some s' -> reachable db s'.
Proof.
  revert s. induction cs as [|c cs IH]; intros s Hs; simpl; [by intros [= <-]|].
  destruct (serve c s) as [s1|] eqn:E; [|done]. apply IH. eapply reach_step; [done|].
  by eapply serve_step.
Qed.

(** ** The invariant *)

(** [runId] is a live task of [sessionId]. *)
Definition holds (s : Service) (runId sessionId : string) : Prop :=
  exists t, tasks s !! runId = Some t /\ live t = true /\ t_session t = sessionId.

(** What holds of one task. *)
Record task_ok (cancelled : gset string) (runId : string) (t : Task) : Prop := {
  ok_result : t_result t = Some (Ok tt) -> prepared t = true;
  ok_pending : live t = true -> t_streaming t = true -> t_result t = None;
  ok_setup : prepared t = false -> t_pc t <> rejected -> t_result t = None;
  ok_cancel : t_pc t = finished -> runId ∉ cancelled }.

Record inv (s : Service) : Prop := {
  inv_lock : forall sid r, SessionLock.locks (sessionLock s) !! sid = Some r <-> holds s r sid;
  inv_active : forall r, is_Some (activeRuns s !! r) <-> exists sid, holds s r sid;
  inv_cancel : forall r, r ∈ cancelledRuns s -> is_Some (tasks s !! r);
  inv_task : forall r t, tasks s !! r = Some t -> task_ok (cancelledRuns s) r t }.

#[export] Instance runs_le_refl : Reflexive runs_le.
Proof. intros a id r H. by exists r. Qed.

Lemma db_le_runs_le a b : db_le a b -> runs_le a b.
Proof. intros H id r Hr. exact (le_runs _ _ H id r Hr). Qed.

Lemma row_terminal_le a b r : runs_le a b -> row_terminal a r -> row_terminal b r.
Proof.
  intros Hle (row & Hrow & Ht). destruct (Hle r row Hrow) as (row' & Hrow' & _ & Heq).
  rewrite (Heq Ht) in Hrow'. by exists row.
Qed.

(** It says nothing of the database. *)
Lemma inv_with_db db s : inv s -> inv (with_db db s).
Proof. by intros [H1 H2 H3 H4]. Qed.

Lemma holds_set_task r t t' s r' sid :
  tasks s !! r = Some t -> live t = live t' -> t_session t' = t_session t ->
  holds (set_task r t' s) r' sid <-> holds s r' sid.
Proof.
  intros Ht Hl Hs. unfold holds, set_task. simpl.
  destruct (decide (r = r')) as [<-|Hne]; [|by setoid_rewrite (lookup_insert_ne _ r r' t' Hne)].
  rewrite lookup_insert_eq. split; intros (t0 & E & Hl0 & Hs0); simplify_eq.
  - exists t. split_and!; congruence.
  - exists t'. split_and!; congruence.
Qed.

(** A live task moves to another point. *)
Lemma inv_move r t t' db s :
  inv s -> tasks s !! r = Some t -> live t = live t' -> t_session t' = t_session t ->
  task_ok (cancelledRuns s) r t' -> inv (with_db db (set_task r t' s)).
Proof.
  intros Hi Ht Hl Hs Hok. assert (Hh := fun r' sid => holds_set_task r t t' s r' sid Ht Hl Hs).
  apply (inv_with_db db s) in Hi as [H1 H2 H3 H4]. split.
  - intros sid r'. rewrite (H1 sid r'). symmetry. apply Hh.
  - intros r'. rewrite (H2 r'). split; intros [sid H]; exists sid; by apply Hh.
  - intros r' Hr. simpl. rewrite lookup_insert. case_decide; [done|]. by apply H3.
  - intros r' t0. simpl. rewrite lookup_insert. case_decide as E; [|by apply H4].
    intros [= <-]. by subst.
Qed.

(** A live task ends: its lock and its controller are freed. *)
Lemma inv_end r t t' s :
  inv s -> tasks s !! r = Some t -> live t = true -> live t' = false ->
  t_session t' = t_session t -> task_ok (cancelledRuns s) r t' ->
  inv (free (t_session t) r (set_task r t' s)).
Proof.
  intros [H1 H2 H3 H4] Ht Hl Hl' Hs Hok.
  assert (Hlock : SessionLock.locks (sessionLock s) !! t_session t = Some r).
  { apply H1. by exists t. }
  assert (Hh : forall r' sid, holds (free (t_session t) r (set_task r t' s)) r' sid <->
                              holds s r' sid /\ r' <> r).
  { intros r' sid. unfold holds. simpl. rewrite lookup_insert. case_decide as E.
    - subst r'. split; [|by intros [_ []]]. intros (t0 & [= <-] & Hl0 & _). congruence.
    - split; [intros H; split; [done|congruence]|by intros [H _]]. }
  split.
  - intros sid r'. rewrite Hh. simpl. rewrite SessionLock.release_holder, <- (H1 sid r').
    case_decide as E; [destruct E as [<- _]; rewrite Hlock; naive_solver|].
    split; [|by intros []]. intros Hr. split; [done|]. intros ->. apply E. split; [|done].
    apply H1 in Hr as (t0 & E0 & _ & <-). congruence.
  - intros r'. simpl. setoid_rewrite Hh. rewrite lookup_delete. case_decide as E.
    + split; [by intros []|by intros (? & _ & [])].
    + rewrite (H2 r'). naive_solver.
  - intros r' Hr. simpl. rewrite lookup_insert. case_decide; [done|]. by apply H3.
  - intros r' t0. simpl. rewrite lookup_insert. case_decide as E; [|by apply H4].
    intros [= <-]. by subst.
Qed.

(** What [drive] knows of its task when it leaves the [try] block. *)
Definition drive_ok (t : Task) : Prop := prepared t = true /\ (t_streaming t = true -> t_result t = None).

Lemma inv_end_drive r t0 t s :
  inv s -> tasks s !! r = Some t0 -> live t0 = true -> t_session t = t_session t0 ->
  drive_ok t -> r ∉ cancelledRuns s -> inv (end_drive r t s).
Proof.
  intros Hi Ht Hl Hs [Hp Hpend] Hc. unfold end_drive. rewrite Hs.
  apply (inv_end _ t0); try done. by destruct (t_streaming t).
Qed.

Lemma inv_drive_finally r t0 t s :
  inv s -> tasks s !! r = Some t0 -> live t0 = true -> t_session t = t_session t0 ->
  drive_ok t -> inv (drive_finally r t s).
Proof.
  intros Hi Ht Hl Hs Hd. unfold drive_finally.
  case_bool_decide as Hc; [|by eapply inv_end_drive].
  apply (inv_move r t0 (at_pc finalizing t) (s_db s) s); try done.
  destruct Hd as [Hp Hpend]. split; simpl; try done.
Qed.

Lemma inv_setup_failed r t e s :
  inv s -> tasks s !! r = Some t -> live t = true -> inv (setup_failed r t e s).
Proof. intros Hi Ht Hl. apply (inv_end _ t); try done. Qed.

Lemma inv_uncancel r s : inv s -> inv (uncancel r s).
Proof.
  intros [H1 H2 H3 H4]. split; [exact H1|exact H2|..].
  - intros r' Hr. apply H3. simpl in Hr. set_solver.
  - intros r' t Ht. destruct (H4 r' t Ht). split; try done. simpl. set_solver.
Qed.

Lemma inv_cancel_request r s : inv s -> inv (requestCancel r s).
Proof.
  intros [H1 H2 H3 H4]. unfold requestCancel. destruct (activeRuns s !! r) as [b|] eqn:E; [|done].
  assert (Hr : exists sid, holds s r sid) by (apply H2; eauto).
  split; [exact H1|..]; simpl.
  - intros r'. rewrite lookup_insert. rewrite <- (H2 r'). case_decide; [|done]. subst.
    rewrite E. split; eauto.
  - intros r' Hin. apply elem_of_union in Hin as [Hin|Hin]; [|by apply H3].
    apply elem_of_singleton in Hin as ->. destruct Hr as (sid & t & Ht & _). by exists t.
  - intros r' t Ht. destruct (H4 r' t Ht). split; try done. intros Hf.
    apply not_elem_of_union. split; [|by auto]. apply not_elem_of_singleton. intros ->.
    destruct Hr as (sid & t' & Ht' & Hl & _). simplify_eq. unfold live in Hl. by rewrite Hf in Hl.
Qed.

Lemma inv_start r sid c st s s' :
  inv s -> tasks s !! r = None -> start r sid c st s = Ok s' -> inv s'.
Proof.
  intros [H1 H2 H3 H4] Hn. unfold start.
  destruct (SessionLock.acquire sid r (sessionLock s)) as [l|] eqn:E; [|done]. simpl. intros [= <-].
  assert (Hfree : SessionLock.locks (sessionLock s) !! sid = None).
  { unfold SessionLock.acquire in E. by destruct (SessionLock.locks (sessionLock s) !! sid). }
  set (t := {| t_session := sid |}). set (s' := {| sessionLock := l |}).
  assert (Hh : forall r' sid', holds s' r' sid' <-> (r' = r /\ sid' = sid) \/ holds s r' sid').
  { intros r' sid'. unfold holds. simpl. rewrite lookup_insert. case_decide as Ed.
    - subst r'. rewrite Hn. split; [intros (t0 & [= <-] & _ & <-); by left|].
      intros [[_ ->]|(? & ? & _)]; [by exists t|done].
    - split; [by right|]. intros [[-> _]|H]; done. }
  split; simpl.
  - intros sid' r'. rewrite Hh, (SessionLock.acquire_holder _ _ _ _ _ E), <- (H1 sid' r').
    case_decide as Ed; [subst sid'; rewrite Hfree; naive_solver|naive_solver].
  - intros r'. setoid_rewrite Hh. rewrite lookup_insert. case_decide as Ed.
    + subst r'. split; [intros _; exists sid; by left|by eauto].
    + rewrite (H2 r'). naive_solver.
  - intros r' Hr. rewrite lookup_insert. case_decide; [done|]. by apply H3.
  - intros r' t0. rewrite lookup_insert. case_decide as Ed; [|by apply H4].
    intros [= <-]. subst. by split.
Qed.

(** A task that moves between two live points keeps what holds of it. *)
Ltac move_task :=
  match goal with H : task_ok _ _ ?t |- _ => destruct H as [Hres Hpend Hset Hcan] end;
  match goal with E : t_pc _ = _ |- _ => unfold prepared, live in *; rewrite ?E in * end;
  split; simpl; try done; try (intros; congruence); auto.

Lemma inv_resume r reply mid s s' : inv s -> resume r reply mid s = Some s' -> inv s'.
Proof.
  intros Hi. unfold resume. destruct (tasks s !! r) as [t|] eqn:Ht; [|done].
  assert (Hok := inv_task _ Hi _ _ Ht).
  destruct (t_pc t) eqn:Hpc; try done; intros [= <-];
    assert (Hl : live t = true) by (unfold live; by rewrite Hpc).
  - destruct (resolveRunPrereqs _ _ _ _) as [p'|a|e]; [| |by apply inv_setup_failed];
      (apply (inv_move r t _ (s_db s)); [done..|]; by move_task).
  - destruct reply as [e|]; [by apply inv_setup_failed|].
    destruct (runs_create _ _ _ _) as [db|e] eqn:Ec; [|by apply inv_setup_failed].
    apply (inv_move r t); try done. by move_task.
  - destruct reply as [e|]; [by apply inv_setup_failed|].
    destruct (messages_create _ _) as [db|e] eqn:Ec; [|by apply inv_setup_failed].
    apply (inv_move r t); try done; [rewrite Hl; by destruct (t_streaming t)|by destruct (t_streaming t)|].
    destruct (t_streaming t) eqn:Hst; by move_task.
  - destruct (resolveRunPrereqs _ _ _ _) as [p'|a|e];
      [apply (inv_move r t _ (s_db s)); [done..|]; by move_task
      |apply (inv_move r t _ (s_db s)); [done..|]; by move_task|].
    apply (inv_drive_finally r t); try done. split; [unfold prepared; simpl; by rewrite Hpc|by apply Hok].
  - set (s0 := match reply with Some _ => s | None => _ end).
    assert (Hi0 : inv s0) by (subst s0; destruct reply; [done|by apply inv_with_db]).
    apply (inv_end_drive r t); try done.
    + by apply inv_uncancel.
    + subst s0. by destruct reply.
    + split; [unfold prepared; by rewrite Hpc|by apply Hok].
    + simpl. set_solver.
Qed.

Lemma inv_step s s' : inv s -> step s s' -> inv s'.
Proof.
  intros Hi Hs. destruct Hs.
  - by eapply inv_start.
  - by apply inv_cancel_request.
  - by eapply inv_resume.
  - by apply inv_with_db.
  - assert (Hok := inv_task _ Hi _ _ H).
    apply (inv_drive_finally runId t); try done; [unfold live; by rewrite H0|].
    split; [unfold prepared; simpl; by rewrite H0|].
    intros Hst. apply Hok; [unfold live; by rewrite H0|done].
Qed.

Lemma inv_reachable db s : reachable db s -> inv s.
Proof.
  induction 1 as [|s s' _ IH Hs]; [|by eapply inv_step].
  split; simpl; try done; intros *; rewrite lookup_empty.
  - split; [done|by intros (t & Ht & _)].
  - split; [by intros []|by intros (? & t & Ht & _)].
Qed.

(** *** A task keeps its session *)

Definition tasks_stay (s s' : Service) : Prop :=
  forall r t, tasks s !! r = Some t -> exists t', tasks s' !! r = Some t' /\ t_session t' = t_session t.

#[export] Instance tasks_stay_refl : Reflexive tasks_stay.
Proof. intros s r t H. by exists t. Qed.
#[export] Instance tasks_stay_trans : Transitive tasks_stay.
Proof. intros a b c H1 H2 r t H. destruct (H1 r t H) as (t1 & E1 & <-). by apply H2. Qed.

Lemma set_task_stays r t t' s :
  tasks s !! r = Some t -> t_session t' = t_session t -> tasks_stay s (set_task r t' s).
Proof.
  intros Ht Hs i x Hx. simpl. rewrite lookup_insert. case_decide as E; [|by exists x].
  subst. simplify_eq. by exists t'.
Qed.

Lemma end_drive_stays r t0 t s :
  tasks s !! r = Some t0 -> t_session t = t_session t0 -> tasks_stay s (end_drive r t s).
Proof. intros Ht Hs. apply (set_task_stays r t0); [done|]. by destruct (t_streaming t). Qed.

Lemma drive_finally_stays r t0 t s :
  tasks s !! r = Some t0 -> t_session t = t_session t0 -> tasks_stay s (drive_finally r t s).
Proof.
  intros Ht Hs. unfold drive_finally. case_bool_decide; [by apply (set_task_stays r t0)|by apply (end_drive_stays r t0)].
Qed.

Lemma resume_stays r reply mid s s' : resume r reply mid s = Some s' -> tasks_stay s s'.
Proof.
  unfold resume. destruct (tasks s !! r) as [t|] eqn:Ht; [|done]. destruct (t_pc t); try done; intros [= <-].
  - destruct (resolveRunPrereqs _ _ _ _); by apply (set_task_stays r t).
  - destruct reply; [by apply (set_task_stays r t)|].
    destruct (runs_create _ _ _ _) as [db|]; by apply (set_task_stays r t).
  - destruct reply; [by apply (set_task_stays r t)|].
    destruct (messages_create _ _) as [db|]; [|by apply (set_task_stays r t)].
    apply (set_task_stays r t); [done|]. by destruct (t_streaming t).
  - destruct (resolveRunPrereqs _ _ _ _); [by apply (set_task_stays r t)..|by apply (drive_finally_stays r t)].
  - destruct reply; exact (end_drive_stays r t t (uncancel r _) Ht eq_refl).
Qed.

Lemma step_stays s s' : step s s' -> tasks_stay s s'.
Proof.
  destruct 1.
  - unfold start in H0. destruct (SessionLock.acquire _ _ _); [|done]. injection H0 as <-. intros i x Hx. simpl.
    rewrite lookup_insert_ne by congruence. by exists x.
  - intros i x Hx. exists x. split; [|done]. unfold requestCancel. by destruct (activeRuns s !! runId).
  - by eapply resume_stays.
  - intros i x Hx. by exists x.
  - by apply (drive_finally_stays runId t).
Qed.

(** ** Ending a run *)

(** The run has ended and its session is free. *)
Definition ended (r sid : string) (s : Service) : Prop :=
  (exists t, tasks s !! r = Some t /\ live t = false) /\
  SessionLock.isActive sid (sessionLock s) = false.

Lemma release_free l sid r :
  SessionLock.locks l !! sid = Some r -> SessionLock.isActive sid (SessionLock.release sid r l) = false.
Proof.
  intros H. unfold SessionLock.isActive. rewrite SessionLock.release_holder.
  rewrite decide_True by done. by rewrite bool_decide_false by by intros [].
Qed.

Lemma end_drive_ended r t s :
  SessionLock.locks (sessionLock s) !! t_session t = Some r -> ended r (t_session t) (end_drive r t s).
Proof.
  intros H. split; [|by apply release_free]. eexists. split; [apply lookup_insert_eq|].
  by destruct (t_streaming t).
Qed.

Lemma setup_failed_ended r t e s :
  SessionLock.locks (sessionLock s) !! t_session t = Some r ->
  ended r (t_session t) (setup_failed r t e s).
Proof.
  intros H. split; [|by apply release_free]. eexists. by split; [apply lookup_insert_eq|].
Qed.

Lemma finalizing_ends r t s :
  tasks s !! r = Some t -> t_pc t = finalizing ->
  SessionLock.locks (sessionLock s) !! t_session t = Some r ->
  exists s', rtc step s s' /\ ended r (t_session t) s'.
Proof.
  intros Ht Hpc Hl. eexists. split.
  - apply rtc_once. apply (step_resume r None ""). unfold resume. by rewrite Ht, Hpc.
  - by apply end_drive_ended.
Qed.

Lemma drive_finally_ends r t0 t s :
  tasks s !! r = Some t0 -> t_session t = t_session t0 ->
  SessionLock.locks (sessionLock s) !! t_session t = Some r ->
  exists s', rtc step (drive_finally r t s) s' /\ ended r (t_session t) s'.
Proof.
  intros Ht Hs Hl. unfold drive_finally. case_bool_decide.
  - apply (finalizing_ends r (at_pc finalizing t)); [apply lookup_insert_eq|done|done].
  - eexists. split; [reflexivity|]. by apply end_drive_ended.
Qed.

Lemma resume_then r reply mid s s1 (Q : Service -> Prop) :
  resume r reply mid s = Some s1 -> (exists s', rtc step s1 s' /\ Q s') ->
  exists s', rtc step s s' /\ Q s'.
Proof.
  intros H (s' & Hs & HQ). exists s'. split; [|done]. eapply rtc_l; [|done]. by eapply step_resume.
Qed.

Lemma live_ends r t s :
  inv s -> tasks s !! r = Some t -> live t = true ->
  exists s', rtc step s s' /\ ended r (t_session t) s'.
Proof.
  intros Hi Ht Hl. assert (Hlock : SessionLock.locks (sessionLock s) !! t_session t = Some r).
  { apply (inv_lock _ Hi). by exists t. }
  set (e := PlainError "Error" "gone").
  destruct (t_pc t) eqn:Hpc; try (unfold live in Hl; by rewrite Hpc in Hl).
  1-3: eapply (resume_then r (Some e) ""); [unfold resume; rewrite Ht, Hpc; reflexivity|];
    eexists; (split; [reflexivity|]); by apply setup_failed_ended.
  - eapply (resume_then r (Some e) ""); [unfold resume; rewrite Ht, Hpc; reflexivity|].
    by apply (drive_finally_ends r t (drive_throws (Some e) t)).
  - destruct (drive_finally_ends r t (drive_throws None t) s Ht eq_refl Hlock) as (s' & Hs & He).
    exists s'. split; [|done]. eapply rtc_l; [by apply (step_loop r t None)|done].
  - by apply (finalizing_ends r t).
Qed.
