(* ===== verification/RunServiceProps.v ===== *)
(** What the run service promises: one run per session, nothing held after a
    run has ended, and rows that exist and end. *)
From S2P Require Import Prelude Json Shared Deadlines Repos RunService.

(** ** A concrete service *)
Definition svc_agent : AgentRecord :=
  {| ag_agentId := "agt_1"; ag_workspaceId := "ws_1"; ag_name := "demo";
     ag_modelConfig := {| mc_model := "echo/echo"; mc_temperature := None; mc_maxTokens := None |};
     ag_systemPrompt := ""; ag_memoryConfig := None; ag_toolRunnerUrl := None;
     ag_tools := [] |}%string.

Definition svc_db : Db :=
  {| db_sessions := {["ses_1" := {| ses_sessionId := "ses_1"; ses_agentId := "agt_1";
                                    ses_userId := None; ses_status := active |}]};
     db_agents := {["agt_1" := svc_agent]}; db_runs := ∅; db_messages := [];
     db_toolCalls := ∅ |}%string.

Definition svc0 : Service := createRunExecutionService svc_db.

(** A run up to its loop: three awaited reads, two inserts, three reads. *)
Definition up_to_message (streaming : bool) : list call :=
  c_start "run_1" "ses_1" "hi" streaming :: repeat (c_resume "run_1" None "msg_1") 5%nat.
Definition up_to_loop (streaming : bool) : list call :=
  up_to_message streaming ++ repeat (c_resume "run_1" None "msg_1") 3%nat.

Definition after (cs : list call) : Service :=
  match serves cs svc0 with Some s => s | None => svc0 end.

Example svc_loops :
  t_pc <$> tasks (after (up_to_loop false)) !! "run_1"%string = Some looping /\
  SessionLock.isActive "ses_1" (sessionLock (after (up_to_loop false))) = true /\
  is_ok (start "run_2" "ses_1" "again" false (after (up_to_loop false))) = false.
Proof. by vm_compute. Qed.

Lemma after_reachable cs :
  is_Some (serves cs svc0) -> reachable svc_db (after cs).
Proof.
  unfold after. intros [s Hs]. rewrite Hs. eapply serves_reachable; [constructor|exact Hs].
Qed.

(** C5: at any point of any interleaving of starts, cancellations, replies and
    database changes, a session has at most one run that has not ended. *)
Theorem one_run_per_session db s r1 r2 t1 t2 :
  reachable db s ->
  tasks s !! r1 = Some t1 -> tasks s !! r2 = Some t2 ->
  live t1 = true -> live t2 = true -> t_session t1 = t_session t2 -> r1 = r2.
Proof.
  intros Hr H1 H2 L1 L2 E. apply inv_reachable in Hr as [Hl _ _ _].
  assert (A : SessionLock.locks (sessionLock s) !! t_session t1 = Some r1) by (apply Hl; by exists t1).
  assert (B : SessionLock.locks (sessionLock s) !! t_session t1 = Some r2) by (apply Hl; by exists t2).
  congruence.
Qed.

(** A run that has ended - its setup refused, its loop over, cancelled or
    not - holds neither the session's lock nor a slot of the registry, and a
    cancellation of it is not remembered; and a session without a live run is
    free to start one. *)
Theorem ended_run_frees_session db s r t :
  reachable db s -> tasks s !! r = Some t -> live t = false ->
  SessionLock.locks (sessionLock s) !! t_session t <> Some r /\
  activeRuns s !! r = None /\
  (t_pc t = finished -> r ∉ cancelledRuns s) /\
  ((forall r' t', tasks s !! r' = Some t' -> live t' = true -> t_session t' <> t_session t) ->
   SessionLock.isActive (t_session t) (sessionLock s) = false).
Proof.
  intros Hr Ht Hl. apply inv_reachable in Hr as [H1 H2 H3 H4]. split_and!.
  - intros H. apply H1 in H as (t' & ? & ? & _). congruence.
  - apply eq_None_not_Some. rewrite H2. intros (sid & t' & ? & ? & _). congruence.
  - apply H4, Ht.
  - intros Hn. unfold SessionLock.isActive. case_bool_decide as H; [|done]. destruct H as [r' H].
    apply H1 in H as (t' & Ht' & Hl' & E). by destruct (Hn r' t' Ht' Hl').
Qed.

(** A caller that is not streamed to is answered when its message has been
    stored; the run's row exists then, so that who is answered [202] can poll
    it; a run that fails before that is answered with its error. *)
Theorem accepted_run_is_stored s s' r t t' reply mid :
  resume r reply mid s = Some s' -> tasks s !! r = Some t -> t_pc t = setup_message -> t_streaming t = false ->
  tasks s' !! r = Some t' ->
  (t_result t' = Some (Ok tt) /\ is_Some (db_runs (s_db s') !! r)) \/
  (exists e, t_result t' = Some (Err e) /\ live t' = false).
Proof.
  intros H Ht Hpc Hst Ht'. unfold resume in H. rewrite Ht, Hpc in H. injection H as <-.
  destruct reply as [e|]; [right; simpl in Ht'; rewrite lookup_insert_eq in Ht'; simplify_eq/=; by exists e|].
  destruct (messages_create _ _) as [db|e] eqn:E; simpl in Ht'; rewrite lookup_insert_eq in Ht'; simplify_eq/=;
    [left|right; by exists e].
  rewrite Hst. split; [done|]. erewrite messages_create_runs by done. unfold messages_create in E. simpl in E.
  repeat case_match; simplify_eq. by eexists.
Qed.

(** The last write of a cancelled run: once it is through, the run is over. *)
Theorem cancelled_run_is_terminal s s' r t mid :
  resume r None mid s = Some s' -> tasks s !! r = Some t -> t_pc t = finalizing ->
  is_Some (db_runs (s_db s) !! r) -> row_terminal (s_db s') r.
Proof.
  intros H Ht Hpc [row Hrow]. unfold resume in H. rewrite Ht, Hpc in H. injection H as <-. unfold row_terminal. simpl.
  change (db_runs _) with (db_runs (runs_transition cancelled None r (s_db s)).2).
  rewrite runs_transition_row, Hrow. simpl. eexists. split; [done|]. by destruct (run_terminal row) eqn:E.
Qed.

(** C21: no run is wedged: whatever a live run waits for, there is a reply that
    lets it end, and its session is free then. *)
Theorem live_run_can_end db s r t :
  reachable db s -> tasks s !! r = Some t -> live t = true ->
  exists s', rtc step s s' /\ ended r (t_session t) s'.
Proof. intros Hr Ht Hl. apply live_ends; [by eapply inv_reachable|done..]. Qed.

(** A run whose agent or session is gone when its execution begins is
    abandoned: [start] has already answered, the lock is free again, and the
    row is left [running] with no task that would ever end it. *)
Theorem abandoned_run_stays_running :
  exists s t row, reachable svc_db s /\ tasks s !! "run_1"%string = Some t /\
    t_result t = Some (Ok tt) /\ live t = false /\
    SessionLock.isActive "ses_1" (sessionLock s) = false /\
    db_runs (s_db s) !! "run_1"%string = Some row /\ run_status row = running.
Proof.
  exists (after (up_to_message false ++ [c_resume "run_1" (Some (PlainError "Error" "gone")) "msg_1"])).
  do 2 eexists. split; [apply after_reachable; vm_compute; by eexists|]. vm_compute. done.
Qed.

(** ** Witnesses *)

(** Two sessions, each with its run. *)
Definition busy : Service := after (up_to_loop false).

Lemma busy_reachable : reachable svc_db busy.
Proof. apply after_reachable. vm_compute. eexists. reflexivity. Qed.

Definition busy_task : Task :=
  {| t_session := "ses_1"; t_content := "hi"; t_streaming := false; t_pc := looping;
     t_drive := None; t_result := Some (Ok tt) |}.

Lemma one_run_per_session_witness : "run_1"%string = "run_1"%string.
Proof.
  apply (one_run_per_session svc_db busy "run_1" "run_1" busy_task busy_task);
    [exact busy_reachable|vm_compute; reflexivity..].
Defined.

Definition refused_task : Task :=
  {| t_session := "ses_9"; t_content := "hi"; t_streaming := false; t_pc := rejected;
     t_drive := None;
     t_result := Some (Err (SwiftAgentError NOT_FOUND "Session ses_9 not found" 404)) |}.

Lemma ended_run_frees_session_witness :
  SessionLock.locks (sessionLock (after [c_start "run_1" "ses_9" "hi" false;
    c_resume "run_1" None ""])) !! "ses_9"%string <> Some "run_1"%string.
Proof.
  apply (ended_run_frees_session svc_db _ "run_1" refused_task);
    [apply after_reachable; vm_compute; eexists; reflexivity|vm_compute; reflexivity..].
Defined.

(** The answer to the caller, and the state before it. *)
Definition answering : Service := after (removelast (up_to_message false)).

Lemma accepted_run_is_stored_witness : is_Some (db_runs (s_db (after (up_to_message false))) !! "run_1"%string).
Proof.
  destruct (accepted_run_is_stored answering (after (up_to_message false)) "run_1"
    {| t_session := "ses_1"; t_content := "hi"; t_streaming := false; t_pc := setup_message; t_drive := None; t_result := None |}
    {| t_session := "ses_1"; t_content := "hi"; t_streaming := false; t_pc := drive_prereq await_session; t_drive := None;
       t_result := Some (Ok tt) |} None "msg_1") as [[_ H]|(e & [=] & _)]; [vm_compute; reflexivity..|exact H].
Defined.

(** The run is cancelled, the loop records it, and the drive ends. *)
Definition cancelled_db : Db := (runs_cancel "run_1" (s_db busy)).2.
Definition drained : Service :=
  match serves [c_cancel "run_1"; c_loop "run_1" None; c_resume "run_1" None ""] (with_db cancelled_db busy) with
  | Some s => s
  | None => svc0
  end.

Lemma drained_reachable : reachable svc_db drained.
Proof.
  apply (serves_reachable svc_db [c_cancel "run_1"; c_loop "run_1" None; c_resume "run_1" None ""]
    (with_db cancelled_db busy)); [|vm_compute; reflexivity].
  eapply reach_step; [exact busy_reachable|]. apply step_db.
Qed.

Lemma cancelled_run_is_terminal_witness : row_terminal (s_db drained) "run_1"%string.
Proof.
  apply (cancelled_run_is_terminal (match serves [c_cancel "run_1"; c_loop "run_1" None] (with_db cancelled_db busy) with
    Some s => s | None => svc0 end) drained "run_1" (at_pc finalizing busy_task) "");
    [vm_compute; reflexivity..|vm_compute; eexists; reflexivity].
Defined.

Lemma live_run_can_end_witness : exists s', rtc step busy s' /\ ended "run_1" "ses_1" s'.
Proof.
  apply (live_run_can_end svc_db busy "run_1" busy_task);
    [exact busy_reachable|vm_compute; reflexivity..].
Defined.
