(* ===== verification/RunSpec.v ===== *)
(** What the run service promises, without its machinery (see [RunService]):
    a session is free or has one run; a run is admitted to a free session, it
    may get its row, and it ends once and for all, which frees the session.
    Every step of the service is a step of this specification or none. *)
From S2P Require Import Prelude Json Shared Deadlines Repos RunService RunServiceProps.

Inductive Phase : Type := admitted (sessionId : string) | accepted (sessionId : string) | over.

Record Spec := { owner : gmap string string; phase : gmap string Phase }.

Inductive spec_step : Spec -> Spec -> Prop :=
| spec_admission r sid x :
    owner x !! sid = None -> phase x !! r = None ->
    spec_step x {| owner := <[sid := r]> (owner x); phase := <[r := admitted sid]> (phase x) |}
| spec_accept r sid x :
    phase x !! r = Some (admitted sid) ->
    spec_step x {| owner := owner x; phase := <[r := accepted sid]> (phase x) |}
| spec_end r sid x :
    phase x !! r = Some (admitted sid) \/ phase x !! r = Some (accepted sid) -> owner x !! sid = Some r ->
    spec_step x {| owner := delete sid (owner x); phase := <[r := over]> (phase x) |}.

(** *** The service's state, seen as the specification's *)

Definition phase_of (t : Task) : Phase :=
  if live t then (if prepared t then accepted (t_session t) else admitted (t_session t)) else over.

Definition abstract (s : Service) : Spec :=
  {| owner := SessionLock.locks (sessionLock s); phase := phase_of <$> tasks s |}.

Definition simulates (s s' : Service) : Prop := abstract s' = abstract s \/ spec_step (abstract s) (abstract s').

Lemma abstract_set_task r t t' s :
  tasks s !! r = Some t -> phase_of t' = phase_of t -> abstract (set_task r t' s) = abstract s.
Proof.
  intros Ht Hp. unfold abstract. simpl. f_equal. rewrite fmap_insert, Hp. apply insert_id.
  by rewrite lookup_fmap, Ht.
Qed.

Lemma abstract_free r t t' s :
  inv s -> tasks s !! r = Some t -> live t = true -> live t' = false ->
  spec_step (abstract s) (abstract (free (t_session t) r (set_task r t' s))).
Proof.
  intros Hi Ht Hl Hl'. assert (Hlock : SessionLock.locks (sessionLock s) !! t_session t = Some r).
  { apply (inv_lock _ Hi). by exists t. }
  assert (E : abstract (free (t_session t) r (set_task r t' s)) =
    {| owner := delete (t_session t) (owner (abstract s)); phase := <[r := over]> (phase (abstract s)) |}).
  { unfold abstract. simpl. f_equal.
    - unfold SessionLock.release. rewrite Hlock. by rewrite String.eqb_refl.
    - rewrite fmap_insert. unfold phase_of at 1. by rewrite Hl'. }
  rewrite E. apply (spec_end r (t_session t)); [|done]. simpl. rewrite lookup_fmap, Ht. simpl.
  unfold phase_of. rewrite Hl. destruct (prepared t); auto.
Qed.

Lemma simulates_move r t t' db s :
  tasks s !! r = Some t -> live t' = live t -> prepared t' = prepared t -> t_session t' = t_session t ->
  simulates s (with_db db (set_task r t' s)).
Proof.
  intros Ht Hl Hp Hs. left. change (abstract (with_db db ?x)) with (abstract x).
  rewrite (abstract_set_task r t); [done|done|]. unfold phase_of. by rewrite Hl, Hp, Hs.
Qed.

Lemma simulates_end_drive r t0 t s0 s :
  inv s -> tasks s !! r = Some t0 -> live t0 = true -> t_session t = t_session t0 ->
  abstract s = abstract s0 -> simulates s0 (end_drive r t s).
Proof.
  intros Hi Ht Hl Hs E. right. rewrite <- E. unfold end_drive. rewrite Hs.
  by apply abstract_free.
Qed.

Lemma simulates_finally r t0 t s :
  inv s -> tasks s !! r = Some t0 -> live t0 = true -> prepared t0 = true -> t_session t = t_session t0 ->
  simulates s (drive_finally r t s).
Proof.
  intros Hi Ht Hl Hp Hs. unfold drive_finally. case_bool_decide.
  - left. apply (abstract_set_task r t0); [done|]. unfold phase_of. rewrite Hl, Hp. simpl. by rewrite Hs.
  - by eapply simulates_end_drive.
Qed.

Lemma simulates_setup_failed r t e s :
  inv s -> tasks s !! r = Some t -> live t = true -> simulates s (setup_failed r t e s).
Proof. intros Hi Ht Hl. right. by apply abstract_free. Qed.

Lemma simulates_resume r reply mid s s' : inv s -> resume r reply mid s = Some s' -> simulates s s'.
Proof.
  intros Hi. unfold resume. destruct (tasks s !! r) as [t|] eqn:Ht; [|done].
  destruct (t_pc t) eqn:Hpc; try done; intros [= <-];
    assert (Hl : live t = true) by (unfold live; by rewrite Hpc);
    assert (Hp := eq_refl (prepared t)); unfold prepared at 2 in Hp; rewrite Hpc in Hp.
  - destruct (resolveRunPrereqs _ _ _ _); [| |by apply simulates_setup_failed];
      by apply (simulates_move r t _ (s_db s)).
  - destruct reply; [by apply simulates_setup_failed|].
    destruct (runs_create _ _ _ _) as [db|]; [|by apply simulates_setup_failed].
    right. change (abstract (with_db db ?x)) with (abstract x).
    assert (E : abstract (set_task r (at_pc setup_message t) s) =
      {| owner := owner (abstract s); phase := <[r := accepted (t_session t)]> (phase (abstract s)) |}).
    { unfold abstract. simpl. by rewrite fmap_insert. }
    rewrite E. apply spec_accept. simpl. rewrite lookup_fmap, Ht. simpl. unfold phase_of. by rewrite Hl, Hp.
  - destruct reply; [by apply simulates_setup_failed|].
    destruct (messages_create _ _) as [db|]; [|by apply simulates_setup_failed].
    apply (simulates_move r t); try done; [rewrite Hl|rewrite Hp|]; by destruct (t_streaming t).
  - destruct (resolveRunPrereqs _ _ _ _); try by apply (simulates_move r t _ (s_db s)).
    by apply (simulates_finally r t).
  - set (s0 := match reply with Some _ => s | None => _ end).
    assert (Hi0 : inv s0).
    { subst s0. destruct reply; [done|]. by apply inv_with_db. }
    apply (simulates_end_drive r t); [by apply inv_uncancel|by subst s0; destruct reply|done|done|].
    subst s0. by destruct reply.
Qed.

Lemma service_simulates db s s' : reachable db s -> step s s' -> simulates s s'.
Proof.
  intros Hr Hs. apply inv_reachable in Hr as Hi. destruct Hs.
  - right. unfold start in H0. destruct (SessionLock.acquire _ _ _) as [l|] eqn:E; [|done]. injection H0 as <-.
    unfold SessionLock.acquire in E. destruct (SessionLock.locks (sessionLock s) !! sessionId) eqn:El; [done|].
    injection E as <-.
    unfold abstract. simpl. rewrite fmap_insert. apply (spec_admission runId sessionId (abstract s)); [done|].
    simpl. by rewrite lookup_fmap, H.
  - left. unfold requestCancel. by destruct (activeRuns s !! runId).
  - by eapply simulates_resume.
  - by left.
  - apply (simulates_finally runId t); try done; [unfold live|unfold prepared]; by rewrite H0.
Qed.

(** *** What the specification gives every execution *)

Definition spec_init : Spec := {| owner := ∅; phase := ∅ |}.

(** C12: The service refines its specification: every execution of
    it, with its calls, tasks, loops and the other processes in any order, is an
    execution of the specification. *)
Theorem service_refines_its_specification db s s' :
  reachable db s -> rtc step s s' ->
  rtc spec_step spec_init (abstract s) /\ rtc spec_step (abstract s) (abstract s').
Proof.
  intros Hr Hs. split.
  - induction Hr as [|s s1 Hr IH Hst]; [unfold abstract; simpl; rewrite fmap_empty; apply rtc_refl|].
    assert (IH' : rtc spec_step spec_init (abstract s)) by (apply IH; eapply rtc_l; [exact Hst|exact Hs]).
    destruct (service_simulates db s s1 Hr Hst) as [->|H]; [done|]. by eapply rtc_r.
  - induction Hs as [s|s s1 s2 Hst _ IH]; [done|].
    assert (IH' : rtc spec_step (abstract s1) (abstract s2)) by by apply IH, (reach_step db s).
    destruct (service_simulates db s s1 Hr Hst) as [E|H]; [by rewrite E in IH'|by eapply rtc_l].
Qed.

Lemma serves_rtc cs s s' : serves cs s = Some s' -> rtc step s s'.
Proof.
  revert s. induction cs as [|c cs IH]; intros s; simpl; [by intros [= <-]|].
  destruct (serve c s) as [s1|] eqn:E; [|done]. intros H. eapply rtc_l; [by eapply serve_step|by apply IH].
Qed.

(** A run admitted, accepted and cancelled: the specification frees the session. *)
Lemma service_refines_its_specification_witness :
  abstract drained = {| owner := ∅; phase := {["run_1" := over]} |} /\ rtc spec_step spec_init (abstract svc0) /\ rtc spec_step (abstract svc0) (abstract busy).
Proof.
  split; [vm_compute; reflexivity|].
  apply (service_refines_its_specification svc_db svc0 busy); [apply reach_init|].
  apply (serves_rtc (up_to_loop false)). vm_compute. reflexivity.
Defined.

(** Over is over: the specification never runs a run again. *)
Lemma spec_over x x' r : rtc spec_step x x' -> phase x !! r = Some over -> phase x' !! r = Some over.
Proof.
  induction 1 as [x|x y z Hs _ IH]; [done|]. intros H. apply IH.
  destruct Hs; simpl; rewrite lookup_insert; case_decide; subst; try done; congruence.
Qed.
