(* ===== verification/Engine.v ===== *)
(** The engine (packages/runtime/src/engine.ts) around one run of the loop:
    the prerequisites, the total deadline and the merged abort signal of a
    prepared run, and the entry that locks the session itself.

    The awaits of the prerequisites are an oracle: how long each takes, whether
    it fails, and what the other processes did to the database meanwhile. *)
From S2P Require Import Prelude Json Shared Deadlines Context Tools Models Repos Effects Loop RunService.

Record Awaits := {
  aw_took : nat -> N;
  aw_reply : nat -> option error;
  aw_db : nat -> Db -> Db }.

Section engine.
Context {P : Type} (outside : Outside P) (awaits : Awaits).
Context (ajv_compile : json -> res string ValidateFunction).
Context (registry : ProviderRegistry P) (penv : string -> option string).
Context (options : AgentEngineOptions).

(** [await resolveRunPrereqs(...)]: the agent or what is thrown, the instant
    and the database; [None] when the fuel is spent. *)
Fixpoint await_prereqs (fuel n : nat) (sessionId : string) (p : prereq) (t : Z) (db : Db) :
    option (res error AgentRecord * Z * Db) :=
  match fuel with
  | O => None
  | S fuel =>
      let t := (t + Z.of_N (aw_took awaits n))%Z in
      let db := aw_db awaits n db in
      match resolveRunPrereqs sessionId p (aw_reply awaits n) db with
      | prereq_next p => await_prereqs fuel (S n) sessionId p t db
      | prereq_done agent => Some (Ok agent, t, db)
      | prereq_throw e => Some (Err e, t, db)
      end
  end.

(** Three awaits: the session, the agent, the executor. *)
Definition prereqs (sessionId : string) (t : Z) (db : Db) : res error AgentRecord * Z * Db :=
  await_prereqs 3 0 sessionId await_session t db ?? (Err (PlainError "" ""), t, db).

Definition run_ctx (sessionId runId : string) (agent : AgentRecord) (signal : Signal) : RunContext :=
  {| ctx_sessionId := sessionId; ctx_runId := runId; ctx_agentConfig := agent;
     ctx_abortSignal := signal; ctx_iterationCount := 0 |}.

(** The deadline is armed once the prerequisites are there; the [finally]
    clears its timer, which nothing looks at any more. *)
Definition prepared_signal (signal : Signal) (t : Z) : Signal :=
  any signal (createDeadlineController (o_totalRunMs options) t).

Definition executePreparedRun (runId sessionId userMessage userMessageId : string) (signal : Signal)
    (t : Z) (db : Db) : outcome error unit * LoopState :=
  let '(r, t, db) := prereqs sessionId t db in
  match r with
  | Err e => (Throw e, init_state t db 0)
  | Ok agent =>
      runAgentLoop outside ajv_compile registry penv
        (run_ctx sessionId runId agent (prepared_signal signal t)) userMessage options
        (Some userMessageId) (init_state t db 0)
  end.

(** [AgentEngine.run]: nothing aborts the lock's own controller, so the merged
    signal is the caller's; [meanwhile] is what other calls do to the locks. *)
Definition run (runId sessionId userMessage : string) (signal : Signal) (t : Z) (db : Db)
    (meanwhile : SessionLock.SessionLock -> SessionLock.SessionLock) (l : SessionLock.SessionLock) :
    outcome error unit * LoopState * SessionLock.SessionLock :=
  match SessionLock.acquire sessionId runId l with
  | Err e => (Throw e, init_state t db 0, l)
  | Ok l =>
      let '(r, t, db) := prereqs sessionId t db in
      (match r with
       | Err e => (Throw e, init_state t db 0)
       | Ok agent =>
           runAgentLoop outside ajv_compile registry penv (run_ctx sessionId runId agent (any signal None))
             userMessage options None (init_state t db 0)
       end, SessionLock.release sessionId runId (meanwhile l))
  end.
End engine.

(** [drive]: the signal of the caller of [start], if any, and the run's own. *)
Definition drive_signal (opts_signal abort : Signal) : Signal := any opts_signal abort.
