(* ===== verification/EngineProps.v ===== *)
(** What the engine promises of a prepared run: it ends with a cause that did
    occur, and its requests carry its total deadline. *)
From S2P Require Import Prelude Json Shared Deadlines Context Tools Models Repos Effects Loop LoopFacts LoopInvariants LoopProps RunService Engine.
Local Open Scope eff_scope.

(** The prerequisites always settle within their three awaits. *)
Lemma prereqs_settle awaits sid t db :
  is_Some (await_prereqs awaits 3 0 sid await_session t db).
Proof.
  cbn [await_prereqs]. unfold resolveRunPrereqs. repeat (case_match; simplify_eq; try by eexists).
Qed.

Lemma await_later awaits fuel n sid p t db r t' db' :
  await_prereqs awaits fuel n sid p t db = Some (r, t', db') -> (t <= t')%Z.
Proof.
  revert n p t db. induction fuel as [|fuel IH]; intros n p t db; cbn; [done|].
  destruct (resolveRunPrereqs _ _ _ _); [intros H%IH; lia|by intros [= <- <- <-]; lia..].
Qed.

Lemma prereqs_later awaits sid t db : (t <= (prereqs awaits sid t db).1.2)%Z.
Proof.
  unfold prereqs. destruct (await_prereqs _ _ _ _ _ _ _) as [[[r t'] db']|] eqn:E; [|simpl; lia].
  simpl. by eapply await_later.
Qed.

(** ** Requests *)
Section requests.
Context {P : Type} (outside : Outside P).
Context (ajv_compile : json -> res string ValidateFunction).
Context (registry : ProviderRegistry P) (penv : string -> option string).
Context (ctx : RunContext) (userContent : string) (options : AgentEngineOptions).
Context (prepared : option string).

(** A request's signal is the one of a model call. *)
Definition call_signal (q : ModelRequest) : Prop :=
  exists start, mr_signal q = model_signal ctx options start.

Definition keeps_signals (s s' : LoopState) : Prop :=
  Forall call_signal (l_requests s) -> Forall call_signal (l_requests s').

#[local] Instance keeps_signals_refl : Reflexive keeps_signals.
Proof. intros a. exact id. Qed.
#[local] Instance keeps_signals_trans : Transitive keeps_signals.
Proof. intros a b c. unfold keeps_signals. auto. Qed.

Ltac signals_leaf := intros; open_statement; intros Hs; exact Hs.

Lemma signals_model_call id pr m ms : moves keeps_signals (model_call outside ctx options id pr m ms).
Proof.
  unfold model_call.
  repeat first [ apply (whole_consume outside ctx keeps_signals); first [typeclasses eauto | signals_leaf]
               | walk ltac:(first [ signals_leaf
                   | intros Hs; simpl; apply Forall_app; split; [exact Hs|constructor; [by eexists|constructor]]]) ].
Qed.

Lemma signals_run :
  moves keeps_signals (runAgentLoop outside ajv_compile registry penv ctx userContent options prepared).
Proof.
  apply whole_run; try typeclasses eauto; try exact signals_model_call; try signals_leaf;
    [|walk ltac:(signals_leaf)].
  intros p. unfold tool_step. walk ltac:(signals_leaf).
Qed.
End requests.

(** ** Signals *)

Lemma any_one a b : any a b = a \/ any a b = b.
Proof. destruct a as [[t r]|], b as [[t' r']|]; simpl; try case_match; auto. Qed.

Lemma armed_fires scope ms start t f :
  timeoutReason (armController scope ms start) t = Some f ->
  exists m, ms = Some m /\ (0 < m)%Z /\ (start + m <= t)%Z.
Proof.
  destruct ms as [m|]; simpl; [|done]. unfold timeoutReason. destruct (Z.leb_spec m 0); [done|]. simpl.
  destruct (Z.leb_spec (start + m) t); [|done]. intros _. by exists m.
Qed.

Lemma armed_aborted scope m start : (0 < m)%Z -> aborted (armController scope (Some m) start) (start + m) = true.
Proof.
  intros Hm. simpl. rewrite (proj2 (Z.leb_gt m 0) Hm). unfold aborted. simpl. by rewrite Z.leb_refl.
Qed.

(** A call's deadline is armed later than the run's: what it reports is the
    caller's, the run's, or its own. *)
Lemma derived_fires base scope ms start t f :
  timeoutReason (deriveCallDeadline base scope ms start) t = Some f ->
  timeoutReason base t = Some f \/ exists m, ms = Some m /\ (0 < m)%Z /\ (start + m <= t)%Z.
Proof.
  unfold deriveCallDeadline. destruct (unset ms); [by left|].
  destruct (any_one base (armController scope ms start)) as [->| ->]; [by left|].
  intros H%armed_fires. by right.
Qed.

Definition timeout_of (options : AgentEngineOptions) (scope : DeadlineScope) : option Z :=
  match scope with
  | model_scope => o_modelTimeoutMs options
  | tool_scope => o_toolTimeoutMs options
  | total_scope => o_totalRunMs options
  end.

Section prepared.
Context {P : Type} (outside : Outside P) (awaits : Awaits).
Context (ajv_compile : json -> res string ValidateFunction).
Context (registry : ProviderRegistry P) (penv : string -> option string).
Context (options : AgentEngineOptions) (runId sessionId userMessage userMessageId : string).
Context (signal : Signal) (now : Z) (db : Db).

Definition ended : outcome error unit * LoopState :=
  executePreparedRun outside awaits ajv_compile registry penv options runId sessionId userMessage userMessageId
    signal now db.

(** C33: a prepared run that says it was cancelled was aborted by its caller, and
    one that says it timed out has outlasted a deadline that is configured: of
    the run, of a model call or of a tool call. *)
Theorem interruption_has_elapsed es e :
  (forall t, timeoutReason signal t = None) ->
  ended.1 = Ret tt -> l_events ended.2 = es ++ [e] ->
  (announced e = Some cancelled -> exists t, (t <= l_clock ended.2)%Z /\ aborted signal t = true) /\
  (announced e = Some timed_out -> exists scope ms, timeout_of options scope = Some ms /\ (0 < ms)%Z /\
     (now + ms <= l_clock ended.2)%Z).
Proof.
  intros Hs. unfold ended, executePreparedRun. pose proof (prereqs_later awaits sessionId now db) as Hnow.
  destruct (prereqs awaits sessionId now db) as [[[agent|x] t0] db0]; [|done]. simpl in Hnow.
  set (ctx := run_ctx _ _ _ _). intros He Hes.
  pose proof (run_cause outside ajv_compile registry penv ctx userMessage options (Some userMessageId) t0
    (init_state t0 db0 0) (conj (Z.le_refl t0) eq_refl)) as H. rewrite He in H.
  destruct (H es e Hes) as [H1 H2]. clear H. split.
  - intros Ha. destruct (H1 Ha) as (t & r & Ht & Hr & Hn). exists t. split; [done|].
    simpl in Hr, Hn. unfold prepared_signal in Hr, Hn.
    destruct (any_one signal (createDeadlineController (o_totalRunMs options) t0)) as [E|E]; rewrite E in Hr, Hn.
    + unfold aborted. by rewrite Hr.
    + unfold createDeadlineController, armController in Hr, Hn. destruct (o_totalRunMs options); [|done].
      destruct (unset _); [done|]. unfold timeoutReason in Hn. rewrite Hr in Hn. simpl in Hr.
      destruct (Z.leb _ _); [by injection Hr as <-|done].
  - intros Ha. destruct (H2 Ha) as (f & scope & start & t & Hst & Ht & Hf).
    apply derived_fires in Hf as [Hf|(m & Hm & Hpos & Hle)].
    + exists total_scope. simpl in Hf. unfold prepared_signal in Hf.
      destruct (any_one signal (createDeadlineController (o_totalRunMs options) t0)) as [E|E]; rewrite E in Hf;
        [by rewrite Hs in Hf|]. apply armed_fires in Hf as (m & Hm & Hpos & Hle).
      exists m. split_and!; [done|done|lia].
    + exists scope, m. split_and!; [by destruct scope|done|lia].
Qed.

(** Every request that a prepared run gives to its provider carries a
    signal that aborts, at the latest, when the total deadline has elapsed since
    the prerequisites were there, and whenever the caller's does. *)
Theorem requests_carry_the_deadline q m :
  o_totalRunMs options = Some m -> (0 < m)%Z -> q ∈ l_requests ended.2 ->
  aborted (mr_signal q) ((prereqs awaits sessionId now db).1.2 + m) = true /\
  forall t, aborted signal t = true -> aborted (mr_signal q) t = true.
Proof.
  intros Hm Hpos. unfold ended, executePreparedRun.
  destruct (prereqs awaits sessionId now db) as [[[agent|x] t0] db0]; simpl; [|by intros ?%elem_of_nil].
  set (ctx := run_ctx _ _ _ _). intros Hq.
  pose proof (signals_run outside ajv_compile registry penv ctx userMessage options (Some userMessageId)
    (init_state t0 db0 0) (Forall_nil_2 _)) as H. rewrite Forall_forall in H.
  destruct (H q Hq) as [start E]. clear H. rewrite E.
  assert (Hd : forall t, aborted (ctx_abortSignal ctx) t = true -> aborted (model_signal ctx options start) t = true).
  { intros t Ht. unfold model_signal, deriveCallDeadline. destruct (unset _); [done|]. by rewrite any_aborted, Ht. }
  split; [|intros t Ht]; apply Hd; simpl; unfold prepared_signal; rewrite any_aborted.
  - unfold createDeadlineController. rewrite Hm, armed_aborted by done. by rewrite orb_true_r.
  - by rewrite Ht.
Qed.
End prepared.

(** ** A prepared run of the demonstration agent *)

Definition demo_awaits : Awaits :=
  {| aw_took := fun _ => 3%N; aw_reply := fun _ => None; aw_db := fun _ db => db |}.

Definition deadline_options : AgentEngineOptions :=
  {| o_maxToolIterations := None; o_toolTimeoutMs := None; o_modelTimeoutMs := None;
     o_totalRunMs := Some 5%Z; o_memoryStrategy := None; o_lastN := None |}.

Definition demo_ended : outcome error unit * LoopState :=
  ended (demo_outside false) demo_awaits accept_all demo_registry (fun _ => None) deadline_options
    "run_1" "ses_1" "" "msg_user" None 0 demo_prepared_db.

Lemma interruption_has_elapsed_witness :
  announced <$> last (l_events demo_ended.2) = Some (Some timed_out) /\
  exists scope ms, timeout_of deadline_options scope = Some ms /\ (0 < ms)%Z /\ (0 + ms <= l_clock demo_ended.2)%Z.
Proof.
  split; [vm_compute; reflexivity|].
  refine (proj2 (interruption_has_elapsed (demo_outside false) demo_awaits accept_all demo_registry (fun _ => None)
    deadline_options "run_1" "ses_1" "" "msg_user" None 0 demo_prepared_db
    (removelast (l_events demo_ended.2)) (List.last (l_events demo_ended.2) (token "" "" "" "")) _ _ _) _);
    [done|vm_compute; reflexivity..].
Defined.

Lemma requests_carry_the_deadline_witness :
  exists q, l_requests demo_ended.2 = [q] /\ aborted (mr_signal q) 14 = true.
Proof.
  eexists. split; [vm_compute; reflexivity|].
  refine (proj1 (requests_carry_the_deadline (demo_outside false) demo_awaits accept_all demo_registry (fun _ => None)
    deadline_options "run_1" "ses_1" "" "msg_user" None 0 demo_prepared_db _ 5%Z _ _ _));
    [reflexivity|lia|vm_compute; left].
Defined.
