(* ===== verification/Store.v ===== *)
(** The tables that the API reads and writes (packages/db/src/schema and the
    repositories agent-repo.ts, session-repo.ts, run-repo.ts, message-repo.ts,
    tool-call-repo.ts, api-key-repo.ts, workspace-repo.ts, user-repo.ts,
    user-workspace-repo.ts, trace-repo.ts), around the run service and its
    tables.  Timestamps are instants in milliseconds. *)
From S2P Require Import Prelude Json Shared Observability Repos RunService.

(** ** Rows *)

Record ApiKeyRecord := {
  ak_apiKeyId : string; ak_workspaceId : string; ak_keyHash : string; ak_name : string;
  ak_createdAt : Z; ak_revokedAt : option Z }.

Record WorkspaceRecord := { ws_workspaceId : string; ws_name : string; ws_createdAt : Z }.

Record UserRecord := { usr_userId : string; usr_cognitoSub : string; usr_email : string }.

Record UserWorkspaceRecord := { uw_userId : string; uw_workspaceId : string; uw_role : string }.

(** ** The store *)

(** [st_agentTimes] has an agent's [createdAt] and [updatedAt], [st_metadata] a
    session's metadata. *)
Record Store := {
  st_svc : Service;
  st_agentTimes : gmap string (Z * Z);
  st_metadata : gmap string json;
  st_keys : list ApiKeyRecord;
  st_workspaces : gmap string WorkspaceRecord;
  st_users : list UserRecord;
  st_members : list UserWorkspaceRecord;
  st_traces : gmap string TraceRecord;
  st_spans : list SpanRecord }.

Definition st_db (s : Store) : Db := s_db (st_svc s).

Definition set_svc v s := {| st_svc := v; st_agentTimes := st_agentTimes s;
  st_metadata := st_metadata s; st_keys := st_keys s; st_workspaces := st_workspaces s;
  st_users := st_users s; st_members := st_members s; st_traces := st_traces s; st_spans := st_spans s |}.
Definition set_agentTimes t s := {| st_svc := st_svc s; st_agentTimes := t;
  st_metadata := st_metadata s; st_keys := st_keys s; st_workspaces := st_workspaces s;
  st_users := st_users s; st_members := st_members s; st_traces := st_traces s; st_spans := st_spans s |}.
Definition set_metadata m s := {| st_svc := st_svc s; st_agentTimes := st_agentTimes s;
  st_metadata := m; st_keys := st_keys s; st_workspaces := st_workspaces s;
  st_users := st_users s; st_members := st_members s; st_traces := st_traces s; st_spans := st_spans s |}.
Definition set_keys k s := {| st_svc := st_svc s; st_agentTimes := st_agentTimes s;
  st_metadata := st_metadata s; st_keys := k; st_workspaces := st_workspaces s;
  st_users := st_users s; st_members := st_members s; st_traces := st_traces s; st_spans := st_spans s |}.
Definition set_workspaces w s := {| st_svc := st_svc s; st_agentTimes := st_agentTimes s;
  st_metadata := st_metadata s; st_keys := st_keys s; st_workspaces := w;
  st_users := st_users s; st_members := st_members s; st_traces := st_traces s; st_spans := st_spans s |}.
Definition set_users u s := {| st_svc := st_svc s; st_agentTimes := st_agentTimes s;
  st_metadata := st_metadata s; st_keys := st_keys s; st_workspaces := st_workspaces s;
  st_users := u; st_members := st_members s; st_traces := st_traces s; st_spans := st_spans s |}.
Definition set_members m s := {| st_svc := st_svc s; st_agentTimes := st_agentTimes s;
  st_metadata := st_metadata s; st_keys := st_keys s; st_workspaces := st_workspaces s;
  st_users := st_users s; st_members := m; st_traces := st_traces s; st_spans := st_spans s |}.
Definition set_traces t sp s := {| st_svc := st_svc s; st_agentTimes := st_agentTimes s;
  st_metadata := st_metadata s; st_keys := st_keys s; st_workspaces := st_workspaces s;
  st_users := st_users s; st_members := st_members s; st_traces := t; st_spans := sp |}.

Definition set_db (db : Db) (s : Store) : Store := set_svc (with_db db (st_svc s)) s.

Definition set_agents (db : Db) (ags : gmap string AgentRecord) : Db :=
  {| db_sessions := db_sessions db; db_agents := ags; db_runs := db_runs db;
     db_messages := db_messages db; db_toolCalls := db_toolCalls db |}.

(** ** agents (agent-repo.ts) *)

Definition named (workspaceId name : string) (a : AgentRecord) : bool :=
  String.eqb (ag_workspaceId a) workspaceId && String.eqb (ag_name a) name.

Definition agent_rows (s : Store) : list AgentRecord := (map_to_list (db_agents (st_db s))).*2.

(** The rows of a workspace; without an order the database may give any. *)
Definition agents_getByWorkspaceId (workspaceId : string) (s : Store) : list AgentRecord :=
  List.filter (fun a => String.eqb (ag_workspaceId a) workspaceId) (agent_rows s).

Definition agents_getByName (workspaceId name : string) (s : Store) : option AgentRecord :=
  head (List.filter (named workspaceId name) (agent_rows s)).

(** The primary key, the workspace's foreign key and the unique index on
    workspace and name. *)
Definition agents_create (a : AgentRecord) (now : Z) (s : Store) : res error Store :=
  if bool_decide (is_Some (db_agents (st_db s) !! ag_agentId a))
  then Err (constraint_error "agents_pkey")
  else if negb (bool_decide (is_Some (st_workspaces s !! ag_workspaceId a)))
  then Err (constraint_error "agents_workspace_id_workspaces_workspace_id_fk")
  else if existsb (named (ag_workspaceId a) (ag_name a)) (agent_rows s)
  then Err (constraint_error "agents_workspace_id_name_idx")
  else Ok (set_agentTimes (<[ag_agentId a := (now, now)]> (st_agentTimes s))
             (set_db (set_agents (st_db s) (<[ag_agentId a := a]> (db_agents (st_db s)))) s)).

(** The columns that a registration updates. *)
Definition agents_update (agentId : string) (f : AgentRecord -> AgentRecord) (now : Z) (s : Store) :
    option AgentRecord * Store :=
  match db_agents (st_db s) !! agentId with
  | Some a =>
      (Some (f a),
       set_agentTimes (<[agentId := (match st_agentTimes s !! agentId with Some t => t.1 | None => now end, now)]>
                         (st_agentTimes s))
         (set_db (set_agents (st_db s) (<[agentId := f a]> (db_agents (st_db s)))) s))
  | None => (None, s)
  end.

(** ** sessions (session-repo.ts) *)

Definition sessions_create (x : SessionRecord) (metadata : json) (s : Store) : res error Store :=
  if bool_decide (is_Some (db_sessions (st_db s) !! ses_sessionId x))
  then Err (constraint_error "sessions_pkey")
  else if negb (bool_decide (is_Some (db_agents (st_db s) !! ses_agentId x)))
  then Err (constraint_error "sessions_agent_id_agents_agent_id_fk")
  else Ok (set_metadata (<[ses_sessionId x := metadata]> (st_metadata s))
             (set_db (set_sessions (st_db s) (<[ses_sessionId x := x]> (db_sessions (st_db s)))) s)).

Definition sessions_updateStatus (sessionId : string) (status : SessionStatus) (s : Store) :
    option SessionRecord * Store :=
  match db_sessions (st_db s) !! sessionId with
  | Some x =>
      let x := {| ses_sessionId := ses_sessionId x; ses_agentId := ses_agentId x;
                  ses_userId := ses_userId x; ses_status := status |} in
      (Some x, set_db (set_sessions (st_db s) (<[sessionId := x]> (db_sessions (st_db s)))) s)
  | None => (None, s)
  end.

(** ** tool calls (tool-call-repo.ts) *)

Definition toolCalls_listByRun (runId : string) (s : Store) : list ToolCallRecord :=
  List.filter (fun c => String.eqb (tcr_runId c) runId) ((map_to_list (db_toolCalls (st_db s))).*2).

(** ** keys (api-key-repo.ts) *)

Definition keys_create (k : ApiKeyRecord) (s : Store) : res error Store :=
  if existsb (fun x => String.eqb (ak_apiKeyId x) (ak_apiKeyId k)) (st_keys s)
  then Err (constraint_error "api_keys_pkey")
  else if negb (bool_decide (is_Some (st_workspaces s !! ak_workspaceId k)))
  then Err (constraint_error "api_keys_workspace_id_workspaces_workspace_id_fk")
  else Ok (set_keys (st_keys s ++ [k]) s).

Definition keys_getByKeyHash (keyHash : string) (s : Store) : option ApiKeyRecord :=
  List.find (fun k => String.eqb (ak_keyHash k) keyHash) (st_keys s).

Definition keys_listByWorkspace (workspaceId : string) (s : Store) : list ApiKeyRecord :=
  List.filter (fun k => String.eqb (ak_workspaceId k) workspaceId) (st_keys s).

Definition revoked_at (now : Z) (k : ApiKeyRecord) : ApiKeyRecord :=
  {| ak_apiKeyId := ak_apiKeyId k; ak_workspaceId := ak_workspaceId k; ak_keyHash := ak_keyHash k;
     ak_name := ak_name k; ak_createdAt := ak_createdAt k; ak_revokedAt := Some now |}.

Definition keys_revoke (apiKeyId : string) (now : Z) (s : Store) : option ApiKeyRecord * Store :=
  let mine k := String.eqb (ak_apiKeyId k) apiKeyId in
  (revoked_at now <$> List.find mine (st_keys s),
   set_keys (map (fun k => if mine k then revoked_at now k else k) (st_keys s)) s).

(** ** workspaces, users, memberships *)

Definition workspaces_create (w : WorkspaceRecord) (s : Store) : res error Store :=
  if bool_decide (is_Some (st_workspaces s !! ws_workspaceId w))
  then Err (constraint_error "workspaces_pkey")
  else Ok (set_workspaces (<[ws_workspaceId w := w]> (st_workspaces s)) s).

Definition users_getByCognitoSub (sub : string) (s : Store) : option UserRecord :=
  List.find (fun u => String.eqb (usr_cognitoSub u) sub) (st_users s).

Definition users_create (u : UserRecord) (s : Store) : res error Store :=
  if existsb (fun x => String.eqb (usr_userId x) (usr_userId u)
                       || String.eqb (usr_cognitoSub x) (usr_cognitoSub u)) (st_users s)
  then Err (constraint_error "users_cognito_sub_unique")
  else Ok (set_users (st_users s ++ [u]) s).

Definition members_isMember (userId workspaceId : string) (s : Store) : bool :=
  existsb (fun m => String.eqb (uw_userId m) userId && String.eqb (uw_workspaceId m) workspaceId)
    (st_members s).

Definition members_listByUserId (userId : string) (s : Store) : list UserWorkspaceRecord :=
  List.filter (fun m => String.eqb (uw_userId m) userId) (st_members s).

Definition members_create (m : UserWorkspaceRecord) (s : Store) : res error Store :=
  if members_isMember (uw_userId m) (uw_workspaceId m) s
  then Err (constraint_error "user_workspaces_user_id_workspace_id_pk")
  else if negb (existsb (fun u => String.eqb (usr_userId u) (uw_userId m)) (st_users s))
  then Err (constraint_error "user_workspaces_user_id_users_user_id_fk")
  else if negb (bool_decide (is_Some (st_workspaces s !! uw_workspaceId m)))
  then Err (constraint_error "user_workspaces_workspace_id_workspaces_workspace_id_fk")
  else Ok (set_members (st_members s ++ [m]) s).

(** ** traces (trace-repo.ts) *)

Definition traces_getTraceById (traceId : string) (s : Store) : option TraceRecord := st_traces s !! traceId.

Definition traces_getTraceByRunId (runId : string) (s : Store) : option TraceRecord :=
  head (List.filter (fun t => String.eqb (tr_runId t) runId) ((map_to_list (st_traces s)).*2)).

(** [ORDER BY started_at]: the rows keep the order they start in. *)
Definition starts_before (a b : SpanRecord) : Prop := (sr_startedAt a <= sr_startedAt b)%Z.

#[export] Instance starts_before_dec : RelDecision starts_before.
Proof. intros a b. unfold starts_before. apply _. Defined.

Definition traces_listSpansByTraceId (traceId : string) (s : Store) : list SpanRecord :=
  merge_sort starts_before (List.filter (fun x => String.eqb (sr_traceId x) traceId) (st_spans s)).

(** A span's id is new, in the table and among the spans before it, and its
    trace exists. *)
Fixpoint insert_spans (spans : list SpanRecord) (s : Store) : res error Store :=
  match spans with
  | [] => Ok s
  | x :: spans =>
      if existsb (fun y => String.eqb (sr_spanId y) (sr_spanId x)) (st_spans s)
      then Err (constraint_error "trace_spans_pkey")
      else if negb (bool_decide (is_Some (st_traces s !! sr_traceId x)))
      then Err (constraint_error "trace_spans_trace_id_traces_trace_id_fk")
      else insert_spans spans (set_traces (st_traces s) (st_spans s ++ [x]) s)
  end.

(** One transaction: the trace with all its spans, or nothing. *)
Definition traces_saveTraceWithSpans (t : TraceRecord) (spans : list SpanRecord) (s : Store) :
    res error Store :=
  if bool_decide (is_Some (st_traces s !! tr_traceId t)) then Err (constraint_error "traces_pkey")
  else if bool_decide (is_Some (traces_getTraceByRunId (tr_runId t) s))
  then Err (constraint_error "traces_run_id_idx")
  else if negb (bool_decide (is_Some (db_runs (st_db s) !! tr_runId t)))
  then Err (constraint_error "traces_run_id_runs_run_id_fk")
  else insert_spans spans (set_traces (<[tr_traceId t := t]> (st_traces s)) (st_spans s) s).
