(* ===== verification/Dto.v ===== *)
(** What the REST API reads from a request and writes in a response
    (packages/api/src/types.ts, and the schemas of packages/shared that it
    uses).  A schema is a function to [option]: [None] is a [ZodError].

    Whether a text is a URL, and where a literal with a fraction lies, are
    arguments. *)
From S2P Require Import Prelude Json Shared Observability.

(** [z.string().min(1)]. *)
Definition nonempty_string (k : string) (v : json) : option string :=
  s ← str_field k v; guard_opt (negb (String.eqb s "")) (Some s).

(** [schema.optional()]: a missing member, or one that the schema accepts. *)
Definition optional {A} (schema : json -> option A) (k : string) (v : json) : option (option A) :=
  match field k v with
  | None => Some None
  | Some x => Some <$> schema x
  end.

(** [z.record(z.string(), z.unknown())]. *)
Definition record_schema (v : json) : option json := guard_opt (is_obj v) (Some v).

(** [z.array(schema)]. *)
Fixpoint all_of {A} (schema : json -> option A) (vs : list json) : option (list A) :=
  match vs with
  | [] => Some []
  | v :: vs => x ← schema v; xs ← all_of schema vs; Some (x :: xs)
  end.

Definition array_schema {A} (schema : json -> option A) (v : json) : option (list A) :=
  match v with JArr vs => all_of schema vs | _ => None end.

(** [z.number().int().positive()]. *)
Definition positive_int (v : json) : option Z :=
  match v with JNum n => guard_opt (0 <? n)%Z (Some n) | _ => None end.

Section schemas.
Context (is_url : string -> bool).              (* z.string().url() *)
Context (fraction_in_0_2 : string -> bool).     (* a literal with a fraction *)
Context (other_number : string -> option Z).    (* Number(s), where s has more than sign and digits *)

(** ** Agents (shared types/agent.ts, CreateAgentBodySchema) *)

Definition temperature_schema (v : json) : option json :=
  match v with
  | JNum n => guard_opt ((0 <=? n) && (n <=? 2))%Z (Some v)
  | JFloat lit => guard_opt (fraction_in_0_2 lit) (Some v)
  | _ => None
  end.

Definition ModelConfigSchema (v : json) : option ModelConfig :=
  guard_opt (only_keys ["model"; "temperature"; "maxTokens"] v)
    (m ← nonempty_string "model" v; t ← optional temperature_schema "temperature" v;
     k ← optional positive_int "maxTokens" v;
     Some {| mc_model := m; mc_temperature := t; mc_maxTokens := k |}).

Definition MemoryStrategySchema (v : json) : option MemoryStrategyName :=
  match v with
  | JStr s => if String.eqb s "last_n" then Some last_n
              else if String.eqb s "summary" then Some summary else None
  | _ => None
  end.

Definition MemoryConfigSchema (v : json) : option MemoryConfig :=
  guard_opt (only_keys ["strategy"; "maxMessages"] v)
    (s ← (s ← field "strategy" v; MemoryStrategySchema s);
     n ← optional positive_int "maxMessages" v;
     Some {| mem_strategy := s; mem_maxMessages := Z.to_nat <$> n |}).

Definition ToolDefinitionSchema (v : json) : option ToolDefinition :=
  guard_opt (only_keys ["name"; "description"; "inputSchema"] v)
    (n ← nonempty_string "name" v; d ← str_field "description" v;
     i ← (i ← field "inputSchema" v; record_schema i);
     Some {| tool_name := n; tool_description := d; inputSchema := i |}).

(** [z.string().url().nullable()]. *)
Definition nullable_url (v : json) : option (option string) :=
  match v with
  | JNull => Some None
  | JStr s => guard_opt (is_url s) (Some (Some s))
  | _ => None
  end.

Record CreateAgentBody := {
  ca_name : string; ca_modelConfig : ModelConfig; ca_systemPrompt : string;
  ca_memoryConfig : option MemoryConfig; ca_toolRunnerUrl : option (option string);
  ca_tools : option (list ToolDefinition) }.

Definition CreateAgentBodySchema (v : json) : option CreateAgentBody :=
  guard_opt (only_keys ["name"; "modelConfig"; "systemPrompt"; "memoryConfig"; "toolRunnerUrl"; "tools"] v)
    (n ← nonempty_string "name" v; mc ← (mc ← field "modelConfig" v; ModelConfigSchema mc);
     p ← str_field "systemPrompt" v; mem ← optional MemoryConfigSchema "memoryConfig" v;
     u ← optional nullable_url "toolRunnerUrl" v;
     ts ← optional (array_schema ToolDefinitionSchema) "tools" v;
     Some {| ca_name := n; ca_modelConfig := mc; ca_systemPrompt := p; ca_memoryConfig := mem;
             ca_toolRunnerUrl := u; ca_tools := ts |}).

(** ** Sessions, runs, messages *)

Record CreateSessionBody := {
  cs_agentName : string; cs_userId : option string; cs_metadata : option json }.

Definition nonempty_value (v : json) : option string :=
  match v with JStr s => guard_opt (negb (String.eqb s "")) (Some s) | _ => None end.

Definition CreateSessionBodySchema (v : json) : option CreateSessionBody :=
  guard_opt (only_keys ["agentName"; "userId"; "metadata"] v)
    (a ← nonempty_string "agentName" v; u ← optional nonempty_value "userId" v;
     m ← optional record_schema "metadata" v;
     Some {| cs_agentName := a; cs_userId := u; cs_metadata := m |}).

Definition session_status_schema (v : json) : option SessionStatus :=
  match v with
  | JStr s => if String.eqb s "active" then Some active
              else if String.eqb s "closed" then Some closed else None
  | _ => None
  end.

(** The status that is asked for; the metadata is checked and not used. *)
Definition PatchSessionBodySchema (v : json) : option (option SessionStatus) :=
  guard_opt (only_keys ["status"; "metadata"] v)
    (s ← optional session_status_schema "status" v; _ ← optional record_schema "metadata" v; Some s).

Definition CreateRunBodySchema (v : json) : option string :=
  guard_opt (only_keys ["content"] v) (nonempty_string "content" v).

(** [Number(s)]: the white space is trimmed, the empty text is 0. *)
Definition all_digits (t : text) : option Decimal.uint :=
  let '(u, rest) := scan_digits t in
  match rest with [] => guard_opt (nonempty u) (Some u) | _ => None end.

Definition Number (s : string) : option Z :=
  let t := trim_text (list_ascii_of_string s) in
  let '(neg, d) := match expect "-" t, expect "+" t with
                   | Some r, _ => (true, r)
                   | None, Some r => (false, r)
                   | None, None => (false, t)
                   end in
  match t with
  | [] => Some 0%Z
  | _ => match all_digits d with
         | Some u => Some (Z.of_int (if neg then Decimal.Neg u else Decimal.Pos u))
         | None => other_number s
         end
  end.

Definition DEFAULT_LIMIT : Z := 50.

Record ListMessagesQuery := { lm_limit : nat; lm_cursor : option string }.

(** A query's members are texts; one that is given twice is a list, which is
    no number and no text. *)
Definition ListMessagesQuerySchema (v : json) : option ListMessagesQuery :=
  guard_opt (only_keys ["limit"; "cursor"] v)
    (l ← match field "limit" v with
         | None => Some DEFAULT_LIMIT
         | Some (JStr s) => Number s
         | Some _ => None
         end;
     c ← optional (fun x => match x with JStr s => Some s | _ => None end) "cursor" v;
     guard_opt ((1 <=? l) && (l <=? 100))%Z (Some {| lm_limit := Z.to_nat l; lm_cursor := c |})).

(** ** Management *)

(** [z.string().min(1).max(100)] under the only key [name]. *)
Definition name_schema (v : json) : option string :=
  guard_opt (only_keys ["name"] v)
    (n ← nonempty_string "name" v; guard_opt (String.length n <=? 100)%nat (Some n)).
Definition CreateWorkspaceBodySchema : json -> option string := name_schema.
Definition CreateApiKeyBodySchema : json -> option string := name_schema.

(** ** Metrics (RunMetricsResponseSchema) *)

Definition nonnegative (o : option Z) : bool := match o with Some z => (0 <=? z)%Z | None => false end.

Definition RunMetricsResponseSchema (m : RunMetrics) : option RunMetrics :=
  guard_opt ((0 <=? m_totalModelLatencyMs m)%Z && (0 <=? m_totalToolLatencyMs m)%Z
             && nonnegative (m_totalTokens m)) (Some m).
End schemas.
