(* ===== verification/Migrate.v ===== *)
(** The migration commands (packages/db/src/snapshot.ts, migrate.ts, cli/check.ts,
    cli/status.ts, and the summary of drift-check.ts): the committed files are
    read and validated, and the live database is compared before it is touched.

    The files, the catalog's queries and drizzle's migrator are arguments.  A
    journal's indices are integers. *)
From S2P Require Import Prelude Json Shared Dto Drift DriftProps.

(** ** Schemas (snapshot.ts) *)

Definition is_str (v : json) : bool := match v with JStr _ => true | _ => false end.
Definition is_num (v : json) : bool := match v with JNum _ | JFloat _ => true | _ => false end.
Definition is_bool (v : json) : bool := match v with JBool _ => true | _ => false end.

(** An optional member whose value is not used. *)
Definition unused (p : json -> bool) (k : string) (v : json) : bool :=
  match field k v with None => true | Some x => p x end.

Definition str_value (v : json) : option string := match v with JStr s => Some s | _ => None end.

(** [z.boolean().optional().default(false)]. *)
Definition flag (k : string) (v : json) : option bool :=
  match field k v with None => Some false | Some (JBool b) => Some b | Some _ => None end.

(** [z.record(schema)], and the one that may be missing. *)
Fixpoint members_of {X} (schema : json -> option X) (ms : list (string * json)) : option (rec X) :=
  match ms with
  | [] => Some []
  | (k, v) :: ms => x ← schema v; r ← members_of schema ms; Some ((k, x) :: r)
  end.
Definition record_of {X} (schema : json -> option X) (v : json) : option (rec X) :=
  match v with JObj ms => members_of schema ms | _ => None end.
Definition record_or_empty {X} (schema : json -> option X) (k : string) (v : json) : option (rec X) :=
  match field k v with None => Some [] | Some x => record_of schema x end.

Definition strings_field (k : string) (v : json) : option (list string) :=
  x ← field k v; array_schema str_value x.

Definition JournalEntrySchema (v : json) : option JournalEntry :=
  guard_opt (unused is_str "version" v && unused is_num "when" v && unused is_bool "breakpoints" v)
    (i ← field "idx" v; t ← str_field "tag" v;
     match i with JNum i => Some {| je_idx := i; je_tag := t |} | _ => None end).

Definition JournalSchema (v : json) : option (list JournalEntry) :=
  _ ← str_field "version" v; _ ← str_field "dialect" v;
  es ← field "entries" v; array_schema JournalEntrySchema es.

Definition SnapshotIndexColumnSchema (v : json) : option SnapshotIndexColumn :=
  guard_opt (unused is_bool "asc" v && unused is_str "nulls" v)
    (e ← str_field "expression" v; x ← flag "isExpression" v;
     Some {| ic_expression := e; ic_isExpression := x |}).

Definition SnapshotIndexSchema (v : json) : option SnapshotIndex :=
  guard_opt (unused is_str "method" v)
    (n ← str_field "name" v; cs ← (cs ← field "columns" v; array_schema SnapshotIndexColumnSchema cs);
     u ← flag "isUnique" v; Some {| si_name := n; si_columns := cs; si_isUnique := u |}).

Definition SnapshotForeignKeySchema (v : json) : option SnapshotForeignKey :=
  n ← str_field "name" v; f ← str_field "tableFrom" v; t ← str_field "tableTo" v;
  cf ← strings_field "columnsFrom" v; ct ← strings_field "columnsTo" v;
  d ← optional str_value "onDelete" v; u ← optional str_value "onUpdate" v;
  Some {| sf_name := n; sf_tableFrom := f; sf_tableTo := t; sf_columnsFrom := cf; sf_columnsTo := ct;
          sf_onDelete := d; sf_onUpdate := u |}.

Definition SnapshotCompositePkSchema (v : json) : option SnapshotConstraint :=
  n ← str_field "name" v; cs ← strings_field "columns" v; Some {| sk_name := n; sk_columns := cs |}.

Definition SnapshotUniqueConstraintSchema (v : json) : option SnapshotConstraint :=
  guard_opt (unused is_bool "nullsNotDistinct" v) (SnapshotCompositePkSchema v).

Definition SnapshotEnumSchema (v : json) : option SnapshotEnum :=
  guard_opt (unused is_str "schema" v)
    (n ← str_field "name" v; vs ← strings_field "values" v; Some {| sn_name := n; sn_values := vs |}).

Section migrations.
(** The text of a file under the migrations' folder; [String] of a number that
    is written with a fraction or an exponent. *)
Context (read_file : string -> option string) (number_text : string -> string).

(** A default is a text, a number or a boolean, and becomes a text. *)
Definition default_schema (v : json) : option string :=
  match v with
  | JStr s => Some s
  | JNum _ | JBool _ => Some (to_text v)
  | JFloat lit => Some (number_text lit)
  | _ => None
  end.

Definition SnapshotColumnSchema (v : json) : option SnapshotColumn :=
  guard_opt (unused is_str "typeSchema" v)
    (n ← str_field "name" v; t ← str_field "type" v; p ← flag "primaryKey" v; nn ← flag "notNull" v;
     d ← optional default_schema "default" v;
     Some {| sc_name := n; sc_type := t; sc_primaryKey := p; sc_notNull := nn; sc_default := d |}).

Definition SnapshotTableSchema (v : json) : option SnapshotTable :=
  guard_opt (unused is_str "schema" v)
    (n ← str_field "name" v; cs ← (cs ← field "columns" v; record_of SnapshotColumnSchema cs);
     ix ← record_or_empty SnapshotIndexSchema "indexes" v;
     fk ← record_or_empty SnapshotForeignKeySchema "foreignKeys" v;
     pk ← record_or_empty SnapshotCompositePkSchema "compositePrimaryKeys" v;
     uq ← record_or_empty SnapshotUniqueConstraintSchema "uniqueConstraints" v;
     Some {| st_name := n; st_columns := cs; st_indexes := ix; st_foreignKeys := fk;
             st_compositePrimaryKeys := pk; st_uniqueConstraints := uq |}).

Definition SnapshotSchema (v : json) : option Snapshot :=
  guard_opt (unused is_str "version" v && unused is_str "dialect" v)
    (ts ← (ts ← field "tables" v; record_of SnapshotTableSchema ts);
     es ← record_or_empty SnapshotEnumSchema "enums" v;
     Some {| snap_tables := ts; snap_enums := es |}).

(** A file is read, parsed and validated. *)
Definition load {X} (schema : json -> option X) (path : string) : res error X :=
  match read_file path with
  | None => Err (PlainError "Error" ("ENOENT: no such file or directory, open '" +:+ path +:+ "'"))
  | Some raw =>
      match parse raw with
      | None => Err (PlainError "SyntaxError" "")
      | Some v => match schema v with Some x => Ok x | None => Err (PlainError "ZodError" "") end
      end
  end.

Definition loadJournal : res error (list JournalEntry) := load JournalSchema "meta/_journal.json".

Definition loadSnapshot (idx : Z) : res error Snapshot :=
  load SnapshotSchema ("meta/" +:+ padStart4 (string_of_Z idx) +:+ "_snapshot.json").

(** ** The summary (drift-check.ts) *)

Definition kind_string (k : DriftKind) : string :=
  match k with
  | k_table => "table" | k_column => "column" | k_enum => "enum" | k_index => "index"
  | k_foreignKey => "foreignKey" | k_primaryKey => "primaryKey"
  end.
Definition detail_string (d : DriftDetail) : string :=
  match d with
  | missing_in_db => "missing_in_db" | unexpected_in_db => "unexpected_in_db" | mismatch => "mismatch"
  end.

(** The keys of [byKind], in the order in which they are set. *)
Fixpoint kinds (seen : list DriftKind) (ds : list DriftDifference) : list DriftKind :=
  match ds with
  | [] => []
  | d :: ds => if bool_decide (dd_kind d ∈ seen) then kinds seen ds
               else dd_kind d :: kinds (dd_kind d :: seen) ds
  end.

Definition difference_line (d : DriftDifference) : string :=
  "  - " +:+ dd_object d +:+ ": " +:+ detail_string (dd_detail d) +:+
  match dd_expected d with Some s => " | expected: " +:+ s | None => "" end +:+
  match dd_actual d with Some s => " | live: " +:+ s | None => "" end.

Definition kind_lines (ds : list DriftDifference) (k : DriftKind) : list string :=
  "" :: (kind_string k +:+ ":") ::
  map difference_line (List.filter (fun d => bool_decide (dd_kind d = k)) ds).

Definition newline : string := String "010" "".

Definition NOT_COMPARED_DISCLAIMER : string := join newline
  ["Drift detection is STRUCTURAL only. Not compared: row data, table statistics,";
   "comments, ownership/privileges, RLS policies, triggers, functions, sequences,";
   "collations, and physical storage. Column defaults are compared leniently";
   "(representational differences are reported as informational notes, not drift)."].

Definition renderDriftSummary (r : DriftResult) : string := join newline
  ((("Drift check against expected snapshot: " +:+ dr_expectedSnapshotTag r) ::
    (if dr_hasDrift r then
       ("Result: DRIFT DETECTED — " +:+ string_of_Z (Z.of_nat (length (dr_differences r))) +:+ " difference(s).")
       :: flat_map (kind_lines (dr_differences r)) (kinds [] (dr_differences r))
     else ["Result: NO DRIFT — live schema matches the expected snapshot."])) ++
   match dr_notes r with
   | [] => []
   | notes => "" :: "Notes (informational):" :: map (fun n => "  - " +:+ n) notes
   end ++
   [""; NOT_COMPARED_DISCLAIMER]).

(** ** The commands *)

(** The queries of [introspectLiveSchema] and [queryAppliedMigrations], and the
    migrator: each may be refused. *)
Context (introspect : list string -> res error RawIntrospection).
Context (applied : res error (list AppliedRow)) (migrator : res error unit).
Context (DATABASE_URL : option string) (migrationsFolder : string).

Definition table_names (s : Snapshot) : list string := map (fun e => st_name e.2) (snap_tables s).

Definition check_drift (expectedIdx : Z) : res error DriftResult :=
  let? snapshot := loadSnapshot expectedIdx in
  let? raw := introspect (table_names snapshot) in
  Ok (checkDrift (fun _ => raw) snapshot expectedIdx).

(** What a command has printed, the status it exits with, and whether drizzle's
    migrator was called. *)
Record Exit := { ex_output : list string; ex_status : Z; ex_migrated : bool }.

Definition DRIFT_SKIP_WARNING : string :=
  "WARNING: drift check skipped via MIGRATE_SKIP_DRIFT_CHECK=1 — applying migrations against a possibly-drifted database".

Inductive Preflight : Type := proceed (output : list string) | drifted (output : list string) | failed_with (e : error).

Definition preflightDriftGuard (skip_env : option string) : Preflight :=
  match (if bool_decide (skip_env = Some "1") then Ok [] else applied) with
  | Err e => failed_with e
  | Ok appliedRows =>
      match planPreflight skip_env appliedRows with
      | skip_warned => proceed [DRIFT_SKIP_WARNING]
      | skip_virgin => proceed ["Database has no applied migrations; skipping drift preflight."]
      | check expectedIdx =>
          match check_drift expectedIdx with
          | Err e => failed_with e
          | Ok result =>
              if dr_hasDrift result
              then drifted [renderDriftSummary result;
                     "Aborting: database has drifted from the last-applied migration snapshot. No migrations applied. Set MIGRATE_SKIP_DRIFT_CHECK=1 to override."]
              else proceed []
          end
      end
  end.

Definition given (o : option string) : bool := match o with Some s => negb (String.eqb s "") | None => false end.

Definition failed_line (what : string) (e : error) : string := what +:+ " " +:+ error_message e.

(** [migrate.ts]. *)
Definition runMigrations (skip_env : option string) : Exit :=
  if given DATABASE_URL then
    match preflightDriftGuard skip_env with
    | failed_with e => {| ex_output := [failed_line "Migration failed:" e]; ex_status := 1; ex_migrated := false |}
    | drifted out => {| ex_output := out; ex_status := 1; ex_migrated := false |}
    | proceed out =>
        let out := out ++ ["Running migrations..."; "Migrations folder: " +:+ migrationsFolder] in
        match migrator with
        | Err e => {| ex_output := out ++ [failed_line "Migration failed:" e]; ex_status := 1; ex_migrated := true |}
        | Ok _ => {| ex_output := out ++ ["Migrations complete."]; ex_status := 0; ex_migrated := true |}
        end
    end
  else {| ex_output := ["DATABASE_URL environment variable is required"]; ex_status := 1; ex_migrated := false |}.

(** [db:check]: the journal's latest index. *)
Definition latestIdx (entries : list JournalEntry) : Z :=
  fold_left (fun max e => Z.max max (je_idx e)) entries 0%Z.

Definition checked_latest : res error DriftResult :=
  let? journal := loadJournal in check_drift (latestIdx journal).

Definition check_main : Exit :=
  if given DATABASE_URL then
    match checked_latest with
    | Ok result => {| ex_output := [renderDriftSummary result]; ex_status := if dr_hasDrift result then 1 else 0;
                      ex_migrated := false |}
    | Err e => {| ex_output := [failed_line "migrate check failed:" e]; ex_status := 2; ex_migrated := false |}
    end
  else {| ex_output := ["DATABASE_URL environment variable is required"]; ex_status := 2; ex_migrated := false |}.

(** [db:status], its table as the rows it shows. *)
Definition status_main : res error (list MigrationStatus) * Z :=
  if given DATABASE_URL then
    match (let? journal := loadJournal in let? rows := applied in Ok (computeMigrationStatus journal rows)) with
    | Ok rows => (Ok rows, 0%Z)
    | Err e => (Err e, 2%Z)
    end
  else (Err (PlainError "" "DATABASE_URL environment variable is required"), 2%Z).
End migrations.

(** ** What holds of the commands

    They never touch a database that has drifted, and their exit status tells
    drift from failure. *)
Section commands.
Context (read_file : string -> option string) (number_text : string -> string).
Context (introspect : list string -> res error RawIntrospection).
Context (applied : res error (list AppliedRow)) (migrator : res error unit).
Context (DATABASE_URL : option string) (migrationsFolder : string).

Abbreviation load_at := (loadSnapshot read_file number_text).

(** The live database holds the schema of a committed snapshot, or not. *)
Definition matches (idx : Z) (same : bool) : Prop :=
  exists snapshot raw, load_at idx = Ok snapshot /\ introspect (table_names snapshot) = Ok raw /\
    (if same then same_schema (projectSnapshot snapshot) (assembleLiveSchema raw)
     else ~ same_schema (projectSnapshot snapshot) (assembleLiveSchema raw)).

Lemma drift_of snapshot raw idx :
  dr_hasDrift (checkDrift (fun _ => raw) snapshot idx) = false <->
  same_schema (projectSnapshot snapshot) (assembleLiveSchema raw).
Proof.
  rewrite <- diffSchemas_nil by apply project_ok. unfold checkDrift, dr_hasDrift.
  by destruct (diffSchemas (projectSnapshot snapshot) (assembleLiveSchema raw)).
Qed.

Lemma check_drift_ok idx result :
  check_drift read_file number_text introspect idx = Ok result ->
  matches idx (negb (dr_hasDrift result)).
Proof.
  unfold check_drift. intros (snapshot & Hl & (raw & Hr & [= <-])%res_bind_ok)%res_bind_ok.
  exists snapshot, raw. split; [done|]. split; [done|].
  pose proof (drift_of snapshot raw idx) as H. destruct (dr_hasDrift _); simpl; [|by apply H].
  intros Hs. by apply H in Hs.
Qed.

Lemma matches_check idx b :
  matches idx b -> exists result, check_drift read_file number_text introspect idx = Ok result /\
    dr_hasDrift result = negb b.
Proof.
  intros (snapshot & raw & Hl & Hr & Hs). eexists. unfold check_drift. rewrite Hl. simpl. rewrite Hr. simpl.
  split; [reflexivity|]. pose proof (drift_of snapshot raw idx) as H.
  destruct b; [by apply H|]. apply not_false_iff_true. intros E. by apply Hs, H.
Qed.

(** C34: drizzle's migrator is called only when the check is switched off, when
    nothing was applied before, or when the live schema is the one of the last
    applied migration. *)
Theorem drifted_database_is_not_migrated skip_env :
  ex_migrated (runMigrations read_file number_text introspect applied migrator DATABASE_URL migrationsFolder skip_env)
    = true ->
  skip_env = Some "1" \/ applied = Ok [] \/
  exists rows, applied = Ok rows /\ matches (Z.of_nat (length rows) - 1) true.
Proof.
  unfold runMigrations. destruct (given DATABASE_URL); [|done]. unfold preflightDriftGuard, planPreflight.
  case_bool_decide as Hs; [by left|]. destruct applied as [[|r rows]|e]; [by right; left| |done].
  destruct (check_drift _ _ _ _) as [result|e] eqn:E; [|done]. destruct (dr_hasDrift result) eqn:Hd; [done|].
  intros _. right. right. exists (r :: rows). split; [done|]. apply check_drift_ok in E. by rewrite Hd in E.
Qed.

Lemma checked_ok result :
  checked_latest read_file number_text introspect = Ok result <->
  exists journal, loadJournal read_file = Ok journal /\
    check_drift read_file number_text introspect (latestIdx journal) = Ok result.
Proof. apply res_bind_ok. Qed.

(** [db:check] exits with 0 exactly when the database holds the schema of
    the journal's latest snapshot, and with 1 exactly when it could be compared
    and differs; every failure exits with 2. *)
Theorem check_status_tells_drift :
  let status := ex_status (check_main read_file number_text introspect DATABASE_URL) in
  (status = 0%Z <-> given DATABASE_URL = true /\
     exists journal, loadJournal read_file = Ok journal /\ matches (latestIdx journal) true) /\
  (status = 1%Z <-> given DATABASE_URL = true /\
     exists journal, loadJournal read_file = Ok journal /\ matches (latestIdx journal) false).
Proof.
  assert (Hm : forall b, (exists journal, loadJournal read_file = Ok journal /\ matches (latestIdx journal) b) <->
    exists result, checked_latest read_file number_text introspect = Ok result /\ dr_hasDrift result = negb b).
  { intros b. split.
    - intros (j & Hj & (result & Hc & Hd)%matches_check). exists result. split; [|done]. apply checked_ok. by exists j.
    - intros (result & (j & Hj & Hc)%checked_ok & Hd). exists j. split; [done|].
      apply check_drift_ok in Hc. by rewrite Hd, negb_involutive in Hc. }
  unfold check_main. rewrite !Hm. clear Hm.
  destruct (given DATABASE_URL); [|by split; split; intros H; [| destruct H | |destruct H]].
  destruct (checked_latest _ _ _) as [result|e]; cbn [ex_status].
  - destruct (dr_hasDrift result) eqn:E; split; split; try done; try (intros _; split; [done|by exists result]);
      intros [_ (r & [= <-] & Hr)]; simpl in Hr; congruence.
  - split; split; try done; by intros [_ (r & Hr & _)].
Qed.
End commands.

(** ** A folder with one snapshot *)

Definition quote_text (s : string) : string := on_text (map (fun c => if Ascii.eqb c "'" then DQ else c)) s.

Definition folder (path : string) : option string :=
  if String.eqb path "meta/_journal.json" then
    Some (quote_text "{'version':'7','dialect':'postgresql','entries':[{'idx':0,'tag':'0000_init'}]}")
  else if String.eqb path "meta/0000_snapshot.json" then
    Some (quote_text "{'tables':{'public.users':{'name':'users','columns':{'user_id':{'name':'user_id','type':'text','primaryKey':true,'notNull':true}}}}}")
  else None.

Definition users_rows (column : string) : RawIntrospection :=
  {| raw_tables := ["users"];
     raw_columns := [{| rc_table := "users"; rc_column := column; rc_data_type := "text"; rc_udt := "text";
                        rc_is_nullable := "NO"; rc_default := None; rc_length := None |}];
     raw_enums := []; raw_indexes := []; raw_fks := [];
     raw_pks := [{| rp_table := "users"; rp_column := column; rp_ord := 1 |}] |}.

Definition one_applied : res error (list AppliedRow) := Ok [{| ar_id := 1; ar_hash := "h"; ar_created_at := 0 |}].

Definition migrate_on (column : string) : Exit :=
  runMigrations folder id (fun _ => Ok (users_rows column)) one_applied (Ok tt) (Some "postgres://db") "drizzle" None.

Lemma drifted_database_is_not_migrated_witness :
  ex_migrated (migrate_on "id") = false /\ ex_status (migrate_on "id") = 1%Z /\
  ex_migrated (migrate_on "user_id") = true /\
  (None = Some "1" \/ one_applied = Ok [] \/
   exists rows, one_applied = Ok rows /\
     matches folder id (fun _ => Ok (users_rows "user_id")) (Z.of_nat (length rows) - 1) true).
Proof.
  do 2 (split; [vm_compute; reflexivity|]). split; [vm_compute; reflexivity|].
  apply (drifted_database_is_not_migrated folder id (fun _ => Ok (users_rows "user_id")) one_applied (Ok tt)
    (Some "postgres://db") "drizzle" None). vm_compute. reflexivity.
Defined.
