(* ===== verification/Api.v ===== *)
(** The REST API (packages/api): the API-key hook (middleware/auth.ts), the
    services (services/*.ts), the routes (routes/*.ts) and the error handler
    (middleware/error-handler.ts).

    A request is handled in one process among others: between two of its awaits
    the store moves ([others]), and any statement may be refused ([refuses]).
    The router matches a URL to a route; the hash of a key, the signature of a
    token and the random part of an id are arguments. *)
From S2P Require Import Prelude Json Shared Effects Observability Repos RunService Store Dto.

(** ** The world of a request *)

Record World := { w_store : Store; w_tick : nat; w_fresh : nat }.

(** What the request does not decide, by the number of statements made, or of
    ids minted, before it. *)
Record Peers := {
  refuses : nat -> option error;
  others : nat -> Store -> Store;
  instant : nat -> Z;
  nanoid : nat -> string }.

Definition set_store (s : Store) (w : World) : World :=
  {| w_store := s; w_tick := w_tick w; w_fresh := w_fresh w |}.

Definition A (X : Type) : Type := M World error X.

(** [ZodError], and an error with Fastify's [validation]. *)
Definition ZodError : error := PlainError "ZodError" "".
Definition FastifyValidation (message : string) : error := PlainError "FastifyValidation" message.

(** ** Requests and responses *)

Inductive ApiRoute : Type :=
| POST_agents
| GET_agent (agentId : string)
| GET_agents
| POST_sessions
| GET_session (sessionId : string)
| PATCH_session (sessionId : string)
| GET_messages (sessionId : string)
| POST_runs (sessionId : string)
| GET_run (runId : string)
| GET_tool_calls (runId : string)
| POST_cancel (runId : string)
| GET_trace (runId : string)
| GET_spans (traceId : string)
| GET_metrics (runId : string).

Inductive Route : Type := GET_health | api (r : ApiRoute).

Record Request := {
  rq_method : string; rq_url : string; rq_authorization : option string;
  rq_body : jsval; rq_query : json }.

Inductive Body : Type :=
| health_body
| agent_body (a : AgentRecord) (createdAt updatedAt : Z)
| agents_body (l : list AgentRecord)
| created_session_body (sessionId clientToken websocketUrl : string)
| session_body (x : SessionRecord)
| messages_body (data : list MessageRecord) (hasMore : bool)
| accepted_body (runId status : string)
| run_body (r : RunRecord)
| tool_calls_body (data : list ToolCallRecord)
| trace_body (t : TraceRecord) (spans : list SpanRecord)
| spans_body (data : list SpanRecord)
| metrics_body (runId traceId : string) (m : RunMetrics)
| error_body (code message : string).

Record Response := { rs_status : Z; rs_body : Body }.

Definition send (b : Body) : Response := {| rs_status := 200; rs_body := b |}.
Definition reply (status : Z) (b : Body) : Response := {| rs_status := status; rs_body := b |}.

(** ** The error handler *)

Definition errorHandler (e : error) : Response :=
  match e with
  | SwiftAgentError code message statusCode => reply statusCode (error_body (code_string code) message)
  | PlainError name message =>
      if String.eqb name "ZodError" then reply 400 (error_body "VALIDATION" "Request validation failed")
      else if String.eqb name "FastifyValidation" then reply 400 (error_body "VALIDATION" message)
      else reply 500 (error_body "INTERNAL" "Internal server error")
  end.

Definition not_found (message : string) : Response := reply 404 (error_body "NOT_FOUND" message).

Section api.
Context (P : Peers).
Context (sha256 : string -> string).
Context (is_url fraction_in_0_2 : string -> bool) (other_number : string -> option Z).
(** [jose.SignJWT(...).sign(secret)], on the token's payload. *)
Context (sign : json -> string).
Context (publicWebsocketUrl : string).
Context (match_route : string -> string -> option Route).

(** One awaited statement. *)
Definition query {X} (f : Store -> res error (X * Store)) : A X := fun w =>
  let s := others P (w_tick w) (w_store w) in
  let w' := {| w_store := s; w_tick := S (w_tick w); w_fresh := w_fresh w |} in
  match refuses P (w_tick w) with
  | Some e => (Throw e, w')
  | None =>
      match f s with
      | Ok (x, s') => (Ret x, set_store s' w')
      | Err e => (Throw e, w')
      end
  end.

Definition select {X} (f : Store -> X) : A X := query (fun s => Ok (f s, s)).

Definition mint (prefix : string) : A string := fun w =>
  (Ret (prefixedId prefix (nanoid P (w_fresh w))),
   {| w_store := w_store w; w_tick := w_tick w; w_fresh := S (w_fresh w) |}).

(** A synchronous call on the run service. *)
Definition call_service (f : Service -> res error Service) : A unit := fun w =>
  match f (st_svc (w_store w)) with
  | Ok v => (Ret tt, set_store (set_svc v (w_store w)) w)
  | Err e => (Throw e, w)
  end.

(** [await start(...)]: the store moves until the run's task has settled; a
    request whose task has not is still waiting. *)
Definition await_started (runId : string) : A unit := fun w =>
  let s := others P (w_tick w) (w_store w) in
  let w' := {| w_store := s; w_tick := S (w_tick w); w_fresh := w_fresh w |} in
  match tasks (st_svc s) !! runId with
  | Some t => match t_result t with
              | Some (Ok _) => (Ret tt, w')
              | Some (Err e) => (Throw e, w')
              | None => (Torn, w')
              end
  | None => (Torn, w')
  end.

Definition parse_body {X} (schema : json -> option X) (body : jsval) : A X :=
  match body ≫= schema with Some x => ret x | None => throw ZodError end.

Open Scope eff_scope.

(** ** The agent service (agent-service.ts) *)

Definition DEFAULT_MEMORY_CONFIG : MemoryConfig := {| mem_strategy := last_n; mem_maxMessages := Some 50%nat |}.

Definition agent_getById (workspaceId agentId : string) : A AgentRecord :=
  agent <~ select (fun s => agents_getById agentId (st_db s)) ;;
  match agent with
  | Some a =>
      if String.eqb (ag_workspaceId a) workspaceId then ret a
      else throw (swift_error NOT_FOUND ("Agent " +:+ agentId +:+ " not found"))
  | None => throw (swift_error NOT_FOUND ("Agent " +:+ agentId +:+ " not found"))
  end.

Definition agent_getByName (workspaceId name : string) : A AgentRecord :=
  agent <~ select (agents_getByName workspaceId name) ;;
  match agent with
  | Some a => ret a
  | None => throw (swift_error NOT_FOUND ("Agent " +:+ quoted name +:+ " not found"))
  end.

(** The columns of [agentRepo.update]. *)
Definition updated_agent (parsed : CreateAgentBody) (existing row : AgentRecord) : AgentRecord :=
  {| ag_agentId := ag_agentId row; ag_workspaceId := ag_workspaceId row; ag_name := ag_name row;
     ag_modelConfig := ca_modelConfig parsed; ag_systemPrompt := ca_systemPrompt parsed;
     ag_memoryConfig := match ca_memoryConfig parsed with Some m => Some m | None => ag_memoryConfig existing end;
     ag_toolRunnerUrl := match ca_toolRunnerUrl parsed with
                         | Some (Some u) => Some u
                         | _ => ag_toolRunnerUrl existing
                         end;
     ag_tools := ca_tools parsed ?? ag_tools existing |}.

Definition created_agent (agentId workspaceId : string) (parsed : CreateAgentBody) : AgentRecord :=
  {| ag_agentId := agentId; ag_workspaceId := workspaceId; ag_name := ca_name parsed;
     ag_modelConfig := ca_modelConfig parsed; ag_systemPrompt := ca_systemPrompt parsed;
     ag_memoryConfig := Some (ca_memoryConfig parsed ?? DEFAULT_MEMORY_CONFIG);
     ag_toolRunnerUrl := ca_toolRunnerUrl parsed ≫= id; ag_tools := ca_tools parsed ?? [] |}.

Definition agent_times (agentId : string) (s : Store) : Z * Z := st_agentTimes s !! agentId ?? (0, 0)%Z.

(** The service parses the input again: a parsed body passes unchanged. *)
Definition registerOrUpdateAgent (workspaceId : string) (parsed : CreateAgentBody) :
    A (AgentRecord * (Z * Z)) :=
  existing <~ select (agents_getByName workspaceId (ca_name parsed)) ;;
  now <~ gets (fun w => instant P (w_tick w)) ;;
  match existing with
  | Some existing =>
      updated <~ query (fun s =>
        let '(row, s) := agents_update (ag_agentId existing) (updated_agent parsed existing) now s in
        Ok ((fun a => (a, agent_times (ag_agentId a) s)) <$> row, s)) ;;
      match updated with
      | Some u => ret u
      | None => throw (swift_error INTERNAL "Failed to update agent")
      end
  | None =>
      agentId <~ mint PREFIX_AGENT ;;
      let a := created_agent agentId workspaceId parsed in
      query (fun s => let? s := agents_create a now s in Ok ((a, agent_times agentId s), s))
  end.

(** ** The session service (session-service.ts) *)

(** [try { m } catch { throw e }]. *)
Definition or_throw {X} (m : A X) (e : error) : A X := try_catch m (fun _ => throw e).

Definition run_not_found (runId : string) : error :=
  swift_error NOT_FOUND ("Run " +:+ runId +:+ " not found").
Definition session_not_found (sessionId : string) : error :=
  swift_error NOT_FOUND ("Session " +:+ sessionId +:+ " not found").

Definition assertRunOwnership (workspaceId runId : string) : A RunRecord :=
  run <~ select (fun s => db_runs (st_db s) !! runId) ;;
  match run with
  | None => throw (run_not_found runId)
  | Some run =>
      session <~ select (fun s => sessions_getById (run_sessionId run) (st_db s)) ;;
      match session with
      | None => throw (run_not_found runId)
      | Some session =>
          or_throw (agent_getById workspaceId (ses_agentId session)) (run_not_found runId) ;;;
          ret run
      end
  end.

Definition getSession (workspaceId sessionId : string) : A SessionRecord :=
  session <~ select (fun s => sessions_getById sessionId (st_db s)) ;;
  match session with
  | None => throw (session_not_found sessionId)
  | Some session =>
      or_throw (agent_getById workspaceId (ses_agentId session)) (session_not_found sessionId) ;;;
      ret session
  end.

Definition createSession (workspaceId : string) (b : CreateSessionBody) : A (string * string) :=
  agent <~ agent_getByName workspaceId (cs_agentName b) ;;
  sessionId <~ mint PREFIX_SESSION ;;
  let x := {| ses_sessionId := sessionId; ses_agentId := ag_agentId agent;
              ses_userId := cs_userId b; ses_status := active |} in
  query (fun s => let? s := sessions_create x (cs_metadata b ?? JObj []) s in Ok (tt, s)) ;;;
  ret (sessionId, ag_agentId agent).

Definition updateSession (workspaceId sessionId : string) (status : option SessionStatus) : A SessionRecord :=
  getSession workspaceId sessionId ;;;
  match status with
  | Some st =>
      updated <~ query (fun s => Ok (sessions_updateStatus sessionId st s)) ;;
      match updated with
      | Some x => ret x
      | None => throw (swift_error INTERNAL "Failed to update session")
      end
  | None => getSession workspaceId sessionId
  end.

(** [findIndex], then [slice(startIdx, startIdx + limit)]. *)
Fixpoint after_cursor (cursor : string) (l : list MessageRecord) : option (list MessageRecord) :=
  match l with
  | [] => None
  | m :: l => if String.eqb (msg_messageId m) cursor then Some l else after_cursor cursor l
  end.

Definition page (limit : nat) (cursor : option string) (all : list MessageRecord) :
    res error (list MessageRecord) :=
  match cursor with
  | Some c =>
      if String.eqb c "" then Ok (take limit all)
      else match after_cursor c all with
           | Some l => Ok (take limit l)
           | None => Err (swift_error VALIDATION "Invalid cursor")
           end
  | None => Ok (take limit all)
  end.

Definition of_res {X} (r : res error X) : A X := match r with Ok x => ret x | Err e => throw e end.

Definition listMessages (sessionId : string) (q : ListMessagesQuery) : A (list MessageRecord) :=
  all <~ select (fun s => messages_listBySession sessionId (st_db s)) ;;
  of_res (page (lm_limit q) (lm_cursor q) all).

(** [start] of the run service is called in the same turn as the check returns. *)
Definition createRun (workspaceId sessionId content : string) : A string :=
  getSession workspaceId sessionId ;;;
  runId <~ mint PREFIX_RUN ;;
  call_service (start runId sessionId content false) ;;;
  await_started runId ;;;
  ret runId.

Definition getRun : string -> string -> A RunRecord := assertRunOwnership.

Definition getRunToolCalls (workspaceId runId : string) : A (list ToolCallRecord) :=
  assertRunOwnership workspaceId runId ;;;
  select (toolCalls_listByRun runId).

Definition cancelRun (workspaceId runId : string) : A unit :=
  assertRunOwnership workspaceId runId ;;;
  call_service (fun v => Ok (requestCancel runId v)).

(** ** Client tokens (token-service.ts) *)

Definition DEFAULT_TTL : Z := 900.

Definition client_token_payload (sessionId agentId : string) (now : Z) : json :=
  JObj [("sessionId", JStr sessionId); ("agentId", JStr agentId); ("permissions", JArr [JStr "chat"]);
        ("iat", JNum (now / 1000)); ("exp", JNum (now / 1000 + DEFAULT_TTL));
        ("iss", JStr "swiftagent"); ("aud", JStr "swiftagent-gateway")]%string.

(** ** The routes *)

Definition isNew (times : Z * Z) : bool := (Z.abs (times.2 - times.1) <? 1000)%Z.

Definition post_agents (workspaceId : string) (rq : Request) : A Response :=
  body <~ parse_body (CreateAgentBodySchema is_url fraction_in_0_2) (rq_body rq) ;;
  r <~ registerOrUpdateAgent workspaceId body ;;
  ret (reply (if isNew r.2 then 201 else 200) (agent_body r.1 r.2.1 r.2.2)).

Definition get_agent (workspaceId agentId : string) : A Response :=
  agent <~ agent_getById workspaceId agentId ;;
  times <~ gets (fun w => agent_times agentId (w_store w)) ;;
  ret (send (agent_body agent times.1 times.2)).

Definition get_agents (workspaceId : string) (rq : Request) : A Response :=
  match str_field "name" (rq_query rq) with
  | None | Some EmptyString =>
      agents <~ select (agents_getByWorkspaceId workspaceId) ;;
      ret (send (agents_body agents))
  | Some name =>
      agent <~ agent_getByName workspaceId name ;;
      times <~ gets (fun w => agent_times (ag_agentId agent) (w_store w)) ;;
      ret (send (agent_body agent times.1 times.2))
  end.

Definition post_sessions (workspaceId : string) (rq : Request) : A Response :=
  body <~ parse_body CreateSessionBodySchema (rq_body rq) ;;
  r <~ createSession workspaceId body ;;
  now <~ gets (fun w => instant P (w_tick w)) ;;
  let clientToken := sign (client_token_payload r.1 r.2 now) in
  ret (reply 201 (created_session_body r.1 clientToken (publicWebsocketUrl +:+ "?token=" +:+ clientToken))).

Definition get_session (workspaceId sessionId : string) : A Response :=
  session <~ getSession workspaceId sessionId ;; ret (send (session_body session)).

Definition patch_session (workspaceId sessionId : string) (rq : Request) : A Response :=
  status <~ parse_body PatchSessionBodySchema (rq_body rq) ;;
  session <~ updateSession workspaceId sessionId status ;; ret (send (session_body session)).

Definition get_messages (workspaceId sessionId : string) (rq : Request) : A Response :=
  getSession workspaceId sessionId ;;;
  q <~ parse_body (ListMessagesQuerySchema other_number) (Some (rq_query rq)) ;;
  messages <~ listMessages sessionId q ;;
  ret (send (messages_body messages (length messages =? lm_limit q)%nat)).

Definition post_runs (workspaceId sessionId : string) (rq : Request) : A Response :=
  content <~ parse_body CreateRunBodySchema (rq_body rq) ;;
  runId <~ createRun workspaceId sessionId content ;;
  ret (reply 202 (accepted_body runId "running")).

Definition get_run (workspaceId runId : string) : A Response :=
  run <~ getRun workspaceId runId ;; ret (send (run_body run)).

Definition get_tool_calls (workspaceId runId : string) : A Response :=
  data <~ getRunToolCalls workspaceId runId ;; ret (send (tool_calls_body data)).

Definition post_cancel (workspaceId runId : string) : A Response :=
  cancelRun workspaceId runId ;;; ret (reply 202 (accepted_body runId "cancelling")).

Definition get_trace (workspaceId runId : string) : A Response :=
  getRun workspaceId runId ;;;
  trace <~ select (traces_getTraceByRunId runId) ;;
  match trace with
  | None => ret (not_found ("No trace found for run " +:+ runId))
  | Some t =>
      spans <~ select (traces_listSpansByTraceId (tr_traceId t)) ;;
      ret (send (trace_body t spans))
  end.

Definition get_spans (workspaceId traceId : string) : A Response :=
  trace <~ select (traces_getTraceById traceId) ;;
  match trace with
  | None => ret (not_found ("Trace " +:+ traceId +:+ " not found"))
  | Some t =>
      getRun workspaceId (tr_runId t) ;;;
      spans <~ select (traces_listSpansByTraceId traceId) ;;
      ret (send (spans_body spans))
  end.

(** The run's own total is used when the spans have none. *)
Definition response_metrics (run : RunRecord) (m : RunMetrics) : RunMetrics :=
  let rowTokens := match run_tokenUsage run with Some u => totalTokens u | None => 0%Z end in
  {| m_totalRunDurationMs := m_totalRunDurationMs m; m_timeToFirstTokenMs := m_timeToFirstTokenMs m;
     m_modelCallCount := m_modelCallCount m; m_toolCallCount := m_toolCallCount m;
     m_totalModelLatencyMs := m_totalModelLatencyMs m; m_totalToolLatencyMs := m_totalToolLatencyMs m;
     m_totalTokens := if bool_decide (m_totalTokens m = Some 0%Z) && (0 <? rowTokens)%Z
                      then Some rowTokens else m_totalTokens m |}.

Definition get_metrics (workspaceId runId : string) : A Response :=
  run <~ getRun workspaceId runId ;;
  trace <~ select (traces_getTraceByRunId runId) ;;
  match trace with
  | None => ret (not_found ("No trace found for run " +:+ runId))
  | Some t =>
      spans <~ select (traces_listSpansByTraceId (tr_traceId t)) ;;
      match RunMetricsResponseSchema (response_metrics run (deriveRunMetrics spans)) with
      | Some m => ret (send (metrics_body runId (tr_traceId t) m))
      | None => throw ZodError
      end
  end.

Definition handle (workspaceId : string) (r : ApiRoute) (rq : Request) : A Response :=
  match r with
  | POST_agents => post_agents workspaceId rq
  | GET_agent agentId => get_agent workspaceId agentId
  | GET_agents => get_agents workspaceId rq
  | POST_sessions => post_sessions workspaceId rq
  | GET_session sessionId => get_session workspaceId sessionId
  | PATCH_session sessionId => patch_session workspaceId sessionId rq
  | GET_messages sessionId => get_messages workspaceId sessionId rq
  | POST_runs sessionId => post_runs workspaceId sessionId rq
  | GET_run runId => get_run workspaceId runId
  | GET_tool_calls runId => get_tool_calls workspaceId runId
  | POST_cancel runId => post_cancel workspaceId runId
  | GET_trace runId => get_trace workspaceId runId
  | GET_spans traceId => get_spans workspaceId traceId
  | GET_metrics runId => get_metrics workspaceId runId
  end.

(** ** Authentication (middleware/auth.ts) *)

Definition SKIP_AUTH_PATHS : list string := ["/health"; "/v1/health"; "/v1/stream"].
Definition SKIP_AUTH_PREFIXES : list string := ["/v1/management"].

(** [req.url.split('?')[0]]. *)
Definition path_of (url : string) : string :=
  match split_at "?" url with Some (p, _) => p | None => url end.

Definition skips_auth (url : string) : bool :=
  existsb (String.eqb (path_of url)) SKIP_AUTH_PATHS ||
  existsb (fun p => starts_with p (path_of url)) SKIP_AUTH_PREFIXES.

(** [authHeader.slice(7)] of a header with the scheme. *)
Definition bearer (header : option string) : res error string :=
  match header with
  | Some h =>
      if starts_with "Bearer " h then Ok (substring 7 (String.length h - 7) h)
      else Err (swift_error UNAUTHORIZED "Missing or invalid Authorization header")
  | None => Err (swift_error UNAUTHORIZED "Missing or invalid Authorization header")
  end.

(** The workspace of the request, when the hook does not skip it. *)
Definition authenticate (rq : Request) : A (option string) :=
  if skips_auth (rq_url rq) then ret None
  else
    token <~ of_res (bearer (rq_authorization rq)) ;;
    if String.eqb token "" then throw (swift_error UNAUTHORIZED "Missing API key")
    else
      apiKey <~ select (keys_getByKeyHash (sha256 token)) ;;
      match apiKey with
      | Some k =>
          match ak_revokedAt k with
          | None => ret (Some (ak_workspaceId k))
          | Some _ => throw (swift_error UNAUTHORIZED "Invalid or revoked API key")
          end
      | None => throw (swift_error UNAUTHORIZED "Invalid or revoked API key")
      end.

(** The whole of a request: the hook, the route's handler, the error handler.
    The router gives a skipped path no route of the API. *)
Definition serve_request (rq : Request) : A Response :=
  try_catch
    (who <~ authenticate rq ;;
     match match_route (rq_method rq) (rq_url rq), who with
     | Some GET_health, _ => ret (send health_body)
     | Some (api r), Some workspaceId => handle workspaceId r rq
     | _, _ => ret (not_found ("Route " +:+ rq_method rq +:+ ":" +:+ rq_url rq +:+ " not found"))
     end)
    (fun e => ret (errorHandler e)).
End api.
