(* ===== verification/Management.v ===== *)
(** The management API (packages/api/src/middleware/cognito-auth.ts and
    routes/management/*.ts): who may create workspaces and issue keys.

    The verification of a token's signature, issuer and life time is jose's:
    what it returns is an argument. *)
From S2P Require Import Prelude Json Shared Effects Observability Repos RunService Store Dto Api.

Definition PREFIX_WORKSPACE : string := "ws_".
Definition PREFIX_API_KEY : string := "ak_".
Definition PREFIX_USER : string := "usr_".

Inductive ManagementRoute : Type :=
| GET_me
| POST_workspaces
| GET_workspaces
| GET_workspace (id : string)
| POST_keys (id : string)
| GET_keys (id : string)
| DELETE_key (id keyId : string).

(** A key's metadata, without its hash. *)
Record KeyView := { kv_apiKeyId : string; kv_name : string; kv_createdAt : Z; kv_revokedAt : option Z }.

Definition key_view (k : ApiKeyRecord) : KeyView :=
  {| kv_apiKeyId := ak_apiKeyId k; kv_name := ak_name k; kv_createdAt := ak_createdAt k;
     kv_revokedAt := ak_revokedAt k |}.

Inductive ManagementBody : Type :=
| user_body (u : UserRecord)
| workspace_body (w : WorkspaceRecord)
| workspaces_body (l : list WorkspaceRecord)
| created_key_body (k : KeyView) (rawKey : string)
| keys_body (l : list KeyView)
| no_content
| management_error (code message : string).

Record ManagementResponse := { mr_status : Z; mr_body : ManagementBody }.

Definition m_reply (status : Z) (b : ManagementBody) : ManagementResponse := {| mr_status := status; mr_body := b |}.

(** ** The token's claims (cognito-auth.ts) *)

Definition unauthorized (message : string) : error := swift_error UNAUTHORIZED message.

Definition audience_ok (audience : string) (aud : jsval) : bool :=
  match aud with
  | Some (JArr l) => existsb (fun v => match v with JStr s => String.eqb s audience | _ => false end) l
  | Some (JStr s) => String.eqb s audience
  | _ => false
  end.

Section management.
Context (P : Peers).
Context (sha256 : string -> string).
(** [jwtVerify(token, JWKS, { issuer })]. *)
Context (jwtVerify : string -> option json).
Context (audience : string).

(** [None] on a falsy claim, else its text. *)
Definition claimed (v : jsval) : option string :=
  match v with Some v => if truthy v then Some (to_text v) else None | None => None end.

(** The subject and the e-mail, which are texts in a token. *)
Definition principal (payload : json) : res error (string * string) :=
  match field "token_use" payload with
  | Some (JStr "id") =>
      if audience_ok audience (field "aud" payload) then
        match claimed (field "sub" payload), claimed (field "email" payload) with
        | None, _ => Err (unauthorized "Token missing sub claim")
        | Some _, None => Err (unauthorized "Token missing email claim")
        | Some sub, Some email => Ok (sub, email)
        end
      else Err (unauthorized "Invalid token audience")
  | tokenUse =>
      Err (unauthorized ("Expected a Cognito ID token (token_use " +:+ quoted "id" +:+ "), received " +:+
        match claimed tokenUse with
        | Some v => "token_use " +:+ quoted v
        | None => "a token with no token_use claim"
        end))
  end.

Definition cognito_auth (rq : Request) : res error (string * string) :=
  let? token := bearer (rq_authorization rq) in
  if String.eqb token "" then Err (unauthorized "Missing bearer token")
  else match jwtVerify token with
       | Some payload => principal payload
       | None => Err (unauthorized "Invalid or expired token")
       end.

Open Scope eff_scope.

(** ** Provisioning (provision-user.ts) *)

Definition resolveOrCreateUser (cognitoSub email : string) : A UserRecord :=
  existing <~ select P (users_getByCognitoSub cognitoSub) ;;
  match existing with
  | Some u => ret u
  | None =>
      try_catch
        (userId <~ mint P PREFIX_USER ;;
         let u := {| usr_userId := userId; usr_cognitoSub := cognitoSub; usr_email := email |} in
         query P (fun s => let? s := users_create u s in Ok (u, s)))
        (fun _ =>
           user <~ select P (users_getByCognitoSub cognitoSub) ;;
           match user with
           | Some u => ret u
           | None => throw (swift_error INTERNAL "Failed to provision user")
           end)
  end.

(** [isMember], or 403. *)
Definition ensureMember (userId workspaceId : string) : A unit :=
  isMember <~ select P (members_isMember userId workspaceId) ;;
  if isMember : bool then ret tt else throw (swift_error FORBIDDEN "Not a member of this workspace").

(** ** Workspaces (workspaces.ts) *)

Definition post_workspaces (sub email : string) (rq : Request) : A ManagementResponse :=
  name <~ parse_body CreateWorkspaceBodySchema (rq_body rq) ;;
  user <~ resolveOrCreateUser sub email ;;
  workspaceId <~ mint P PREFIX_WORKSPACE ;;
  now <~ gets (fun w => instant P (w_tick w)) ;;
  let w := {| ws_workspaceId := workspaceId; ws_name := name; ws_createdAt := now |} in
  query P (fun s => let? s := workspaces_create w s in Ok (tt, s)) ;;;
  query P (fun s => let? s := members_create {| uw_userId := usr_userId user; uw_workspaceId := workspaceId;
                                                uw_role := "owner" |} s in Ok (tt, s)) ;;;
  ret (m_reply 201 (workspace_body w)).

Fixpoint get_all (ids : list string) : A (list WorkspaceRecord) :=
  match ids with
  | [] => ret []
  | i :: ids =>
      w <~ select P (fun s => st_workspaces s !! i) ;;
      rest <~ get_all ids ;;
      ret (match w with Some w => w :: rest | None => rest end)
  end.

Definition get_workspaces (sub email : string) : A ManagementResponse :=
  user <~ resolveOrCreateUser sub email ;;
  memberships <~ select P (members_listByUserId (usr_userId user)) ;;
  l <~ get_all (map uw_workspaceId memberships) ;;
  ret (m_reply 200 (workspaces_body l)).

Definition get_workspace (sub email id : string) : A ManagementResponse :=
  user <~ resolveOrCreateUser sub email ;;
  ensureMember (usr_userId user) id ;;;
  workspace <~ select P (fun s => st_workspaces s !! id) ;;
  match workspace with
  | Some w => ret (m_reply 200 (workspace_body w))
  | None => throw (swift_error NOT_FOUND "Workspace not found")
  end.

(** ** Keys (keys.ts) *)

Definition post_keys (sub email id : string) (rq : Request) : A ManagementResponse :=
  name <~ parse_body CreateApiKeyBodySchema (rq_body rq) ;;
  user <~ resolveOrCreateUser sub email ;;
  ensureMember (usr_userId user) id ;;;
  rawKey <~ mint P "ak_" ;;
  apiKeyId <~ mint P PREFIX_API_KEY ;;
  now <~ gets (fun w => instant P (w_tick w)) ;;
  let k := {| ak_apiKeyId := apiKeyId; ak_workspaceId := id; ak_keyHash := sha256 rawKey; ak_name := name;
              ak_createdAt := now; ak_revokedAt := None |} in
  query P (fun s => let? s := keys_create k s in Ok (tt, s)) ;;;
  ret (m_reply 201 (created_key_body (key_view k) rawKey)).

Definition get_keys (sub email id : string) : A ManagementResponse :=
  user <~ resolveOrCreateUser sub email ;;
  ensureMember (usr_userId user) id ;;;
  keys <~ select P (keys_listByWorkspace id) ;;
  ret (m_reply 200 (keys_body (map key_view keys))).

Definition delete_key (sub email id keyId : string) : A ManagementResponse :=
  user <~ resolveOrCreateUser sub email ;;
  ensureMember (usr_userId user) id ;;;
  keys <~ select P (keys_listByWorkspace id) ;;
  if existsb (fun k => String.eqb (ak_apiKeyId k) keyId) keys then
    now <~ gets (fun w => instant P (w_tick w)) ;;
    revoked <~ query P (fun s => Ok (keys_revoke keyId now s)) ;;
    match revoked with
    | Some _ => ret (m_reply 204 no_content)
    | None => throw (swift_error NOT_FOUND "API key not found")
    end
  else throw (swift_error NOT_FOUND "API key not found in this workspace").

Definition manage (sub email : string) (r : ManagementRoute) (rq : Request) : A ManagementResponse :=
  match r with
  | GET_me => user <~ resolveOrCreateUser sub email ;; ret (m_reply 200 (user_body user))
  | POST_workspaces => post_workspaces sub email rq
  | GET_workspaces => get_workspaces sub email
  | GET_workspace id => get_workspace sub email id
  | POST_keys id => post_keys sub email id rq
  | GET_keys id => get_keys sub email id
  | DELETE_key id keyId => delete_key sub email id keyId
  end.

(** The hook, the route, the error handler. *)
Definition serve_management (r : ManagementRoute) (rq : Request) : A ManagementResponse :=
  try_catch
    (who <~ of_res (cognito_auth rq) ;; manage who.1 who.2 r rq)
    (fun e => ret (let resp := errorHandler e in
                   m_reply (rs_status resp)
                     (match rs_body resp with error_body c m => management_error c m | _ => no_content end))).
End management.
