(* ===== verification/ManagementProps.v ===== *)
(** The life of an API key, and who may manage a workspace (see [Management]). *)
From S2P Require Import Prelude Json Shared Effects Observability Repos RunService Store Dto Api Management.

(** ** Headers *)

Lemma substring_all s : substring 0 (String.length s) s = s.
Proof. induction s as [|c s IH]; simpl; [done|]. by rewrite IH. Qed.

Lemma bearer_of token : bearer (Some ("Bearer " +:+ token)) = Ok token.
Proof.
  unfold bearer. simpl. rewrite Nat.sub_0_r, substring_all. by destruct token.
Qed.

(** ** Provisioning *)

Lemma find_app {X} (p : X -> bool) a b :
  List.find p (a ++ b) = match List.find p a with Some x => Some x | None => List.find p b end.
Proof. induction a as [|x a IH]; simpl; [done|]. by destruct (p x). Qed.

Lemma find_existsb {X} (p : X -> bool) l : existsb p l = true -> exists x, List.find p l = Some x /\ p x = true.
Proof.
  induction l as [|x l IH]; simpl; [done|]. destruct (p x) eqn:E; [by exists x|]. apply IH.
Qed.

Section provisioning.
Context (P : Peers) (sub email : string).

(** Users are only added, and nobody takes an id before it is minted here. *)
Context (Hserves : forall n, refuses P n = None).
Context (Hadds : forall n s, exists l, st_users (others P n s) = st_users s ++ l /\
  forall k u, u ∈ l -> usr_userId u <> prefixedId PREFIX_USER (nanoid P k)).

(** Provisioning a user returns the row of the subject, also
    when another process creates it between the look-up and the insert. *)
Theorem provisioning_returns_the_subject w :
  (forall k u, u ∈ st_users (w_store w) -> usr_userId u <> prefixedId PREFIX_USER (nanoid P k)) ->
  exists u w', resolveOrCreateUser P sub email w = (Ret u, w') /\ usr_cognitoSub u = sub /\
    users_getByCognitoSub sub (w_store w') = Some u.
Proof.
  intros Hids. unfold resolveOrCreateUser, bind, select, query at 1. rewrite Hserves. cbn [w_store].
  set (s1 := others P (w_tick w) (w_store w)). unfold users_getByCognitoSub at 1.
  destruct (List.find _ (st_users s1)) as [u|] eqn:E1.
  { eexists u, _. split; [reflexivity|]. split; [by apply find_some in E1 as [_ ?%String.eqb_eq]|done]. }
  unfold try_catch, mint. cbn [w_fresh w_tick w_store]. unfold query at 1. rewrite Hserves. cbn [w_store set_store w_tick].
  set (s2 := others P _ s1). set (i := prefixedId _ _).
  assert (Hi : forall u, u ∈ st_users s2 -> usr_userId u <> i).
  { intros u Hu. destruct (Hadds (w_tick w) (w_store w)) as (l1 & E & H1). fold s1 in E.
    destruct (Hadds (S (w_tick w)) s1) as (l2 & E' & H2). fold s2 in E'.
    rewrite E', E, !elem_of_app in Hu. destruct Hu as [[Hu|Hu]|Hu]; eauto. }
  unfold users_create. cbn [usr_userId usr_cognitoSub].
  destruct (existsb _ (st_users s2)) eqn:Ex; cbn [res_bind].
  - apply find_existsb in Ex as (u & Hf & Hp). apply find_some in Hf as [Hin _].
    apply orb_true_iff in Hp as [Hp|Hp]; apply String.eqb_eq in Hp; [by apply list_elem_of_In, Hi in Hin|].
    unfold query. rewrite Hserves. cbn [w_store w_tick set_store]. set (s3 := others P _ s2).
    destruct (Hadds (S (S (w_tick w))) s2) as (l3 & E3 & _). fold s3 in E3.
    destruct (find_existsb (fun u => String.eqb (usr_cognitoSub u) sub) (st_users s3)) as (v & Hv & Hs).
    { apply existsb_exists. exists u. rewrite E3. split; [apply in_or_app; by left|]. by apply String.eqb_eq. }
    unfold users_getByCognitoSub at 1. rewrite Hv. eexists v, _. split; [reflexivity|].
    split; [by apply String.eqb_eq|done].
  - eexists _, _. split; [reflexivity|]. split; [done|]. unfold users_getByCognitoSub. simpl.
    rewrite find_app. simpl. rewrite String.eqb_refl.
    destruct (List.find _ (st_users s2)) as [v|] eqn:Ev; [|done]. exfalso.
    apply find_some in Ev as [Hin Hs]. apply not_true_iff_false in Ex. apply Ex, existsb_exists.
    exists v. by rewrite Hs, orb_true_r.
Qed.
End provisioning.

(** ** Keys *)

Section keys.
Context (P : Peers) (Hquiet : forall n s, others P n s = s) (Hserves : forall n, refuses P n = None).
Context (sha256 : string -> string).

Definition next (w : World) : World :=
  {| w_store := w_store w; w_tick := S (w_tick w); w_fresh := w_fresh w |}.

Lemma select_now {X} (f : Store -> X) w : select P f w = (Ret (f (w_store w)), next w).
Proof. unfold select, query. by rewrite Hserves, !Hquiet. Qed.

Lemma query_now {X} (f : Store -> res error (X * Store)) w :
  query P f w = match f (w_store w) with
                | Ok (x, s) => (Ret x, set_store s (next w))
                | Err e => (Throw e, next w)
                end.
Proof. unfold query. by rewrite Hserves, !Hquiet. Qed.

Context (sub email : string) (u : UserRecord).

Lemma resolve_known w :
  users_getByCognitoSub sub (w_store w) = Some u -> resolveOrCreateUser P sub email w = (Ret u, next w).
Proof. intros H. unfold resolveOrCreateUser, bind. rewrite select_now. by rewrite H. Qed.

(** The workspace that a route manages, and whether its body is accepted. *)
Definition managed (r : ManagementRoute) (rq : Request) : option string :=
  match r with
  | GET_workspace id | GET_keys id | DELETE_key id _ => Some id
  | POST_keys id => if bool_decide (is_Some (rq_body rq ≫= CreateApiKeyBodySchema)) then Some id else None
  | _ => None
  end.

(** A user who is not a member of a workspace can neither see
    it nor list, issue or revoke its keys: the answer is 403 and nothing
    changes. *)
Theorem outsiders_are_forbidden r rq id w :
  users_getByCognitoSub sub (w_store w) = Some u -> members_isMember (usr_userId u) id (w_store w) = false ->
  managed r rq = Some id ->
  exists w', manage P sha256 sub email r rq w =
      (Throw (swift_error FORBIDDEN "Not a member of this workspace"), w') /\ w_store w' = w_store w.
Proof.
  intros Hu Hm Hr.
  assert (He : forall w0, w_store w0 = w_store w -> ensureMember P (usr_userId u) id w0 =
    (Throw (swift_error FORBIDDEN "Not a member of this workspace"), next w0)).
  { intros w0 E. unfold ensureMember, bind. rewrite select_now, E. by rewrite Hm. }
  destruct r; simpl in Hr; simplify_eq; simpl;
    unfold get_workspace, get_keys, delete_key, post_keys;
    try (case_bool_decide as Hb; [|done]; destruct Hb as [n Hn]; injection Hr as ->;
         unfold parse_body; rewrite Hn);
    unfold bind, ret; rewrite resolve_known by done; rewrite He by done; by eexists.
Qed.

(** A request that carries the key. *)
Definition with_key (rawKey : string) (rq : Request) : Request :=
  {| rq_method := rq_method rq; rq_url := rq_url rq;
     rq_authorization := Some ("Bearer " +:+ rawKey); rq_body := rq_body rq; rq_query := rq_query rq |}.

Lemma authenticate_key raw rq w :
  skips_auth (rq_url rq) = false -> raw <> "" ->
  authenticate P sha256 (with_key raw rq) w =
  match keys_getByKeyHash (sha256 raw) (w_store w) with
  | Some k => match ak_revokedAt k with
              | None => (Ret (Some (ak_workspaceId k)), next w)
              | Some _ => (Throw (swift_error UNAUTHORIZED "Invalid or revoked API key"), next w)
              end
  | None => (Throw (swift_error UNAUTHORIZED "Invalid or revoked API key"), next w)
  end.
Proof.
  intros Hs Hr. unfold authenticate, with_key. cbn [rq_url rq_authorization]. rewrite Hs, bearer_of.
  unfold of_res, bind, ret. rewrite (proj2 (String.eqb_neq _ _) Hr), select_now.
  destruct (keys_getByKeyHash _ _) as [k|]; [|done]. by destruct (ak_revokedAt k).
Qed.

(** Revoking a key leaves the others. *)
Lemma revoke_other hash keyId now s k :
  keys_getByKeyHash hash s = Some k -> ak_apiKeyId k <> keyId ->
  keys_getByKeyHash hash (keys_revoke keyId now s).2 = Some k.
Proof.
  unfold keys_getByKeyHash. simpl. induction (st_keys s) as [|x l IH]; simpl; [done|].
  intros H Hne. destruct (String.eqb_spec (ak_apiKeyId x) keyId) as [E|E]; simpl;
    destruct (String.eqb (ak_keyHash x) hash); simpl; eauto. by simplify_eq.
Qed.

Lemma revoke_this hash keyId now s k :
  keys_getByKeyHash hash s = Some k -> ak_apiKeyId k = keyId ->
  keys_getByKeyHash hash (keys_revoke keyId now s).2 = Some (revoked_at now k).
Proof.
  unfold keys_getByKeyHash. simpl. induction (st_keys s) as [|x l IH]; simpl; [done|].
  intros H Hne. destruct (String.eqb_spec (ak_apiKeyId x) keyId) as [E|E]; simpl;
    destruct (String.eqb (ak_keyHash x) hash); simpl; eauto; by simplify_eq.
Qed.

Lemma member_now id w :
  members_isMember (usr_userId u) id (w_store w) = true ->
  ensureMember P (usr_userId u) id w = (Ret tt, next w).
Proof. intros H. unfold ensureMember, bind. rewrite select_now. by rewrite H. Qed.

Lemma key_posted id rq w raw k w1 :
  users_getByCognitoSub sub (w_store w) = Some u -> members_isMember (usr_userId u) id (w_store w) = true ->
  post_keys P sha256 sub email id rq w = (Ret (m_reply 201 (created_key_body k raw)), w1) ->
  exists K, w_store w1 = set_keys (st_keys (w_store w) ++ [K]) (w_store w) /\ k = key_view K /\
    ak_keyHash K = sha256 raw /\ ak_workspaceId K = id /\ ak_revokedAt K = None /\ raw <> "" /\
    existsb (fun x => String.eqb (ak_apiKeyId x) (ak_apiKeyId K)) (st_keys (w_store w)) = false.
Proof.
  intros Hu Hm Hp. unfold post_keys, bind, parse_body, ret, throw in Hp.
  destruct (rq_body rq ≫= CreateApiKeyBodySchema) as [name|]; [|done].
  rewrite resolve_known, member_now in Hp by done. unfold mint, gets in Hp. rewrite query_now in Hp.
  cbn [w_store next] in Hp. match type of Hp with context [keys_create ?K0 _] => set (K := K0) in Hp end.
  unfold keys_create in Hp. destruct (existsb _ _) eqn:Ex; [done|]. destruct (negb _); [done|].
  cbn [res_bind] in Hp. injection Hp as <- <- <-. by exists K.
Qed.

Lemma key_deleted id keyId w :
  users_getByCognitoSub sub (w_store w) = Some u -> members_isMember (usr_userId u) id (w_store w) = true ->
  existsb (fun k => String.eqb (ak_apiKeyId k) keyId) (keys_listByWorkspace id (w_store w)) = true ->
  exists w' now, delete_key P sub email id keyId w = (Ret (m_reply 204 no_content), w') /\
    w_store w' = (keys_revoke keyId now (w_store w)).2.
Proof.
  intros Hu Hm Hk. unfold delete_key, bind. rewrite resolve_known, member_now, select_now by done.
  cbn [w_store next]. rewrite Hk. unfold gets. rewrite query_now. cbn [w_store next].
  unfold keys_revoke. apply existsb_exists in Hk as (K & Hin & HK). apply filter_In in Hin as [Hin _].
  destruct (List.find _ (st_keys (w_store w))) as [K'|] eqn:E; [by eexists _, _|].
  by rewrite (find_none _ _ E _ Hin) in HK.
Qed.

(** C18: The key that is issued to a member opens the workspace, and
    only that workspace, until it is revoked; from then on it is refused, and
    the other keys work as before. *)
Theorem key_works_until_revoked id rq w raw k w1 use :
  users_getByCognitoSub sub (w_store w) = Some u -> members_isMember (usr_userId u) id (w_store w) = true ->
  post_keys P sha256 sub email id rq w = (Ret (m_reply 201 (created_key_body k raw)), w1) ->
  keys_getByKeyHash (sha256 raw) (w_store w) = None -> skips_auth (rq_url use) = false ->
  authenticate P sha256 (with_key raw use) w1 = (Ret (Some id), next w1) /\
  exists w2, delete_key P sub email id (kv_apiKeyId k) w1 = (Ret (m_reply 204 no_content), w2) /\
    authenticate P sha256 (with_key raw use) w2 =
      (Throw (swift_error UNAUTHORIZED "Invalid or revoked API key"), next w2) /\
    forall hash k', keys_getByKeyHash hash (w_store w) = Some k' -> 
      keys_getByKeyHash hash (w_store w2) = Some k'.
Proof.
  intros Hu Hm Hp Hf Hs. destruct (key_posted _ _ _ _ _ _ Hu Hm Hp) as (K & Hw & -> & HK & Hid & Hr & Hne & Hx).
  assert (Hfind : keys_getByKeyHash (sha256 raw) (w_store w1) = Some K).
  { rewrite Hw. unfold keys_getByKeyHash in *. simpl. by rewrite find_app, Hf; simpl; rewrite HK, String.eqb_refl. }
  split; [by rewrite authenticate_key, Hfind, Hr, Hid by done|].
  destruct (key_deleted id (ak_apiKeyId K) w1) as (w2 & now & Hd & Hw2); [by rewrite Hw|by rewrite Hw| |].
  { apply existsb_exists. exists K. split; [|by apply String.eqb_eq]. apply filter_In. rewrite Hw. simpl.
    split; [apply in_or_app; right; by left|]. by apply String.eqb_eq. }
  exists w2. split; [done|]. split.
  - rewrite authenticate_key by done. rewrite Hw2. by rewrite (revoke_this _ _ _ _ K Hfind).
  - intros hash k' H. rewrite Hw2. apply revoke_other.
    + rewrite Hw. unfold keys_getByKeyHash in *. simpl. by rewrite find_app, H.
    + intros E. apply not_true_iff_false in Hx. apply Hx, existsb_exists. exists k'.
      split; [by apply find_some in H as [? _]|]. by apply String.eqb_eq.
Qed.
End keys.

(** ** Witnesses *)

Definition user_1 : UserRecord := {| usr_userId := "usr_1"; usr_cognitoSub := "sub_1"; usr_email := "a@b" |}.

Definition empty_svc : Service :=
  createRunExecutionService {| db_sessions := ∅; db_agents := ∅; db_runs := ∅; db_messages := []; db_toolCalls := ∅ |}.

Definition managed_store : Store :=
  {| st_svc := empty_svc; st_agentTimes := ∅; st_metadata := ∅; st_keys := [];
     st_workspaces := {["ws_1" := {| ws_workspaceId := "ws_1"; ws_name := "w"; ws_createdAt := 0 |}]};
     st_users := [user_1];
     st_members := [{| uw_userId := "usr_1"; uw_workspaceId := "ws_1"; uw_role := "owner" |}];
     st_traces := ∅; st_spans := [] |}.

Definition managed_world : World := {| w_store := managed_store; w_tick := 0; w_fresh := 0 |}.

(** Ids that differ: the n-th has n letters. *)
Definition counted (n : nat) : string := string_of_list_ascii (repeat "x"%char n).
Definition calm : Peers :=
  {| refuses := fun _ => None; others := fun _ s => s; instant := fun _ => 0%Z; nanoid := counted |}.

Definition request_of (body : jsval) : Request :=
  {| rq_method := "GET"; rq_url := "/v1/agents"; rq_authorization := None; rq_body := body; rq_query := JObj [] |}.

Lemma provisioning_returns_the_subject_witness :
  exists u w', resolveOrCreateUser calm "sub_2" "c@d" managed_world = (Ret u, w') /\ usr_cognitoSub u = "sub_2".
Proof.
  destruct (provisioning_returns_the_subject calm "sub_2" "c@d" (fun _ => eq_refl)) with (w := managed_world)
    as (u & w' & H & Hs & _).
  - intros n s. exists []. split; [by rewrite app_nil_r|]. by intros k u ?%elem_of_nil.
  - intros k u Hu. simpl in Hu. apply list_elem_of_singleton in Hu as ->. simpl. unfold counted. by destruct k.
  - by exists u, w'.
Defined.

Lemma outsiders_are_forbidden_witness :
  exists w', manage calm id "sub_1" "a@b" (GET_keys "ws_2") (request_of None) managed_world =
    (Throw (swift_error FORBIDDEN "Not a member of this workspace"), w') /\ w_store w' = managed_store.
Proof.
  by apply (outsiders_are_forbidden calm (fun _ _ => eq_refl) (fun _ => eq_refl) id "sub_1" "a@b" user_1
    (GET_keys "ws_2") (request_of None) "ws_2" managed_world).
Defined.

Lemma key_works_until_revoked_witness :
  exists k raw w1, post_keys calm id "sub_1" "a@b" "ws_1" (request_of (Some (JObj [("name", JStr "ci")])))
      managed_world = (Ret (m_reply 201 (created_key_body k raw)), w1) /\
    authenticate calm id (with_key raw (request_of None)) w1 = (Ret (Some "ws_1"), next w1).
Proof.
  destruct (post_keys calm id "sub_1" "a@b" "ws_1" (request_of (Some (JObj [("name", JStr "ci")]))) managed_world)
    as [[[st b]|e|] w1] eqn:E; [|by vm_compute in E|by vm_compute in E].
  destruct b as [| | |k raw| | |]; try (by vm_compute in E).
  assert (st = 201%Z) as -> by (vm_compute in E; by injection E).
  assert (Hraw : raw = "ak_") by (vm_compute in E; by injection E).
  exists k, raw, w1. split; [reflexivity|].
  destruct (key_works_until_revoked calm (fun _ _ => eq_refl) (fun _ => eq_refl) id "sub_1" "a@b" user_1
    "ws_1" _ managed_world raw k w1 (request_of None) eq_refl eq_refl E) as [H _];
    [by rewrite Hraw|reflexivity|exact H].
Defined.
