(* ===== verification/Provision.v ===== *)
(** The scripts that fill a database (packages/db/src/provision-smoke.ts,
    provision-local.ts, seed.ts): find-or-create over the repositories, as a
    computation over the world of a request (see [Api]).

    What is printed is left out, except for the key that the local script
    surfaces; the files are the texts that it reads and writes, and handing
    them to the owner of the directory is left out. *)
From S2P Require Import Prelude Json Shared Effects Observability Repos RunService Store Dto Api Management ManagementProps.
Local Open Scope eff_scope.

Section provision.
Context (P : Peers) (sha256 : string -> string).

Definition workspaces_getByName (name : string) (s : Store) : option WorkspaceRecord :=
  head (List.filter (fun w => String.eqb (ws_name w) name) ((map_to_list (st_workspaces s)).*2)).

(** [(await getByName(name)) ?? (await create(...))]. *)
Definition find_or_create_workspace (name : string) : A WorkspaceRecord :=
  existing <~ select P (workspaces_getByName name) ;;
  match existing with
  | Some w => ret w
  | None =>
      workspaceId <~ mint P PREFIX_WORKSPACE ;;
      now <~ gets (fun w => instant P (w_tick w)) ;;
      let w := {| ws_workspaceId := workspaceId; ws_name := name; ws_createdAt := now |} in
      query P (fun s => let? s := workspaces_create w s in Ok (w, s))
  end.

Definition store_key (workspaceId rawKey name : string) : A unit :=
  apiKeyId <~ mint P PREFIX_API_KEY ;;
  now <~ gets (fun w => instant P (w_tick w)) ;;
  let k := {| ak_apiKeyId := apiKeyId; ak_workspaceId := workspaceId; ak_keyHash := sha256 rawKey;
              ak_name := name; ak_createdAt := now; ak_revokedAt := None |} in
  query P (fun s => let? s := keys_create k s in Ok (tt, s)).

Definition create_agent (agentId : string) (a : string -> AgentRecord) : A unit :=
  now <~ gets (fun w => instant P (w_tick w)) ;;
  query P (fun s => let? s := agents_create (a agentId) now s in Ok (tt, s)).

Definition find_or_create_agent (workspaceId name : string) (a : string -> AgentRecord) : A unit :=
  existing <~ select P (agents_getByName workspaceId name) ;;
  match existing with
  | Some _ => ret tt
  | None => agentId <~ mint P PREFIX_AGENT ;; create_agent agentId a
  end.

(** ** The smoke test's resources (provision-smoke.ts) *)

Definition ECHO_MODEL : string := "echo/echo".

Definition smoke_agent (workspaceId name agentId : string) : AgentRecord :=
  {| ag_agentId := agentId; ag_workspaceId := workspaceId; ag_name := name;
     ag_modelConfig := {| mc_model := ECHO_MODEL; mc_temperature := None; mc_maxTokens := None |};
     ag_systemPrompt := "Deterministic echo agent for the deployed realtime smoke test.";
     ag_memoryConfig := Some DEFAULT_MEMORY_CONFIG; ag_toolRunnerUrl := None; ag_tools := [] |}.

Definition smoke_workspace (WORKSPACE_NAME rawKey : string) : A string :=
  existingKey <~ select P (keys_getByKeyHash (sha256 rawKey)) ;;
  match existingKey with
  | Some k => ret (ak_workspaceId k)
  | None =>
      workspace <~ find_or_create_workspace WORKSPACE_NAME ;;
      store_key (ws_workspaceId workspace) rawKey "Realtime Smoke Key" ;;;
      ret (ws_workspaceId workspace)
  end.

Definition provision_smoke (AGENT_NAME WORKSPACE_NAME rawKey : string) : A unit :=
  workspaceId <~ smoke_workspace WORKSPACE_NAME rawKey ;;
  find_or_create_agent workspaceId AGENT_NAME (smoke_agent workspaceId AGENT_NAME).

(** ** The local stack (provision-local.ts) *)

Definition LOCAL_WORKSPACE_NAME : string := "Local Dev Workspace".
Definition LOCAL_AGENT_NAME : string := "local-dev".

Definition LOCAL_ECHO_TOOL : ToolDefinition :=
  {| tool_name := "local_echo"; tool_description := "Echo a message back, optionally shouting it (local dev tool).";
     inputSchema := JObj [("type", JStr "object");
       ("properties", JObj [("message", JObj [("type", JStr "string")]); ("shout", JObj [("type", JStr "boolean")])]);
       ("required", JArr [JStr "message"]); ("additionalProperties", JBool false)] |}.

Definition local_agent (workspaceId agentId : string) : AgentRecord :=
  {| ag_agentId := agentId; ag_workspaceId := workspaceId; ag_name := LOCAL_AGENT_NAME;
     ag_modelConfig := {| mc_model := "fixture/tool-call"; mc_temperature := None; mc_maxTokens := None |};
     ag_systemPrompt := "Deterministic local dev agent backed by the tool-calling fixture provider.";
     ag_memoryConfig := Some DEFAULT_MEMORY_CONFIG; ag_toolRunnerUrl := Some "http://runner:8090";
     ag_tools := [LOCAL_ECHO_TOOL] |}.

(** The key of the file, when its hash is stored, with its workspace. *)
Definition key_of_file (key_file : option string) : A (option (string * string)) :=
  match key_file with
  | None => ret None
  | Some content =>
      let candidate := trim content in
      if String.eqb candidate "" then ret None
      else existing <~ select P (keys_getByKeyHash (sha256 candidate)) ;;
           ret ((fun k => (candidate, ak_workspaceId k)) <$> existing)
  end.

Definition mint_local_key : A (string * string) :=
  workspace <~ find_or_create_workspace LOCAL_WORKSPACE_NAME ;;
  rawKey <~ mint P "ak_local_" ;;
  store_key (ws_workspaceId workspace) rawKey "Local Dev Key" ;;;
  ret (rawKey, ws_workspaceId workspace).

(** The raw key and its workspace: those of the file, or new ones. *)
Definition local_key (key_file : option string) : A (string * string) :=
  found <~ key_of_file key_file ;;
  match found with
  | Some (rawKey, workspaceId) =>
      if String.eqb workspaceId "" then mint_local_key else ret (rawKey, workspaceId)
  | None => mint_local_key
  end.

Record LocalFiles := { lf_key : option string; lf_runner_env : option string }.

Definition line (s : string) : string := s +:+ String "010" "".

(** [JSON.stringify({ workspaceId }, null, 2)]. *)
Definition runner_env (workspaceId : string) : string :=
  line "{" +:+ line ("  " +:+ quoted "workspaceId" +:+ ": " +:+ string_of_list_ascii (print_string workspaceId)) +:+ "}".

(** The key's file is written before the agent is looked up. *)
Definition provision_local (files : LocalFiles) (w : World) : outcome error unit * LocalFiles * World :=
  match local_key (lf_key files) w with
  | (Ret (rawKey, workspaceId), w) =>
      let files := {| lf_key := Some (line rawKey); lf_runner_env := lf_runner_env files |} in
      match find_or_create_agent workspaceId LOCAL_AGENT_NAME (local_agent workspaceId) w with
      | (Ret _, w) =>
          (Ret tt, {| lf_key := lf_key files; lf_runner_env := Some (line (runner_env workspaceId)) |}, w)
      | (Throw e, w) => (Throw e, files, w)
      | (Torn, w) => (Torn, files, w)
      end
  | (Throw e, w) => (Throw e, files, w)
  | (Torn, w) => (Torn, files, w)
  end.

(** ** The seed (seed.ts) *)

Definition seed_agent (workspaceId agentId : string) : AgentRecord :=
  {| ag_agentId := agentId; ag_workspaceId := workspaceId; ag_name := "dev-assistant";
     ag_modelConfig := {| mc_model := "anthropic/claude-sonnet"; mc_temperature := None; mc_maxTokens := None |};
     ag_systemPrompt := "You are a helpful assistant for local development.";
     ag_memoryConfig := Some DEFAULT_MEMORY_CONFIG; ag_toolRunnerUrl := None; ag_tools := [] |}.

Definition seed (SEED_ENABLED : option string) : A unit :=
  if bool_decide (SEED_ENABLED = Some "true") then
    workspaceId <~ mint P PREFIX_WORKSPACE ;;
    now <~ gets (fun w => instant P (w_tick w)) ;;
    query P (fun s => let? s := workspaces_create {| ws_workspaceId := workspaceId; ws_name := "Dev Workspace";
                                                     ws_createdAt := now |} s in Ok (tt, s)) ;;;
    apiKeyId <~ mint P PREFIX_API_KEY ;;
    now <~ gets (fun w => instant P (w_tick w)) ;;
    query P (fun s => let? s := keys_create {| ak_apiKeyId := apiKeyId; ak_workspaceId := workspaceId;
      ak_keyHash := "dev_seed_hash_placeholder"; ak_name := "Dev API Key"; ak_createdAt := now;
      ak_revokedAt := None |} s in Ok (tt, s)) ;;;
    agentId <~ mint P PREFIX_AGENT ;;
    create_agent agentId (seed_agent workspaceId) ;;;
    sessionId <~ mint P PREFIX_SESSION ;;
    query P (fun s => let? s := sessions_create {| ses_sessionId := sessionId; ses_agentId := agentId;
      ses_userId := Some "dev_user"; ses_status := active |} (JObj [("source", JStr "seed")]) s in Ok (tt, s))
  else ret tt.
End provision.

(** ** What provisioning promises *)

(** ** Lines of a file *)

Lemma drop_while_head {X} (p : X -> bool) l x : head (drop_while p l) = Some x -> p x = false.
Proof. induction l as [|y l IH]; simpl; [done|]. destruct (p y) eqn:E; [done|]. by intros [= <-]. Qed.

Lemma drop_while_id {X} (p : X -> bool) l : (forall x, head l = Some x -> p x = false) -> drop_while p l = l.
Proof. destruct l as [|y l]; [done|]. intros H. simpl. by rewrite (H y eq_refl). Qed.

(** A text that neither starts nor ends with a space. *)
Definition trimmed (t : text) : Prop :=
  (forall c, head t = Some c -> is_space c = false) /\ (forall c, last t = Some c -> is_space c = false).

Lemma drop_while_keeps_last {X} (p : X -> bool) l x : last l = Some x -> p x = false -> last (drop_while p l) = Some x.
Proof.
  induction l as [|y l IH]; [done|]. intros Hl Hp. simpl. destruct (p y) eqn:E; [|done].
  destruct l as [|z l]; [simpl in Hl; congruence|]. by apply IH.
Qed.

Lemma trim_trimmed t : trimmed (trim_text t).
Proof.
  unfold trim_text. set (u := drop_while is_space t). split; intros c Hc.
  - rewrite head_reverse in Hc. destruct u as [|d u'] eqn:E; [done|].
    assert (Hd : is_space d = false) by (apply (drop_while_head is_space t); fold u; by rewrite E).
    assert (Hl : last (reverse (d :: u')) = Some d) by (by rewrite last_reverse).
    rewrite (drop_while_keeps_last _ _ _ Hl Hd) in Hc. by injection Hc as <-.
  - rewrite last_reverse in Hc. by apply drop_while_head in Hc.
Qed.

Lemma trim_line t : trimmed t -> trim_text (t ++ ["010"%char]) = t.
Proof.
  intros [H1 H2]. destruct t as [|c t]; [done|]. unfold trim_text. rewrite (drop_while_id _ (_ ++ _)); [|exact H1].
  rewrite reverse_app. simpl. rewrite drop_while_id; [apply reverse_involutive|].
  intros x Hx. apply H2. by rewrite head_reverse in Hx.
Qed.

Lemma list_ascii_app a b : list_ascii_of_string (a +:+ b) = list_ascii_of_string a ++ list_ascii_of_string b.
Proof. induction a as [|c a IH]; simpl; [done|]. by rewrite IH. Qed.

Lemma trim_line_string s : trimmed (list_ascii_of_string s) -> trim (line s) = s.
Proof.
  intros H. unfold trim, on_text, line. rewrite list_ascii_app.
  change (list_ascii_of_string (String "010" "")) with ["010"%char]. rewrite (trim_line _ H).
  apply string_of_list_ascii_of_string.
Qed.

Lemma all_trimmed t : Forall (fun c => is_space c = false) t -> trimmed t.
Proof.
  intros H. rewrite Forall_forall in H. split; intros c Hc; apply H.
  - by apply head_Some_elem_of.
  - by apply last_Some_elem_of.
Qed.

(** ** Find or create *)

Section quiet.
Context (P : Peers) (Hquiet : forall n s, others P n s = s) (Hserves : forall n, refuses P n = None).
Context (sha256 : string -> string).

Abbreviation sel := (select_now P Hquiet Hserves).
Abbreviation qry := (query_now P Hquiet Hserves).

Definition has_agent (workspaceId name : string) (s : Store) : Prop := is_Some (agents_getByName workspaceId name s).

Lemma agent_by_name s a :
  db_agents (st_db s) !! ag_agentId a = Some a -> has_agent (ag_workspaceId a) (ag_name a) s.
Proof.
  intros H. unfold has_agent, agents_getByName. destruct (List.filter _ _) as [|x l] eqn:E; [|by eexists].
  exfalso. assert (Hin : In a (List.filter (named (ag_workspaceId a) (ag_name a)) (agent_rows s))).
  { apply filter_In. split; [|by unfold named; rewrite !String.eqb_refl].
    apply list_elem_of_In. unfold agent_rows. apply list_elem_of_fmap. exists (ag_agentId a, a). split; [done|].
    by apply elem_of_map_to_list. }
  by rewrite E in Hin.
Qed.

Definition agent_of (workspaceId name : string) (a : string -> AgentRecord) : Prop :=
  forall i, ag_agentId (a i) = i /\ ag_workspaceId (a i) = workspaceId /\ ag_name (a i) = name.

Lemma agent_found ws name a w : has_agent ws name (w_store w) ->
  find_or_create_agent P ws name a w = (Ret tt, next w).
Proof. intros [x Hx]. unfold find_or_create_agent, bind. rewrite sel. by rewrite Hx. Qed.

Lemma agent_created ws name a w w1 : agent_of ws name a ->
  find_or_create_agent P ws name a w = (Ret tt, w1) ->
  has_agent ws name (w_store w1) /\ st_keys (w_store w1) = st_keys (w_store w) /\
  st_workspaces (w_store w1) = st_workspaces (w_store w).
Proof.
  intros Ha. unfold find_or_create_agent, bind. rewrite sel.
  destruct (agents_getByName ws name (w_store w)) as [x|] eqn:E.
  - intros [= <-]. split; [by eexists|done].
  - unfold mint, create_agent, bind, gets. rewrite qry. cbn [w_store next].
    set (i := prefixedId _ _). set (now := instant P _).
    destruct (agents_create (a i) now (w_store w)) as [s|e] eqn:Ec; [|done]. intros [= <-]. cbn [w_store set_store].
    destruct (Ha i) as (Hi & Hw & Hn). revert Ec. unfold agents_create.
    destruct (bool_decide _); [done|]. destruct (negb _); [done|]. destruct (existsb _ _); [done|]. intros [= <-].
    split; [|done]. rewrite <- Hw, <- Hn. apply agent_by_name. simpl. by rewrite Hi, lookup_insert_eq.
Qed.

(** A workspace has a name for an id. *)
Definition named_workspaces (s : Store) : Prop :=
  forall k x, st_workspaces s !! k = Some x -> ws_workspaceId x <> "".

Lemma workspace_there name w x w1 : named_workspaces (w_store w) ->
  find_or_create_workspace P name w = (Ret x, w1) ->
  ws_workspaceId x <> "" /\ st_keys (w_store w1) = st_keys (w_store w) /\ w_fresh w <= w_fresh w1.
Proof.
  intros Hn. unfold find_or_create_workspace, bind. rewrite sel.
  destruct (workspaces_getByName name (w_store w)) as [y|] eqn:E.
  - intros [= <- <-]. split; [|done]. unfold workspaces_getByName in E.
    apply head_Some_elem_of, list_elem_of_In, filter_In in E as [E _].
    apply list_elem_of_In, list_elem_of_fmap in E as ((k & z) & -> & Hz). apply elem_of_map_to_list in Hz. by eapply Hn.
  - unfold mint, gets. rewrite qry. cbn [w_store next]. unfold workspaces_create.
    case_bool_decide; [done|]. intros [= <- <-]. simpl. split; [by unfold prefixedId|]. split; [done|lia].
Qed.

Lemma key_stored ws raw name w u w1 :
  store_key P sha256 ws raw name w = (Ret u, w1) -> keys_getByKeyHash (sha256 raw) (w_store w) = None ->
  exists k, keys_getByKeyHash (sha256 raw) (w_store w1) = Some k /\ ak_workspaceId k = ws /\ ak_revokedAt k = None.
Proof.
  unfold store_key, bind, mint, gets. rewrite qry. cbn [w_store next]. unfold keys_create.
  destruct (existsb _ _); [done|]. destruct (negb _); [done|]. intros [= <- <-] Hf. eexists.
  split; [unfold keys_getByKeyHash in *; simpl; rewrite find_app, Hf; simpl; by rewrite String.eqb_refl|by split].
Qed.

(** ** The smoke test's resources *)

Lemma smoke_agent_of ws name : agent_of ws name (smoke_agent ws name).
Proof. done. Qed.

(** Provisioning the smoke test twice is provisioning it once: the second
    run finds the key, adopts its workspace, finds the agent there, and changes
    nothing. *)
Theorem smoke_provisioning_converges agentName workspaceName rawKey w w1 :
  named_workspaces (w_store w) ->
  provision_smoke P sha256 agentName workspaceName rawKey w = (Ret tt, w1) ->
  exists w2, provision_smoke P sha256 agentName workspaceName rawKey w1 = (Ret tt, w2) /\
    w_store w2 = w_store w1.
Proof.
  intros Hn. unfold provision_smoke. unfold bind at 1.
  destruct (smoke_workspace P sha256 workspaceName rawKey w) as [[ws|e|] w0] eqn:E; [|done..]. intros Ha.
  apply (agent_created _ _ _ _ _ (smoke_agent_of ws agentName)) in Ha as (Hagent & Hk & _).
  assert (Hkey : exists k, keys_getByKeyHash (sha256 rawKey) (w_store w0) = Some k /\ ak_workspaceId k = ws).
  { unfold smoke_workspace, bind in E. rewrite sel in E.
    destruct (keys_getByKeyHash _ (w_store w)) as [k|] eqn:Ek; [injection E as <- <-; by exists k|].
    destruct (find_or_create_workspace P workspaceName (next w)) as [[x|e|] wx] eqn:Ew; [|done..].
    apply workspace_there in Ew as (_ & Hkx & _); [|done].
    destruct (store_key _ _ _ _ _ _) as [[u|e|] wy] eqn:Es; [|done..]. injection E as <- <-.
    apply key_stored in Es as (k & H1 & H2 & _); [by exists k|]. unfold keys_getByKeyHash in *. by rewrite Hkx. }
  destruct Hkey as (k & Hkey & Hws).
  assert (H1 : keys_getByKeyHash (sha256 rawKey) (w_store w1) = Some k).
  { unfold keys_getByKeyHash in *. by rewrite Hk. }
  unfold bind, smoke_workspace, bind. rewrite sel, H1, Hws. cbn.
  exists (next (next w1)). split; [|done]. by apply agent_found.
Qed.

(** ** The local stack *)

Lemma local_agent_of ws : agent_of ws LOCAL_AGENT_NAME (local_agent ws).
Proof. done. Qed.

Lemma minted_there w raw ws w1 :
  named_workspaces (w_store w) ->
  (forall n, w_fresh w <= n -> Forall (fun c => is_space c = false) (list_ascii_of_string (nanoid P n)) /\
     keys_getByKeyHash (sha256 (prefixedId "ak_local_" (nanoid P n))) (w_store w) = None) ->
  mint_local_key P sha256 w = (Ret (raw, ws), w1) ->
  ws <> "" /\ trimmed (list_ascii_of_string raw) /\ raw <> "" /\
  exists k, keys_getByKeyHash (sha256 raw) (w_store w1) = Some k /\ ak_workspaceId k = ws /\ ak_revokedAt k = None.
Proof.
  intros Hn Hfresh. unfold mint_local_key, bind.
  destruct (find_or_create_workspace P LOCAL_WORKSPACE_NAME w) as [[x|e|] wx] eqn:Ew; [|done..].
  apply workspace_there in Ew as (Hx & Hkx & Hle); [|done]. unfold mint. destruct (Hfresh _ Hle) as [Hsp Hno].
  set (raw0 := prefixedId _ _) in *. cbn [w_fresh].
  destruct (store_key _ _ _ raw0 _ _) as [[u|e|] wy] eqn:Es; [|done..]. intros [= <- <- <-].
  split; [done|]. split.
  { apply all_trimmed. unfold raw0, prefixedId. rewrite list_ascii_app. apply Forall_app. split; [|done].
    by repeat constructor. }
  split; [by unfold raw0, prefixedId|]. apply key_stored in Es; [exact Es|]. unfold keys_getByKeyHash in *. cbn. by rewrite Hkx.
Qed.

Lemma key_read content k w :
  keys_getByKeyHash (sha256 (trim content)) (w_store w) = Some k -> trim content <> "" ->
  key_of_file P sha256 (Some content) w = (Ret (Some (trim content, ak_workspaceId k)), next w).
Proof.
  intros Hk Hne. apply String.eqb_neq in Hne. unfold key_of_file. rewrite Hne. unfold bind. rewrite sel. by rewrite Hk.
Qed.

(** The key that a run surfaces: stored, and ready to be read back. *)
Definition surfaced (raw ws : string) (s : Store) : Prop :=
  ws <> "" /\ trimmed (list_ascii_of_string raw) /\ raw <> "" /\
  exists k, keys_getByKeyHash (sha256 raw) s = Some k /\ ak_workspaceId k = ws.

Lemma local_key_surfaced file w raw ws w1 :
  named_workspaces (w_store w) ->
  (forall n, w_fresh w <= n -> Forall (fun c => is_space c = false) (list_ascii_of_string (nanoid P n)) /\
     keys_getByKeyHash (sha256 (prefixedId "ak_local_" (nanoid P n))) (w_store w) = None) ->
  local_key P sha256 file w = (Ret (raw, ws), w1) -> surfaced raw ws (w_store w1).
Proof.
  intros Hn Hfresh. unfold local_key, bind.
  assert (Hmint : forall w0, w_store w0 = w_store w -> w_fresh w0 = w_fresh w ->
    mint_local_key P sha256 w0 = (Ret (raw, ws), w1) -> surfaced raw ws (w_store w1)).
  { intros w0 E1 E2 H. apply minted_there in H as (H1 & H2 & H3 & k & H4 & H5 & _); rewrite ?E1, ?E2; try done.
    split_and!; try done. by exists k. }
  destruct file as [content|]; [|by apply Hmint]. unfold key_of_file.
  destruct (String.eqb_spec (trim content) ""); [by apply Hmint|]. unfold bind. rewrite sel.
  destruct (keys_getByKeyHash _ _) as [k|] eqn:Ek; cbn; [|by apply Hmint].
  destruct (String.eqb_spec (ak_workspaceId k) ""); [by apply Hmint|]. intros [= <- <- <-].
  split; [done|]. split; [|split; [done|by exists k]].
  unfold trim, on_text. rewrite list_ascii_of_string_of_list_ascii. apply trim_trimmed.
Qed.

Lemma local_key_again raw ws w :
  surfaced raw ws (w_store w) -> local_key P sha256 (Some (line raw)) w = (Ret (raw, ws), next w).
Proof.
  intros (Hws & Ht & Hne & k & Hk & <-). unfold local_key, bind.
  rewrite (key_read _ k) by (by rewrite trim_line_string). rewrite trim_line_string by done.
  by rewrite (proj2 (String.eqb_neq _ _) Hws).
Qed.

(** So does provisioning the local stack, over the files of the first run:
    the second run writes the same key and the same workspace, whose agent is
    there, and changes nothing in the database. *)
Theorem local_provisioning_converges files files1 w w1 :
  named_workspaces (w_store w) ->
  (forall n, w_fresh w <= n -> Forall (fun c => is_space c = false) (list_ascii_of_string (nanoid P n)) /\
     keys_getByKeyHash (sha256 (prefixedId "ak_local_" (nanoid P n))) (w_store w) = None) ->
  provision_local P sha256 files w = (Ret tt, files1, w1) ->
  (exists raw ws, files1 = {| lf_key := Some (line raw); lf_runner_env := Some (line (runner_env ws)) |} /\
     surfaced raw ws (w_store w1) /\ has_agent ws LOCAL_AGENT_NAME (w_store w1)) /\
  exists w2, provision_local P sha256 files1 w1 = (Ret tt, files1, w2) /\ w_store w2 = w_store w1.
Proof.
  intros Hn Hfresh. unfold provision_local at 1.
  destruct (local_key P sha256 (lf_key files) w) as [[[raw ws]|e|] w0] eqn:E; [|done..].
  apply local_key_surfaced in E; [|done..].
  destruct (find_or_create_agent _ _ _ _ _) as [[u|e|] wa] eqn:Ea; [|done..]. intros [= <- <-]. cbn [lf_key]. destruct u.
  apply (agent_created _ _ _ _ _ (local_agent_of ws)) in Ea as (Hagent & Hk & _).
  assert (Hs : surfaced raw ws (w_store wa)).
  { destruct E as (H1 & H2 & H3 & k & H4 & H5). split_and!; try done. exists k.
    unfold keys_getByKeyHash in *. by rewrite Hk. }
  split; [by exists raw, ws|]. exists (next (next wa)). split; [|done]. unfold provision_local. cbn [lf_key].
  rewrite (local_key_again raw ws) by done. rewrite agent_found by done. done.
Qed.
End quiet.

(** ** Witnesses *)

Definition no_files : LocalFiles := {| lf_key := None; lf_runner_env := None |}.

Lemma smoke_provisioning_converges_witness :
  exists w1 w2, provision_smoke calm id "smoke-echo" "Smoke Workspace" "k" managed_world = (Ret tt, w1) /\
    provision_smoke calm id "smoke-echo" "Smoke Workspace" "k" w1 = (Ret tt, w2) /\ w_store w2 = w_store w1.
Proof.
  assert (Ho : (provision_smoke calm id "smoke-echo" "Smoke Workspace" "k" managed_world).1 = Ret tt)
    by (vm_compute; reflexivity).
  destruct (provision_smoke calm id "smoke-echo" "Smoke Workspace" "k" managed_world) as [o w1] eqn:E.
  cbn [fst] in Ho. subst o.
  destruct (smoke_provisioning_converges calm (fun _ _ => eq_refl) (fun _ => eq_refl) id "smoke-echo"
    "Smoke Workspace" "k" managed_world w1) as (w2 & H & Hs); [|exact E|exists w1, w2; exact (conj eq_refl (conj H Hs))].
  intros k x. simpl. rewrite lookup_singleton. by case_decide; intros [= <-].
Defined.

Lemma local_provisioning_converges_witness :
  exists files w1 w2, provision_local calm id no_files managed_world = (Ret tt, files, w1) /\
    provision_local calm id files w1 = (Ret tt, files, w2) /\ w_store w2 = w_store w1.
Proof.
  assert (Ho : (provision_local calm id no_files managed_world).1.1 = Ret tt) by (vm_compute; reflexivity).
  destruct (provision_local calm id no_files managed_world) as [[o files] w1] eqn:E.
  cbn [fst] in Ho. subst o.
  destruct (local_provisioning_converges calm (fun _ _ => eq_refl) (fun _ => eq_refl) id no_files files
    managed_world w1) as (_ & w2 & H & Hs); [| |exact E|exists files, w1, w2; exact (conj eq_refl (conj H Hs))].
  - intros k x. simpl. rewrite lookup_singleton. by case_decide; intros [= <-].
  - intros n _. split; [|done]. simpl. unfold counted. rewrite list_ascii_of_string_of_list_ascii.
    induction n; constructor; done.
Defined.

(** ** A revoked key

    The scripts take any key with the hash for theirs, also one that was
    revoked: it is surfaced as reused, and refused by the API. *)
Definition revoked_store : Store :=
  set_keys [{| ak_apiKeyId := "ak_1"; ak_workspaceId := "ws_1"; ak_keyHash := "ak_local_0"; ak_name := "Local Dev Key";
               ak_createdAt := 0; ak_revokedAt := Some 1%Z |}] managed_store.

Definition revoked_world : World := {| w_store := revoked_store; w_tick := 0; w_fresh := 0 |}.

Theorem revoked_key_is_reused :
  let '(o, files, w) := provision_local calm id {| lf_key := Some (line "ak_local_0"); lf_runner_env := None |}
    revoked_world in
  o = Ret tt /\ lf_key files = Some (line "ak_local_0") /\
  (authenticate calm id (with_key "ak_local_0" (request_of None)) w).1 =
    Throw (swift_error UNAUTHORIZED "Invalid or revoked API key").
Proof. by vm_compute. Qed.
