(* ===== verification/Gateway.v ===== *)
(** The streaming gateway (packages/gateway/src): connections, fanout
    channels, the session bridge with its replay buffers, heartbeats, inbound
    messages and the stream route.

    A socket is a number; what the code does to it is kept in a record: the
    arguments of [ws.send], and the code it was closed with.  Whether a send
    throws is a property of the socket. *)
From S2P Require Import Prelude Json Shared Context.

Record Socket := {
  ws_open : bool;                  (* readyState === OPEN *)
  ws_throws : bool;                (* send throws *)
  ws_sent : list jsval;            (* the values sent, before stringify *)
  ws_closed : option Z;            (* close code *)
  ws_terminated : bool }.

Definition fresh_socket : Socket :=
  {| ws_open := true; ws_throws := false; ws_sent := []; ws_closed := None;
     ws_terminated := false |}.

Definition push_sent (v : jsval) (k : Socket) : Socket :=
  {| ws_open := ws_open k; ws_throws := ws_throws k; ws_sent := ws_sent k ++ [v];
     ws_closed := ws_closed k; ws_terminated := ws_terminated k |}.
Definition close_socket (code : Z) (k : Socket) : Socket :=
  {| ws_open := false; ws_throws := ws_throws k; ws_sent := ws_sent k;
     ws_closed := Some (ws_closed k ?? code); ws_terminated := ws_terminated k |}.
Definition terminate_socket (k : Socket) : Socket :=
  {| ws_open := false; ws_throws := ws_throws k; ws_sent := ws_sent k;
     ws_closed := ws_closed k; ws_terminated := true |}.

(** What a socket would receive now. *)
Definition sendable (k : Socket) : bool := ws_open k && negb (ws_throws k).

(** ** Connections (connection-manager.ts) *)
Module ConnectionManager.

(** The sets of sockets, in insertion order, and the sockets themselves. *)
Record Connections := {
  sessions : gmap string (list nat);
  sockets : gmap nat Socket }.

Definition set_sockets (m : gmap nat Socket) (c : Connections) : Connections :=
  {| sessions := sessions c; sockets := m |}.
Definition set_sessions (m : gmap string (list nat)) (c : Connections) : Connections :=
  {| sessions := m; sockets := sockets c |}.

Definition empty : Connections := {| sessions := ∅; sockets := ∅ |}.

Definition add (sessionId : string) (ws : nat) (c : Connections) : Connections :=
  let set := sessions c !! sessionId ?? [] in
  let set := if bool_decide (ws ∈ set) then set else set ++ [ws] in
  set_sessions (<[sessionId := set]> (sessions c)) c.

Definition remove (sessionId : string) (ws : nat) (c : Connections) : Connections :=
  match sessions c !! sessionId with
  | None => c
  | Some set =>
      match List.filter (fun w => negb (Nat.eqb w ws)) set with
      | [] => set_sessions (delete sessionId (sessions c)) c
      | set => set_sessions (<[sessionId := set]> (sessions c)) c
      end
  end.

Definition safeSend (sessionId : string) (ws : nat) (data : jsval) (c : Connections) : Connections :=
  match sockets c !! ws with
  | Some k =>
      if sendable k then set_sockets (<[ws := push_sent data k]> (sockets c)) c
      else remove sessionId ws c
  | None => remove sessionId ws c
  end.

Definition getConnections (sessionId : string) (c : Connections) : list nat :=
  sessions c !! sessionId ?? [].

(** A loop over the session's set: a send only ever removes the socket it is
    for, so the sockets it visits are those that were there. *)
Definition send_all (sessionId : string) (data : jsval) (c : Connections) : Connections :=
  fold_left (fun c ws => safeSend sessionId ws data c) (getConnections sessionId c) c.

Definition broadcast (sessionId : string) (event : jsval) (c : Connections) : Connections :=
  send_all sessionId event c.

Definition sendTo (sessionId : string) (ws : nat) (data : jsval) (c : Connections) : Connections :=
  safeSend sessionId ws data c.

Definition isConnected (sessionId : string) (c : Connections) : bool :=
  match sessions c !! sessionId with Some set => (0 <? length set)%nat | None => false end.

Definition connectionCount (c : Connections) : nat :=
  map_fold (fun _ set n => length set + n)%nat 0%nat (sessions c).

Definition sessionCount (c : Connections) : nat := size (sessions c).

Definition closeAll (code : Z) (c : Connections) : Connections :=
  let all := concat (map snd (map_to_list (sessions c))) in
  {| sessions := ∅;
     sockets := fold_left (fun m ws => alter (close_socket code) ws m) all (sockets c) |}.

(** Sets are kept without duplicates and never empty. *)
Definition wf (c : Connections) : Prop :=
  forall sid set, sessions c !! sid = Some set -> set <> [] /\ NoDup set.

(** The socket is registered for the session. *)
Definition connected (c : Connections) (sid : string) (ws : nat) : Prop := ws ∈ getConnections sid c.

#[global] Instance connected_dec c sid ws : Decision (connected c sid ws).
Proof. unfold connected. apply _. Defined.

Lemma connected_add sid ws c sid' ws' :
  connected (add sid ws c) sid' ws' <-> (sid' = sid /\ ws' = ws) \/ connected c sid' ws'.
Proof.
  unfold connected, getConnections, add. simpl. rewrite lookup_insert.
  case_decide as E; [subst|naive_solver]. case_bool_decide as Hin.
  - split; [by right|]. by intros [[_ ->]|H].
  - simpl. rewrite elem_of_app, list_elem_of_singleton. naive_solver.
Qed.

Lemma connected_remove sid ws c sid' ws' :
  connected (remove sid ws c) sid' ws' <-> connected c sid' ws' /\ ~ (sid' = sid /\ ws' = ws).
Proof.
  unfold connected, getConnections, remove.
  destruct (sessions c !! sid) as [set|] eqn:E.
  2: { split; [|by intros []]. intros H. split; [done|]. intros [-> ->].
       rewrite E in H. by apply not_elem_of_nil in H. }
  assert (Hf : forall w, w ∈ List.filter (fun w => negb (Nat.eqb w ws)) set <-> w ∈ set /\ w <> ws).
  { intros w. rewrite !list_elem_of_In, filter_In, negb_true_iff, Nat.eqb_neq. done. }
  destruct (decide (sid' = sid)) as [->|Hne].
  - rewrite E. simpl. transitivity (ws' ∈ List.filter (fun w => negb (Nat.eqb w ws)) set).
    + destruct (List.filter _ set); simpl; [rewrite lookup_delete_eq|rewrite lookup_insert_eq]; done.
    + rewrite Hf. naive_solver.
  - destruct (List.filter _ set); simpl;
      [rewrite lookup_delete_ne by done|rewrite lookup_insert_ne by done]; naive_solver.
Qed.

Lemma wf_add sid ws c : wf c -> wf (add sid ws c).
Proof.
  intros Hc sid' set. unfold add. simpl. rewrite lookup_insert. case_decide as E; [|by apply Hc].
  intros [= <-]. destruct (sessions c !! sid) as [set|] eqn:Es; simpl.
  - destruct (Hc sid set Es) as [Hn Hd]. case_bool_decide; [done|]. split; [by destruct set|].
    apply NoDup_app. split_and!; [done|set_solver|apply NoDup_singleton].
  - split; [done|apply NoDup_singleton].
Qed.

Lemma wf_remove sid ws c : wf c -> wf (remove sid ws c).
Proof.
  intros Hc sid' set'. unfold remove. destruct (sessions c !! sid) as [set|] eqn:E; [|apply Hc].
  destruct (List.filter _ set) as [|w ws'] eqn:Ef; simpl.
  - rewrite lookup_delete. case_decide; [done|apply Hc].
  - rewrite lookup_insert. case_decide; [|apply Hc]. intros [= <-]. split; [done|].
    rewrite <- Ef. apply NoDup_ListNoDup, List.NoDup_filter, NoDup_ListNoDup. by eapply Hc.
Qed.

(** *** What a loop of sends does *)

Definition can_send (c : Connections) (ws : nat) : bool :=
  match sockets c !! ws with Some k => sendable k | None => false end.

Lemma safeSend_socket sid ws d c ws' :
  sockets (safeSend sid ws d c) !! ws' =
  if decide (ws' = ws /\ can_send c ws = true) then push_sent d <$> sockets c !! ws'
  else sockets c !! ws'.
Proof.
  assert (Hr : sockets (remove sid ws c) = sockets c).
  { unfold remove. destruct (sessions c !! sid); [|done]. by destruct (List.filter _ _). }
  unfold safeSend, can_send. destruct (sockets c !! ws) as [k|] eqn:E.
  - destruct (sendable k); simpl; [|rewrite Hr; case_decide; naive_solver].
    rewrite lookup_insert. case_decide as H1; case_decide as H2; try naive_solver.
    subst. by rewrite E.
  - rewrite Hr. case_decide; naive_solver.
Qed.

Lemma safeSend_connected sid ws d c sid' ws' :
  connected (safeSend sid ws d c) sid' ws' <->
  connected c sid' ws' /\ ~ (sid' = sid /\ ws' = ws /\ can_send c ws = false).
Proof.
  unfold safeSend, can_send. destruct (sockets c !! ws) as [k|]; [destruct (sendable k)|].
  - unfold connected, getConnections. simpl. naive_solver.
  - rewrite connected_remove. naive_solver.
  - rewrite connected_remove. naive_solver.
Qed.

Lemma safeSend_can_send sid ws d c ws' : can_send (safeSend sid ws d c) ws' = can_send c ws'.
Proof.
  unfold can_send. rewrite safeSend_socket. case_decide; [|done].
  by destruct (sockets c !! ws').
Qed.

Lemma wf_safeSend sid ws d c : wf c -> wf (safeSend sid ws d c).
Proof.
  intros Hc. unfold safeSend. destruct (sockets c !! ws) as [k|]; [destruct (sendable k)|];
    [exact Hc|by apply wf_remove..].
Qed.

Abbreviation sends sid d := (fold_left (fun c ws => safeSend sid ws d c)).

Lemma sends_can_send sid d l c ws : can_send (sends sid d l c) ws = can_send c ws.
Proof.
  revert c. induction l as [|w l IH]; intros c; simpl; [done|]. by rewrite IH, safeSend_can_send.
Qed.

Lemma sends_socket sid d l c ws :
  NoDup l ->
  sockets (sends sid d l c) !! ws =
  if decide (ws ∈ l /\ can_send c ws = true) then push_sent d <$> sockets c !! ws
  else sockets c !! ws.
Proof.
  intros Hl. revert c. induction Hl as [|w l Hw Hl IH]; intros c; cbn [fold_left].
  { case_decide; set_solver. }
  rewrite IH, safeSend_socket, safeSend_can_send. repeat case_decide; set_solver.
Qed.

Lemma sends_connected sid d l c sid' ws :
  connected (sends sid d l c) sid' ws <->
  connected c sid' ws /\ ~ (sid' = sid /\ ws ∈ l /\ can_send c ws = false).
Proof.
  revert c. induction l as [|w l IH]; intros c; simpl; [set_solver|].
  rewrite IH, safeSend_connected, safeSend_can_send. set_solver.
Qed.

Lemma wf_sends sid d l c : wf c -> wf (sends sid d l c).
Proof. revert c. induction l; intros c Hc; simpl; [done|]. by apply IHl, wf_safeSend. Qed.

(** A broadcast reaches every connection of the session that can be sent to,
    once; it drops the others; it touches no other session. *)
Lemma broadcast_socket sid d c ws :
  wf c ->
  sockets (broadcast sid d c) !! ws =
  if decide (connected c sid ws /\ can_send c ws = true) then push_sent d <$> sockets c !! ws
  else sockets c !! ws.
Proof.
  intros Hc. unfold broadcast, send_all. rewrite sends_socket; [done|].
  unfold getConnections. destruct (sessions c !! sid) eqn:E; simpl; [by eapply Hc|constructor].
Qed.

Lemma broadcast_connected sid d c sid' ws :
  connected (broadcast sid d c) sid' ws <->
  connected c sid' ws /\ ~ (sid' = sid /\ can_send c ws = false).
Proof.
  unfold broadcast, send_all. rewrite sends_connected. unfold connected. naive_solver.
Qed.

Lemma wf_broadcast sid d c : wf c -> wf (broadcast sid d c).
Proof. apply wf_sends. Qed.

Lemma broadcast_can_send sid d c ws : can_send (broadcast sid d c) ws = can_send c ws.
Proof. apply sends_can_send. Qed.
End ConnectionManager.

(** ** Wire messages (events.ts, types.ts) *)

Inductive InboundMessage : Type :=
| send_message (content : string)
| ping
| cancel.

(** [InboundMessageSchema.safeParse]: only [cancel] is strict. *)
Definition InboundMessageSchema (v : json) : option InboundMessage :=
  match str_field "type" v with
  | None => None
  | Some ty =>
      if String.eqb ty "send_message" then
        match str_field "content" v with
        | Some content => guard_opt (negb (String.eqb content "")) (Some (send_message content))
        | None => None
        end
      else if String.eqb ty "ping" then Some ping
      else if String.eqb ty "cancel" then guard_opt (only_keys ["type"%string] v) (Some cancel)
      else None
  end.

Definition message_json (m : InboundMessage) : json :=
  match m with
  | send_message content => JObj [("type", JStr "send_message"); ("content", JStr content)]
  | ping => JObj [("type", JStr "ping")]
  | cancel => JObj [("type", JStr "cancel")]
  end%string.

(** [ParseError]'s code; the issues' text is zod's. *)
Definition parseInboundMessage (raw : string) : res string InboundMessage :=
  match parse raw with
  | None => Err "INVALID_JSON"
  | Some v =>
      match InboundMessageSchema v with
      | None => Err "INVALID_SCHEMA"
      | Some m => Ok m
      end
  end%string.

Definition toErrorEvent (code message : string) : json :=
  JObj [("type", JStr "error"); ("code", JStr code); ("message", JStr message)]%string.

(** ** Client tokens (auth.ts)

    The verification of the signature and of the standard claims is jose's: its
    verdict is an argument. *)
Inductive jwt_verdict : Type :=
| jwt_ok (payload : json)
| jwt_expired
| jwt_malformed          (* JWTInvalid, JWTClaimValidationFailed *)
| jwt_bad_signature
| jwt_other.

Inductive AuthErrorCode : Type := TOKEN_EXPIRED | TOKEN_MALFORMED | TOKEN_INVALID | INSUFFICIENT_PERMISSIONS.

Record ClientTokenClaims := {
  ctc_sessionId : string; ctc_agentId : string; ctc_permissions : list string }.

Fixpoint str_list (vs : list json) : option (list string) :=
  match vs with
  | [] => Some []
  | JStr s :: vs => match str_list vs with Some ss => Some (s :: ss) | None => None end
  | _ :: _ => None
  end.

Definition is_number (v : jsval) : bool :=
  match v with Some (JNum _) | Some (JFloat _) => true | _ => false end.
Definition optional_string (v : jsval) : bool :=
  match v with None | Some (JStr _) => true | _ => false end.

(** [ClientTokenClaimsSchema] on the six members that are picked. *)
Definition ClientTokenClaimsSchema (payload : json) : option ClientTokenClaims :=
  match str_field "sessionId" payload, str_field "agentId" payload, field "permissions" payload with
  | Some sid, Some aid, Some (JArr ps) =>
      guard_opt (starts_with "ses_" sid && starts_with "agt_" aid &&
                 is_number (field "exp" payload) && optional_string (field "iss" payload) &&
                 optional_string (field "aud" payload))
        (match str_list ps with
         | Some ps => Some {| ctc_sessionId := sid; ctc_agentId := aid; ctc_permissions := ps |}
         | None => None
         end)
  | _, _, _ => None
  end%string.

Definition validateClientToken (v : jwt_verdict) : res AuthErrorCode ClientTokenClaims :=
  match v with
  | jwt_expired => Err TOKEN_EXPIRED
  | jwt_malformed => Err TOKEN_MALFORMED
  | jwt_bad_signature | jwt_other => Err TOKEN_INVALID
  | jwt_ok payload =>
      match ClientTokenClaimsSchema payload with
      | Some c => Ok c
      | None => Err TOKEN_MALFORMED
      end
  end.

Definition close_code (e : AuthErrorCode) : Z :=
  match e with TOKEN_EXPIRED => 4001 | TOKEN_MALFORMED => 4002 | _ => 4003 end.

(** ** Fanout channels (channel-registry.ts, and the handlers of
    [createRedisPubSub]) *)
Module ChannelRegistry.

Record Channels := {
  instanceId : string;
  refs : gmap string nat;
  handlers : gset string;            (* channels with a handler *)
  subscribed : gset string }.        (* channels Redis delivers *)

Definition create (id : string) : Channels :=
  {| instanceId := id; refs := ∅; handlers := ∅; subscribed := ∅ |}.

Definition channel (sessionId : string) : string := "session:" +:+ sessionId.

Definition set_refs (m : gmap string nat) (r : Channels) : Channels :=
  {| instanceId := instanceId r; refs := m; handlers := handlers r; subscribed := subscribed r |}.

(** [subscribe] sets the handler, then asks Redis, which may refuse. *)
Definition redis_subscribe (ch : string) (refuses : bool) (r : Channels) : Channels :=
  {| instanceId := instanceId r; refs := refs r; handlers := {[ch]} ∪ handlers r;
     subscribed := if refuses then subscribed r else {[ch]} ∪ subscribed r |}.
Definition redis_unsubscribe (ch : string) (r : Channels) : Channels :=
  {| instanceId := instanceId r; refs := refs r; handlers := handlers r ∖ {[ch]};
     subscribed := subscribed r ∖ {[ch]} |}.

(** Whether it throws, and the state in both cases. *)
Definition acquire (sessionId : string) (refuses : bool) (r : Channels) : bool * Channels :=
  let ch := channel sessionId in
  match refs r !! ch with
  | Some n => (false, set_refs (<[ch := S n]> (refs r)) r)
  | None => (refuses, redis_subscribe ch refuses (set_refs (<[ch := 1%nat]> (refs r)) r))
  end.

Definition release (sessionId : string) (r : Channels) : Channels :=
  let ch := channel sessionId in
  match refs r !! ch with
  | None => r
  | Some n =>
      if (0 <? n - 1)%nat then set_refs (<[ch := (n - 1)%nat]> (refs r)) r
      else redis_unsubscribe ch (set_refs (delete ch (refs r)) r)
  end.

Definition refCount (sessionId : string) (r : Channels) : nat := refs r !! channel sessionId ?? 0%nat.

(** The message [publish] gives to Redis. *)
Definition envelope (r : Channels) (event : ChatEvent) : json :=
  JObj [("origin", JStr (instanceId r)); ("event", event_json event)]%string.

Definition publish (r : Channels) (event : ChatEvent) : string := stringify (envelope r event).

(** The handler of a subscription: the event it passes to [broadcast], if any. *)
Definition forward (r : Channels) (message : string) : option jsval :=
  match parse message with
  | None => None
  | Some v =>
      if negb (truthy v) then None
      else match field "origin" v with
           | Some (JStr o) => if String.eqb o (instanceId r) then None else Some (field "event" v)
           | _ => Some (field "event" v)
           end
  end.

(** A subscription per channel in use, and nothing else. *)
Definition wf (r : Channels) : Prop :=
  (forall ch n, refs r !! ch = Some n -> 0 < n) /\
  handlers r = dom (refs r) /\ subscribed r = dom (refs r).

Lemma channel_inj a b : channel a = channel b -> a = b.
Proof. unfold channel. simpl. by intros [= H]. Qed.

Lemma refCount_acquire sid sid' r :
  refCount sid' (acquire sid false r).2 =
  if decide (sid = sid') then S (refCount sid' r) else refCount sid' r.
Proof.
  unfold refCount, acquire. destruct (refs r !! channel sid) as [n|] eqn:E; simpl;
    rewrite lookup_insert; case_decide as H1; case_decide as H2; try (by subst);
    try (by apply channel_inj in H1); subst; by rewrite E.
Qed.

Lemma refCount_release sid sid' r :
  refCount sid' (release sid r) =
  if decide (sid = sid') then refCount sid' r - 1 else refCount sid' r.
Proof.
  unfold refCount, release. destruct (refs r !! channel sid) as [n|] eqn:E; simpl.
  - destruct (Nat.ltb_spec 0 (n - 1)); simpl; [rewrite lookup_insert|rewrite lookup_delete];
      case_decide as H1; case_decide as H2; subst; try done; try (by apply channel_inj in H1);
      rewrite ?E; simpl; lia.
  - case_decide as H; [subst; by rewrite E|done].
Qed.

Lemma wf_acquire sid r : wf r -> wf (acquire sid false r).2.
Proof.
  intros (Hn & Hh & Hs). unfold acquire. destruct (refs r !! channel sid) as [n|] eqn:E; simpl.
  - split_and!; simpl.
    + intros ch m. rewrite lookup_insert. case_decide; [intros [= <-]; lia|apply Hn].
    + rewrite dom_insert_L, Hh. apply elem_of_dom_2 in E. set_solver.
    + rewrite dom_insert_L, Hs. apply elem_of_dom_2 in E. set_solver.
  - split_and!; simpl; [|by rewrite dom_insert_L, Hh|by rewrite dom_insert_L, Hs].
    intros ch m. rewrite lookup_insert. case_decide; [intros [= <-]; lia|apply Hn].
Qed.

Lemma wf_release sid r : wf r -> wf (release sid r).
Proof.
  intros (Hn & Hh & Hs). unfold release. destruct (refs r !! channel sid) as [n|] eqn:E; [|done].
  destruct (Nat.ltb_spec 0 (n - 1)); split_and!; simpl.
  - intros ch m. rewrite lookup_insert. case_decide; [intros [= <-]; lia|apply Hn].
  - rewrite dom_insert_L, Hh. apply elem_of_dom_2 in E. set_solver.
  - rewrite dom_insert_L, Hs. apply elem_of_dom_2 in E. set_solver.
  - intros ch m. rewrite lookup_delete. case_decide; [done|apply Hn].
  - by rewrite dom_delete_L, Hh.
  - by rewrite dom_delete_L, Hs.
Qed.

(** A peer's event comes out as it went in; an instance's own is dropped. *)
Lemma forward_publish r r' e :
  event_wf e = true ->
  forward r' (publish r e) =
  if String.eqb (instanceId r) (instanceId r') then None else Some (Some (event_json e)).
Proof.
  intros He. unfold forward, publish. rewrite parse_stringify; [done|].
  unfold envelope. cbn [Json.wf forallb map fst snd]. rewrite (event_json_wf e He). done.
Qed.
End ChannelRegistry.

(** ** Session bridge (session-bridge.ts) *)
Module SessionBridge.
Import ConnectionManager.

Definition DEFAULT_MAX_REPLAY_BUFFER_SIZE : nat := 200.

Record ReplayBuffer := { rb_runId : string; rb_events : list ChatEvent }.

Record Bridge := {
  cm : ConnectionManager.Connections;
  channels : ChannelRegistry.Channels;
  replayBuffers : gmap string ReplayBuffer;
  maxReplayBufferSize : nat;
  published : list (string * string) }.        (* channel and payload *)

Definition set_cm c b := {| cm := c; channels := channels b; replayBuffers := replayBuffers b;
  maxReplayBufferSize := maxReplayBufferSize b; published := published b |}.
Definition set_buffers m b := {| cm := cm b; channels := channels b; replayBuffers := m;
  maxReplayBufferSize := maxReplayBufferSize b; published := published b |}.
Definition add_published p b := {| cm := cm b; channels := channels b;
  replayBuffers := replayBuffers b; maxReplayBufferSize := maxReplayBufferSize b;
  published := published b ++ [p] |}.

(** The tracking of the run in its buffer. *)
Definition buffer_event (max : nat) (old : option ReplayBuffer) (event : ChatEvent) : ReplayBuffer :=
  let fresh := {| rb_runId := event_runId event; rb_events := [] |} in
  let buffer := match old with
                | Some b => if String.eqb (rb_runId b) (event_runId event) then b else fresh
                | None => fresh
                end in
  if (length (rb_events buffer) <? max)%nat
  then {| rb_runId := rb_runId buffer; rb_events := rb_events buffer ++ [event] |}
  else buffer.

(** The sink given to [runtime.start]. *)
Definition onEvent (sessionId : string) (event : ChatEvent) (b : Bridge) : Bridge :=
  let b := if String.eqb (event_runId event) "" then b
           else set_buffers (<[sessionId := buffer_event (maxReplayBufferSize b)
                                 (replayBuffers b !! sessionId) event]> (replayBuffers b)) b in
  let b := set_cm (broadcast sessionId (Some (event_json event)) (cm b)) b in
  add_published (ChannelRegistry.channel sessionId, ChannelRegistry.publish (channels b) event) b.

Definition clearReplayBuffer (sessionId : string) (b : Bridge) : Bridge :=
  set_buffers (delete sessionId (replayBuffers b)) b.

(** [handleSendMessage] once [runtime.start] has resolved. *)
Definition run_drained (sessionId : string) (b : Bridge) : Bridge := clearReplayBuffer sessionId b.

(** Its [catch] block. *)
Definition run_rejected (sessionId : string) (senderWs : nat) (emitted : bool) (err : error)
    (b : Bridge) : Bridge :=
  let b := clearReplayBuffer sessionId b in
  let to_sender code message :=
    set_cm (safeSend sessionId senderWs (Some (toErrorEvent code message)) (cm b)) b in
  match err with
  | SwiftAgentError CONFLICT message _ => to_sender "RUN_IN_PROGRESS" message
  | _ =>
      let message := error_message err in
      if emitted
      then set_cm (send_all sessionId (Some (toErrorEvent "RUN_FAILED" message)) (cm b)) b
      else to_sender "RUNTIME_ERROR" message
  end%string.

(** The run that [handleCancel] passes to [requestCancel], if any. *)
Definition handleCancel (sessionId : string) (b : Bridge) : option string :=
  match replayBuffers b !! sessionId with
  | Some buffer => if String.eqb (rb_runId buffer) "" then None else Some (rb_runId buffer)
  | None => None
  end.

Definition replayEvents (sessionId : string) (ws : nat) (b : Bridge) : Bridge :=
  match replayBuffers b !! sessionId with
  | None => b
  | Some buffer =>
      set_cm (fold_left (fun c e => sendTo sessionId ws (Some (event_json e)) c)
                (rb_events buffer) (cm b)) b
  end.

Definition hasActiveRun (sessionId : string) (b : Bridge) : bool :=
  bool_decide (is_Some (replayBuffers b !! sessionId)).

(** What the stream route does of an authenticated socket, before it awaits
    anything: register it, then replay. *)
Definition join (sessionId : string) (ws : nat) (b : Bridge) : Bridge :=
  replayEvents sessionId ws (set_cm (add sessionId ws (cm b)) b).

Definition run_events (sessionId : string) (es : list ChatEvent) (b : Bridge) : Bridge :=
  fold_left (fun b e => onEvent sessionId e b) es b.

(** The values sent to a socket. *)
Definition sent (ws : nat) (b : Bridge) : list jsval :=
  match sockets (cm b) !! ws with Some k => ws_sent k | None => [] end.

Definition payload (es : list ChatEvent) : list jsval := map (fun e => Some (event_json e)) es.

(** *** What reaches a socket *)

Lemma buffer_cm b m : cm (set_buffers m b) = cm b.
Proof. done. Qed.

Lemma onEvent_cm sid e b : cm (onEvent sid e b) = broadcast sid (Some (event_json e)) (cm b).
Proof. unfold onEvent. by destruct (String.eqb _ _). Qed.

Lemma sent_onEvent sid e b ws :
  wf (cm b) ->
  sent ws (onEvent sid e b) =
  if decide (connected (cm b) sid ws /\ can_send (cm b) ws = true)
  then sent ws b ++ [Some (event_json e)] else sent ws b.
Proof.
  intros Hw. unfold sent. rewrite onEvent_cm, broadcast_socket by done.
  case_decide as H; [|done]. destruct H as [_ H]. unfold can_send in H.
  by destruct (sockets (cm b) !! ws).
Qed.

Lemma onEvent_live sid e b ws :
  connected (cm b) sid ws -> can_send (cm b) ws = true ->
  connected (cm (onEvent sid e b)) sid ws /\ can_send (cm (onEvent sid e b)) ws = true.
Proof.
  intros Hc Hs. rewrite onEvent_cm, broadcast_connected, broadcast_can_send.
  split; [|done]. split; [done|]. intros [_ H]. congruence.
Qed.

Lemma wf_onEvent sid e b : wf (cm b) -> wf (cm (onEvent sid e b)).
Proof. rewrite onEvent_cm. apply wf_broadcast. Qed.

Lemma wf_run_events sid es b : wf (cm b) -> wf (cm (run_events sid es b)).
Proof.
  unfold run_events. revert b. induction es as [|e es IH]; intros b H; simpl; [done|].
  by apply IH, wf_onEvent.
Qed.

(** A connected socket that can be sent to gets every event, in order. *)
Lemma sent_run_events sid es b ws :
  wf (cm b) -> connected (cm b) sid ws -> can_send (cm b) ws = true ->
  sent ws (run_events sid es b) = sent ws b ++ payload es.
Proof.
  unfold run_events. revert b. induction es as [|e es IH]; intros b Hw Hc Hs; simpl.
  { by rewrite app_nil_r. }
  destruct (onEvent_live sid e b ws Hc Hs) as [Hc' Hs'].
  rewrite IH by (done || by apply wf_onEvent). rewrite sent_onEvent by done.
  rewrite decide_True by done. by rewrite <- app_assoc.
Qed.

(** A socket that is not registered gets nothing. *)
Lemma sent_unconnected sid es b ws :
  wf (cm b) -> ~ connected (cm b) sid ws ->
  sent ws (run_events sid es b) = sent ws b /\
  sockets (cm (run_events sid es b)) !! ws = sockets (cm b) !! ws /\
  ~ connected (cm (run_events sid es b)) sid ws.
Proof.
  unfold run_events. revert b. induction es as [|e es IH]; intros b Hw Hc; simpl; [done|].
  assert (Hn : ~ connected (cm (onEvent sid e b)) sid ws).
  { rewrite onEvent_cm, broadcast_connected. by intros [? _]. }
  destruct (IH (onEvent sid e b)) as (H1 & H2 & H3); [by apply wf_onEvent|done|].
  assert (Hk : sockets (cm (onEvent sid e b)) !! ws = sockets (cm b) !! ws).
  { rewrite onEvent_cm, broadcast_socket by done. by rewrite decide_False by by intros [? _]. }
  split_and!; [|congruence|done]. rewrite H1. unfold sent. by rewrite Hk.
Qed.

(** The buffer of a run holds its first events. *)
Lemma onEvent_buffer sid e b :
  event_runId e <> ""%string ->
  replayBuffers (onEvent sid e b) !! sid =
  Some (buffer_event (maxReplayBufferSize b) (replayBuffers b !! sid) e).
Proof.
  intros H. unfold onEvent. rewrite (proj2 (String.eqb_neq _ _) H). simpl.
  by rewrite lookup_insert_eq.
Qed.

Lemma onEvent_max sid e b : maxReplayBufferSize (onEvent sid e b) = maxReplayBufferSize b.
Proof. unfold onEvent. by destruct (String.eqb _ _). Qed.

Lemma run_events_buffer sid r es es0 b :
  r <> ""%string -> Forall (fun e => event_runId e = r) es ->
  replayBuffers b !! sid = Some {| rb_runId := r; rb_events := take (maxReplayBufferSize b) es0 |} ->
  replayBuffers (run_events sid es b) !! sid =
  Some {| rb_runId := r; rb_events := take (maxReplayBufferSize b) (es0 ++ es) |}.
Proof.
  unfold run_events. intros Hr Hes. revert b es0. induction Hes as [|e es He Hes IH]; intros b es0 Hb.
  { simpl. by rewrite app_nil_r. }
  simpl. rewrite (cons_middle e es0 es), app_assoc, <- (onEvent_max sid e b). apply IH.
  rewrite onEvent_buffer by congruence. rewrite Hb, onEvent_max. unfold buffer_event. simpl.
  rewrite He, String.eqb_refl. simpl. rewrite length_take, take_app.
  destruct (Nat.ltb_spec (Nat.min (maxReplayBufferSize b) (length es0)) (maxReplayBufferSize b)).
  - rewrite take_ge by lia. simpl. by rewrite take_ge by (simpl; lia).
  - by rewrite (proj2 (Nat.sub_0_le (maxReplayBufferSize b) (length es0))) by lia; rewrite app_nil_r.
Qed.

Lemma buffer_run_events sid r es b :
  r <> ""%string -> Forall (fun e => event_runId e = r) es -> es <> [] ->
  replayBuffers b !! sid = None ->
  replayBuffers (run_events sid es b) !! sid =
  Some {| rb_runId := r; rb_events := take (maxReplayBufferSize b) es |}.
Proof.
  intros Hr Hes Hne Hb. destruct es as [|e es]; [done|]. inversion_clear Hes as [|? ? He Hes'].
  unfold run_events. simpl. rewrite <- (onEvent_max sid e b).
  apply (run_events_buffer sid r es [e] (onEvent sid e b)); [done|done|].
  rewrite onEvent_buffer by congruence. rewrite Hb, onEvent_max. unfold buffer_event. simpl.
  rewrite He. destruct (maxReplayBufferSize b); simpl; by rewrite ?take_nil.
Qed.

(** Joining: the buffered events, once, and registration. *)
Lemma sends_one_sent sid ws es c k :
  sockets c !! ws = Some k -> sendable k = true ->
  let c' := fold_left (fun c e => sendTo sid ws (Some (event_json e)) c) es c in
  exists k', sockets c' !! ws = Some k' /\ sendable k' = true /\
    ws_sent k' = ws_sent k ++ payload es /\ sessions c' = sessions c.
Proof.
  revert c k. induction es as [|e es IH]; intros c k Hk Hs; cbn [fold_left].
  { exists k. by rewrite app_nil_r. }
  destruct (IH (sendTo sid ws (Some (event_json e)) c) (push_sent (Some (event_json e)) k))
    as (k' & H1 & H2 & H3 & H4).
  - unfold sendTo. rewrite safeSend_socket. unfold can_send. rewrite Hk, Hs, decide_True by done. done.
  - done.
  - exists k'. split_and!; [done|done| |].
    + rewrite H3. simpl. by rewrite <- app_assoc.
    + rewrite H4. unfold sendTo, safeSend. by rewrite Hk, Hs.
Qed.

Lemma join_sent sid ws b k :
  wf (cm b) -> sockets (cm b) !! ws = Some k -> sendable k = true ->
  let b' := join sid ws b in
  connected (cm b') sid ws /\ can_send (cm b') ws = true /\ wf (cm b') /\
  maxReplayBufferSize b' = maxReplayBufferSize b /\ replayBuffers b' = replayBuffers b /\
  sent ws b' = ws_sent k ++
    payload (match replayBuffers b !! sid with Some rb => rb_events rb | None => [] end).
Proof.
  intros Hw Hk Hs. unfold join, replayEvents. simpl.
  assert (Hc : connected (add sid ws (cm b)) sid ws) by (apply connected_add; by left).
  destruct (replayBuffers b !! sid) as [rb|] eqn:E; simpl.
  - destruct (sends_one_sent sid ws (rb_events rb) (add sid ws (cm b)) k Hk Hs)
      as (k' & H1 & H2 & H3 & H4).
    split_and!; try done.
    + unfold connected, getConnections. by rewrite H4.
    + unfold can_send. by rewrite H1.
    + intros sid' set. rewrite H4. by apply wf_add.
    + unfold sent. simpl. by rewrite H1.
  - split_and!; try done; [unfold can_send; simpl; by rewrite Hk|by apply wf_add|].
    unfold sent. simpl. by rewrite Hk, app_nil_r.
Qed.
(** ** What happens at a bridge, in any order

    Events of runs, sockets that join, leave, are answered or change their state,
    and the two ends of [handleSendMessage]. *)
Inductive bridge_op : Type :=
| b_emits (sid : string) (e : ChatEvent)
| b_joins (sid : string) (ws : nat)
| b_leaves (sid : string) (ws : nat)
| b_answers (sid : string) (ws : nat) (v : jsval)           (* a pong, or an error about its frame *)
| b_turns (ws : nat) (k : Socket)                           (* the socket opens, breaks or closes *)
| b_drains (sid : string)
| b_rejects (sid : string) (senderWs : nat) (emitted : bool) (err : error).

Definition bridge_step (b : Bridge) (op : bridge_op) : Bridge :=
  match op with
  | b_emits sid e => onEvent sid e b
  | b_joins sid ws => join sid ws b
  | b_leaves sid ws => set_cm (remove sid ws (cm b)) b
  | b_answers sid ws v => set_cm (sendTo sid ws v (cm b)) b
  | b_turns ws k => set_cm (set_sockets (<[ws := k]> (sockets (cm b))) (cm b)) b
  | b_drains sid => run_drained sid b
  | b_rejects sid ws emitted err => run_rejected sid ws emitted err b
  end.

Definition bridge_run (ops : list bridge_op) (b : Bridge) : Bridge := fold_left bridge_step ops b.

(** The step is not about this socket. *)
Definition elsewhere (ws : nat) (op : bridge_op) : Prop :=
  match op with
  | b_joins _ w | b_leaves _ w | b_answers _ w _ | b_turns w _ | b_rejects _ w _ _ => w <> ws
  | b_emits _ _ | b_drains _ => True
  end.

Definition events_of (sid : string) (ops : list bridge_op) : list ChatEvent :=
  flat_map (fun op => match op with b_emits s e => if String.eqb s sid then [e] else [] | _ => [] end) ops.

(** What is sent to all sockets of the session: the events, and the failure of a
    run that had emitted some. *)
Definition broadcast_of (sid : string) (op : bridge_op) : list jsval :=
  match op with
  | b_emits s e => if String.eqb s sid then [Some (event_json e)] else []
  | b_rejects s _ true (SwiftAgentError CONFLICT _ _) => []
  | b_rejects s _ true err =>
      if String.eqb s sid then [Some (toErrorEvent "RUN_FAILED" (error_message err))] else []
  | _ => []
  end%string.

(** What a step does to the connections, as seen from a socket it is not about. *)
Definition seen_by (ws : nat) (c c' : Connections) (frame : option (string * jsval)) : Prop :=
  wf c' /\ (forall s, connected c' s ws -> connected c s ws) /\
  (can_send c ws = true -> forall s, connected c s ws -> connected c' s ws) /\
  sockets c' !! ws =
    match frame with
    | Some (sid, d) => if decide (connected c sid ws /\ can_send c ws = true) then push_sent d <$> sockets c !! ws
                       else sockets c !! ws
    | None => sockets c !! ws
    end.

Lemma seen_by_refl ws c : wf c -> seen_by ws c c None.
Proof. intros. unfold seen_by. by split_and!. Qed.

Lemma seen_broadcast ws c sid d : wf c -> seen_by ws c (broadcast sid d c) (Some (sid, d)).
Proof.
  intros Hw. unfold seen_by; split_and!; [by apply wf_broadcast| | |by apply broadcast_socket].
  - intros s. rewrite broadcast_connected. by intros [].
  - intros Hs s Hc. rewrite broadcast_connected. split; [done|]. intros [_ H]. congruence.
Qed.

Lemma seen_send ws c sid w d : w <> ws -> wf c -> seen_by ws c (safeSend sid w d c) None.
Proof.
  intros Hn Hw. unfold seen_by; split_and!; [by apply wf_safeSend| | |].
  - intros s. rewrite safeSend_connected. by intros [].
  - intros Hs s Hc. rewrite safeSend_connected. split; [done|]. by intros (_ & E & _).
  - rewrite safeSend_socket. rewrite decide_False; [done|]. by intros [E _].
Qed.

Lemma seen_by_trans ws c1 c2 c3 : seen_by ws c1 c2 None -> seen_by ws c2 c3 None -> seen_by ws c1 c3 None.
Proof.
  intros (_ & A2 & A3 & A4) (B1 & B2 & B3 & B4). unfold seen_by; split_and!; [done|auto| |by rewrite B4].
  intros Hs s Hc. apply B3; [|by apply A3]. unfold can_send in *. by rewrite A4.
Qed.

Lemma seen_join ws c sid w es :
  w <> ws -> wf c ->
  seen_by ws c (fold_left (fun c e => sendTo sid w (Some (event_json e)) c) es (add sid w c)) None.
Proof.
  intros Hn Hw. assert (H : seen_by ws c (add sid w c) None).
  { unfold seen_by; split_and!; [by apply wf_add| | |done].
    - intros s. rewrite connected_add. by intros [[_ E]|H].
    - intros _ s H. apply connected_add. by right. }
  revert H. generalize (add sid w c). induction es as [|e es IH]; intros c1 H; simpl; [done|]. apply IH.
  eapply seen_by_trans; [exact H|]. apply seen_send; [done|apply H].
Qed.

Definition frame_of (op : bridge_op) : option (string * jsval) :=
  match op with
  | b_emits s e => Some (s, Some (event_json e))
  | b_rejects s _ true (SwiftAgentError CONFLICT _ _) => None
  | b_rejects s _ true err => Some (s, Some (toErrorEvent "RUN_FAILED" (error_message err)))
  | _ => None
  end%string.

Lemma seen_step ws op b :
  elsewhere ws op -> wf (cm b) -> seen_by ws (cm b) (cm (bridge_step b op)) (frame_of op).
Proof.
  intros He Hw. destruct op as [sid e|sid w|sid w|sid w v|w k|sid|sid w emitted err]; cbn [bridge_step frame_of elsewhere set_cm cm] in *.
  - rewrite onEvent_cm. by apply seen_broadcast.
  - unfold join, replayEvents. simpl. destruct (replayBuffers b !! sid) as [rb|]; simpl;
      [by apply seen_join|by apply (seen_join ws (cm b) sid w [])].
  - unfold seen_by; split_and!; [by apply wf_remove| | |].
    + intros s. rewrite connected_remove. by intros [].
    + intros _ s Hc. rewrite connected_remove. split; [done|]. by intros [_ E].
    + unfold remove. destruct (sessions (cm b) !! sid); [|done]. by destruct (List.filter _ _).
  - by apply seen_send.
  - unfold seen_by; split_and!; [exact Hw|done|done|]. simpl. by rewrite lookup_insert_ne.
  - by apply seen_by_refl.
  - unfold run_rejected. destruct err as [[] m st|m]; destruct emitted; simpl; try (by apply seen_send);
      by apply seen_broadcast.
Qed.

(** *** A socket that is not there yet *)

Definition absent (b : Bridge) (ws : nat) (k : Socket) : Prop :=
  wf (cm b) /\ sockets (cm b) !! ws = Some k /\ forall s, ~ connected (cm b) s ws.

Lemma absent_step ws k op b : elsewhere ws op -> absent b ws k -> absent (bridge_step b op) ws k.
Proof.
  intros He (Hw & Hk & Hn). destruct (seen_step ws op b He Hw) as (H1 & H2 & _ & H4).
  unfold absent. split_and!; [done| |by intros s H%H2; apply (Hn s)].
  rewrite H4. destruct (frame_of op) as [[s d]|]; [|done]. rewrite decide_False; [done|]. intros [H _]. by apply (Hn s).
Qed.

(** *** The session's buffer, while one run is active *)

(** No message of the session is refused or ends, and its events are the run's. *)
Definition keeps_buffer (sid r : string) (op : bridge_op) : Prop :=
  match op with
  | b_emits s e => s = sid -> event_runId e = r
  | b_drains s | b_rejects s _ _ _ => s <> sid
  | _ => True
  end.

Definition buffered (max : nat) (r : string) (es : list ChatEvent) : option ReplayBuffer :=
  match es with [] => None | _ => Some {| rb_runId := r; rb_events := take max es |} end.

Lemma buffered_step sid r es op b :
  r <> ""%string -> keeps_buffer sid r op ->
  replayBuffers b !! sid = buffered (maxReplayBufferSize b) r es ->
  maxReplayBufferSize (bridge_step b op) = maxReplayBufferSize b /\
  replayBuffers (bridge_step b op) !! sid = buffered (maxReplayBufferSize b) r (es ++ events_of sid [op]).
Proof.
  intros Hr Hk Hb. destruct op as [s e|s w|s w|s w v|w k|s|s w emitted err];
    cbn [bridge_step keeps_buffer events_of flat_map app] in *; rewrite ?app_nil_r; try done.
  - rewrite onEvent_max. split; [done|]. destruct (String.eqb_spec s sid) as [->|Hs]; cbn [app]; rewrite ?app_nil_r.
    + specialize (Hk eq_refl). change (onEvent sid e b) with (run_events sid [e] b). destruct es as [|x es].
      * rewrite (buffer_run_events sid r [e] b) by (done || by repeat constructor). done.
      * apply (run_events_buffer sid r [e] (x :: es)); [done|by repeat constructor|done].
    + rewrite <- Hb. unfold onEvent. destruct (String.eqb _ _); simpl; [done|]. by rewrite lookup_insert_ne.
  - unfold join, replayEvents. simpl. by destruct (replayBuffers b !! s).
  - simpl. by rewrite lookup_delete_ne.
  - assert (E : maxReplayBufferSize (run_rejected s w emitted err b) = maxReplayBufferSize b /\
      replayBuffers (run_rejected s w emitted err b) = delete s (replayBuffers b))
      by (unfold run_rejected; repeat case_match; done).
    destruct E as [-> ->]. by rewrite lookup_delete_ne.
Qed.

Lemma absent_run sid ws r k ops b :
  r <> ""%string -> Forall (elsewhere ws) ops -> Forall (keeps_buffer sid r) ops -> absent b ws k ->
  replayBuffers b !! sid = None ->
  let b' := bridge_run ops b in
  absent b' ws k /\ replayBuffers b' !! sid = buffered (maxReplayBufferSize b) r (events_of sid ops).
Proof.
  intros Hr He Hk Ha Hb b'. cut (absent b' ws k /\ maxReplayBufferSize b' = maxReplayBufferSize b /\
    replayBuffers b' !! sid = buffered (maxReplayBufferSize b) r (events_of sid ops)); [by intros (? & _ & ?)|].
  subst b'. induction ops as [|op ops IH] using rev_ind; [done|]. apply Forall_app in He as [He He1].
  apply Forall_app in Hk as [Hk Hk1]. destruct (IH He Hk) as (H1 & H2 & H3). unfold bridge_run in *.
  rewrite fold_left_app. simpl. rewrite <- H2 in H3.
  destruct (buffered_step sid r _ op _ Hr (Forall_inv Hk1) H3) as [E1 E2].
  split_and!; [by apply absent_step; [apply (Forall_inv He1)|]|congruence|].
  rewrite E2, H2. unfold events_of. by rewrite flat_map_app.
Qed.

(** *** A socket of the session *)

Definition present (b : Bridge) (sid : string) (ws : nat) : Prop :=
  wf (cm b) /\ can_send (cm b) ws = true /\ forall s, connected (cm b) s ws <-> s = sid.

Lemma present_step sid ws op b :
  elsewhere ws op -> present b sid ws ->
  present (bridge_step b op) sid ws /\ sent ws (bridge_step b op) = sent ws b ++ broadcast_of sid op.
Proof.
  intros He (Hw & Hs & Hc). destruct (seen_step ws op b He Hw) as (H1 & H2 & H3 & H4).
  assert (Hf : sockets (cm (bridge_step b op)) !! ws =
    fold_left (fun k d => push_sent d <$> k) (broadcast_of sid op) (sockets (cm b) !! ws)).
  { rewrite H4. destruct op as [s e|s w|s w|s w v|w k|s|s w [] [[] m st|m]]; cbn [frame_of broadcast_of]; try done;
      destruct (String.eqb_spec s sid) as [E|E]; cbn [fold_left];
      first [rewrite decide_True by (split; [by apply Hc|done])|rewrite decide_False by (by intros [H%Hc _])]; done. }
  unfold can_send in Hs. destruct (sockets (cm b) !! ws) as [k|] eqn:Ek; [|done].
  assert (Hk : exists k', sockets (cm (bridge_step b op)) !! ws = Some k' /\ sendable k' = true /\
    ws_sent k' = ws_sent k ++ broadcast_of sid op).
  { rewrite Hf. clear -Hs. generalize (broadcast_of sid op). intros l. revert k Hs.
    induction l as [|d l IH]; intros k Hs; simpl; [exists k; by rewrite app_nil_r|].
    destruct (IH (push_sent d k) Hs) as (k' & E1 & E2 & E3). exists k'. split_and!; [done..|].
    rewrite E3. simpl. by rewrite <- app_assoc. }
  destruct Hk as (k' & E1 & E2 & E3). split; [|unfold sent; by rewrite E1, Ek].
  unfold present. split_and!; [done|unfold can_send; by rewrite E1|]. intros s. split; [by intros H%H2%Hc|].
  intros H. apply H3; [unfold can_send; by rewrite Ek|by apply Hc].
Qed.

Lemma present_join sid ws b k :
  absent b ws k -> sendable k = true -> present (join sid ws b) sid ws.
Proof.
  intros (Hw & Hk & Hn) Hs. destruct (join_sent sid ws b k Hw Hk Hs) as (H1 & H2 & H3 & _).
  split_and!; [done|done|]. intros s. split; [|by intros ->]. unfold join, replayEvents. simpl.
  assert (Hs' : forall es, connected (fold_left (fun c e => sendTo sid ws (Some (event_json e)) c) es
                             (add sid ws (cm b))) s ws -> s = sid).
  { intros es. destruct (sends_one_sent sid ws es (add sid ws (cm b)) k Hk Hs) as (_ & _ & _ & _ & E).
    unfold connected at 1, getConnections. rewrite E. fold (getConnections s (add sid ws (cm b))).
    fold (connected (add sid ws (cm b)) s ws). rewrite connected_add. intros [[-> _]|H]; [done|by apply Hn in H]. }
  destruct (replayBuffers b !! sid) as [rb|]; simpl; [apply Hs'|apply (Hs' [])].
Qed.

Lemma present_run sid ws ops b :
  Forall (elsewhere ws) ops -> present b sid ws ->
  sent ws (bridge_run ops b) = sent ws b ++ flat_map (broadcast_of sid) ops.
Proof.
  intros He Hp. cut (present (bridge_run ops b) sid ws /\
    sent ws (bridge_run ops b) = sent ws b ++ flat_map (broadcast_of sid) ops); [by intros []|].
  unfold bridge_run. induction ops as [|op ops IH] using rev_ind; simpl; [by rewrite app_nil_r|].
  apply Forall_app in He as [He He1]. destruct (IH He) as [H1 H2]. rewrite fold_left_app, flat_map_app. simpl.
  destruct (present_step sid ws op _ (Forall_inv He1) H1) as [H3 H4]. split; [done|].
  by rewrite H4, H2, app_nil_r, app_assoc.
Qed.
End SessionBridge.

(** ** Heartbeats (heartbeat.ts)

    Times are milliseconds since the socket was attached. *)
Module Heartbeat.

Definition DEFAULT_HEARTBEAT_TIMEOUT_MS : Z := 30000.

Record HeartbeatEntry := { alive : bool; timeoutTimer : option Z }.

Record Manager := {
  entries : gmap nat HeartbeatEntry;
  timeoutMs : Z;
  terminated : list nat }.

Definition create (timeoutMs : option Z) : Manager :=
  {| entries := ∅; timeoutMs := timeoutMs ?? DEFAULT_HEARTBEAT_TIMEOUT_MS; terminated := [] |}.

Definition intervalMs (m : Manager) : Z := timeoutMs m / 2.

Definition set_entries es m :=
  {| entries := es; timeoutMs := timeoutMs m; terminated := terminated m |}.
Definition kill ws m :=
  {| entries := entries m; timeoutMs := timeoutMs m; terminated := terminated m ++ [ws] |}.

Definition attach (ws : nat) (m : Manager) : Manager :=
  set_entries (<[ws := {| alive := true; timeoutTimer := None |}]> (entries m)) m.

Definition detach (ws : nat) (m : Manager) : Manager :=
  set_entries (delete ws (entries m)) m.

Definition clear (m : Manager) : Manager := set_entries ∅ m.

Definition on_pong (ws : nat) (m : Manager) : Manager :=
  match entries m !! ws with
  | Some _ => set_entries (<[ws := {| alive := true; timeoutTimer := None |}]> (entries m)) m
  | None => m
  end.

(** The interval's callback at [now]; [ping_throws] when [ws.ping()] throws. *)
Definition sendPing (ws : nat) (now : Z) (ping_throws : bool) (m : Manager) : Manager :=
  match entries m !! ws with
  | None => m
  | Some e =>
      if negb (alive e) then kill ws (detach ws m)
      else if ping_throws then kill ws (detach ws m)
      else set_entries (<[ws := {| alive := false; timeoutTimer := Some (now + timeoutMs m)%Z |}]>
                          (entries m)) m
  end.

(** The hard timer, if it is due. *)
Definition on_timeout (ws : nat) (now : Z) (m : Manager) : Manager :=
  match entries m !! ws with
  | Some e =>
      match timeoutTimer e with
      | Some d => if (d <=? now)%Z && negb (alive e) then kill ws (detach ws m) else m
      | None => m
      end
  | None => m
  end.

(** A socket's life: at each interval the hard timer is looked at, a ping goes
    out, and then a pong comes back before the next one or does not. *)
Fixpoint live_on (ws : nat) (k : nat) (pongs : list bool) (m : Manager) : Manager :=
  match pongs with
  | [] => m
  | p :: pongs =>
      let now := (Z.of_nat (S k) * intervalMs m)%Z in
      let m := sendPing ws now false (on_timeout ws now m) in
      live_on ws (S k) pongs (if p then on_pong ws m else m)
  end.

(** A ping that is answered leaves everything as it was. *)
Lemma answered_tick ws now m :
  entries m !! ws = Some {| alive := true; timeoutTimer := None |} ->
  on_pong ws (sendPing ws now false (on_timeout ws now m)) = m.
Proof.
  intros H. unfold on_timeout. rewrite H. simpl. unfold sendPing. rewrite H. simpl.
  unfold on_pong. simpl. rewrite lookup_insert_eq. unfold set_entries. simpl.
  rewrite insert_insert_eq, insert_id by done. by destruct m.
Qed.

Lemma answered_ticks ws k n pongs m :
  entries m !! ws = Some {| alive := true; timeoutTimer := None |} ->
  live_on ws k (repeat true n ++ pongs) m = live_on ws (k + n) pongs m.
Proof.
  intros H. revert k. induction n as [|n IH]; intros k; [by rewrite Nat.add_0_r|].
  cbn [repeat app live_on]. rewrite answered_tick by done. rewrite IH. f_equal. lia.
Qed.

(** A ping that is not answered arms the hard timer; the next one ends the
    socket. *)
Lemma missed_tick ws k m :
  entries m !! ws = Some {| alive := true; timeoutTimer := None |} ->
  let m' := live_on ws k [false] m in
  terminated m' = terminated m /\ timeoutMs m' = timeoutMs m /\
  entries m' !! ws = Some {| alive := false;
    timeoutTimer := Some (Z.of_nat (S k) * intervalMs m + timeoutMs m)%Z |}.
Proof.
  intros H. cbn [live_on]. unfold on_timeout. rewrite H. cbn [timeoutTimer]. unfold sendPing.
  rewrite H. cbn. by rewrite lookup_insert_eq.
Qed.

Lemma dead_tick ws k p m d :
  entries m !! ws = Some {| alive := false; timeoutTimer := Some d |} ->
  let m' := live_on ws k [p] m in
  terminated m' = terminated m ++ [ws] /\ entries m' !! ws = None.
Proof.
  intros H. cbn [live_on].
  set (m1 := sendPing ws _ false _).
  assert (H1 : terminated m1 = terminated m ++ [ws] /\ entries m1 !! ws = None).
  { subst m1. unfold on_timeout. rewrite H. cbn [timeoutTimer alive negb].
    destruct ((d <=? _)%Z && true); unfold sendPing; cbn.
    - rewrite lookup_delete_eq. cbn. by rewrite lookup_delete_eq.
    - rewrite H. cbn. by rewrite lookup_delete_eq. }
  destruct H1 as [Ht He]. destruct p; [|done]. unfold on_pong. by rewrite He.
Qed.
End Heartbeat.

(** ** The stream route (plugin.ts) *)
Module StreamRoute.

(** What one inbound frame asks for. *)
Inductive action : Type :=
| reply_pong
| start_run (content : string)
| cancel_run
| reply_error (code : string).

Definition handleInbound (data : string) : action :=
  match parseInboundMessage data with
  | Ok ping => reply_pong
  | Ok (send_message content) => start_run content
  | Ok cancel => cancel_run
  | Err code => reply_error code
  end.

(** The connection: its token, then the frames it buffers until the handler is
    installed, and what the handler has been asked. *)
Inductive phase : Type := authenticating | acquiring (claims : ClientTokenClaims) | ready | refused.

Record Conn := { c_phase : phase; preAuthBuffer : list string; c_actions : list action }.

Inductive opened : Type := missing_token | open_conn (c : Conn).

(** The synchronous part of the handler. *)
Definition on_open (token : option string) : opened :=
  match token with
  | None => missing_token
  | Some t => if String.eqb t "" then missing_token
              else open_conn {| c_phase := authenticating; preAuthBuffer := []; c_actions := [] |}
  end.

Definition on_message (data : string) (c : Conn) : Conn :=
  match c_phase c with
  | ready => {| c_phase := ready; preAuthBuffer := preAuthBuffer c;
                c_actions := c_actions c ++ [handleInbound data] |}
  | p => {| c_phase := p; preAuthBuffer := preAuthBuffer c ++ [data]; c_actions := c_actions c |}
  end.

(** [inboundHandler = handleInbound], and the flush of the buffer. *)
Definition install (c : Conn) : Conn :=
  {| c_phase := ready; preAuthBuffer := [];
     c_actions := c_actions c ++ map handleInbound (preAuthBuffer c) |}.

(** The token's verdict; without Redis nothing is awaited before the handler
    is installed. *)
Definition on_verdict (v : jwt_verdict) (redisActive : bool) (c : Conn) : Conn :=
  match validateClientToken v with
  | Ok claims =>
      if redisActive
      then {| c_phase := acquiring claims; preAuthBuffer := preAuthBuffer c; c_actions := c_actions c |}
      else install c
  | Err _ => {| c_phase := refused; preAuthBuffer := preAuthBuffer c; c_actions := c_actions c |}
  end.

(** [channels.acquire] resolved, or threw: its error takes the path of a
    failed authentication. *)
Definition on_acquired (threw : bool) (c : Conn) : Conn :=
  match c_phase c with
  | acquiring _ =>
      if threw then {| c_phase := refused; preAuthBuffer := preAuthBuffer c; c_actions := c_actions c |}
      else install c
  | _ => c
  end.

Definition on_messages (ms : list string) (c : Conn) : Conn :=
  fold_left (fun c d => on_message d c) ms c.

Lemma on_messages_buffered ms c :
  c_phase c <> ready ->
  on_messages ms c = {| c_phase := c_phase c; preAuthBuffer := preAuthBuffer c ++ ms;
                        c_actions := c_actions c |}.
Proof.
  revert c. unfold on_messages. induction ms as [|d ms IH]; intros [p b a] H; simpl in *.
  { by rewrite app_nil_r. }
  rewrite IH; unfold on_message; simpl; [|by destruct p].
  destruct p; simpl; [..|done|]; by rewrite <- app_assoc.
Qed.

Lemma on_messages_ready ms c :
  c_phase c = ready ->
  on_messages ms c = {| c_phase := ready; preAuthBuffer := preAuthBuffer c;
                        c_actions := c_actions c ++ map handleInbound ms |}.
Proof.
  revert c. unfold on_messages. induction ms as [|d ms IH]; intros [p b a] H; simpl in *; subst.
  { by rewrite app_nil_r. }
  rewrite IH by done. unfold on_message. simpl. by rewrite <- app_assoc.
Qed.
End StreamRoute.
