(* ===== verification/GatewayProps.v ===== *)
(** What the gateway promises: complete and ordered delivery to reconnecting
    clients, exactly-once fanout, reference-counted subscriptions, liveness of
    sockets, and no frame lost around authentication - and where the replay
    buffer is lost. *)
From S2P Require Import Prelude Json Shared Context Gateway.
Import ConnectionManager SessionBridge.

(** A socket that a client has just opened. *)
Definition newcomer (b : Bridge) (sid : string) (ws : nat) : Prop :=
  exists k, sockets (cm b) !! ws = Some k /\ sendable k = true /\ ws_sent k = [] /\
    ~ connected (cm b) sid ws.

(** C9: a client that connects in the middle of a run - for the first time or
    again - is sent the run's events from its first one, in order, each exactly
    once: what was buffered, then everything that is broadcast to its session.
    Before and after it joins anything may happen at the bridge, to other
    sessions and to other sockets of its own, with one condition on what comes
    before: no message of the session has been refused or has ended, which would
    drop the buffer ([conflict_forgets_active_run] is the refusal).  Only events
    past the buffer's capacity that were emitted before it joined are missing. *)
Theorem joiner_sees_whole_run sid ws r before after b :
  ConnectionManager.wf (cm b) -> replayBuffers b !! sid = None ->
  (forall s, newcomer b s ws) -> r <> ""%string ->
  Forall (elsewhere ws) before -> Forall (elsewhere ws) after -> Forall (keeps_buffer sid r) before ->
  sent ws (bridge_run after (join sid ws (bridge_run before b))) =
  payload (take (maxReplayBufferSize b) (events_of sid before)) ++ flat_map (broadcast_of sid) after.
Proof.
  intros Hw Hb Hn Hr H1 H2 H3. destruct (Hn sid) as (k & Hk & Hs & Hsent & _).
  assert (Ha : absent b ws k) by (split_and!; [done..|]; intros s; by destruct (Hn s) as (? & _ & _ & _ & ?)).
  destruct (absent_run sid ws r k before b Hr H1 H3 Ha Hb) as [(Hw1 & Hk1 & Hn1) Hb1].
  destruct (join_sent sid ws _ k Hw1 Hk1 Hs) as (_ & _ & _ & _ & _ & Hj).
  rewrite (present_run sid ws after) by (done || by eapply present_join).
  rewrite Hj, Hsent, Hb1. simpl. f_equal. unfold buffered. by destruct (events_of sid before); rewrite ?take_nil.
Qed.

(** The events that follow are part of what is broadcast. *)
Lemma broadcasts_of_events sid es : flat_map (broadcast_of sid) (map (b_emits sid) es) = payload es.
Proof. induction es as [|e es IH]; simpl; [done|]. by rewrite String.eqb_refl, IH. Qed.

(** A second message sent while a run is active is refused to its sender
    alone - but the refusal also drops the active run's replay buffer, so a
    client that reconnects afterwards is sent none of the events the run had
    emitted, and a [cancel] finds no run to cancel. *)
Theorem conflict_forgets_active_run sid ws sender r before b m st :
  ConnectionManager.wf (cm b) -> newcomer b sid ws -> sender <> ws ->
  r <> ""%string -> Forall (fun e => event_runId e = r) before -> before <> [] ->
  replayBuffers b !! sid = None ->
  let b1 := run_events sid before b in
  let b2 := run_rejected sid sender false (SwiftAgentError CONFLICT m st) b1 in
  handleCancel sid b1 = Some r /\ handleCancel sid b2 = None /\
  sent ws (join sid ws b2) = [].
Proof.
  intros Hw (k & Hk & Hs & Hsent & Hc) Hne Hr Hall Hes Hb b1 b2.
  destruct (sent_unconnected sid before b ws Hw Hc) as (_ & Hk1 & Hc1). fold b1 in Hk1, Hc1.
  assert (Hb2 : replayBuffers b2 !! sid = None) by (apply lookup_delete_eq).
  assert (Hk2 : sockets (cm b2) !! ws = Some k).
  { subst b2. simpl. rewrite safeSend_socket. rewrite decide_False by naive_solver. congruence. }
  assert (Hw2 : ConnectionManager.wf (cm b2)).
  { subst b2. simpl. apply wf_safeSend. by apply wf_run_events. }
  split_and!.
  - unfold handleCancel. subst b1. rewrite (buffer_run_events sid r) by done. simpl.
    by rewrite (proj2 (String.eqb_neq _ _) Hr).
  - unfold handleCancel. by rewrite Hb2.
  - destruct (join_sent sid ws b2 k Hw2 Hk2 Hs) as (_ & _ & _ & _ & _ & H).
    rewrite H, Hsent, Hb2. done.
Qed.

(** Over Redis an event is delivered exactly once to every socket: the
    instance that emitted it drops the echo of its own publication, and every
    other instance broadcasts exactly the event that was published. *)
Theorem fanout_exactly_once (here there : ChannelRegistry.Channels) e :
  event_wf e = true ->
  ChannelRegistry.forward here (ChannelRegistry.publish here e) = None /\
  (ChannelRegistry.instanceId there <> ChannelRegistry.instanceId here ->
   ChannelRegistry.forward there (ChannelRegistry.publish here e) = Some (Some (event_json e))).
Proof.
  intros He. rewrite !ChannelRegistry.forward_publish, String.eqb_refl by done. split; [done|].
  intros Hne. destruct (String.eqb_spec (ChannelRegistry.instanceId here)
    (ChannelRegistry.instanceId there)); congruence.
Qed.

(** Sockets come ([true]) and go, each for its session. *)
Definition use (r : ChannelRegistry.Channels) (u : bool * string) : ChannelRegistry.Channels :=
  if u.1 then (ChannelRegistry.acquire u.2 false r).2 else ChannelRegistry.release u.2 r.

Definition holders (sid : string) (us : list (bool * string)) : nat :=
  fold_left (fun n u => if String.eqb u.2 sid then if u.1 : bool then S n else n - 1 else n) us 0.

(** Subscriptions are counted per session: after any history the count is
    the number of sockets that hold the session (a release too many changes
    nothing), and the instance is subscribed to the channel, with a handler,
    exactly while that number is positive. *)
Theorem subscription_counts_sockets id us sid :
  let r := fold_left use us (ChannelRegistry.create id) in
  ChannelRegistry.refCount sid r = holders sid us /\
  (ChannelRegistry.channel sid ∈ ChannelRegistry.subscribed r <-> 0 < holders sid us) /\
  ChannelRegistry.handlers r = ChannelRegistry.subscribed r.
Proof.
  intros r.
  assert (H : ChannelRegistry.wf r /\ ChannelRegistry.refCount sid r = holders sid us).
  { subst r. unfold holders. induction us as [|u us [IHw IHc]] using rev_ind.
    - split; [split_and!; [intros ch n; simpl; by rewrite lookup_empty|by simpl; rewrite dom_empty_L..]|done].
    - rewrite !fold_left_app. simpl. unfold use at 1 3. destruct u as [[] s]; simpl.
      + split; [by apply ChannelRegistry.wf_acquire|]. rewrite ChannelRegistry.refCount_acquire, IHc.
        destruct (String.eqb_spec s sid); by case_decide.
      + split; [by apply ChannelRegistry.wf_release|]. rewrite ChannelRegistry.refCount_release, IHc.
        destruct (String.eqb_spec s sid); by case_decide. }
  destruct H as [(Hn & Hh & Hs) Hc]. split_and!; [done| |congruence].
  rewrite Hs, <- Hc, elem_of_dom. unfold ChannelRegistry.refCount.
  destruct (ChannelRegistry.refs r !! _) as [n|] eqn:E; simpl.
  - split; [intros _; by eapply Hn|by eauto].
  - split; [by intros []|lia].
Qed.

(** The heartbeat ends a socket exactly when it leaves a ping unanswered
    until the next one: a socket that answers [n] pings is alive and watched,
    and one that then misses a pong is terminated, once, at the ping after it -
    never by the hard timer, which is due only later. *)
Theorem heartbeat_ends_silent_sockets ws n p timeout :
  (0 < timeout)%Z ->
  let m := Heartbeat.attach ws (Heartbeat.create (Some timeout)) in
  let ok := Heartbeat.live_on ws 0 (repeat true n) m in
  let missed := Heartbeat.live_on ws 0 (repeat true n ++ [false]) m in
  let gone := Heartbeat.live_on ws 0 (repeat true n ++ [false; p]) m in
  Heartbeat.terminated ok = [] /\ is_Some (Heartbeat.entries ok !! ws) /\
  Heartbeat.terminated missed = [] /\
  Heartbeat.entries missed !! ws =
    Some {| Heartbeat.alive := false;
            Heartbeat.timeoutTimer := Some (Z.of_nat (S n) * (timeout / 2) + timeout)%Z |} /\
  (Z.of_nat (S (S n)) * (timeout / 2) < Z.of_nat (S n) * (timeout / 2) + timeout)%Z /\
  Heartbeat.terminated gone = [ws] /\ Heartbeat.entries gone !! ws = None.
Proof.
  intros Ht m ok missed gone.
  assert (Hm : Heartbeat.entries m !! ws = Some {| Heartbeat.alive := true; Heartbeat.timeoutTimer := None |}).
  { apply lookup_insert_eq. }
  assert (Hdiv : (timeout / 2 < timeout)%Z) by (apply Z.div_lt; lia).
  subst ok missed gone. rewrite !Heartbeat.answered_ticks by done.
  rewrite <- (app_nil_r (repeat true n)), Heartbeat.answered_ticks by done.
  destruct (Heartbeat.missed_tick ws n m Hm) as (H1 & H2 & H3).
  destruct (Heartbeat.dead_tick ws (S n) p _ _ H3) as [H4 H5].
  rewrite H1 in H4. split_and!; [done|by eexists|done|exact H3|lia|exact H4|exact H5].
Qed.

(** No frame is lost around authentication: whatever a client sends before
    its token is verified is handled once, in order, before what it sends
    later; and a refused client has no frame handled at all. *)
Theorem frames_survive_authentication token v redisActive ms1 ms2 ms3 c :
  StreamRoute.on_open token = StreamRoute.open_conn c ->
  let c1 := StreamRoute.on_verdict v redisActive (StreamRoute.on_messages ms1 c) in
  let c2 := StreamRoute.on_acquired false (StreamRoute.on_messages ms2 c1) in
  StreamRoute.c_actions (StreamRoute.on_messages ms3 c2) =
  match validateClientToken v with
  | Ok _ => map StreamRoute.handleInbound (ms1 ++ ms2 ++ ms3)
  | Err _ => []
  end.
Proof.
  unfold StreamRoute.on_open. destruct token as [t|]; [|done]. destruct (String.eqb t ""); [done|].
  intros H; injection H as <-.
  rewrite (StreamRoute.on_messages_buffered ms1) by done. unfold StreamRoute.on_verdict.
  destruct (validateClientToken v) as [claims|e]; [destruct redisActive|].
  - rewrite (StreamRoute.on_messages_buffered ms2) by done. simpl.
    rewrite StreamRoute.on_messages_ready by done. simpl. by rewrite !map_app, app_assoc.
  - rewrite (StreamRoute.on_messages_ready ms2) by done. simpl.
    rewrite StreamRoute.on_messages_ready by done. simpl. by rewrite !map_app, app_assoc.
  - rewrite (StreamRoute.on_messages_buffered ms2) by done. simpl.
    by rewrite StreamRoute.on_messages_buffered.
Qed.

(** ** Witnesses *)

(** A session with one client connected (1) and one about to connect (2). *)
Definition demo_bridge : Bridge :=
  {| cm := {| sessions := {["ses_1"%string := [1]]};
              sockets := {[1 := fresh_socket; 2 := fresh_socket]} |};
     channels := ChannelRegistry.create "inst_a"; replayBuffers := ∅;
     maxReplayBufferSize := 2; published := [] |}.

Definition demo_token (n : nat) : ChatEvent :=
  token (string_of_Z (Z.of_nat n)) "msg_1" "run_1" "ses_1".

Lemma demo_wf : ConnectionManager.wf (cm demo_bridge).
Proof.
  intros sid set H. simpl in H. apply lookup_singleton_Some in H as [_ <-].
  split; [discriminate|apply NoDup_singleton].
Qed.

Lemma demo_newcomer s : newcomer demo_bridge s 2.
Proof.
  exists fresh_socket. split_and!; [reflexivity..|]. unfold connected, getConnections. simpl.
  destruct (decide ("ses_1"%string = s)) as [<-|H]; [rewrite lookup_singleton_eq|rewrite lookup_singleton_ne by done];
    simpl; set_solver.
Qed.

(** Another client of the session leaves and comes back, and another session has
    a message refused. *)
Lemma joiner_sees_whole_run_witness :
  sent 2 (bridge_run [b_emits "ses_1" (demo_token 4); b_rejects "ses_1" 1 false (SwiftAgentError CONFLICT "busy" 409);
                      b_emits "ses_1" (demo_token 5)]
    (join "ses_1" 2 (bridge_run [b_emits "ses_1" (demo_token 1); b_leaves "ses_1" 1; b_emits "ses_1" (demo_token 2);
       b_rejects "ses_2" 7 false (SwiftAgentError CONFLICT "busy" 409); b_joins "ses_1" 1;
       b_emits "ses_1" (demo_token 3)] demo_bridge)))
  = payload [demo_token 1; demo_token 2; demo_token 4; demo_token 5].
Proof.
  apply (joiner_sees_whole_run "ses_1" 2 "run_1"
    [b_emits "ses_1" (demo_token 1); b_leaves "ses_1" 1; b_emits "ses_1" (demo_token 2);
     b_rejects "ses_2" 7 false (SwiftAgentError CONFLICT "busy" 409); b_joins "ses_1" 1; b_emits "ses_1" (demo_token 3)]
    [b_emits "ses_1" (demo_token 4); b_rejects "ses_1" 1 false (SwiftAgentError CONFLICT "busy" 409);
     b_emits "ses_1" (demo_token 5)] demo_bridge);
    [exact demo_wf|reflexivity|exact demo_newcomer|discriminate|repeat constructor; discriminate..|
     repeat constructor; discriminate].
Defined.

Lemma conflict_forgets_active_run_witness :
  sent 2 (join "ses_1" 2 (run_rejected "ses_1" 1 false (SwiftAgentError CONFLICT "busy" 409)
    (run_events "ses_1" [demo_token 1] demo_bridge))) = [].
Proof.
  apply (conflict_forgets_active_run "ses_1" 2 1 "run_1" [demo_token 1] demo_bridge "busy" 409);
    [exact demo_wf|apply demo_newcomer|discriminate|discriminate|repeat constructor|discriminate
    |reflexivity].
Defined.

Lemma fanout_exactly_once_witness :
  ChannelRegistry.forward (ChannelRegistry.create "inst_a")
    (ChannelRegistry.publish (ChannelRegistry.create "inst_a") (demo_token 1)) = None.
Proof.
  apply (fanout_exactly_once (ChannelRegistry.create "inst_a") (ChannelRegistry.create "inst_b")
    (demo_token 1)). reflexivity.
Defined.

Lemma heartbeat_ends_silent_sockets_witness :
  Heartbeat.terminated (Heartbeat.live_on 7 0 (repeat true 3 ++ [false; true])
    (Heartbeat.attach 7 (Heartbeat.create (Some 30000%Z)))) = [7].
Proof. apply (heartbeat_ends_silent_sockets 7 3 true 30000). reflexivity. Defined.

Lemma frames_survive_authentication_witness :
  StreamRoute.c_actions (StreamRoute.on_messages ["{}"%string]
    (StreamRoute.on_acquired false (StreamRoute.on_messages []
      (StreamRoute.on_verdict jwt_expired true (StreamRoute.on_messages ["ping"%string]
        {| StreamRoute.c_phase := StreamRoute.authenticating; StreamRoute.preAuthBuffer := [];
           StreamRoute.c_actions := [] |}))))) = [].
Proof.
  apply (frames_survive_authentication (Some "t"%string) jwt_expired true ["ping"%string] []
    ["{}"%string]). reflexivity.
Defined.
