(* ===== verification/ApiProps.v ===== *)
(** What the REST API discloses, hides and stores (see [Api]). *)
From S2P Require Import Prelude Json Shared Effects Observability Repos RunService Store Dto Api Gateway.

(** ** Owners

    A run belongs to its session, a session to its agent, an agent to its
    workspace. *)
Definition agent_owner (s : Store) (agentId : string) : option string :=
  ag_workspaceId <$> (db_agents (st_db s) !! agentId).
Definition session_owner (s : Store) (sessionId : string) : option string :=
  x ← db_sessions (st_db s) !! sessionId; agent_owner s (ses_agentId x).
Definition run_owner (s : Store) (runId : string) : option string :=
  r ← db_runs (st_db s) !! runId; session_owner s (run_sessionId r).
Definition trace_owner (s : Store) (traceId : string) : option string :=
  t ← st_traces s !! traceId; run_owner s (tr_runId t).

(** A row is stored under its own id. *)
Definition keyed (s : Store) : Prop :=
  (forall k a, db_agents (st_db s) !! k = Some a -> ag_agentId a = k) /\
  (forall k t, st_traces s !! k = Some t -> tr_traceId t = k).

(** What an id stands for, in the whole of an execution: ids are minted at random
    and are not used again, even when their row has been deleted. *)
Record Ids := {
  id_workspace : string -> string;   (* of an agent *)
  id_agent : string -> string;       (* of a session *)
  id_session : string -> string;     (* of a run *)
  id_run : string -> string }.       (* of a trace *)

Definition session_workspace (A : Ids) (sessionId : string) : string := id_workspace A (id_agent A sessionId).
Definition run_workspace (A : Ids) (runId : string) : string := session_workspace A (id_session A runId).
Definition trace_workspace (A : Ids) (traceId : string) : string := run_workspace A (id_run A traceId).

(** The rows that are there are what their ids stand for. *)
Record conforms (A : Ids) (s : Store) : Prop := {
  cf_agents : forall i a, db_agents (st_db s) !! i = Some a -> ag_workspaceId a = id_workspace A i;
  cf_sessions : forall i x, db_sessions (st_db s) !! i = Some x -> ses_agentId x = id_agent A i;
  cf_runs : forall i r, db_runs (st_db s) !! i = Some r -> run_sessionId r = id_session A i;
  cf_traces : forall i t, st_traces s !! i = Some t -> tr_runId t = id_run A i;
  cf_keyed : keyed s }.

(** Rows may be made, changed and deleted; what an id stands for stays. *)
Definition kept (A : Ids) (s s' : Store) : Prop := conforms A s -> conforms A s'.

#[export] Instance kept_refl A : Reflexive (kept A).
Proof. by intros s H. Qed.
#[export] Instance kept_trans A : Transitive (kept A).
Proof. intros a b c H1 H2 H. auto. Qed.

Lemma conforms_agent A s i ws : conforms A s -> agent_owner s i = Some ws -> id_workspace A i = ws.
Proof. intros C H. apply fmap_Some in H as (a & Ha & ->). symmetry. by apply (cf_agents _ _ C). Qed.

Lemma conforms_set A s s' :
  db_agents (st_db s') = db_agents (st_db s) -> db_sessions (st_db s') = db_sessions (st_db s) ->
  db_runs (st_db s') = db_runs (st_db s) -> st_traces s' = st_traces s -> kept A s s'.
Proof. intros E1 E2 E3 E4 []. split; unfold keyed in *; rewrite ?E1, ?E2, ?E3, ?E4; auto. Qed.

(** ** The statements keep rows under their ids *)

Lemma agents_create_keyed a now s s' : agents_create a now s = Ok s' -> keyed s -> keyed s'.
Proof.
  unfold agents_create. case_bool_decide as Hd; [done|]. destruct (negb _); [done|].
  destruct (existsb _ _); [done|]. intros [= <-] [Ha Ht]. split; [|done]. simpl. intros k x. rewrite lookup_insert.
  case_decide; [by intros [= <-]|apply Ha].
Qed.

Lemma agents_update_keyed i f now s :
  (forall a, ag_agentId (f a) = ag_agentId a) -> keyed s -> keyed (agents_update i f now s).2.
Proof.
  intros Hf. unfold agents_update. destruct (db_agents (st_db s) !! i) as [a|] eqn:E; [|done]. simpl.
  intros [Ha Ht]. split; [|done]. simpl. intros k x. rewrite lookup_insert.
  case_decide; [|apply Ha]. subst. intros [= <-]. rewrite Hf. by apply Ha.
Qed.

(** ** Rows found by a condition *)

Lemma head_filter {X} (p : X -> bool) l x : head (List.filter p l) = Some x -> x ∈ l /\ p x = true.
Proof.
  intros H. assert (Hx : In x (List.filter p l)) by (destruct (List.filter p l); simplify_eq/=; by left).
  apply filter_In in Hx as [Hx Hp]. split; [by apply list_elem_of_In|done].
Qed.

Lemma map_rows {X} (m : gmap string X) x : x ∈ (map_to_list m).*2 -> exists k, m !! k = Some x.
Proof.
  intros H. apply list_elem_of_fmap in H as ([k y] & -> & H). exists k. by apply elem_of_map_to_list.
Qed.

Lemma getByName_row ws n s a :
  keyed s -> agents_getByName ws n s = Some a ->
  db_agents (st_db s) !! ag_agentId a = Some a /\ ag_workspaceId a = ws /\ ag_name a = n.
Proof.
  intros [Hk _] H. apply head_filter in H as [H Hn]. apply map_rows in H as (k & H).
  rewrite (Hk _ _ H). unfold named in Hn. by reflect_bools.
Qed.

Lemma getTraceByRunId_row r s t :
  keyed s -> traces_getTraceByRunId r s = Some t -> st_traces s !! tr_traceId t = Some t /\ tr_runId t = r.
Proof.
  intros [_ Hk] H. apply head_filter in H as [H Hn]. apply map_rows in H as (k & H).
  rewrite (Hk _ _ H). by apply String.eqb_eq in Hn.
Qed.

Lemma spans_of_trace i s : Forall (fun x => sr_traceId x = i) (traces_listSpansByTraceId i s).
Proof.
  unfold traces_listSpansByTraceId. apply Forall_forall. intros x.
  rewrite merge_sort_Permutation. intros H. apply list_elem_of_In, filter_In in H as [_ H].
  by apply String.eqb_eq in H.
Qed.

(** ** Inversion of a run of a computation *)

Lemma bind_ret {S E X Y} (m : M S E X) (f : X -> M S E Y) w y w2 :
  bind m f w = (Ret y, w2) -> exists x w1, m w = (Ret x, w1) /\ f x w1 = (Ret y, w2).
Proof. unfold bind. destruct (m w) as [[x|e|] w1]; [|done..]. eauto. Qed.

(** ** Reads

    What holds of the peers' moves holds along any reading computation. *)
Section reads.
Context (P : Peers) (R : Store -> Store -> Prop) `{!Reflexive R} `{!Transitive R}.

Definition along (w w' : World) : Prop := R (w_store w) (w_store w').

#[export] Instance along_refl : Reflexive along.
Proof. intros w. unfold along. reflexivity. Qed.
#[export] Instance along_trans : Transitive along.
Proof. intros a b c H1 H2. unfold along in *. by etrans. Qed.

Context (Hothers : forall n s, R s (others P n s)).

Lemma query_moves {X} (f : Store -> res error (X * Store)) :
  (forall s x s', f s = Ok (x, s') -> R s s') -> moves along (query P f).
Proof.
  intros Hf w. unfold query, along. set (s := others P _ _).
  assert (K : R (w_store w) s) by apply Hothers.
  destruct (refuses P (w_tick w)); [done|]. destruct (f s) as [[x s']|e] eqn:E; simpl; [|done].
  etrans; [done|]. by eapply Hf.
Qed.

Lemma select_moves {X} (f : Store -> X) : moves along (select P f).
Proof. apply query_moves. by intros s x s' [= _ <-]. Qed.

Lemma mint_moves prefix : moves along (mint P prefix).
Proof. intros w. unfold along. reflexivity. Qed.

Lemma await_moves runId : moves along (await_started P runId).
Proof.
  intros w. unfold await_started, along. destruct (tasks _ !! runId) as [t|]; [|apply Hothers].
  destruct (t_result t) as [[]|]; apply Hothers.
Qed.

Lemma of_res_moves {X} (r : res error X) : moves along (of_res r).
Proof. by destruct r; intros w; unfold along. Qed.
Lemma parse_body_moves {X} (schema : json -> option X) b : moves along (parse_body schema b).
Proof. unfold parse_body. by destruct (b ≫= schema); intros w; unfold along. Qed.
End reads.

(** Walks through a handler; every leaf moves along the relation. *)
Ltac own_leaf :=
  lazymatch goal with
  | |- moves _ (select _ _) => apply select_moves
  | |- moves _ (mint _ _) => apply mint_moves
  | |- moves _ (of_res _) => apply of_res_moves
  | |- moves _ (parse_body _ _) => apply parse_body_moves
  | |- moves _ (await_started _ _) => apply await_moves
  end; try typeclasses eauto; try done.
Ltac own := repeat first [own_leaf | move_step | progress unfold or_throw].

Section owned_reads.
Context (P : Peers) (R : Store -> Store -> Prop) `{!Reflexive R} `{!Transitive R}.
Context (Hothers : forall n s, R s (others P n s)).

Lemma agent_getById_moves ws i : moves (along R) (agent_getById P ws i).
Proof. unfold agent_getById. own. Qed.
Lemma agent_getByName_moves ws n : moves (along R) (agent_getByName P ws n).
Proof. unfold agent_getByName. own. Qed.
Lemma getRun_moves ws i : moves (along R) (assertRunOwnership P ws i).
Proof. unfold assertRunOwnership. own; apply agent_getById_moves. Qed.
Lemma getSession_moves ws i : moves (along R) (getSession P ws i).
Proof. unfold getSession. own; apply agent_getById_moves. Qed.

Lemma select_ret {X} (f : Store -> X) w x w' :
  select P f w = (Ret x, w') ->
  x = f (w_store w') /\ R (w_store w) (w_store w') /\ w_fresh w' = w_fresh w.
Proof.
  unfold select, query. destruct (refuses P (w_tick w)); [done|]. simpl.
  intros [= <- <-]. simpl. split; [done|]. split; [apply Hothers|done].
Qed.

Lemma or_throw_ret {X} (m : A X) e w x w' : or_throw m e w = (Ret x, w') -> m w = (Ret x, w').
Proof. unfold or_throw, try_catch. by destruct (m w) as [[]]. Qed.

Lemma agent_getById_ret ws i w a w' :
  agent_getById P ws i w = (Ret a, w') ->
  db_agents (st_db (w_store w')) !! i = Some a /\ ag_workspaceId a = ws /\
  R (w_store w) (w_store w') /\ w_fresh w' = w_fresh w.
Proof.
  unfold agent_getById. intros H. apply bind_ret in H as (o & w1 & H1 & H).
  apply select_ret in H1 as (-> & H1 & Hf). destruct (agents_getById _ _) as [b|] eqn:E; [|done].
  destruct (String.eqb_spec (ag_workspaceId b) ws); [|done]. by injection H as <- <-.
Qed.

End owned_reads.

(** What a computation that ran leaves behind. *)
Lemma ran_moves {X} (R : World -> World -> Prop) (m : A X) w o w' :
  moves R m -> m w = (o, w') -> R w w'.
Proof. intros H E. specialize (H w). by rewrite E in H. Qed.



Section requests.
Context (A : Ids) (P : Peers) (Hids : forall n s, kept A s (others P n s)).
Context (sha256 : string -> string).
Context (is_url fraction_in_0_2 : string -> bool) (other_number : string -> option Z).
Context (sign : json -> string) (publicWebsocketUrl : string).
Context (match_route : string -> string -> option Route).

Lemma start_db r sid c b v v' : start r sid c b v = Ok v' -> s_db v' = s_db v.
Proof. unfold start. destruct (SessionLock.acquire _ _ _); [|done]. by intros [= <-]. Qed.

Lemma requestCancel_db r v : s_db (requestCancel r v) = s_db v.
Proof. unfold requestCancel. by destruct (activeRuns v !! r). Qed.

Lemma select_conforms {X} (f : Store -> X) w x w' :
  conforms A (w_store w) -> select P f w = (Ret x, w') -> x = f (w_store w') /\ conforms A (w_store w').
Proof. intros C H. apply (select_ret _ _ Hids) in H as (-> & K & _). by split; [|apply K]. Qed.

Lemma agent_owned ws i w a w' :
  conforms A (w_store w) -> agent_getById P ws i w = (Ret a, w') ->
  id_workspace A i = ws /\ ag_workspaceId a = ws /\ conforms A (w_store w').
Proof.
  intros C H. apply (agent_getById_ret _ _ Hids) in H as (Ha & E & K & _). specialize (K C).
  split_and!; [|done|done]. rewrite <- E. symmetry. by apply (cf_agents _ _ K).
Qed.

Lemma session_owned ws i w x w' :
  conforms A (w_store w) -> getSession P ws i w = (Ret x, w') ->
  session_workspace A i = ws /\ id_workspace A (ses_agentId x) = ws /\ conforms A (w_store w').
Proof.
  intros C. unfold getSession. intros H. apply bind_ret in H as (o & w1 & H1 & H).
  apply select_conforms in H1 as (-> & C1); [|done].
  destruct (sessions_getById _ _) as [y|] eqn:E; [|done].
  apply bind_ret in H as (a & w2 & H2 & [= -> ->]). apply or_throw_ret, agent_owned in H2 as (Ha & _ & C2); [|done].
  split_and!; [|done|done]. unfold session_workspace. by rewrite <- (cf_sessions _ _ C1 _ _ E).
Qed.

Lemma run_owned ws i w r w' :
  conforms A (w_store w) -> assertRunOwnership P ws i w = (Ret r, w') ->
  run_workspace A i = ws /\ session_workspace A (run_sessionId r) = ws /\ conforms A (w_store w').
Proof.
  intros C. unfold assertRunOwnership. intros H. apply bind_ret in H as (o & w1 & H1 & H).
  apply select_conforms in H1 as (-> & C1); [|done].
  destruct (db_runs _ !! i) as [y|] eqn:E; [|done].
  apply bind_ret in H as (o & w2 & H2 & H). apply select_conforms in H2 as (-> & C2); [|done].
  destruct (sessions_getById _ _) as [x|] eqn:Ex; [|done].
  apply bind_ret in H as (a & w3 & H3 & [= -> ->]). apply or_throw_ret, agent_owned in H3 as (Ha & _ & C3); [|done].
  assert (Hs : session_workspace A (run_sessionId r) = ws).
  { unfold session_workspace. by rewrite <- (cf_sessions _ _ C2 _ _ Ex). }
  split_and!; [|done|done]. unfold run_workspace. by rewrite <- (cf_runs _ _ C1 _ _ E).
Qed.

Lemma agent_named ws n w a w' :
  conforms A (w_store w) -> agent_getByName P ws n w = (Ret a, w') ->
  id_workspace A (ag_agentId a) = ws /\ ag_workspaceId a = ws /\ conforms A (w_store w').
Proof.
  intros C. unfold agent_getByName. intros H. apply bind_ret in H as (o & w1 & H1 & H).
  apply select_conforms in H1 as (-> & C1); [|done].
  destruct (agents_getByName _ _ _) as [b|] eqn:E; [|done]. injection H as <- <-.
  apply getByName_row in E as (Hb & Hw & _); [|apply C1]. split_and!; [|done|done].
  rewrite <- Hw. symmetry. by apply (cf_agents _ _ C1).
Qed.

Lemma query_ret {X} (f : Store -> res error (X * Store)) w x w' :
  query P f w = (Ret x, w') ->
  exists s, kept A (w_store w) s /\ f s = Ok (x, w_store w').
Proof.
  unfold query. destruct (refuses P (w_tick w)); [done|]. set (s := others P _ _).
  destruct (f s) as [[y s']|] eqn:E; [|done]. intros [= <- <-]. exists s. split; [apply Hids|done].
Qed.

Lemma session_created ws b w r w' :
  conforms A (w_store w) -> createSession P ws b w = (Ret r, w') -> session_owner (w_store w') r.1 = Some ws.
Proof.
  intros C. unfold createSession. intros H. apply bind_ret in H as (a & w1 & H1 & H).
  apply agent_named in H1 as (Ha & Hw & C1); [|done].
  apply bind_ret in H as (i & w2 & [= <- <-] & H). apply bind_ret in H as (u & w3 & H3 & [= <- <-]).
  apply query_ret in H3 as (s & K & H3). specialize (K C1). unfold sessions_create in H3. simpl in H3.
  case_bool_decide; [done|]. case_bool_decide as Hs; [|done]. destruct Hs as [a' Ha']. injection H3 as <- <-.
  unfold session_owner. simpl. rewrite lookup_insert_eq. simpl.
  unfold agent_owner, st_db in *. simpl. rewrite Ha'. simpl. f_equal. rewrite <- Ha. by apply (cf_agents _ _ K).
Qed.

Lemma session_updated ws i st w x w' :
  conforms A (w_store w) -> updateSession P ws i st w = (Ret x, w') -> id_workspace A (ses_agentId x) = ws.
Proof.
  intros C. unfold updateSession. intros H. apply bind_ret in H as (y & w1 & H1 & H).
  apply session_owned in H1 as (Ho & Hy & C1); [|done].
  destruct st as [st|]; [|by apply session_owned in H as (? & ? & _)].
  apply bind_ret in H as (o & w2 & H2 & H). destruct o as [z|]; [|done]. injection H as <- <-.
  apply query_ret in H2 as (s & K & H2). specialize (K C1). injection H2 as H2.
  unfold sessions_updateStatus in H2. destruct (db_sessions (st_db s) !! i) as [x'|] eqn:Hx; [|done].
  injection H2 as <- _. simpl. rewrite <- Ho. unfold session_workspace. f_equal. by apply (cf_sessions _ _ K).
Qed.

Lemma agent_registered ws b w r w' :
  conforms A (w_store w) -> registerOrUpdateAgent P ws b w = (Ret r, w') -> ag_workspaceId r.1 = ws.
Proof.
  intros C. unfold registerOrUpdateAgent. intros H. apply bind_ret in H as (o & w1 & H1 & H).
  apply select_conforms in H1 as (-> & C1); [|done]. apply bind_ret in H as (now & w1' & [= <- <-] & H).
  destruct (agents_getByName _ _ _) as [b0|] eqn:E.
  - apply getByName_row in E as (Ha & Hw & _); [|apply C1].
    apply bind_ret in H as (u & w2 & H2 & H). destruct u as [u|]; [|done]. injection H as <- <-.
    apply query_ret in H2 as (s & K & H2). specialize (K C1). unfold agents_update in H2.
    destruct (db_agents (st_db s) !! ag_agentId b0) as [a'|] eqn:Ha'; [|done]. injection H2 as <- _. simpl.
    rewrite (cf_agents _ _ K _ _ Ha'), <- Hw. symmetry. by apply (cf_agents _ _ C1).
  - apply bind_ret in H as (i & w2 & [= <- <-] & H). apply query_ret in H as (s & K & H).
    destruct (agents_create _ _ s); simpl in H; [|done]. by injection H as <- _.
Qed.

(** ** Disclosure *)

(** Every row of the response is the workspace's: by what its ids stand for, and
    for a session that is made, by its row and its agent's. *)
Definition disclosed (s : Store) (ws : string) (b : Body) : Prop :=
  match b with
  | health_body | error_body _ _ => True
  | agent_body a _ _ => ag_workspaceId a = ws
  | agents_body l => Forall (fun a => ag_workspaceId a = ws) l
  | created_session_body i _ _ => session_owner s i = Some ws
  | session_body x => id_workspace A (ses_agentId x) = ws
  | messages_body l _ => Forall (fun m => session_workspace A (msg_sessionId m) = ws) l
  | accepted_body i _ =>
      run_workspace A i = ws \/ exists t, tasks (st_svc s) !! i = Some t /\ session_workspace A (t_session t) = ws
  | run_body r => session_workspace A (run_sessionId r) = ws
  | tool_calls_body l => Forall (fun c => run_workspace A (tcr_runId c) = ws) l
  | trace_body t l => run_workspace A (tr_runId t) = ws /\ Forall (fun x => trace_workspace A (sr_traceId x) = ws) l
  | spans_body l => Forall (fun x => trace_workspace A (sr_traceId x) = ws) l
  | metrics_body i t _ => run_workspace A i = ws /\ trace_workspace A t = ws
  end.

(** ** Runs

    A task of the run service keeps its session ([RunService.step_stays]). *)
Context (Htasks : forall n s, tasks_stay (st_svc s) (st_svc (others P n s))).

Lemma run_created ws sid c w r w' :
  conforms A (w_store w) -> createRun P ws sid c w = (Ret r, w') ->
  exists t, tasks (st_svc (w_store w')) !! r = Some t /\ session_workspace A (t_session t) = ws.
Proof.
  intros C. unfold createRun. intros H. apply bind_ret in H as (x & w1 & H1 & H).
  apply session_owned in H1 as (Ho & _ & _); [|done].
  apply bind_ret in H as (i & w2 & [= <- <-] & H). apply bind_ret in H as ([] & w3 & H3 & H).
  apply bind_ret in H as ([] & w4 & H4 & [= <- <-]).
  unfold call_service in H3. simpl in H3.
  destruct (start _ _ _ _ _) as [v|] eqn:Es; [|done]. injection H3 as <-.
  set (rid := prefixedId PREFIX_RUN _) in *.
  assert (Ht : exists t, tasks v !! rid = Some t /\ t_session t = sid).
  { unfold start in Es. destruct (SessionLock.acquire _ _ _); [|done]. injection Es as <-. simpl.
    rewrite lookup_insert_eq. by eexists. }
  destruct Ht as (t & Ht & Hts). unfold await_started in H4. simpl in H4. set (s1 := set_svc v _) in H4.
  destruct (Htasks (w_tick w1) s1 rid t Ht) as (t' & Ht' & E). rewrite Ht' in H4.
  destruct (t_result t') as [[[]|]|]; try done. injection H4 as <-. simpl. exists t'. split; [done|]. by rewrite E, Hts.
Qed.

(** One [bind] of a request that returned. *)
Ltac inv_step :=
  match goal with
  | H : bind _ _ _ = (Ret _, _) |- _ =>
      let x := fresh "x" in let w := fresh "w" in let E := fresh "E" in
      apply bind_ret in H as (x & w & E & H)
  | H : ret _ _ = (Ret _, _) |- _ => injection H as <- <-
  | H : gets _ _ = (Ret _, _) |- _ => injection H as <- <-
  | H : throw _ _ = (Ret _, _) |- _ => done
  | H : select P _ _ = (Ret _, _) |- _ => apply select_conforms in H as (-> & ?); [|assumption]
  | H : getSession P _ _ _ = (Ret _, _) |- _ => apply session_owned in H as (? & ? & ?); [|assumption]
  | H : getRun P _ _ _ = (Ret _, _) |- _ => apply run_owned in H as (? & ? & ?); [|assumption]
  | H : assertRunOwnership P _ _ _ = (Ret _, _) |- _ => apply run_owned in H as (? & ? & ?); [|assumption]
  | H : agent_getById P _ _ _ = (Ret _, _) |- _ => apply agent_owned in H as (? & ? & ?); [|assumption]
  end.

Lemma parse_body_ret {X} (schema : json -> option X) b w x w' :
  parse_body schema b w = (Ret x, w') -> w' = w.
Proof. unfold parse_body. by destruct (b ≫= schema); intros [= _ <-]. Qed.

Lemma of_res_ret {X} (r : res error X) w x w' : of_res r w = (Ret x, w') -> r = Ok x /\ w' = w.
Proof. destruct r; [|done]. by intros [= <- <-]. Qed.

Lemma page_subset n c l l' : page n c l = Ok l' -> l' ⊆ l.
Proof.
  assert (Ha : forall cur k l0, after_cursor cur l0 = Some k -> k ⊆ l0).
  { intros cur k l0. induction l0 as [|m l0 IH]; simpl; [done|].
    destruct (String.eqb _ _); [intros [= <-]; set_solver|]. intros H. apply IH in H. set_solver. }
  assert (Ht : forall l0 : list MessageRecord, take n l0 ⊆ l0).
  { intros l0 m H. rewrite <- (take_drop n l0). apply elem_of_app. by left. }
  unfold page. destruct c as [c|]; [|by intros [= <-]]. destruct (String.eqb c ""); [by intros [= <-]|].
  destruct (after_cursor c l) as [k|] eqn:E; [|done]. intros [= <-]. etrans; [apply Ht|by eapply Ha].
Qed.

Lemma agents_listed ws s : Forall (fun a => ag_workspaceId a = ws) (agents_getByWorkspaceId ws s).
Proof.
  apply Forall_forall. intros a H. apply list_elem_of_In, filter_In in H as [_ H]. by apply String.eqb_eq in H.
Qed.

(** The spans of an owned trace. *)
Lemma spans_owned s t ws :
  trace_workspace A t = ws -> Forall (fun x => trace_workspace A (sr_traceId x) = ws) (traces_listSpansByTraceId t s).
Proof. intros Ht. eapply Forall_impl; [apply spans_of_trace|]. simpl. by intros x ->. Qed.

Lemma trace_of_run s r t ws :
  conforms A s -> traces_getTraceByRunId r s = Some t -> run_workspace A r = ws ->
  run_workspace A (tr_runId t) = ws /\ trace_workspace A (tr_traceId t) = ws.
Proof.
  intros C H Ho. apply getTraceByRunId_row in H as [Ht <-]; [|apply C]. split; [done|].
  unfold trace_workspace. by rewrite <- (cf_traces _ _ C _ _ Ht).
Qed.

Lemma messages_disclosed ws sid rq w resp w' :
  conforms A (w_store w) -> get_messages P other_number ws sid rq w = (Ret resp, w') ->
  disclosed (w_store w') ws (rs_body resp).
Proof.
  intros C. unfold get_messages. intros H. apply bind_ret in H as (x & w1 & H1 & H).
  apply session_owned in H1 as (Ho & _ & C1); [|done]. apply bind_ret in H as (q & w2 & H2 & H).
  apply parse_body_ret in H2 as ->. apply bind_ret in H as (l & w3 & H3 & [= <- <-]). unfold listMessages in H3.
  apply bind_ret in H3 as (al & w4 & H4 & H3). apply select_conforms in H4 as (-> & _); [|done].
  apply of_res_ret in H3 as [E ->]. simpl. apply Forall_forall. intros m Hm.
  apply (page_subset _ _ _ _ E), list_elem_of_In, filter_In in Hm as [_ Hm]. by apply String.eqb_eq in Hm as ->.
Qed.

Lemma trace_disclosed ws rid w resp w' :
  conforms A (w_store w) -> get_trace P ws rid w = (Ret resp, w') -> disclosed (w_store w') ws (rs_body resp).
Proof.
  intros C. unfold get_trace. intros H. repeat inv_step.
  destruct (traces_getTraceByRunId _ _) as [t|] eqn:Et; repeat inv_step; [|done]. simpl.
  eapply trace_of_run in Et as [Hr Ht]; [|eassumption..].
  split; [done|]. by apply spans_owned.
Qed.

Lemma metrics_disclosed ws rid w resp w' :
  conforms A (w_store w) -> get_metrics P ws rid w = (Ret resp, w') -> disclosed (w_store w') ws (rs_body resp).
Proof.
  intros C. unfold get_metrics. intros H. repeat inv_step.
  destruct (traces_getTraceByRunId _ _) as [t|] eqn:Et; repeat inv_step; [|done].
  destruct (RunMetricsResponseSchema _); repeat inv_step; simpl.
  eapply trace_of_run in Et as [Hr Ht]; [|eassumption..]. done.
Qed.

Lemma spans_disclosed ws tid w resp w' :
  conforms A (w_store w) -> get_spans P ws tid w = (Ret resp, w') -> disclosed (w_store w') ws (rs_body resp).
Proof.
  intros C. unfold get_spans. intros H. repeat inv_step.
  destruct (traces_getTraceById _ _) as [t|] eqn:Et; repeat inv_step; [|done]. simpl.
  apply spans_owned. unfold trace_workspace.
  match goal with K : conforms A (w_store w0) |- _ => rewrite <- (cf_traces _ _ K _ _ Et) end. done.
Qed.

Abbreviation handler := (handle P is_url fraction_in_0_2 other_number sign publicWebsocketUrl).
Abbreviation serve_req :=
  (serve_request P sha256 is_url fraction_in_0_2 other_number sign publicWebsocketUrl match_route).

Lemma handle_discloses ws r rq w resp w' :
  conforms A (w_store w) -> handler ws r rq w = (Ret resp, w') ->
  disclosed (w_store w') ws (rs_body resp).
Proof.
  intros C. destruct r; simpl.
  - intros H. unfold post_agents in H. repeat inv_step. apply parse_body_ret in E as ->.
    by apply agent_registered in E0.
  - intros H. unfold get_agent in H. repeat inv_step. done.
  - unfold get_agents. destruct (str_field "name" (rq_query rq)) as [[|c n]|]; intros H; repeat inv_step;
      [by apply agents_listed| |by apply agents_listed].
    by apply agent_named in E as (_ & ? & _).
  - intros H. unfold post_sessions in H. repeat inv_step. apply parse_body_ret in E as ->.
    by apply session_created in E0.
  - intros H. unfold get_session in H. by repeat inv_step.
  - intros H. unfold patch_session in H. repeat inv_step. apply parse_body_ret in E as ->. by apply session_updated in E0.
  - by apply messages_disclosed.
  - intros H. unfold post_runs in H. repeat inv_step. apply parse_body_ret in E as ->.
    right. by apply run_created in E0.
  - intros H. unfold get_run in H. by repeat inv_step.
  - intros H. unfold get_tool_calls, getRunToolCalls in H. repeat inv_step. apply Forall_forall. intros c Hc.
    apply list_elem_of_In, filter_In in Hc as [_ Hc]. by apply String.eqb_eq in Hc as ->.
  - intros H. unfold post_cancel, cancelRun in H. repeat inv_step. by left.
  - by apply trace_disclosed.
  - by apply spans_disclosed.
  - by apply metrics_disclosed.
Qed.

Lemma authenticate_ret rq token w o w' :
  bearer (rq_authorization rq) = Ok token -> skips_auth (rq_url rq) = false ->
  authenticate P sha256 rq w = (Ret o, w') ->
  exists k, keys_getByKeyHash (sha256 token) (w_store w') = Some k /\ ak_revokedAt k = None /\
    o = Some (ak_workspaceId k) /\ w_store w' = others P (w_tick w) (w_store w) /\ w_fresh w' = w_fresh w.
Proof.
  intros Hb Hs. unfold authenticate. rewrite Hs, Hb. simpl. intros H. inv_step.
  injection E as -> ->. destruct (String.eqb _ ""); [done|]. inv_step.
  match goal with K : select P _ _ = _ |- _ => unfold select, query in K;
    destruct (refuses P _); [done|]; simpl in K; injection K as <- <- end.
  destruct (keys_getByKeyHash _ _) as [k|] eqn:Ek; [|done]. destruct (ak_revokedAt k) eqn:Er; [done|].
  inv_step. exists k. by split_and!.
Qed.

(** C16: A response, however the other processes make, change and delete rows
    meanwhile, is an error or it discloses only rows of the workspace of the
    unrevoked key that the request carries; ids are not used again, and the run
    service's tasks keep their session. *)
Theorem answers_stay_in_the_workspace rq token w resp w' :
  bearer (rq_authorization rq) = Ok token -> skips_auth (rq_url rq) = false ->
  conforms A (w_store w) ->
  serve_req rq w = (Ret resp, w') ->
  (exists code message, rs_body resp = error_body code message) \/
  exists k, keys_getByKeyHash (sha256 token) (others P (w_tick w) (w_store w)) = Some k /\
    ak_revokedAt k = None /\ disclosed (w_store w') (ak_workspaceId k) (rs_body resp).
Proof.
  intros Hb Hs Hk. unfold serve_request, try_catch.
  destruct (bind _ _ _) as [[r|e|] w1] eqn:E; [|intros [= <- <-]; left; by destruct e; simpl; repeat case_match; eauto|done].
  intros [= -> ->]. inv_step. eapply authenticate_ret in E0 as (k & H1 & H2 & -> & H3 & H4); [|done..].
  right. exists k. rewrite <- H3. split; [done|]. split; [done|].
  destruct (match_route _ _) as [[|r]|]; repeat inv_step; try done.
  eapply handle_discloses; [|done]. rewrite H3. by apply Hids.
Qed.
End requests.

(** ** What is not the workspace's is missing

    The request is alone, and no statement is refused. *)
Section quiet.
Context (P : Peers) (Hquiet : forall n s, others P n s = s) (Hserves : forall n, refuses P n = None).
Context (is_url fraction_in_0_2 : string -> bool) (other_number : string -> option Z).
Context (sign : json -> string) (publicWebsocketUrl : string).

Definition ticked (w : World) : World :=
  {| w_store := w_store w; w_tick := S (w_tick w); w_fresh := w_fresh w |}.

Lemma select_alone {X} (f : Store -> X) w : select P f w = (Ret (f (w_store w)), ticked w).
Proof. unfold select, query. by rewrite Hserves, !Hquiet. Qed.

Lemma agent_hidden ws i w :
  agent_owner (w_store w) i <> Some ws ->
  agent_getById P ws i w = (Throw (swift_error NOT_FOUND ("Agent " +:+ i +:+ " not found")), ticked w).
Proof.
  intros H. unfold agent_getById, bind. rewrite select_alone. unfold agents_getById, agent_owner in *.
  destruct (db_agents _ !! i) as [a|]; [|done]. destruct (String.eqb_spec (ag_workspaceId a) ws); [|done].
  subst. by destruct H.
Qed.

Lemma session_hidden ws i w :
  session_owner (w_store w) i <> Some ws ->
  exists w', getSession P ws i w = (Throw (session_not_found i), w') /\ w_store w' = w_store w.
Proof.
  intros H. unfold getSession, bind. rewrite select_alone. unfold sessions_getById, session_owner in *.
  destruct (db_sessions _ !! i) as [x|]; [|by eexists]. simpl in H.
  unfold or_throw, try_catch. rewrite agent_hidden by done. by eexists.
Qed.

Lemma run_hidden ws i w :
  run_owner (w_store w) i <> Some ws ->
  exists w', assertRunOwnership P ws i w = (Throw (run_not_found i), w') /\ w_store w' = w_store w.
Proof.
  intros H. unfold assertRunOwnership, bind. rewrite select_alone. unfold run_owner, session_owner in H.
  destruct (db_runs _ !! i) as [r|]; [|by eexists]. simpl in H. rewrite select_alone.
  unfold sessions_getById. simpl. destruct (db_sessions _ !! run_sessionId r) as [x|]; [|by eexists]. simpl in H.
  unfold or_throw, try_catch. rewrite agent_hidden by done. by eexists.
Qed.

(** What a route is about: its owner, and the message when it is not there. *)
Definition subject (r : ApiRoute) (s : Store) : option (option string * error) :=
  match r with
  | GET_agent i => Some (agent_owner s i, swift_error NOT_FOUND ("Agent " +:+ i +:+ " not found"))
  | GET_session i | PATCH_session i | GET_messages i | POST_runs i => Some (session_owner s i, session_not_found i)
  | GET_run i | GET_tool_calls i | POST_cancel i | GET_trace i | GET_metrics i =>
      Some (run_owner s i, run_not_found i)
  | _ => None
  end.

(** The body that a route parses before it looks its subject up. *)
Definition body_accepted (r : ApiRoute) (rq : Request) : bool :=
  match r with
  | PATCH_session _ => bool_decide (is_Some (rq_body rq ≫= PatchSessionBodySchema))
  | POST_runs _ => bool_decide (is_Some (rq_body rq ≫= CreateRunBodySchema))
  | _ => true
  end.

(** C17: A request for an agent, a session or a run of another
    workspace is answered exactly as one for an id that does not exist, and it
    changes nothing. *)
Theorem foreign_is_missing ws r rq w owner e :
  subject r (w_store w) = Some (owner, e) -> owner <> Some ws -> body_accepted r rq = true ->
  exists w', handle P is_url fraction_in_0_2 other_number sign publicWebsocketUrl ws r rq w = (Throw e, w') /\
    w_store w' = w_store w /\ rs_status (errorHandler e) = 404%Z.
Proof.
  destruct r; try done; intros [= <- <-] Ho Hb; simpl in *;
    unfold get_session, patch_session, updateSession, get_messages, post_runs, createRun, get_run,
      get_tool_calls, getRunToolCalls, post_cancel, cancelRun, get_trace, get_metrics, getRun;
    try (destruct (run_hidden _ _ _ Ho) as (w' & E & Hw); exists w'; unfold bind; by rewrite E);
    try (destruct (session_hidden _ _ _ Ho) as (w' & E & Hw); exists w';
         try (apply bool_decide_eq_true in Hb as [x Hx]; unfold parse_body; rewrite Hx);
         unfold bind, ret; by rewrite E).
  eexists. unfold get_agent, bind. rewrite agent_hidden by done. done.
Qed.

(** A trace of another workspace is told from one that does not exist: the
    error names its run. *)
Theorem foreign_trace_names_its_run ws t tr w :
  st_traces (w_store w) !! t = Some tr -> run_owner (w_store w) (tr_runId tr) <> Some ws ->
  exists w', get_spans P ws t w = (Throw (run_not_found (tr_runId tr)), w').
Proof.
  intros Ht Ho. unfold get_spans, bind. rewrite select_alone. unfold traces_getTraceById. rewrite Ht.
  destruct (run_hidden ws _ (ticked w) Ho) as (w' & E & _). exists w'. unfold getRun. by rewrite E.
Qed.

(** ** Registration *)

(** A name is used once in a workspace: the table's unique index. *)
Definition unique_names (s : Store) : Prop := forall i j a b,
  db_agents (st_db s) !! i = Some a -> db_agents (st_db s) !! j = Some b ->
  ag_workspaceId a = ag_workspaceId b -> ag_name a = ag_name b -> i = j.

Lemma getByName_unique ws n s i a :
  keyed s -> unique_names s -> db_agents (st_db s) !! i = Some a -> ag_workspaceId a = ws -> ag_name a = n ->
  agents_getByName ws n s = Some a.
Proof.
  intros Hk Hu Ha Hw Hn. destruct (agents_getByName ws n s) as [b|] eqn:E.
  - destruct (getByName_row _ _ _ _ Hk E) as (Hb & Hbw & Hbn).
    assert (i = ag_agentId b) as -> by (eapply Hu; [done|done|congruence|congruence]). congruence.
  - unfold agents_getByName in E. destruct (List.filter _ _) eqn:El; [|done].
    assert (Hin : In a (List.filter (named ws n) (agent_rows s))).
    { apply filter_In. split; [|unfold named; subst; by rewrite !String.eqb_refl].
      apply list_elem_of_In, list_elem_of_fmap. exists (i, a). split; [done|]. by apply elem_of_map_to_list. }
    by rewrite El in Hin.
Qed.

Lemma query_alone {X} (f : Store -> res error (X * Store)) w :
  query P f w = match f (w_store w) with
                | Ok (x, s) => (Ret x, set_store s (ticked w))
                | Err e => (Throw e, ticked w)
                end.
Proof. unfold query. by rewrite Hserves, !Hquiet. Qed.

Lemma updated_same b a : updated_agent b (updated_agent b a a) (updated_agent b a a) = updated_agent b a a.
Proof. destruct b as [? ? ? [] [[]|] []]; done. Qed.

Lemma created_same i ws b : updated_agent b (created_agent i ws b) (created_agent i ws b) = created_agent i ws b.
Proof. destruct b as [? ? ? [] [[]|] []]; done. Qed.

(** Registering again what a row already says. *)
Lemma register_again ws b w a :
  keyed (w_store w) -> unique_names (w_store w) ->
  db_agents (st_db (w_store w)) !! ag_agentId a = Some a -> ag_workspaceId a = ws -> ag_name a = ca_name b ->
  updated_agent b a a = a ->
  exists t w', registerOrUpdateAgent P ws b w = (Ret (a, t), w') /\
    db_agents (st_db (w_store w')) = db_agents (st_db (w_store w)).
Proof.
  intros Hk Hu Ha Hw Hn Hs. unfold registerOrUpdateAgent, bind. rewrite select_alone.
  rewrite (getByName_unique _ _ _ _ _ Hk Hu Ha Hw Hn). unfold gets. rewrite query_alone. simpl.
  unfold agents_update. rewrite Ha. rewrite Hs. eexists _, _. split; [reflexivity|]. simpl.
  by apply insert_id.
Qed.

Lemma created_unique a now s s' :
  keyed s -> unique_names s -> agents_create a now s = Ok s' ->
  keyed s' /\ unique_names s' /\ db_agents (st_db s') !! ag_agentId a = Some a.
Proof.
  intros Hk Hu H. split; [by eapply agents_create_keyed|].
  unfold agents_create in H. case_bool_decide; [done|]. destruct (negb _); [done|].
  destruct (existsb _ _) eqn:Ex; [done|]. injection H as <-. simpl. split; [|apply lookup_insert_eq].
  assert (Hno : forall i b, db_agents (st_db s) !! i = Some b ->
    ag_workspaceId b = ag_workspaceId a -> ag_name b = ag_name a -> False).
  { intros i b Hb Hw Hn. apply not_true_iff_false in Ex. apply Ex, existsb_exists. exists b. split.
    - apply list_elem_of_In, list_elem_of_fmap. exists (i, b). split; [done|]. by apply elem_of_map_to_list.
    - unfold named. by rewrite Hw, Hn, !String.eqb_refl. }
  intros i j x y. simpl. rewrite !lookup_insert. repeat case_decide; subst; intros; simplify_eq; try done.
  - exfalso. by eapply Hno.
  - exfalso. by eapply Hno.
  - by eapply Hu.
Qed.

Lemma updated_unique i f now s :
  keyed s -> unique_names s -> (forall a, ag_workspaceId (f a) = ag_workspaceId a /\
    ag_agentId (f a) = ag_agentId a /\ ag_name (f a) = ag_name a) ->
  keyed (agents_update i f now s).2 /\ unique_names (agents_update i f now s).2.
Proof.
  intros Hk Hu Hf. split; [apply agents_update_keyed; [apply Hf|done]|].
  unfold agents_update. destruct (db_agents (st_db s) !! i) as [a|] eqn:E; [|done].
  destruct (Hf a) as (Hw & _ & Hn).
  intros k l x y. simpl. rewrite !lookup_insert. repeat case_decide; subst; intros; simplify_eq; try done;
    rewrite ?Hw, ?Hn in *; eauto.
Qed.

(** Registration is idempotent: the second registration of a
    body finds the agent of the first, returns the same row and leaves the
    table of agents as it is; names stay unique. *)
Theorem registration_is_idempotent ws b w a t w1 :
  keyed (w_store w) -> unique_names (w_store w) ->
  registerOrUpdateAgent P ws b w = (Ret (a, t), w1) ->
  unique_names (w_store w1) /\ ag_name a = ca_name b /\
  exists t' w2, registerOrUpdateAgent P ws b w1 = (Ret (a, t'), w2) /\
    db_agents (st_db (w_store w2)) = db_agents (st_db (w_store w1)).
Proof.
  intros Hk Hu. unfold registerOrUpdateAgent at 1, bind. rewrite select_alone. unfold gets.
  destruct (agents_getByName _ _ _) as [e|] eqn:E.
  - apply getByName_row in E as (He & Hw & Hn); [|done]. rewrite query_alone. simpl.
    set (now := instant P _). set (f := updated_agent b e).
    destruct (updated_unique (ag_agentId e) f now (w_store w) Hk Hu) as [Hk1 Hu1]; [done|].
    revert Hk1 Hu1. unfold agents_update. rewrite He. intros Hk1 Hu1 [= <- <- <-]. split; [done|]. split; [done|].
    apply register_again; try done; [apply lookup_insert_eq|apply updated_same].
  - unfold mint. rewrite query_alone. simpl. set (now := instant P _). set (i := prefixedId _ _).
    destruct (agents_create _ now (w_store w)) as [s|] eqn:Ec; [|done]. intros [= <- <- <-].
    destruct (created_unique _ _ _ _ Hk Hu Ec) as (Hk1 & Hu1 & Ha). split; [done|]. split; [done|].
    apply register_again; try done. apply created_same.
Qed.
End quiet.

(** ** A failed lookup reads as a missing row *)

(** When the database refuses the agent's row, an owned session is reported as
    not found. *)
Theorem refused_lookup_reads_as_missing P ws i x e w :
  (forall n s, others P n s = s) -> refuses P (w_tick w) = None -> refuses P (S (w_tick w)) = Some e ->
  db_sessions (st_db (w_store w)) !! i = Some x ->
  exists w', getSession P ws i w = (Throw (session_not_found i), w').
Proof.
  intros Ho H1 H2 Hx. unfold getSession, bind, select, query. rewrite H1, Ho. unfold sessions_getById. rewrite Hx.
  unfold or_throw, try_catch, agent_getById, bind, select, query. simpl. rewrite H2. by eexists.
Qed.

(** ** Following the cursor *)

(** A client asks for a page after the last message it has, until one is not
    full; the session may grow between two pages.  The messages it gets, and
    the session as it was when the walk ended, if it did. *)
Definition cursor_after (cursor : option string) (p : list MessageRecord) : option string :=
  match last p with Some m => Some (msg_messageId m) | None => cursor end.

Fixpoint walk_pages (limit : nat) (cursor : option string) (snapshots : list (list MessageRecord)) :
    res error (list MessageRecord * option (list MessageRecord)) :=
  match snapshots with
  | [] => Ok ([], None)
  | l :: ls =>
      let? p := page limit cursor l in
      if (length p =? limit)%nat then
        let? r := walk_pages limit (cursor_after cursor p) ls in Ok (p ++ r.1, r.2)
      else Ok (p, Some l)
  end.

Fixpoint growing (l0 : list MessageRecord) (snapshots : list (list MessageRecord)) : Prop :=
  match snapshots with [] => True | l :: ls => l0 `prefix_of` l /\ growing l ls end.

Definition ids_ok (l : list MessageRecord) : Prop :=
  NoDup (map msg_messageId l) /\ Forall (fun m => msg_messageId m <> "") l.

Lemma after_cursor_last seen rest m :
  NoDup (map msg_messageId (seen ++ rest)) -> last seen = Some m ->
  after_cursor (msg_messageId m) (seen ++ rest) = Some rest.
Proof.
  intros Hd Hl. apply last_Some in Hl as [l ->]. rewrite <- app_assoc in Hd |- *. simpl in *.
  induction l as [|x l IH]; simpl in *; [by rewrite String.eqb_refl|].
  apply NoDup_cons in Hd as [Hx Hd]. destruct (String.eqb_spec (msg_messageId x) (msg_messageId m)) as [E|E].
  - exfalso. apply Hx. rewrite map_app. simpl. rewrite E. apply elem_of_app. right. by left.
  - by apply IH.
Qed.

Lemma page_after seen rest limit :
  ids_ok (seen ++ rest) ->
  page limit (cursor_after None seen) (seen ++ rest) = Ok (take limit rest).
Proof.
  intros [Hd Hn]. unfold page, cursor_after. destruct (last seen) as [m|] eqn:E.
  - rewrite (after_cursor_last _ _ _ Hd E).
    apply last_Some in E as [l ->]. rewrite !Forall_app, Forall_singleton in Hn. destruct Hn as [[_ Hm] _].
    by apply String.eqb_neq in Hm as ->.
  - by apply last_None in E as ->.
Qed.

Lemma cursor_after_app seen p :
  cursor_after (cursor_after None seen) p = cursor_after None (seen ++ p).
Proof. unfold cursor_after. rewrite last_app. by destruct (last p). Qed.

Lemma last_cons_default {X} (x : X) l d : List.last (x :: l) d = List.last l x.
Proof.
  revert x d. induction l as [|y l IH]; intros x d; [done|].
  change (List.last (y :: l) d = List.last (y :: l) x). by rewrite !IH.
Qed.

Lemma walk_from limit snapshots seen l0 :
  (0 < limit)%nat -> seen `prefix_of` l0 -> growing l0 snapshots -> Forall ids_ok snapshots ->
  exists msgs fin, walk_pages limit (cursor_after None seen) snapshots = Ok (msgs, fin) /\
    match fin with
    | Some l => l ∈ snapshots /\ seen ++ msgs = l
    | None => length msgs = (limit * length snapshots)%nat /\
              (seen ++ msgs) `prefix_of` List.last snapshots l0
    end.
Proof.
  intros Hl. revert seen l0. induction snapshots as [|l ls IH]; intros seen l0 Hp Hg Hi; simpl.
  - eexists _, _. split; [reflexivity|]. simpl. rewrite app_nil_r. split; [lia|done].
  - destruct Hg as [Hg0 Hg]. apply Forall_cons in Hi as [Hi0 Hi].
    destruct (transitivity Hp Hg0) as [rest ->]. rewrite page_after by done. simpl.
    destruct (Nat.eqb_spec (length (take limit rest)) limit) as [E|E].
    + rewrite cursor_after_app. destruct (IH (seen ++ take limit rest) (seen ++ rest)) as (msgs & fin & -> & H);
        [apply prefix_app; eexists; symmetry; apply take_drop|done|done|]. simpl. eexists _, _. split; [reflexivity|].
      rewrite app_assoc. destruct fin as [f|].
      * destruct H as [H ->]. split; [by right|done].
      * destruct H as [H1 H2]. split; [rewrite length_app, E, H1; lia|].
        destruct ls as [|x ls]; [done|]. by rewrite !last_cons_default in H2 |- *.
    + eexists _, _. split; [reflexivity|]. simpl. split; [by left|]. rewrite take_ge; [done|].
      rewrite length_take in E. lia.
Qed.

(** Paging with the cursor of the last message visits every
    message of a session once and in order, although messages are appended
    between the pages; every full page brings [limit] messages, so the walk of
    a session that stops growing ends. *)
Theorem pages_visit_every_message limit snapshots :
  (0 < limit)%nat -> growing [] snapshots -> Forall ids_ok snapshots ->
  exists msgs fin, walk_pages limit None snapshots = Ok (msgs, fin) /\
    match fin with
    | Some l => l ∈ snapshots /\ msgs = l
    | None => length msgs = (limit * length snapshots)%nat /\ msgs `prefix_of` List.last snapshots []
    end.
Proof. intros Hl Hg Hi. by apply (walk_from limit snapshots [] []). Qed.

(** ** A session's token *)

Lemma minted_starts p n : starts_with p (prefixedId p n) = true.
Proof.
  unfold starts_with, prefixedId. induction p as [|c p IH]; [by destruct n|]. simpl.
  by destruct (ascii_dec c c).
Qed.

(** C19: The token issued with a session is, once jose has verified
    it, a token of the gateway: it opens that session and allows the chat. *)
Theorem issued_token_opens_its_session A P ws b w sid aid w' now :
  (forall n s, kept A s (others P n s)) -> conforms A (w_store w) ->
  createSession P ws b w = (Ret (sid, aid), w') -> starts_with "agt_" aid = true ->
  validateClientToken (jwt_ok (client_token_payload sid aid now)) =
    Ok {| ctc_sessionId := sid; ctc_agentId := aid; ctc_permissions := ["chat"] |} /\
  session_owner (w_store w') sid = Some ws.
Proof.
  intros Ho Hk H Ha. split; [|by apply (session_created A P Ho) in H].
  unfold createSession in H. apply bind_ret in H as (a & w1 & _ & H).
  apply bind_ret in H as (i & w2 & [= <- <-] & H). apply bind_ret in H as ([] & w3 & _ & [= <- <- <-]).
  assert (Hs : starts_with "ses_" (prefixedId PREFIX_SESSION (nanoid P (w_fresh w1))) = true)
    by apply (minted_starts PREFIX_SESSION).
  unfold validateClientToken, client_token_payload, ClientTokenClaimsSchema.
  cbn -[starts_with prefixedId]. by rewrite Hs, Ha.
Qed.

(** ** Witnesses *)

Definition alone : Peers :=
  {| refuses := fun _ => None; others := fun _ s => s; instant := fun _ => 0%Z; nanoid := fun _ => "x" |}.

Definition some_model : ModelConfig := {| mc_model := "echo:1"; mc_temperature := None; mc_maxTokens := None |}.

Definition agent_1 : AgentRecord :=
  {| ag_agentId := "agt_1"; ag_workspaceId := "ws_1"; ag_name := "helper"; ag_modelConfig := some_model;
     ag_systemPrompt := ""; ag_memoryConfig := None; ag_toolRunnerUrl := None; ag_tools := [] |}.
Definition session_1 : SessionRecord :=
  {| ses_sessionId := "ses_1"; ses_agentId := "agt_1"; ses_userId := None; ses_status := active |}.
Definition key_1 : ApiKeyRecord :=
  {| ak_apiKeyId := "ak_1"; ak_workspaceId := "ws_1"; ak_keyHash := "secret"; ak_name := "k";
     ak_createdAt := 0; ak_revokedAt := None |}.

Definition db_1 : Db :=
  {| db_sessions := {["ses_1" := session_1]}; db_agents := {["agt_1" := agent_1]}; db_runs := ∅;
     db_messages := []; db_toolCalls := ∅ |}.
Definition store_1 : Store :=
  {| st_svc := createRunExecutionService db_1; st_agentTimes := ∅; st_metadata := ∅; st_keys := [key_1];
     st_workspaces := {["ws_1" := {| ws_workspaceId := "ws_1"; ws_name := "w"; ws_createdAt := 0 |}]};
     st_users := []; st_members := []; st_traces := ∅; st_spans := [] |}.
Definition world_1 : World := {| w_store := store_1; w_tick := 0; w_fresh := 0 |}.

Lemma keyed_1 : keyed store_1.
Proof.
  split; intros k a; simpl; [|by rewrite lookup_empty].
  intros H. by apply lookup_singleton_Some in H as [<- <-].
Qed.

Lemma unique_1 : unique_names store_1.
Proof.
  intros i j a b Ha Hb _ _. simpl in *. apply lookup_singleton_Some in Ha as [<- _].
  by apply lookup_singleton_Some in Hb as [<- _].
Qed.

Definition ids_1 : Ids :=
  {| id_workspace := fun _ => "ws_1"; id_agent := fun _ => "agt_1"; id_session := fun _ => "ses_1";
     id_run := fun _ => "run_1" |}.

Lemma conforms_1 : conforms ids_1 store_1.
Proof.
  split; [..|apply keyed_1]; intros i x; simpl; try (by rewrite lookup_empty);
    intros H; by apply lookup_singleton_Some in H as [_ <-].
Qed.

Definition request_1 : Request :=
  {| rq_method := "GET"; rq_url := "/v1/sessions/ses_1"; rq_authorization := Some "Bearer secret";
     rq_body := None; rq_query := JObj [] |}.

Definition no_text (_ : string) : bool := false.
Definition no_number (_ : string) : option Z := None.

Lemma answers_stay_in_the_workspace_witness :
  exists k, ak_workspaceId k = "ws_1" /\ disclosed ids_1 store_1 (ak_workspaceId k) (session_body session_1).
Proof.
  assert (Hi : forall n s, kept ids_1 s (others alone n s)) by (intros n s H; exact H).
  assert (Ht : forall n s, tasks_stay (st_svc s) (st_svc (others alone n s))) by (intros n s; apply tasks_stay_refl).
  destruct (answers_stay_in_the_workspace ids_1 alone Hi (fun s => s) no_text no_text no_number stringify "wss://x"
    (fun _ _ => Some (api (GET_session "ses_1"))) Ht request_1 "secret" world_1
    (send (session_body session_1)) {| w_store := store_1; w_tick := 3; w_fresh := 0 |}
    eq_refl eq_refl conforms_1 eq_refl) as [(c & m & [=])|(k & Hk & _ & Hd)].
  exists k. split; [|exact Hd]. vm_compute in Hk. by injection Hk as <-.
Defined.

Lemma foreign_is_missing_witness :
  exists w', handle alone no_text no_text no_number stringify "wss://x" "ws_2" (GET_session "ses_1") request_1 world_1
    = (Throw (session_not_found "ses_1"), w') /\ w_store w' = store_1 /\
    rs_status (errorHandler (session_not_found "ses_1")) = 404%Z.
Proof.
  apply (foreign_is_missing alone (fun _ _ => eq_refl) (fun _ => eq_refl) no_text no_text no_number stringify
    "wss://x" "ws_2" (GET_session "ses_1") request_1 world_1 (Some "ws_1")); [reflexivity|congruence|reflexivity].
Defined.

Definition body_1 : CreateAgentBody :=
  {| ca_name := "helper"; ca_modelConfig := some_model; ca_systemPrompt := "Be brief."; ca_memoryConfig := None;
     ca_toolRunnerUrl := None; ca_tools := None |}.

Lemma registration_is_idempotent_witness :
  exists a t t' w1 w2, registerOrUpdateAgent alone "ws_1" body_1 world_1 = (Ret (a, t), w1) /\
    registerOrUpdateAgent alone "ws_1" body_1 w1 = (Ret (a, t'), w2) /\ ag_systemPrompt a = "Be brief.".
Proof.
  destruct (registerOrUpdateAgent alone "ws_1" body_1 world_1) as [[[a t]|e|] w1] eqn:E;
    [|by vm_compute in E|by vm_compute in E].
  destruct (registration_is_idempotent alone (fun _ _ => eq_refl) (fun _ => eq_refl) "ws_1" body_1 world_1 a t w1
    keyed_1 unique_1 E) as (_ & _ & t' & w2 & E2 & _).
  exists a, t, t', w1, w2. split; [reflexivity|]. split; [exact E2|]. vm_compute in E. by injection E as <- _ _.
Defined.

Definition message_1 (id : string) : MessageRecord :=
  {| msg_messageId := id; msg_sessionId := "ses_1"; msg_runId := None; msg_role := user_role; msg_content := "" |}.

Lemma pages_visit_every_message_witness :
  let l := [message_1 "msg_1"; message_1 "msg_2"; message_1 "msg_3"] in
  walk_pages 2 None [take 2 l; l] = Ok (l, Some l) /\
  exists msgs fin, walk_pages 2 None [take 2 l; l] = Ok (msgs, fin).
Proof.
  intros l. split; [reflexivity|].
  destruct (pages_visit_every_message 2 [take 2 l; l]) as (msgs & fin & H & _); [lia| | |by exists msgs, fin].
  - split; [by exists (take 2 l)|]. split; [by exists (drop 2 l)|done].
  - repeat constructor; set_solver.
Defined.

Definition new_session : CreateSessionBody :=
  {| cs_agentName := "helper"; cs_userId := None; cs_metadata := None |}.

Lemma issued_token_opens_its_session_witness :
  exists sid w', createSession alone "ws_1" new_session world_1 = (Ret (sid, "agt_1"), w') /\
    session_owner (w_store w') sid = Some "ws_1".
Proof.
  destruct (createSession alone "ws_1" new_session world_1) as [[[sid aid]|e|] w'] eqn:E;
    [|by vm_compute in E|by vm_compute in E].
  assert (aid = "agt_1") as -> by (vm_compute in E; by injection E as _ <- _).
  exists sid, w'. split; [reflexivity|].
  by apply (issued_token_opens_its_session ids_1 alone "ws_1" new_session world_1 sid "agt_1" w' 0
    (fun n s H => H) conforms_1 E eq_refl).
Defined.
