(* ===== verification/Sdk.v ===== *)
(** The SDK (packages/sdk): the HTTP client of the control plane (client.ts),
    the definitions of tools and agents (tool.ts, agent.ts), and the application
    that registers them (app.ts).

    The network, the conversion of a tool's schema to JSON Schema, zod's issues
    and the parsing of dates and URLs are arguments. *)
From S2P Require Import Prelude Json Shared Dto.

(** ** Errors of the wire (client.ts) *)

(** A [SwiftAgentError] as the client makes it: its code is the text that the
    server sent or the status gave. *)
Record SdkError := { se_code : string; se_message : string; se_statusCode : Z }.

Definition sdk_error (c : SwiftAgentErrorCode) (message : string) : SdkError :=
  {| se_code := code_string c; se_message := message; se_statusCode := CODE_TO_STATUS c |}.

Definition statusToCode (status : Z) : SwiftAgentErrorCode :=
  match status with
  | 400 => VALIDATION | 401 => UNAUTHORIZED | 403 => FORBIDDEN | 404 => NOT_FOUND
  | 409 => CONFLICT | 429 => RATE_LIMIT | 502 => PROVIDER_ERROR | 503 => CONNECTION_ERROR
  | 504 => TIMEOUT
  | _ => if (500 <=? status)%Z then INTERNAL else VALIDATION
  end%Z.

(** The sentences of the messages hold an em dash, here its UTF-8 bytes. *)
Definition remediation (code where_ : string) (status : Z) : string :=
  let http := " (HTTP " +:+ string_of_Z status +:+ ")" in
  if String.eqb code "UNAUTHORIZED" then
    "Authentication failed for " +:+ where_ +:+ " — check the workspace API key passed to createAgentApp({ apiKey }) (e.g. SWIFT_AGENT_API_KEY)."
  else if String.eqb code "FORBIDDEN" then
    "The API key lacks permission for " +:+ where_ +:+ " — check the key's workspace scope."
  else if String.eqb code "NOT_FOUND" then
    where_ +:+ " not found — verify the session/agent/run id."
  else if String.eqb code "CONFLICT" then
    where_ +:+ " conflicts with existing state — the resource already exists or is in a conflicting state."
  else if String.eqb code "RATE_LIMIT" then
    "Rate limited on " +:+ where_ +:+ " — retry after backing off."
  else if String.eqb code "VALIDATION" then
    "The Swift Agent server rejected " +:+ where_ +:+ http +:+ " — check the request payload."
  else if String.eqb code "PROVIDER_ERROR" then
    "The model provider or an upstream dependency failed for " +:+ where_ +:+ http +:+ " — retry."
  else if String.eqb code "CONNECTION_ERROR" then
    "An upstream dependency was unavailable for " +:+ where_ +:+ http +:+ " — retry."
  else if String.eqb code "TIMEOUT" then
    where_ +:+ " timed out upstream" +:+ http +:+ " — retry."
  else
    "The Swift Agent server encountered an internal error on " +:+ where_ +:+ http +:+ " — retry; if persistent, contact support.".

(** [{ code, message }], possibly under [error]. *)
Definition readServerError (body : json) : option string * option string :=
  let source := match field "error" body with
                | Some (JObj o) => JObj o
                | Some (JArr l) => JArr l
                | _ => body
                end in
  (str_field "code" source, str_field "message" source).

Definition CODES : list string :=
  ["VALIDATION"; "NOT_FOUND"; "CONFLICT"; "RATE_LIMIT"; "PROVIDER_ERROR"; "UNAUTHORIZED"; "FORBIDDEN";
   "INTERNAL"; "TIMEOUT"; "CONNECTION_ERROR"; "INCOMPATIBLE_VERSION"].

(** The members of every object. *)
Definition OBJECT_PROTOTYPE : list string :=
  ["constructor"; "__defineGetter__"; "__defineSetter__"; "hasOwnProperty"; "__lookupGetter__";
   "__lookupSetter__"; "isPrototypeOf"; "propertyIsEnumerable"; "toString"; "valueOf"; "__proto__";
   "toLocaleString"].

(** [serverCode in SwiftAgentErrorCode]. *)
Definition known_code (code : string) : bool :=
  existsb (String.eqb code) CODES || existsb (String.eqb code) OBJECT_PROTOTYPE.

Definition httpErrorToSwiftAgentError (method path : string) (status : Z) (body : json) : SdkError :=
  let where_ := method +:+ " " +:+ path in
  let '(serverCode, serverMessage) := readServerError body in
  let code := match serverCode with
              | Some c => if known_code c then c else code_string (statusToCode status)
              | None => code_string (statusToCode status)
              end in
  {| se_code := code;
     se_message := remediation code where_ status +:+
       match serverMessage with
       | Some m => if String.eqb m "" then "" else " Server said: " +:+ quoted m +:+ "."
       | None => ""
       end;
     se_statusCode := status |}.

(** ** Requests *)

(** [fetch]: a rejection with the error's name, or a response with its body,
    which is [null] when it is not JSON, and the protocol header. *)
Inductive fetched : Type :=
| rejected_fetch (name : string)
| answered_fetch (status : Z) (protocol : option string) (body : json).

Definition res_ok (status : Z) : bool := ((200 <=? status) && (status <=? 299))%Z.

Definition DEFAULT_BASE_URL : string := "http://127.0.0.1:3000".

(** application/x-www-form-urlencoded. *)
Definition form_char (c : ascii) : text :=
  let n := nat_of_ascii c in
  if ((48 <=? n) && (n <=? 57) || (65 <=? n) && (n <=? 90) || (97 <=? n) && (n <=? 122))%nat
     || existsb (Ascii.eqb c) ["*"; "-"; "."; "_"]%char then [c]
  else if (n =? 32)%nat then ["+"%char]
  else if (n <? 128)%nat then percent n
  else percent (192 + n / 64) ++ percent (128 + n mod 64).
Definition form_encode (s : string) : string := on_text (fun t => t ≫= form_char) s.

Section client.
Context (fetch : string -> string -> option string -> fetched).   (* method, URL, body *)
Context (is_url fraction_in_0_2 : string -> bool) (is_date : json -> bool).
Context (baseUrl_option : option string).

Definition baseUrl : string := strip_slashes (baseUrl_option ?? DEFAULT_BASE_URL).

Definition request (method path : string) (body : option json) : res SdkError (json * option string) :=
  let url := baseUrl +:+ path in
  match fetch method url (stringify <$> body) with
  | rejected_fetch name =>
      Err (if String.eqb name "AbortError" || String.eqb name "TimeoutError"
           then sdk_error TIMEOUT ("The request to " +:+ url +:+ " timed out.")
           else sdk_error CONNECTION_ERROR ("Could not reach the Swift Agent server at " +:+ baseUrl
                  +:+ " — is it running and is baseUrl correct?"))
  | answered_fetch status protocol body =>
      if res_ok status then Ok (body, protocol)
      else Err (httpErrorToSwiftAgentError method path status body)
  end.

(** A value that a schema of the shared package accepts is returned as it is;
    a [ZodError] has no code of the SDK. *)
Definition zod_error : SdkError := {| se_code := "ZodError"; se_message := ""; se_statusCode := 0 |}.

Definition date_field (k : string) (v : json) : bool := is_date (field k v ?? JNull).

Definition nullable_string (k : string) (v : json) : bool :=
  match field k v with Some JNull | Some (JStr _) => true | _ => false end.

Definition prefixed (p k : string) (v : json) : bool :=
  match str_field k v with Some s => starts_with p s | None => false end.

Definition accepted {X} (schema : json -> option X) (k : string) (v : json) : bool :=
  match field k v with Some x => bool_decide (is_Some (schema x)) | None => false end.

(** [AgentRecordSchema]: [tools] has a default. *)
Definition AgentRecordSchema (v : json) : bool :=
  only_keys ["agentId"; "workspaceId"; "name"; "modelConfig"; "systemPrompt"; "memoryConfig"; "toolRunnerUrl";
             "tools"; "createdAt"; "updatedAt"] v &&
  prefixed "agt_" "agentId" v && prefixed "ws_" "workspaceId" v && bool_decide (is_Some (nonempty_string "name" v)) &&
  accepted (ModelConfigSchema fraction_in_0_2) "modelConfig" v && bool_decide (is_Some (str_field "systemPrompt" v)) &&
  accepted MemoryConfigSchema "memoryConfig" v && accepted (nullable_url is_url) "toolRunnerUrl" v &&
  bool_decide (is_Some (optional (array_schema ToolDefinitionSchema) "tools" v)) &&
  date_field "createdAt" v && date_field "updatedAt" v.

Definition SessionRecordSchema (v : json) : bool :=
  only_keys ["sessionId"; "agentId"; "userId"; "status"; "metadata"; "createdAt"; "updatedAt"] v &&
  prefixed "ses_" "sessionId" v && prefixed "agt_" "agentId" v && nullable_string "userId" v &&
  accepted session_status_schema "status" v && accepted record_schema "metadata" v &&
  date_field "createdAt" v && date_field "updatedAt" v.

Definition role_schema (v : json) : option unit :=
  match v with
  | JStr s => guard_opt (existsb (String.eqb s) ["system"; "user"; "assistant"; "tool"]) (Some tt)
  | _ => None
  end.

Definition nullable_prefixed (p k : string) (v : json) : bool :=
  match field k v with Some JNull => true | Some (JStr s) => starts_with p s | _ => false end.

Definition MessageRecordSchema (v : json) : bool :=
  only_keys ["messageId"; "sessionId"; "runId"; "role"; "content"; "createdAt"] v &&
  prefixed "msg_" "messageId" v && prefixed "ses_" "sessionId" v && nullable_prefixed "run_" "runId" v &&
  accepted role_schema "role" v && bool_decide (is_Some (str_field "content" v)) && date_field "createdAt" v.

Definition run_status_schema (v : json) : option unit :=
  match v with
  | JStr s => guard_opt (existsb (String.eqb s) ["running"; "completed"; "failed"; "cancelled"; "timed_out"]) (Some tt)
  | _ => None
  end.

Definition count_schema (v : json) : option Z :=
  match v with JNum n => guard_opt (0 <=? n)%Z (Some n) | _ => None end.

Definition token_usage_schema (v : json) : option unit :=
  match v with
  | JNull => Some tt
  | _ => guard_opt (only_keys ["inputTokens"; "outputTokens"; "totalTokens"] v &&
                    accepted count_schema "inputTokens" v && accepted count_schema "outputTokens" v &&
                    accepted count_schema "totalTokens" v) (Some tt)
  end.

Definition RunRecordSchema (v : json) : bool :=
  only_keys ["runId"; "sessionId"; "status"; "model"; "tokenUsage"; "createdAt"; "updatedAt"] v &&
  prefixed "run_" "runId" v && prefixed "ses_" "sessionId" v && accepted run_status_schema "status" v &&
  bool_decide (is_Some (nonempty_string "model" v)) && accepted token_usage_schema "tokenUsage" v &&
  date_field "createdAt" v && date_field "updatedAt" v.

Definition AcceptedRunSchema (v : json) : option (string * string) :=
  r ← str_field "runId" v; s ← str_field "status" v; Some (r, s).

Definition parsed (ok : json -> bool) (v : json) : res SdkError json := if ok v then Ok v else Err zod_error.

Definition of_shared (e : error) : SdkError :=
  match e with
  | SwiftAgentError c m s => {| se_code := code_string c; se_message := m; se_statusCode := s |}
  | PlainError n m => {| se_code := n; se_message := m; se_statusCode := 0 |}
  end.

Definition lift_shared {X} (r : res error X) : res SdkError X :=
  match r with Ok x => Ok x | Err e => Err (of_shared e) end.

Definition registerAgent (body : json) : res SdkError json :=
  let? r := request "POST" "/v1/agents" (Some body) in
  let? _ := lift_shared (assertProtocolCompatible r.2 local_protocol) in
  parsed AgentRecordSchema r.1.

Definition getAgent (agentId : string) : res SdkError json :=
  let? r := request "GET" ("/v1/agents/" +:+ encodeURIComponent agentId) None in parsed AgentRecordSchema r.1.

Definition getAgentByName (name : string) : res SdkError json :=
  let? r := request "GET" ("/v1/agents?name=" +:+ encodeURIComponent name) None in parsed AgentRecordSchema r.1.

(** The body is not parsed; the advertised version is added to it. *)
Definition sdk_createSession (body : json) : res SdkError (json * option string) :=
  request "POST" "/v1/sessions" (Some body).

Definition sdk_getSession (sessionId : string) : res SdkError json :=
  let? r := request "GET" ("/v1/sessions/" +:+ encodeURIComponent sessionId) None in parsed SessionRecordSchema r.1.

Definition messages_path (sessionId : string) (limit : option Z) (cursor : option string) : string :=
  let qs := match limit with Some n => ["limit=" +:+ string_of_Z n] | None => [] end ++
            match cursor with
            | Some c => if String.eqb c "" then [] else ["cursor=" +:+ form_encode c]
            | None => []
            end in
  "/v1/sessions/" +:+ encodeURIComponent sessionId +:+ "/messages" +:+
  match qs with [] => "" | _ => "?" +:+ join "&" qs end.

(** A body without a list of data is a [TypeError]. *)
Definition sdk_listMessages (sessionId : string) (limit : option Z) (cursor : option string) :
    res SdkError (list json * jsval) :=
  let? r := request "GET" (messages_path sessionId limit cursor) None in
  match field "data" r.1 with
  | Some (JArr data) =>
      if forallb MessageRecordSchema data then Ok (data, field "hasMore" r.1) else Err zod_error
  | _ => Err {| se_code := "TypeError"; se_message := ""; se_statusCode := 0 |}
  end.

Definition accepted_run (v : json) : res SdkError (string * string) :=
  match AcceptedRunSchema v with Some r => Ok r | None => Err zod_error end.

Definition sdk_createRun (sessionId content : string) : res SdkError (string * string) :=
  let? r := request "POST" ("/v1/sessions/" +:+ encodeURIComponent sessionId +:+ "/runs")
              (Some (JObj [("content", JStr content)])) in accepted_run r.1.

Definition sdk_getRun (runId : string) : res SdkError json :=
  let? r := request "GET" ("/v1/runs/" +:+ encodeURIComponent runId) None in parsed RunRecordSchema r.1.

Definition cancelRun (runId : string) : res SdkError (string * string) :=
  let? r := request "POST" ("/v1/runs/" +:+ encodeURIComponent runId +:+ "/cancel") None in accepted_run r.1.
End client.
