(* ===== verification/SdkApp.v ===== *)
(** Tools, agents and the application of the SDK (packages/sdk/src/tool.ts,
    agent.ts, app.ts). *)
From S2P Require Import Prelude Json Shared Dto Sdk.

(** ** Tools (tool.ts) *)

(** What a developer passes to [tool]: [tc_schema] is a Zod schema when it has
    [safeParse], and [tc_execute] a function. *)
Record ToolConfig (S : Type) := {
  tc_name : jsval; tc_description : jsval; tc_schema : option S; tc_execute : bool }.
Arguments tc_name {S}. Arguments tc_description {S}. Arguments tc_schema {S}. Arguments tc_execute {S}.

Record SdkTool (S : Type) := { t_name : string; t_description : string; t_schema : S }.
Arguments t_name {S}. Arguments t_description {S}. Arguments t_schema {S}.

Definition invalidToolConfig (message : string) : error := swift_error VALIDATION message.

Definition nonempty_js (v : jsval) : option string :=
  match v with Some (JStr s) => if String.eqb s "" then None else Some s | _ => None end.

Section app.
Context {S : Type}.
(** [zodToJsonSchema], and the path and message of a configuration's first issue. *)
Context (zodToJsonSchema : S -> json) (first_issue : json -> string).
Context (fraction_in_0_2 : string -> bool).

Definition tool (config : ToolConfig S) : res error (SdkTool S) :=
  match nonempty_js (tc_name config) with
  | None => Err (invalidToolConfig ("Tool " +:+ quoted "name" +:+ " is required and must be a non-empty string."))
  | Some name =>
      match nonempty_js (tc_description config) with
      | None => Err (invalidToolConfig ("Tool " +:+ quoted "description" +:+
                       " is required and must be a non-empty string."))
      | Some description =>
          match tc_schema config with
          | None => Err (invalidToolConfig ("Tool " +:+ quoted name +:+ " inputSchema must be a Zod schema."))
          | Some schema =>
              if tc_execute config
              then Ok {| t_name := name; t_description := description; t_schema := schema |}
              else Err (invalidToolConfig ("Tool " +:+ quoted name +:+ " execute must be a function."))
          end
      end
  end.

(** The schema that is registered. *)
Definition toolToJsonSchema (t : SdkTool S) : ToolDefinition :=
  {| tool_name := t_name t; tool_description := t_description t; inputSchema := zodToJsonSchema (t_schema t) |}.

(** ** Agents (agent.ts) *)

Record AgentDefinition := {
  ad_name : string; ad_modelConfig : ModelConfig; ad_systemPrompt : string;
  ad_memoryConfig : option MemoryConfig; ad_toolSchemas : list ToolDefinition; ad_tools : list (SdkTool S) }.

Record SdkAgentConfig := {
  sc_name : string; sc_model : string; sc_system : option string; sc_temperature : jsval;
  sc_maxTokens : option Z; sc_memory : option MemoryConfig }.

(** [SdkAgentConfigSchema] on the configuration without its tools, which are
    any array. *)
Definition SdkAgentConfigSchema (v : json) : option SdkAgentConfig :=
  guard_opt (only_keys ["name"; "model"; "system"; "temperature"; "maxTokens"; "memory"] v)
    (n ← nonempty_string "name" v; m ← nonempty_string "model" v;
     s ← optional (fun x => match x with JStr s => Some s | _ => None end) "system" v;
     t ← optional (temperature_schema fraction_in_0_2) "temperature" v;
     k ← optional positive_int "maxTokens" v;
     mem ← optional MemoryConfigSchema "memory" v;
     Some {| sc_name := n; sc_model := m; sc_system := s; sc_temperature := t; sc_maxTokens := k;
             sc_memory := mem |}).

(** The first name that was seen before. *)
Fixpoint duplicate (seen : list string) (names : list string) : option string :=
  match names with
  | [] => None
  | n :: names => if existsb (String.eqb n) seen then Some n else duplicate (n :: seen) names
  end.

Definition defineAgent (config : json) (tools : list (SdkTool S)) : res error AgentDefinition :=
  match SdkAgentConfigSchema config with
  | None => Err (swift_error VALIDATION ("Invalid agent config: " +:+ first_issue config +:+
                   ". Check the value passed to defineAgent()."))
  | Some parsed =>
      match duplicate [] (map t_name tools) with
      | Some n =>
          Err (swift_error VALIDATION ("Duplicate tool name " +:+ quoted n +:+ " in agent " +:+
            quoted (sc_name parsed) +:+
            " — each tool name must be unique within an agent; rename one of the conflicting tools."))
      | None =>
          Ok {| ad_name := sc_name parsed;
                ad_modelConfig := {| mc_model := sc_model parsed; mc_temperature := sc_temperature parsed;
                                     mc_maxTokens := sc_maxTokens parsed |};
                ad_systemPrompt := sc_system parsed ?? "";
                ad_memoryConfig := sc_memory parsed;
                ad_toolSchemas := map toolToJsonSchema tools; ad_tools := tools |}
      end
  end.

(** ** The application (app.ts) *)

Record App := {
  app_agents : list AgentDefinition; app_tools : gmap string (SdkTool S); app_server : bool }.

Definition createAgentApp (apiKey : string) : res error App :=
  if String.eqb apiKey "" then
    Err (swift_error VALIDATION ("createAgentApp requires an " +:+ quoted "apiKey" +:+
      " — pass your workspace API key (e.g. process.env.SWIFT_AGENT_API_KEY) to createAgentApp({ apiKey })."))
  else Ok {| app_agents := []; app_tools := ∅; app_server := false |}.

Definition duplicate_tool (n : string) : error :=
  swift_error VALIDATION ("Duplicate tool name " +:+ quoted n +:+
    " — each tool name must be unique across all agents registered on this app; rename one of the conflicting tools.").

(** The loop that merges a definition's tools: what it has added stays when it
    throws. *)
Fixpoint add_tools (ts : list (SdkTool S)) (m : gmap string (SdkTool S)) :
    option error * gmap string (SdkTool S) :=
  match ts with
  | [] => (None, m)
  | t :: ts =>
      match m !! t_name t with
      | Some _ => (Some (duplicate_tool (t_name t)), m)
      | None => add_tools ts (<[t_name t := t]> m)
      end
  end.

Definition app_agent (definition : AgentDefinition) (a : App) : option error * App :=
  let '(e, m) := add_tools (ad_tools definition) (app_tools a) in
  match e with
  | Some e => (Some e, {| app_agents := app_agents a; app_tools := m; app_server := app_server a |})
  | None => (None, {| app_agents := app_agents a ++ [definition]; app_tools := m; app_server := app_server a |})
  end.

(** What [listen] sends for an agent: the members that are [undefined] are
    left out. *)
Definition strategy_string (s : MemoryStrategyName) : string :=
  match s with last_n => "last_n" | summary => "summary" end.

Definition memory_json (m : MemoryConfig) : json :=
  obj_literal [("strategy", Some (JStr (strategy_string (mem_strategy m))));
               ("maxMessages", (fun n => JNum (Z.of_nat n)) <$> mem_maxMessages m)].

Definition model_json (m : ModelConfig) : json :=
  obj_literal [("model", Some (JStr (mc_model m))); ("temperature", mc_temperature m);
               ("maxTokens", JNum <$> mc_maxTokens m)].

Definition tool_json (t : ToolDefinition) : json :=
  JObj [("name", JStr (tool_name t)); ("description", JStr (tool_description t)); ("inputSchema", inputSchema t)].

Definition register_body (publicUrl : string) (d : AgentDefinition) : json :=
  obj_literal [("name", Some (JStr (ad_name d))); ("modelConfig", Some (model_json (ad_modelConfig d)));
               ("systemPrompt", Some (JStr (ad_systemPrompt d))); ("memoryConfig", memory_json <$> ad_memoryConfig d);
               ("tools", Some (JArr (map tool_json (ad_toolSchemas d))));
               ("toolRunnerUrl", Some (JStr publicUrl))].

(** *** Listening *)

Record ListenConfig := {
  lc_runnerPublicKey : option string; lc_runnerAudience : option string; lc_runnerWorkspaceId : option string }.

Record Env := {
  env_PORT : option string; env_PUBLIC_URL : option string; env_PUBLIC_KEY : option string;
  env_WORKSPACE_ID : option string; env_AUDIENCE : option string }.

Definition DEFAULT_PORT : Z := 8787.

(** [port ?? (process.env.PORT ? parseInt(process.env.PORT, 10) : DEFAULT_PORT)];
    [None] is [NaN]. *)
Definition listen_port (port : option Z) (env : Env) : option Z :=
  match port with
  | Some p => Some p
  | None => match env_PORT env with
            | Some s => if String.eqb s "" then Some DEFAULT_PORT else parseInt s
            | None => Some DEFAULT_PORT
            end
  end.

Definition nonempty_opt (o : option string) : option string :=
  match o with Some s => if String.eqb s "" then None else Some s | None => None end.

Definition or_else (a b : option string) : option string := match a with Some x => Some x | None => b end.

Record Plan := { pl_port : option Z; pl_publicUrl : string; pl_audience : string; pl_workspaceId : string;
                 pl_publicKey : string }.

(** The configuration of the runner: [probe] is a free port of the system. *)
Definition listen_plan (config : ListenConfig) (env : Env) (port : option Z) (probe : Z) : res error Plan :=
  let p := match listen_port port env with Some 0 => Some probe | p => p end%Z in
  let publicUrl := env_PUBLIC_URL env ??
    ("http://127.0.0.1:" +:+ match p with Some p => string_of_Z p | None => "NaN" end) in
  match nonempty_opt (or_else (lc_runnerPublicKey config) (env_PUBLIC_KEY env)) with
  | None =>
      Err (swift_error VALIDATION ("Runner verification requires the RUNNER_TOKEN_PUBLIC_KEY env var " +:+
        "(PEM/SPKI or JWK JSON) or the runnerPublicKey option — set one before calling app.listen()."))
  | Some key =>
      match nonempty_opt (or_else (lc_runnerWorkspaceId config) (env_WORKSPACE_ID env)) with
      | None =>
          Err (swift_error VALIDATION ("Runner verification requires the RUNNER_WORKSPACE_ID env var " +:+
            "(the runner's ws_ workspace id) or the runnerWorkspaceId option — set one before calling app.listen()."))
      | Some ws =>
          Ok {| pl_port := p; pl_publicUrl := publicUrl;
                pl_audience := or_else (lc_runnerAudience config) (env_AUDIENCE env) ?? publicUrl;
                pl_workspaceId := ws; pl_publicKey := key |}
      end
  end.

Fixpoint register_all (register : json -> res SdkError json) (publicUrl : string) (ds : list AgentDefinition) :
    res SdkError unit :=
  match ds with
  | [] => Ok tt
  | d :: ds => let? _ := register (register_body publicUrl d) in register_all register publicUrl ds
  end.

(** [listen]: the key is imported and the server started ([starts]) before the
    agents are registered; the server runs when a registration fails. *)
Definition listen (config : ListenConfig) (env : Env) (port : option Z) (probe : Z)
    (starts : Plan -> res error unit) (register : json -> res SdkError json) (a : App) :
    res SdkError unit * App :=
  match listen_plan config env port probe with
  | Err e => (Err (of_shared e), a)
  | Ok plan =>
      match starts plan with
      | Err e => (Err (of_shared e), a)
      | Ok _ =>
          (register_all register (pl_publicUrl plan) (app_agents a),
           {| app_agents := app_agents a; app_tools := app_tools a; app_server := true |})
      end
  end.

Definition close (a : App) : App :=
  {| app_agents := app_agents a; app_tools := app_tools a; app_server := false |}.
End app.
