(* ===== verification/SdkProps.v ===== *)
(** What the SDK sends is what the API reads, and what the API answers is what
    the SDK reports (see [Sdk], [SdkApp]). *)
From S2P Require Import Prelude Json Shared Effects Dto Api Sdk SdkApp.

(** ** Errors *)

(** The body of an error response on the wire. *)
Definition error_json (b : Body) : json :=
  match b with
  | error_body code message => JObj [("error", JObj [("code", JStr code); ("message", JStr message)])]
  | _ => JNull
  end.

(** The network between the client and one answer of the API. *)
Definition answering (r : Response) : string -> string -> option string -> fetched :=
  fun _ _ _ => answered_fetch (rs_status r) (Some API_PROTOCOL_VERSION) (error_json (rs_body r)).

Lemma code_known c : known_code (code_string c) = true.
Proof. by destruct c. Qed.

(** The code that an error of a handler stands for. *)
Definition meant_code (e : error) : string :=
  match e with
  | SwiftAgentError code _ _ => code_string code
  | PlainError name _ =>
      if String.eqb name "ZodError" || String.eqb name "FastifyValidation" then "VALIDATION" else "INTERNAL"
  end.

(** C32: An error of the control plane reaches the developer with
    the code that was meant and the status of the response, whatever the status
    that came with the code; an unexpected error reaches him as an internal one. *)
Theorem error_codes_survive_the_wire e base method path body :
  res_ok (rs_status (errorHandler e)) = false ->
  exists x, Sdk.request (answering (errorHandler e)) base method path body = Err x /\
    se_code x = meant_code e /\ se_statusCode x = rs_status (errorHandler e).
Proof.
  intros H. unfold Sdk.request, answering. rewrite H. eexists. split; [reflexivity|]. split; [|done].
  unfold httpErrorToSwiftAgentError, errorHandler, meant_code. destruct e as [c m st|n m].
  - simpl. by rewrite code_known.
  - destruct (String.eqb n "ZodError"); [done|]. by destruct (String.eqb n "FastifyValidation").
Qed.

Lemma error_codes_survive_the_wire_witness :
  exists x, Sdk.request (answering (errorHandler (swift_error INCOMPATIBLE_VERSION "old"))) None "POST" "/v1/agents" None
    = Err x /\ se_code x = "INCOMPATIBLE_VERSION" /\ se_statusCode x = 409%Z.
Proof. apply (error_codes_survive_the_wire (swift_error INCOMPATIBLE_VERSION "old")). reflexivity. Defined.

(** The status alone does not give the code back: two codes share 409. *)
Theorem status_does_not_give_the_code :
  statusToCode (CODE_TO_STATUS INCOMPATIBLE_VERSION) = CONFLICT /\
  forall c, c <> INCOMPATIBLE_VERSION -> statusToCode (CODE_TO_STATUS c) = c.
Proof. split; [done|]. by intros []. Qed.

(** A code that is the name of a member of every object passes for a known one. *)
Theorem prototype_names_are_known_codes method path status :
  se_code (httpErrorToSwiftAgentError method path status (JObj [("code", JStr "toString")])) = "toString".
Proof. done. Qed.

(** ** Registration *)

#[local] Arguments temperature_schema : simpl never.
#[local] Arguments ModelConfigSchema : simpl never.
#[local] Arguments MemoryConfigSchema : simpl never.
#[local] Arguments String.eqb : simpl nomatch.

Section registration.
Context {S : Type} (zodToJsonSchema : S -> json) (first_issue : json -> string).
Context (is_url fraction_in_0_2 : string -> bool).
Context (Hobject : forall s, is_obj (zodToJsonSchema s) = true).   (* a schema is an object *)

Lemma tool_named c (t : SdkTool S) : tool c = Ok t -> t_name t <> "".
Proof.
  unfold tool, nonempty_js. destruct (tc_name c) as [[| | | |n| |]|]; try done.
  destruct (String.eqb_spec n ""); [done|].
  destruct (tc_description c) as [[| | | |d| |]|]; try done. destruct (String.eqb d ""); [done|].
  destruct (tc_schema c); [|done]. destruct (tc_execute c); [|done]. by intros [= <-].
Qed.

Lemma tool_accepted (t : ToolDefinition) :
  tool_name t <> "" -> is_obj (inputSchema t) = true -> ToolDefinitionSchema (tool_json t) = Some t.
Proof.
  destruct t as [n d i]. simpl. intros Hn Hi. unfold ToolDefinitionSchema, tool_json, nonempty_string, record_schema.
  simpl. destruct i; try done. simpl. by rewrite (proj2 (String.eqb_neq _ _) Hn).
Qed.

Lemma tools_accepted (ts : list ToolDefinition) :
  Forall (fun t => tool_name t <> "" /\ is_obj (inputSchema t) = true) ts ->
  all_of ToolDefinitionSchema (map tool_json ts) = Some ts.
Proof.
  induction 1 as [|t ts [Hn Hi] _ IH]; [done|]. cbn [map all_of]. rewrite (tool_accepted t Hn Hi). simpl.
  by rewrite IH.
Qed.

Definition model_ok (m : ModelConfig) : Prop :=
  mc_model m <> "" /\
  match mc_temperature m with Some t => temperature_schema fraction_in_0_2 t = Some t | None => True end /\
  match mc_maxTokens m with Some n => (0 < n)%Z | None => True end.

Lemma model_accepted m : model_ok m -> ModelConfigSchema fraction_in_0_2 (model_json m) = Some m.
Proof.
  destruct m as [n t k]. unfold model_ok, ModelConfigSchema, nonempty_string, optional. simpl. intros (Hn & Ht & Hk).
  apply String.eqb_neq in Hn. destruct t as [t|], k as [k|]; simpl; rewrite Hn; simpl; rewrite ?Ht; simpl;
    rewrite ?(proj2 (Z.ltb_lt _ _) Hk); done.
Qed.

Definition memory_ok (m : MemoryConfig) : Prop :=
  match mem_maxMessages m with Some n => (0 < n)%nat | None => True end.

Lemma memory_accepted m : memory_ok m -> MemoryConfigSchema (memory_json m) = Some m.
Proof.
  destruct m as [s [n|]]; unfold memory_ok; simpl; intros H; destruct s; try done;
    unfold MemoryConfigSchema, optional; simpl; rewrite (proj2 (Z.ltb_lt 0 (Z.of_nat n)) ltac:(lia)); simpl; by rewrite Nat2Z.id.
Qed.

(** What [defineAgent] guarantees of a definition. *)
Record definition_ok (d : AgentDefinition (S := S)) : Prop := {
  d_name : ad_name d <> "";
  d_model : model_ok (ad_modelConfig d);
  d_memory : match ad_memoryConfig d with Some m => memory_ok m | None => True end;
  d_tools : Forall (fun t => tool_name t <> "" /\ is_obj (inputSchema t) = true) (ad_toolSchemas d) }.

Lemma guard_opt_some {X} b (o : option X) x : guard_opt b o = Some x -> b = true /\ o = Some x.
Proof. by destruct b. Qed.

Lemma nonempty_string_ok k v s : nonempty_string k v = Some s -> s <> "".
Proof.
  unfold nonempty_string. destruct (str_field k v) as [x|]; [|done]. simpl. intros H.
  apply guard_opt_some in H as [H [= <-]]. by reflect_bools.
Qed.

Lemma temperature_idem t x : temperature_schema fraction_in_0_2 t = Some x -> x = t.
Proof.
  destruct t; simpl; try done; intros H; apply guard_opt_some in H as [_ H]; by injection H as <-.
Qed.

Lemma memory_schema_ok v m : MemoryConfigSchema v = Some m -> memory_ok m.
Proof.
  unfold MemoryConfigSchema, memory_ok, optional. intros H. apply guard_opt_some in H as [_ H].
  apply bind_Some in H as (s & _ & H). apply bind_Some in H as (n & Hn & [= <-]). simpl.
  destruct (field "maxMessages" v) as [x|]; [|by injection Hn as <-].
  destruct x; try done. simpl in Hn. destruct (Z.ltb_spec 0 n0); [|done]. injection Hn as <-. simpl. lia.
Qed.

Lemma defined_ok config ts d :
  Forall (fun t => exists c, tool c = Ok t) ts ->
  defineAgent zodToJsonSchema first_issue fraction_in_0_2 config ts = Ok d -> definition_ok d.
Proof.
  intros Hts. unfold defineAgent. destruct (SdkAgentConfigSchema _ config) as [p|] eqn:E; [|done].
  destruct (duplicate _ _); [done|]. intros [= <-].
  unfold SdkAgentConfigSchema in E. apply guard_opt_some in E as [_ E].
  repeat (apply bind_Some in E as (? & ? & E)). injection E as <-.
  repeat match goal with H : nonempty_string _ _ = Some _ |- _ => apply nonempty_string_ok in H end.
  split; simpl; [done| | |].
  - split; [done|]. simpl. split.
    + match goal with H : optional (temperature_schema _) _ _ = Some ?o |- _ => destruct o as [t|]; [|done];
        unfold optional in H; destruct (field _ _) as [y|]; [|done]; simpl in H;
        destruct (temperature_schema _ y) eqn:Et; [|done]; injection H as ->;
        rewrite (temperature_idem _ _ Et) in Et |- *; done end.
    + match goal with H : optional positive_int _ _ = Some ?o |- _ => destruct o as [k|]; [|done];
        unfold optional in H; destruct (field _ _) as [[]|]; try done; simpl in H;
        destruct (Z.ltb_spec 0 n); [|done]; by injection H as -> end.
  - match goal with H : optional MemoryConfigSchema _ _ = Some ?o |- _ => destruct o as [m|]; [|done];
      unfold optional in H; destruct (field _ _) as [y|]; [|done]; simpl in H;
      destruct (MemoryConfigSchema y) eqn:Em; [|done]; injection H as ->; by apply memory_schema_ok in Em end.
  - apply Forall_fmap. eapply Forall_impl; [exact Hts|]. intros t (c & Hc). simpl. split; [by eapply tool_named|apply Hobject].
Qed.

(** What the SDK registers for an agent that [defineAgent]
    returned is accepted by the API's schema, with every part as it was
    defined and the runner's address. *)
Theorem registration_is_accepted config ts d url :
  Forall (fun t => exists c, tool c = Ok t) ts ->
  defineAgent zodToJsonSchema first_issue fraction_in_0_2 config ts = Ok d -> is_url url = true ->
  CreateAgentBodySchema is_url fraction_in_0_2 (register_body url d) =
    Some {| ca_name := ad_name d; ca_modelConfig := ad_modelConfig d; ca_systemPrompt := ad_systemPrompt d;
            ca_memoryConfig := ad_memoryConfig d; ca_toolRunnerUrl := Some (Some url);
            ca_tools := Some (map (toolToJsonSchema zodToJsonSchema) ts) |}.
Proof.
  intros Hts Hd Hu. assert (E : ad_toolSchemas d = map (toolToJsonSchema zodToJsonSchema) ts).
  { unfold defineAgent in Hd. destruct (SdkAgentConfigSchema _ config); [|done].
    destruct (duplicate _ _); [done|]. by injection Hd as <-. }
  destruct (defined_ok _ _ _ Hts Hd) as [Hn Hm Hme Ht]. rewrite <- E. clear Hd E.
  destruct d as [n m p mem tss tools]; simpl in *. apply String.eqb_neq in Hn.
  unfold CreateAgentBodySchema, register_body, nonempty_string, optional. destruct mem as [mem|]; simpl;
    rewrite Hn; simpl; rewrite (model_accepted _ Hm); simpl; rewrite ?(memory_accepted _ Hme); simpl;
    rewrite Hu; simpl; by rewrite (tools_accepted _ Ht).
Qed.
End registration.

Definition config_1 : json :=
  JObj [("name", JStr "helper"); ("model", JStr "openai:gpt"); ("maxTokens", JNum 64);
        ("memory", JObj [("strategy", JStr "last_n"); ("maxMessages", JNum 20)])].
Definition tool_1 : SdkTool unit := {| t_name := "search"; t_description := "Finds"; t_schema := tt |}.
Definition any_object (_ : unit) : json := JObj [("type", JStr "object")].

Lemma registration_is_accepted_witness :
  exists d, defineAgent any_object (fun _ => "name") (fun _ => false) config_1 [tool_1] = Ok d /\
    exists b, CreateAgentBodySchema (fun _ => true) (fun _ => false) (register_body "http://127.0.0.1:8787" d) = Some b /\
      ca_toolRunnerUrl b = Some (Some "http://127.0.0.1:8787").
Proof.
  destruct (defineAgent any_object (fun _ => "name") (fun _ => false) config_1 [tool_1]) as [d|] eqn:E; [|done].
  exists d. split; [reflexivity|]. eexists. split.
  - apply (registration_is_accepted any_object (fun _ => "name") (fun _ => true) (fun _ => false)
      (fun _ => eq_refl) config_1 [tool_1] d); [|exact E|reflexivity].
    constructor; [|constructor].
    by exists {| tc_name := Some (JStr "search"); tc_description := Some (JStr "Finds"); tc_schema := Some tt;
                 tc_execute := true |}.
  - reflexivity.
Defined.

(** ** Tools of an application *)

Lemma add_tools_keeps {S} (ts : list (SdkTool S)) m n t : m !! n = Some t -> (add_tools ts m).2 !! n = Some t.
Proof.
  revert m. induction ts as [|x ts IH]; intros m H; [done|]. simpl.
  destruct (m !! t_name x) eqn:E; [done|]. apply IH. rewrite lookup_insert_ne; [done|]. congruence.
Qed.

Lemma add_tools_taken {S} (ts : list (SdkTool S)) m t u :
  t ∈ ts -> m !! t_name t = Some u -> exists e, (add_tools ts m).1 = Some e.
Proof.
  revert m. induction ts as [|x ts IH]; intros m Ht Hm; [by apply elem_of_nil in Ht|]. simpl.
  destruct (m !! t_name x) eqn:E; [by eexists|]. apply elem_of_cons in Ht as [->|Ht]; [congruence|].
  apply IH; [done|]. rewrite lookup_insert_ne; [done|]. congruence.
Qed.

(** An agent that is refused for one tool's name keeps the names of the tools
    before it: registering it again, with the conflicting tool renamed as the
    error asks, is refused too. *)
Theorem refused_agent_keeps_its_tools {S} (d d' : AgentDefinition (S := S)) t rest e a a' :
  ad_tools d = t :: rest -> app_tools a !! t_name t = None -> app_agent d a = (Some e, a') ->
  t ∈ ad_tools d' -> exists e', (app_agent d' a').1 = Some e'.
Proof.
  intros Ht Hn Hd Hin. unfold app_agent in Hd. rewrite Ht in Hd. simpl in Hd. rewrite Hn in Hd.
  pose proof (add_tools_keeps rest (<[t_name t:=t]> (app_tools a)) (t_name t) t (lookup_insert_eq _ _ _)) as Hk.
  destruct (add_tools rest _) as [o m]. destruct o as [x|]; [|done]. injection Hd as <- <-. simpl in Hk.
  destruct (add_tools_taken (ad_tools d') m t t Hin Hk) as (e' & He).
  unfold app_agent. simpl. destruct (add_tools (ad_tools d') m) as [o m']. simpl in He. subst. by exists e'.
Qed.
