(* ===== verification/Ssrf.v ===== *)
(** The outbound guard of the remote tool runner (packages/runtime/src/ssrf.ts).

    [isIP] of node:net, the URL parser and the DNS lookup are parameters.  The
    bit operations are JavaScript's: operands are taken to 32-bit integers. *)
From S2P Require Import Prelude Json Shared.

(** ** 32-bit integers *)
Definition to_uint32 (n : Z) : Z := (n mod 2 ^ 32)%Z.
Definition to_int32 (n : Z) : Z :=
  let m := to_uint32 n in if (m <? 2 ^ 31)%Z then m else (m - 2 ^ 32)%Z.
(** [a & b], signed. *)
Definition bit_and (a b : Z) : Z := to_int32 (Z.land (to_int32 a) (to_int32 b)).

(** ** Addresses *)

Fixpoint split_all (c : ascii) (t : text) : list text :=
  match t with
  | [] => [[]]
  | x :: t =>
      if Ascii.eqb x c then [] :: split_all c t
      else match split_all c t with
           | p :: ps => (x :: p) :: ps
           | [] => [[x]]
           end
  end.

Definition digit_value (c : ascii) : Z := (Z.of_nat (nat_of_ascii c) - 48)%Z.

(** [Number(part)] of a run of digits. *)
Definition number_of (t : text) : Z := fold_left (fun n c => n * 10 + digit_value c)%Z t 0%Z.

(** [/^\d{1,3}$/]. *)
Definition octet_text (t : text) : bool :=
  forallb is_digit t && (1 <=? length t)%nat && (length t <=? 3)%nat.

Fixpoint octets (value : Z) (parts : list text) : option Z :=
  match parts with
  | [] => Some value
  | p :: parts =>
      if negb (octet_text p) then None
      else let n := number_of p in
           if (255 <? n)%Z then None else octets (value * 256 + n)%Z parts
  end.

Definition ipv4ToInt (ip : string) : option Z :=
  let parts := split_all "." (list_ascii_of_string ip) in
  if (length parts =? 4)%nat then to_uint32 <$> octets 0 parts else None.

Definition isLoopbackV4 (n : Z) : bool := Z.eqb (bit_and n 0xff000000) 0x7f000000.

Definition inCidr (n mask network : Z) : bool :=
  Z.eqb (to_uint32 (bit_and n mask)) (to_uint32 network).

Definition isDisallowedV4 (n : Z) : bool :=
  isLoopbackV4 n ||
  inCidr n 0xff000000 0x00000000 ||
  inCidr n 0xff000000 0x0a000000 ||
  inCidr n 0xfff00000 0xac100000 ||
  inCidr n 0xffff0000 0xc0a80000 ||
  inCidr n 0xffc00000 0x64400000 ||
  inCidr n 0xffff0000 0xa9fe0000.

Definition lower (c : ascii) : ascii :=
  let n := nat_of_ascii c in
  if ((65 <=? n) && (n <=? 90))%nat then ascii_of_nat (n + 32) else c.
Definition toLowerCase (s : string) : string := on_text (map lower) s.

Definition normalizeV6 (ip : string) : string :=
  toLowerCase (match split_at "%" ip with Some (before, _) => before | None => ip end).

(** [/^::ffff:(\d{1,3}(?:\.\d{1,3}){3})$/]: the embedded address. *)
Definition mapped_v4 (v6 : string) : option string :=
  match strip (list_ascii_of_string "::ffff:") (list_ascii_of_string v6) with
  | Some rest =>
      let parts := split_all "." rest in
      if (length parts =? 4)%nat && forallb octet_text parts
      then Some (string_of_list_ascii rest) else None
  | None => None
  end.

Section guard.
(** [isIP] of node:net: 4, 6, or 0 when the string is no address. *)
Context (isIP : string -> nat).

Definition isDisallowedAddress (ip : string) : bool :=
  if (isIP ip =? 4)%nat then
    match ipv4ToInt ip with None => true | Some n => isDisallowedV4 n end
  else if (isIP ip =? 6)%nat then
    let v6 := normalizeV6 ip in
    if String.eqb v6 "::1" || String.eqb v6 "::" then true
    else if existsb (fun p => starts_with p v6) ["fe8"; "fe9"; "fea"; "feb"]%string then true
    else if existsb (fun p => starts_with p v6) ["fc"; "fd"]%string then true
    else match mapped_v4 v6 with
         | Some ip4 => match ipv4ToInt ip4 with None => true | Some n => isDisallowedV4 n end
         | None => false
         end
  else true.

Definition isLoopbackAddress (ip : string) : bool :=
  if (isIP ip =? 4)%nat then
    match ipv4ToInt ip with None => false | Some n => isLoopbackV4 n end
  else if (isIP ip =? 6)%nat then String.eqb (normalizeV6 ip) "::1"
  else false.

(** ** Resolution *)

Record OutboundUrlPolicy := { requireHttps : bool; allowLoopback : bool }.

(** The members of a parsed [URL] that are used. *)
Record URL := { url_href : string; url_protocol : string; url_hostname : string }.

(** [new URL(raw)]: [None] when it throws. *)
Context (parse_url : string -> option URL).
(** [dnsLookup(hostname, { all: true })]: [None] when it rejects. *)
Context (dns : string -> option (list string)).

Definition disallowed (why : string) : error :=
  swift_error VALIDATION ("Disallowed runner target: " +:+ why).

(** [hostname.replace(/^\[|\]$/g, '')]. *)
Definition unwrap (hostname : string) : string :=
  on_text (fun t =>
    let t := match t with c :: t' => if Ascii.eqb c "[" then t' else t | [] => t end in
    match rev t with c :: t' => if Ascii.eqb c "]" then rev t' else t | [] => t end) hostname.

Definition permitted (policy : OutboundUrlPolicy) (address : string) : bool :=
  negb (isDisallowedAddress address) || (allowLoopback policy && isLoopbackAddress address).

(** The addresses of a host, and the first that is refused. *)
Definition addresses_of (hostname : string) : res error (list string) :=
  if negb (isIP hostname =? 0)%nat then Ok [hostname]
  else match dns hostname with
       | None => Err (disallowed ("cannot resolve " +:+ hostname))
       | Some [] => Err (disallowed (hostname +:+ " resolved to no addresses"))
       | Some l => Ok l
       end.

Definition resolveAllowedOutboundTarget (rawUrl : string) (policy : OutboundUrlPolicy) :
    res error (URL * string) :=
  match parse_url rawUrl with
  | None => Err (disallowed "malformed URL")
  | Some url =>
      if requireHttps policy && negb (String.eqb (url_protocol url) "https:")
      then Err (disallowed (url_protocol url +:+ " scheme requires https"))
      else if negb (String.eqb (url_protocol url) "https:") && negb (String.eqb (url_protocol url) "http:")
      then Err (disallowed ("unsupported scheme " +:+ url_protocol url))
      else
        let hostname := unwrap (url_hostname url) in
        let? addresses := addresses_of hostname in
        match List.find (fun a => negb (permitted policy a)) addresses with
        | Some address =>
            Err (disallowed (hostname +:+ " resolves to blocked address " +:+ address))
        | None => Ok (url, hd ""%string addresses)
        end
  end.

(** ** Pinning *)

Record LookupRecord := { lr_address : string; lr_family : nat }.

(** What the callback of a lookup is given, with [{ all: true }] and without. *)
Inductive lookup_answer : Type :=
| answer_all (records : list LookupRecord)
| answer_one (address : string) (family : nat).

(** An [Agent] of undici, by its [connect.lookup]. *)
Record Dispatcher := { connect_lookup : string -> bool -> lookup_answer }.

Definition createPinnedDispatcher (pinnedIp : string) : Dispatcher :=
  let family := if (isIP pinnedIp =? 6)%nat then 6%nat else 4%nat in
  {| connect_lookup := fun _hostname all =>
       if all then answer_all [{| lr_address := pinnedIp; lr_family := family |}]
       else answer_one pinnedIp family |}.

(** The addresses that a connection for a URL dials, in order: Node's
    [net.connect] takes an address as it is, and looks only a name up. *)
Definition dials (d : Dispatcher) (url : URL) : list string :=
  let host := unwrap (url_hostname url) in
  if negb (isIP host =? 0)%nat then [host]
  else match connect_lookup d host true with
       | answer_all records => map lr_address records
       | answer_one address _ => [address]
       end.
End guard.

(** ** Facts *)

Lemma to_int32_mod n : to_uint32 (to_int32 n) = to_uint32 n.
Proof.
  unfold to_int32, to_uint32. assert (H := Z.mod_pos_bound n (2 ^ 32) ltac:(lia)).
  destruct (Z.ltb_spec (n mod 2 ^ 32) (2 ^ 31)).
  - by rewrite Z.mod_mod by lia.
  - replace (n mod 2 ^ 32 - 2 ^ 32)%Z with (n mod 2 ^ 32 + (-1) * 2 ^ 32)%Z by lia.
    by rewrite Z.mod_add, Z.mod_mod by lia.
Qed.

Lemma land_mod a b : to_uint32 (Z.land a b) = Z.land (to_uint32 a) (to_uint32 b).
Proof.
  unfold to_uint32. rewrite <- !Z.land_ones by lia. apply Z.bits_inj'. intros i Hi.
  rewrite !Z.land_spec. by destruct (Z.testbit a i), (Z.testbit b i), (Z.testbit (Z.ones 32) i).
Qed.

Lemma bit_and_unsigned a b :
  (0 <= a < 2 ^ 32)%Z -> (0 <= b < 2 ^ 32)%Z -> to_uint32 (bit_and a b) = Z.land a b.
Proof.
  intros Ha Hb. unfold bit_and. rewrite to_int32_mod, land_mod, !to_int32_mod.
  unfold to_uint32. by rewrite !Z.mod_small by lia.
Qed.

(** A prefix mask keeps the high bits. *)
Lemma land_prefix n k :
  (0 <= k <= 32)%Z -> (0 <= n < 2 ^ 32)%Z ->
  Z.land n (2 ^ 32 - 2 ^ k) = (n / 2 ^ k * 2 ^ k)%Z.
Proof.
  intros Hk Hn. rewrite <- Z.shiftr_div_pow2, <- Z.shiftl_mul_pow2 by lia.
  replace (2 ^ 32 - 2 ^ k)%Z with (Z.shiftl (Z.ones (32 - k)) k).
  2: { rewrite Z.shiftl_mul_pow2, Z.ones_equiv by lia.
       replace (2 ^ 32)%Z with (2 ^ (32 - k) * 2 ^ k)%Z by (rewrite <- Z.pow_add_r by lia; f_equal; lia).
       lia. }
  apply Z.bits_inj'. intros i Hi. rewrite Z.land_spec, !Z.shiftl_spec by lia.
  destruct (Z.ltb_spec i k).
  - rewrite (Z.testbit_neg_r _ (i - k)), (Z.testbit_neg_r (Z.shiftr n k)) by lia. by rewrite andb_false_r.
  - rewrite Z.shiftr_spec by lia. replace (i - k + k)%Z with i by lia.
    destruct (Z.ltb_spec i 32).
    + rewrite Z.ones_spec_low by lia. by rewrite andb_true_r.
    + rewrite (Z.bits_above_log2 n i); [done|lia|].
      destruct (Z.eq_dec n 0%Z) as [->|]; [simpl; lia|].
      apply Z.log2_lt_pow2; [lia|]. apply Z.lt_le_trans with (2 ^ 32)%Z; [lia|].
      by apply Z.pow_le_mono_r; lia.
Qed.

Lemma inCidr_prefix n k network :
  (0 <= k <= 32)%Z -> (0 <= n < 2 ^ 32)%Z -> (0 < 2 ^ k)%Z -> (0 <= network * 2 ^ k < 2 ^ 32)%Z ->
  inCidr n (2 ^ 32 - 2 ^ k) (network * 2 ^ k) = Z.eqb (n / 2 ^ k) network.
Proof.
  intros Hk Hn Hp Hnet. unfold inCidr.
  assert (2 ^ k <= 2 ^ 32)%Z by (apply Z.pow_le_mono_r; lia).
  destruct (Z.eq_dec k 0%Z) as [->|].
  { rewrite bit_and_unsigned, land_prefix by lia. unfold to_uint32. rewrite Z.mod_small by lia.
    rewrite !Z.mul_1_r. done. }
  rewrite bit_and_unsigned, land_prefix by lia. unfold to_uint32. rewrite Z.mod_small by lia.
  destruct (Z.eqb_spec (n / 2 ^ k * 2 ^ k) (network * 2 ^ k)), (Z.eqb_spec (n / 2 ^ k) network);
    nia || done.
Qed.

Lemma loopback_prefix n :
  (0 <= n < 2 ^ 32)%Z -> isLoopbackV4 n = Z.eqb (n / 2 ^ 24) 127.
Proof.
  intros Hn. rewrite <- (inCidr_prefix n 24 127) by lia. unfold isLoopbackV4, inCidr.
  change (2 ^ 32 - 2 ^ 24)%Z with 0xff000000%Z. change (127 * 2 ^ 24)%Z with 0x7f000000%Z.
  unfold bit_and. set (x := Z.land _ _). rewrite to_int32_mod.
  change (to_uint32 0x7f000000) with 0x7f000000%Z.
  assert (H := Z.mod_pos_bound x (2 ^ 32) ltac:(lia)). unfold to_int32, to_uint32.
  destruct (Z.ltb_spec (x mod 2 ^ 32) (2 ^ 31)); [done|].
  rewrite (proj2 (Z.eqb_neq _ _)) by lia. symmetry. apply Z.eqb_neq. lia.
Qed.

(** The networks that the comments of the code name, on the octets. *)
Definition blocked_network (a b : Z) : bool :=
  Z.eqb a 127 || Z.eqb a 0 || Z.eqb a 10 ||
  (Z.eqb a 172 && (16 <=? b)%Z && (b <=? 31)%Z) ||
  (Z.eqb a 192 && Z.eqb b 168) ||
  (Z.eqb a 100 && (64 <=? b)%Z && (b <=? 127)%Z) ||
  (Z.eqb a 169 && Z.eqb b 254).

Definition octet (a : Z) : Prop := (0 <= a <= 255)%Z.

Definition v4_int (a b c d : Z) : Z := (((a * 256 + b) * 256 + c) * 256 + d)%Z.

Lemma v4_int_range a b c d :
  octet a -> octet b -> octet c -> octet d -> (0 <= v4_int a b c d < 2 ^ 32)%Z.
Proof. unfold octet, v4_int. lia. Qed.

Ltac network_eq :=
  apply eq_true_iff_eq; rewrite ?andb_true_iff, !Z.eqb_eq, ?Z.leb_le;
  match goal with b : Z |- context [(?b / ?m)%Z] =>
    pose proof (Z.div_mod b m); pose proof (Z.mod_pos_bound b m) | _ => idtac end; lia.

Lemma isDisallowedV4_networks a b c d :
  octet a -> octet b -> octet c -> octet d ->
  isDisallowedV4 (v4_int a b c d) = blocked_network a b.
Proof.
  intros Ha Hb Hc Hd. assert (Hn := v4_int_range a b c d Ha Hb Hc Hd).
  unfold isDisallowedV4. rewrite loopback_prefix by done.
  change 0xff000000%Z with (2 ^ 32 - 2 ^ 24)%Z. change 0xfff00000%Z with (2 ^ 32 - 2 ^ 20)%Z.
  change 0xffff0000%Z with (2 ^ 32 - 2 ^ 16)%Z. change 0xffc00000%Z with (2 ^ 32 - 2 ^ 22)%Z.
  change 0x00000000%Z with (0 * 2 ^ 24)%Z. change 0x0a000000%Z with (10 * 2 ^ 24)%Z.
  change 0xac100000%Z with (2753 * 2 ^ 20)%Z. change 0xc0a80000%Z with (49320 * 2 ^ 16)%Z.
  change 0x64400000%Z with (401 * 2 ^ 22)%Z. change 0xa9fe0000%Z with (43518 * 2 ^ 16)%Z.
  rewrite !inCidr_prefix by lia.
  unfold octet in *.
  assert (E24 : (v4_int a b c d / 2 ^ 24 = a)%Z).
  { symmetry. apply (Z.div_unique _ _ _ (b * 65536 + c * 256 + d)); [left; lia|]. unfold v4_int. lia. }
  assert (E20 : (v4_int a b c d / 2 ^ 20 = a * 16 + b / 16)%Z) .
  { symmetry. apply (Z.div_unique _ _ _ ((b mod 16) * 65536 + c * 256 + d)); [left|];
      pose proof (Z.mod_pos_bound b 16); [lia|]. unfold v4_int.
    rewrite (Z.div_mod b 16) at 1 by lia. lia. }
  assert (E16 : (v4_int a b c d / 2 ^ 16 = a * 256 + b)%Z).
  { symmetry. apply (Z.div_unique _ _ _ (c * 256 + d)); [left; lia|]. unfold v4_int. lia. }
  assert (E22 : (v4_int a b c d / 2 ^ 22 = a * 4 + b / 64)%Z).
  { symmetry. apply (Z.div_unique _ _ _ ((b mod 64) * 65536 + c * 256 + d)); [left|];
      pose proof (Z.mod_pos_bound b 64); [lia|]. unfold v4_int.
    rewrite (Z.div_mod b 64) at 1 by lia. lia. }
  rewrite E24, E20, E16, E22. unfold blocked_network.
  assert (B20 : Z.eqb (a * 16 + b / 16) 2753 = (Z.eqb a 172 && (16 <=? b) && (b <=? 31))%Z).
  { network_eq. }
  assert (B16 : Z.eqb (a * 256 + b) 49320 = (Z.eqb a 192 && Z.eqb b 168)).
  { network_eq. }
  assert (B22 : Z.eqb (a * 4 + b / 64) 401 = (Z.eqb a 100 && (64 <=? b) && (b <=? 127))%Z).
  { network_eq. }
  assert (B16' : Z.eqb (a * 256 + b) 43518 = (Z.eqb a 169 && Z.eqb b 254)).
  { network_eq. }
  by rewrite B20, B16, B22, B16'.
Qed.

(** *** Dotted decimal *)

Definition dotted (a b c d : Z) : string :=
  string_of_list_ascii (print_int a ++ "."%char :: print_int b ++ "."%char :: print_int c ++
                        "."%char :: print_int d).

Lemma octet_print a :
  octet a -> octet_text (print_int a) = true /\ number_of (print_int a) = a /\
             forallb (fun c => negb (Ascii.eqb c ".")) (print_int a) = true.
Proof.
  intros Ha.
  assert (H : forallb (fun i => let a := Z.of_nat i in
    octet_text (print_int a) && Z.eqb (number_of (print_int a)) a &&
    forallb (fun c => negb (Ascii.eqb c ".")) (print_int a)) (seq 0 256) = true)
    by (vm_compute; reflexivity).
  rewrite forallb_forall in H. specialize (H (Z.to_nat a)).
  unfold octet in Ha. rewrite Z2Nat.id in H by lia.
  ospecialize (H _); [apply in_seq; lia|]. simpl in H. apply andb_true_iff in H as [H ?].
  apply andb_true_iff in H as [? H]. apply Z.eqb_eq in H. done.
Qed.

Lemma split_all_one c p : forallb (fun x => negb (Ascii.eqb x c)) p = true -> split_all c p = [p].
Proof.
  induction p as [|x p IH]; simpl; [done|]. intros H. apply andb_true_iff in H as [Hx Hp].
  apply negb_true_iff in Hx. by rewrite Hx, IH.
Qed.

Lemma split_all_cons c p t :
  forallb (fun x => negb (Ascii.eqb x c)) p = true -> split_all c (p ++ c :: t) = p :: split_all c t.
Proof.
  induction p as [|x p IH]; simpl; [by rewrite Ascii.eqb_refl|].
  intros H. apply andb_true_iff in H as [Hx Hp]. apply negb_true_iff in Hx. by rewrite Hx, IH.
Qed.

Lemma ipv4ToInt_dotted a b c d :
  octet a -> octet b -> octet c -> octet d -> ipv4ToInt (dotted a b c d) = Some (v4_int a b c d).
Proof.
  intros Ha Hb Hc Hd. assert (Hn := v4_int_range a b c d Ha Hb Hc Hd).
  destruct (octet_print a Ha) as (Ta & Na & Da), (octet_print b Hb) as (Tb & Nb & Db),
    (octet_print c Hc) as (Tc & Nc & Dc), (octet_print d Hd) as (Td & Nd & Dd).
  unfold ipv4ToInt, dotted. rewrite list_ascii_of_string_of_list_ascii.
  rewrite !split_all_cons, split_all_one by done. cbn [length Nat.eqb]. unfold octet in *.
  cbn [octets]. rewrite Ta, Tb, Tc, Td, Na, Nb, Nc, Nd. cbn [negb].
  rewrite !(proj2 (Z.ltb_ge 255 _)) by lia. simpl. unfold to_uint32.
  by rewrite Z.mod_small by done.
Qed.

Section policy.
Context (isIP : string -> nat) (parse_url : string -> option URL) (dns : string -> option (list string)).

Lemma find_none_permitted policy l :
  List.find (fun a => negb (permitted isIP policy a)) l = None -> Forall (fun a => permitted isIP policy a = true) l.
Proof.
  intros H. apply Forall_forall. intros x Hx. apply list_elem_of_In in Hx.
  eapply List.find_none in H; [|done]. by apply negb_false_iff in H.
Qed.

Lemma addresses_nonempty h l : addresses_of isIP dns h = Ok l -> l <> [].
Proof.
  unfold addresses_of. destruct (negb _); [by intros [= <-]|].
  destruct (dns h) as [[|x l']|]; [done| |done]. by intros [= <-].
Qed.

Lemma resolved_ok raw policy url ip :
  resolveAllowedOutboundTarget isIP parse_url dns raw policy = Ok (url, ip) ->
  parse_url raw = Some url /\
  (url_protocol url = "https:"%string \/
   url_protocol url = "http:"%string /\ requireHttps policy = false) /\
  exists l, addresses_of isIP dns (unwrap (url_hostname url)) = Ok l /\ ip = hd ""%string l /\
    In ip l /\ Forall (fun a => permitted isIP policy a = true) l.
Proof.
  unfold resolveAllowedOutboundTarget. destruct (parse_url raw) as [u|]; [|done].
  destruct (requireHttps policy && _) eqn:Eh; [done|].
  destruct (negb _ && negb _) eqn:Ep; [done|].
  destruct (addresses_of isIP dns (unwrap (url_hostname u))) as [l|] eqn:El; [|done]. simpl.
  destruct (List.find _ l) eqn:Ef; [done|]. intros [= <- <-]. split; [done|].
  assert (Hne := addresses_nonempty _ _ El). split.
  - destruct (String.eqb_spec (url_protocol u) "https:"); [by left|].
    destruct (String.eqb_spec (url_protocol u) "http:"); [|done]. right. split; [done|].
    by destruct (requireHttps policy).
  - exists l. split_and!; [done|done| |by apply find_none_permitted].
    destruct l; [done|]. by left.
Qed.
End policy.

(** ** The blocked addresses, by their networks

    What the comments of the code name, without its classifiers: the IPv4
    networks in dotted decimal, also as an IPv4-mapped address, the unspecified
    and the loopback address of IPv6, fe80::/10 and fc00::/7 by the value of the
    first sixteen bits.  Spelled as an address is printed: lower case, and the
    mapped one dotted. *)
Definition hextet (h : Z) : string :=
  let digit k := hex_digit (Z.to_nat (h / 16 ^ k mod 16)) in
  string_of_list_ascii [digit 3; digit 2; digit 1; digit 0]%Z.

Inductive blocked : string -> Prop :=
| blocked_v4 a b c d :
    octet a -> octet b -> octet c -> octet d -> blocked_network a b = true -> blocked (dotted a b c d)
| blocked_mapped a b c d :
    octet a -> octet b -> octet c -> octet d -> blocked_network a b = true -> blocked ("::ffff:" +:+ dotted a b c d)
| blocked_unspecified : blocked "::"
| blocked_loopback : blocked "::1"
| blocked_link_local h rest : (0xfe80 <= h <= 0xfebf)%Z -> blocked (hextet h +:+ ":" +:+ rest)
| blocked_unique_local h rest : (0xfc00 <= h <= 0xfdff)%Z -> blocked (hextet h +:+ ":" +:+ rest).

Inductive loopback : string -> Prop :=
| loopback_v4 b c d : octet b -> octet c -> octet d -> loopback (dotted 127 b c d)
| loopback_v6 : loopback "::1".

(** [isIP] of node:net answers 4 for dotted decimal, and for nothing else. *)
Definition reads_v4 (isIP : string -> nat) : Prop :=
  forall s, isIP s = 4%nat <-> exists a b c d, octet a /\ octet b /\ octet c /\ octet d /\ s = dotted a b c d.

(** A text that normalisation leaves alone. *)
Definition plain (s : string) : bool :=
  forallb (fun c => negb (Ascii.eqb c "%") && Ascii.eqb (lower c) c) (list_ascii_of_string s).

Lemma plain_cons c s : plain (String c s) = true -> Ascii.eqb c "%" = false /\ lower c = c /\ plain s = true.
Proof.
  unfold plain. simpl. rewrite !andb_true_iff, negb_true_iff. intros [[H1 H2] H3].
  by apply Ascii.eqb_eq in H2.
Qed.

Lemma plain_app a b : plain (a +:+ b) = plain a && plain b.
Proof. unfold plain. induction a as [|c a IH]; simpl; [done|]. by rewrite IH, andb_assoc. Qed.

Lemma normalize_plain p rest : plain p = true -> exists r, normalizeV6 (p +:+ rest) = p +:+ r.
Proof.
  induction p as [|c p IH]; intros H; [by eexists|]. apply plain_cons in H as (H1 & H2 & H).
  destruct (IH H) as [r E]. exists r. revert E. unfold normalizeV6. simpl. rewrite H1.
  destruct (split_at "%" (p +:+ rest)) as [[x y]|]; unfold toLowerCase, on_text; simpl; intros ->; by rewrite H2.
Qed.

Lemma normalize_same p : plain p = true -> normalizeV6 p = p.
Proof.
  induction p as [|c p IH]; intros H; [done|]. apply plain_cons in H as (H1 & H2 & H).
  specialize (IH H). revert IH. unfold normalizeV6. simpl. rewrite H1.
  destruct (split_at "%" p) as [[x y]|]; unfold toLowerCase, on_text; simpl; intros ->; by rewrite H2.
Qed.

Lemma starts_with_extends p s t : starts_with p s = true -> starts_with p (s +:+ t) = true.
Proof.
  unfold starts_with. revert s. induction p as [|c p IH]; intros s; simpl; [by destruct (s +:+ t)|].
  destruct s as [|x s]; [done|]. simpl. destruct (ascii_dec c x); [apply IH|done].
Qed.

Lemma plain_octet a : octet a -> plain (string_of_list_ascii (print_int a)) = true.
Proof.
  intros Ha.
  assert (H : forallb (fun i => plain (string_of_list_ascii (print_int (Z.of_nat i)))) (seq 0 256) = true)
    by (vm_compute; reflexivity).
  rewrite forallb_forall in H. specialize (H (Z.to_nat a)). unfold octet in Ha. rewrite Z2Nat.id in H by lia.
  apply H, in_seq. lia.
Qed.

Lemma plain_dotted a b c d :
  octet a -> octet b -> octet c -> octet d -> plain (dotted a b c d) = true.
Proof.
  intros Ha Hb Hc Hd. apply plain_octet in Ha, Hb, Hc, Hd. unfold plain, dotted in *.
  rewrite list_ascii_of_string_of_list_ascii in Ha, Hb, Hc, Hd |- *. rewrite forallb_app, Ha. simpl.
  rewrite forallb_app, Hb. simpl. by rewrite forallb_app, Hc.
Qed.

Lemma mapped_v4_dotted a b c d :
  octet a -> octet b -> octet c -> octet d -> mapped_v4 ("::ffff:" +:+ dotted a b c d) = Some (dotted a b c d).
Proof.
  intros Ha Hb Hc Hd. unfold mapped_v4. simpl strip.
  destruct (octet_print a Ha) as (Ta & _ & Da), (octet_print b Hb) as (Tb & _ & Db),
    (octet_print c Hc) as (Tc & _ & Dc), (octet_print d Hd) as (Td & _ & Dd).
  change ("" +:+ dotted a b c d) with (dotted a b c d). rewrite string_of_list_ascii_of_string.
  unfold dotted at 1 2. rewrite list_ascii_of_string_of_list_ascii.
  rewrite !split_all_cons, split_all_one by done. cbn [length Nat.eqb forallb andb]. by rewrite Ta, Tb, Tc, Td.
Qed.

Lemma hextets_prefixed (ps : list string) lo n h :
  forallb (fun i => let h := (Z.of_nat i + lo)%Z in
    plain (hextet h) && existsb (fun p => starts_with p (hextet h)) ps) (seq 0 n) = true ->
  (lo <= h < lo + Z.of_nat n)%Z ->
  plain (hextet h) = true /\ existsb (fun p => starts_with p (hextet h)) ps = true.
Proof.
  intros H Hh. rewrite forallb_forall in H. specialize (H (Z.to_nat (h - lo))). simpl in H.
  replace (Z.of_nat (Z.to_nat (h - lo)) + lo)%Z with h in H by lia.
  apply andb_true_iff, H, in_seq. lia.
Qed.

Lemma prefixed_app ps s t :
  existsb (fun p => starts_with p s) ps = true -> existsb (fun p => starts_with p (s +:+ t)) ps = true.
Proof.
  rewrite !existsb_exists. intros (p & Hp & H). exists p. split; [done|]. by apply starts_with_extends.
Qed.

(** What is dotted begins with a digit. *)
Definition digit_first (s : string) : bool := match s with String x _ => is_digit x | EmptyString => false end.

Lemma dotted_first a b c d : octet a -> digit_first (dotted a b c d) = true.
Proof.
  intros Ha. destruct (octet_print a Ha) as (H & _). unfold dotted. unfold octet_text in H.
  destruct (print_int a) as [|x t]; [done|]. simpl in *. by destruct (is_digit x).
Qed.

Lemma not_v4 isIP s : reads_v4 isIP -> digit_first s = false -> (isIP s =? 4)%nat = false.
Proof.
  intros Hip Hs. apply Nat.eqb_neq. intros (a & b & c & d & Ha & _ & _ & _ & ->)%Hip.
  by rewrite dotted_first in Hs.
Qed.

Lemma link_local_prefix h rest :
  (0xfe80 <= h <= 0xfebf)%Z ->
  existsb (fun p => starts_with p (normalizeV6 (hextet h +:+ rest))) ["fe8"; "fe9"; "fea"; "feb"] = true.
Proof.
  intros Hh. destruct (hextets_prefixed ["fe8"; "fe9"; "fea"; "feb"] 0xfe80 64 h) as [H1 H2];
    [vm_compute; reflexivity|lia|]. destruct (normalize_plain _ rest H1) as [r ->]. by apply prefixed_app.
Qed.

Lemma unique_local_prefix h rest :
  (0xfc00 <= h <= 0xfdff)%Z ->
  existsb (fun p => starts_with p (normalizeV6 (hextet h +:+ rest))) ["fc"; "fd"] = true.
Proof.
  intros Hh. destruct (hextets_prefixed ["fc"; "fd"] 0xfc00 512 h) as [H1 H2];
    [vm_compute; reflexivity|lia|]. destruct (normalize_plain _ rest H1) as [r ->]. by apply prefixed_app.
Qed.

Lemma hextet_first h : (0xf000 <= h <= 0xffff)%Z -> exists t, hextet h = String "f" t.
Proof.
  intros Hh. unfold hextet. replace (h / 16 ^ 3 mod 16)%Z with 15%Z; [by eexists|].
  apply (Z.mod_unique _ _ 0); [lia|]. rewrite Z.mul_0_r, Z.add_0_l. symmetry.
  apply (Z.div_unique _ _ _ (h - 0xf000)); lia.
Qed.

Lemma hextet_no_digit h rest : (0xf000 <= h <= 0xffff)%Z -> digit_first (hextet h +:+ rest) = false.
Proof. intros Hh. by destruct (hextet_first h Hh) as [t ->]. Qed.

(** The classifier refuses every one of them, and takes none for the loopback
    but the loopback. *)
Lemma blocked_disallowed isIP s : reads_v4 isIP -> blocked s -> isDisallowedAddress isIP s = true.
Proof.
  intros Hip Hs. unfold isDisallowedAddress.
  destruct Hs as [a b c d Ha Hb Hc Hd Hn|a b c d Ha Hb Hc Hd Hn| | |h rest Hh|h rest Hh].
  - rewrite (proj2 (Hip _)) by (by exists a, b, c, d). simpl. rewrite ipv4ToInt_dotted by done.
    by rewrite isDisallowedV4_networks.
  - rewrite not_v4 by done. case_match; [|done].
    rewrite normalize_same by (rewrite plain_app; by rewrite plain_dotted).
    simpl String.eqb. simpl existsb. cbn [orb]. rewrite mapped_v4_dotted by done. rewrite ipv4ToInt_dotted by done.
    by rewrite isDisallowedV4_networks.
  - rewrite not_v4 by done. by case_match.
  - rewrite not_v4 by done. by case_match.
  - rewrite not_v4 by (done || apply hextet_no_digit; lia). case_match; [|done].
    rewrite link_local_prefix by done. by destruct (_ || _).
  - rewrite not_v4 by (done || apply hextet_no_digit; lia). case_match; [|done].
    rewrite unique_local_prefix by done. by repeat case_match.
Qed.

Lemma blocked_loopback_only isIP s :
  reads_v4 isIP -> blocked s -> isLoopbackAddress isIP s = true -> loopback s.
Proof.
  intros Hip Hs. unfold isLoopbackAddress.
  assert (Hf : forall h rest, (0xf000 <= h <= 0xffff)%Z -> plain (hextet h) = true ->
    (if (isIP (hextet h +:+ rest) =? 4)%nat
     then match ipv4ToInt (hextet h +:+ rest) with None => false | Some n => isLoopbackV4 n end
     else if (isIP (hextet h +:+ rest) =? 6)%nat then String.eqb (normalizeV6 (hextet h +:+ rest)) "::1" else false)
    = true -> loopback (hextet h +:+ rest)).
  { intros h rest Hh Hp. rewrite not_v4 by (done || by apply hextet_no_digit). case_match; [|done].
    destruct (normalize_plain _ rest Hp) as [r ->].
    by destruct (hextet_first h Hh) as [t ->]. }
  destruct Hs as [a b c d Ha Hb Hc Hd Hn|a b c d Ha Hb Hc Hd Hn| | |h rest Hh|h rest Hh].
  - rewrite (proj2 (Hip _)) by (by exists a, b, c, d). simpl. rewrite ipv4ToInt_dotted by done.
    rewrite loopback_prefix by by apply v4_int_range.
    replace (v4_int a b c d / 2 ^ 24)%Z with a.
    { intros ->%Z.eqb_eq. by constructor. }
    unfold octet in *. apply (Z.div_unique _ _ _ (b * 65536 + c * 256 + d)); [left; lia|]. unfold v4_int. lia.
  - rewrite not_v4 by done. case_match; [|done].
    by rewrite normalize_same by (rewrite plain_app; by rewrite plain_dotted).
  - rewrite not_v4 by done. by case_match.
  - constructor.
  - apply Hf; [lia|]. by apply (hextets_prefixed ["fe8"; "fe9"; "fea"; "feb"] 0xfe80 64 h); [vm_compute; reflexivity|lia].
  - apply Hf; [lia|]. by apply (hextets_prefixed ["fc"; "fd"] 0xfc00 512 h); [vm_compute; reflexivity|lia].
Qed.

(** An address that is no address is refused. *)
Lemma allowed_is_address isIP s : isDisallowedAddress isIP s = false -> isIP s <> 0%nat.
Proof. unfold isDisallowedAddress. by destruct (isIP s). Qed.
