(* ===== verification/LocalExecutor.v ===== *)
(** The in-process tool executor (packages/runtime/src/tool-executor-local.ts).

    A handler is a function of its input that settles after some time or
    never; timers and the abort of the signal carry the instant they fire at. *)
From S2P Require Import Prelude Json Shared Deadlines Tools.

(** ** The local executor *)
Module LocalToolExecutor.

(** What a handler does: settle after some time, or never. *)
Inductive settled : Type := resolves (v : jsval) | rejects (e : error).
Record handler_run := { h_delay : option Z; h_result : settled }.
Definition ToolHandler : Type := jsval -> ToolCallContext -> handler_run.

Record LocalToolExecutor := { timeoutMs : Z; handlers : gmap string ToolHandler }.

Definition DEFAULT_TIMEOUT_MS : Z := 30000.

Definition create (timeoutMs : option Z) : LocalToolExecutor :=
  {| timeoutMs := timeoutMs ?? DEFAULT_TIMEOUT_MS; handlers := ∅ |}.

Definition registerTool (name : string) (handler : ToolHandler) (x : LocalToolExecutor) :
    res error LocalToolExecutor :=
  match handlers x !! name with
  | Some _ => Err (PlainError "Error" ("Tool already registered: " +:+ name))
  | None => Ok {| timeoutMs := timeoutMs x; handlers := <[name := handler]> (handlers x) |}
  end.

Inductive racer : Type := handler_first | timeout_first | abort_first.

(** [Promise.race] of the handler, the timeout and the abort, each with the
    time it settles at: the earliest, in that order on a tie. *)
Definition race (handler : option Z) (timeout : Z) (abort : option Z) : racer * Z :=
  let first := match handler with
               | Some t => if (t <=? timeout)%Z then (handler_first, t) else (timeout_first, timeout)
               | None => (timeout_first, timeout)
               end in
  match abort with
  | Some a => if (a <? first.2)%Z then (abort_first, a) else first
  | None => first
  end.

(** The result, and how long it took; the signal says at which instant it
    aborts, [now] is when the call is made. *)
Definition execute (call : ToolCall) (ctx : ToolCallContext) (signal : Signal) (now : Z)
    (x : LocalToolExecutor) : ToolCallResult * Z :=
  if aborted signal now then (result_err "Aborted", 0%Z)
  else match handlers x !! call_toolName call with
  | None => (result_err ("Unknown tool: " +:+ call_toolName call), 0%Z)
  | Some handler =>
      let run := handler (call_arguments call) ctx in
      let '(winner, t) := race (h_delay run) (timeoutMs x) ((fun s => s.1 - now)%Z <$> signal) in
      (match winner with
       | timeout_first =>
           result_err ("Tool execution timed out after " +:+ string_of_Z (timeoutMs x) +:+ "ms")
       | abort_first => result_err "Aborted"
       | handler_first =>
           match h_result run with
           | resolves v => result_ok v
           | rejects e => result_err (error_message e)
           end
       end, t)
  end.

Lemma race_bounds h t a w d :
  race h t a = (w, d) -> (d <= t)%Z /\ match a with Some x => (d <= x)%Z | None => True end.
Proof.
  unfold race. set (f := match h with Some _ => _ | None => _ end).
  assert (Hf : (f.2 <= t)%Z).
  { subst f. destruct h as [x|]; [|simpl; lia]. destruct (Z.leb_spec x t); simpl; lia. }
  destruct a as [x|]; [destruct (Z.ltb_spec x f.2)|]; intros [= E]; [subst|rewrite E in *..];
    simpl in *; split; lia || done.
Qed.

Lemma race_handler h t a d : race h t a = (handler_first, d) -> h = Some d.
Proof.
  unfold race. destruct h as [x|]; [destruct (Z.leb_spec x t)|]; simpl;
    (destruct a as [y|]; [case_match|]); congruence.
Qed.
End LocalToolExecutor.
