(* ===== verification/Executors.v ===== *)
(** The remote tool executor and the choice of an executor
    (packages/runtime/src/tool-executor-remote.ts, tool-executor-resolver.ts).

    What the network answers, when an attempt is aborted and what the token
    minter returns are arguments. *)
From S2P Require Import Prelude Json Shared Deadlines Tools Ssrf LocalExecutor.

(** ** The remote executor *)

Section remote.
Context (isIP : string -> nat) (parse_url : string -> option URL) (dns : string -> option (list string)).
(** Decoding of a body's bytes, and the minter of tokens. *)
Context (utf8 : text -> text).

Record RemoteToolExecutor := {
  toolRunnerUrl : string; x_agentId : string; x_policy : OutboundUrlPolicy;
  mintToken : ToolCall -> ToolCallContext -> res error string;
  x_timeoutMs : Z; maxRetries : nat; retryDelayMs : Z }.

Definition mkRemoteToolExecutor (url agentId : string) (policy : OutboundUrlPolicy)
    (mint : ToolCall -> ToolCallContext -> res error string)
    (timeoutMs : option Z) (retries : option nat) (delay : option Z) : RemoteToolExecutor :=
  {| toolRunnerUrl := strip_slashes url; x_agentId := agentId; x_policy := policy;
     mintToken := mint; x_timeoutMs := timeoutMs ?? 30000%Z; maxRetries := retries ?? 1%nat;
     retryDelayMs := delay ?? 1000%Z |}.

(** One attempt, as the network and the clock decide it. *)
Inductive reply : Type :=
| responds (status : Z) (chunks : list text)
| aborts                     (* an AbortError or a TimeoutError *)
| breaks (message : string). (* any other error *)

Record attempt := {
  a_reply : reply;
  a_aborted : bool;          (* signal.aborted when an error is caught *)
  a_aborted_later : bool }.  (* signal.aborted after the delay *)

(** A request that reached the wire. *)
Record Sent := { sent_url : URL; sent_dispatcher : Dispatcher; sent_body : string; sent_token : string }.

(** The bytes of a body, unless they exceed the limit. *)
Fixpoint read_chunks (total : nat) (maxBytes : nat) (chunks : list text) : option text :=
  match chunks with
  | [] => Some []
  | value :: chunks =>
      let total := total + length value in
      if (maxBytes <? total)%nat then None
      else match read_chunks total maxBytes chunks with
           | Some rest => Some (value ++ rest)
           | None => None
           end
  end%nat.

Definition readBoundedText (chunks : list text) (maxBytes : nat) : option string :=
  (fun bytes => string_of_list_ascii (utf8 bytes)) <$> read_chunks 0 maxBytes chunks.

Inductive interpreted : Type := done_with (result : ToolCallResult) | retry (error : string).

Definition interpret (status : Z) (text : string) : interpreted :=
  match (if String.eqb text "" then Some (JObj []) else parse text) with
  | None =>
      if (500 <=? status)%Z then retry ("HTTP " +:+ string_of_Z status +:+ ": malformed response")
      else done_with (result_err "Invalid runner response")
  | Some json =>
      if (200 <=? status)%Z && (status <? 300)%Z then
        match RunnerSuccessResponseSchema json with
        | Some result => done_with (result_ok result)
        | None =>
            match RunnerErrorResponseSchema json with
            | Some (_, message) => done_with (result_err message)
            | None => done_with (result_err "Invalid runner response")
            end
        end
      else
        let message := match RunnerErrorResponseSchema json with
                       | Some (_, message) => message
                       | None => "Tool runner returned " +:+ string_of_Z status
                       end in
        if (400 <=? status)%Z && (status <? 500)%Z
        then done_with (result_err message)
        else retry message
  end%string.

(** One attempt's end: a result, or the error to remember. *)
Definition conclude (a : attempt) : ToolCallResult + string :=
  match a_reply a with
  | responds status chunks =>
      match readBoundedText chunks RUNNER_MAX_OUTPUT_BYTES with
      | None => inl (result_err "Tool runner response exceeds limit")
      | Some text =>
          match interpret status text with
          | done_with result => inl result
          | retry e => inr e
          end
      end
  | aborts => if a_aborted a then inl (result_err "Aborted") else inr "Tool execution timed out"
  | breaks message => inr ("Connection error: " +:+ message)
  end%string.

(** The attempts that are left, from number [k]. *)
Fixpoint sendWithRetries (totalAttempts todo : nat) (k : nat) (attempts : nat -> attempt)
    (request : Sent) (lastError : string) : ToolCallResult * list Sent :=
  match todo with
  | O => (result_err ("Tool runner unreachable after " +:+ string_of_Z (Z.of_nat totalAttempts)
            +:+ " attempts: " +:+ lastError), [])
  | S todo =>
      match conclude (attempts k) with
      | inl result => (result, [request])
      | inr e =>
          if negb (todo =? 0)%nat && a_aborted_later (attempts k)
          then (result_err "Aborted", [request])
          else let '(result, sent) := sendWithRetries totalAttempts todo (S k) attempts request e in
               (result, request :: sent)
      end
  end%string.

Definition envelope_of (x : RemoteToolExecutor) (call : ToolCall) (ctx : ToolCallContext) :
    RunnerRequest :=
  {| rr_idempotencyKey := call_callId call; rr_input := call_arguments call;
     rr_context := {| rc_sessionId := tcc_sessionId ctx; rc_agentId := x_agentId x;
                      rc_runId := tcc_runId ctx; rc_callId := call_callId call;
                      rc_userId := tcc_userId ctx; rc_metadata := tcc_metadata ctx |} |}.

Definition target_url (x : RemoteToolExecutor) (call : ToolCall) : string :=
  toolRunnerUrl x +:+ "/tools/" +:+ encodeURIComponent (call_toolName call).

(** The result, and the requests that reached the wire. *)
Definition execute (x : RemoteToolExecutor) (call : ToolCall) (ctx : ToolCallContext)
    (already_aborted : bool) (attempts : nat -> attempt) : ToolCallResult * list Sent :=
  if already_aborted then (result_err "Aborted", [])
  else if (RUNNER_MAX_INPUT_BYTES <? byteLength (stringify (call_arguments call ?? JNull)))%nat
  then (result_err "Tool input exceeds limit", [])
  else match resolveAllowedOutboundTarget isIP parse_url dns (target_url x call) (x_policy x) with
  | Err e => (result_err (error_message e), [])
  | Ok (url, pinnedIp) =>
      match mintToken x call ctx with
      | Err e => (result_err ("Failed to mint runner credentials: " +:+ error_message e), [])
      | Ok bearer =>
          sendWithRetries (1 + maxRetries x) (1 + maxRetries x) 0 attempts
            {| sent_url := url; sent_dispatcher := createPinnedDispatcher isIP pinnedIp;
               sent_body := stringify (request_json (envelope_of x call ctx));
               sent_token := bearer |} ""
      end
  end%string.

(** *** Facts *)

Lemma sends_same total todo k attempts r e :
  exists n, (n <= todo)%nat /\ (sendWithRetries total todo k attempts r e).2 = repeat r n.
Proof.
  revert k e. induction todo as [|todo IH]; intros k e; simpl; [by exists 0%nat|].
  destruct (conclude (attempts k)) as [result|e']; [exists 1%nat; split; [lia|done]|].
  destruct (_ && _); [exists 1%nat; split; [lia|done]|].
  destruct (IH (S k) e') as (n & Hn & Hs). destruct (sendWithRetries _ _ _ _ _ _) as [res sent].
  simpl in *. subst. exists (S n). split; [lia|done].
Qed.

(** Every request carries the call's envelope. *)
Lemma sent_bodies x call ctx stop attempts r :
  In r (execute x call ctx stop attempts).2 ->
  sent_body r = stringify (request_json (envelope_of x call ctx)).
Proof.
  unfold execute. destruct stop; [done|]. destruct (_ <? _)%nat; [done|].
  destruct (resolveAllowedOutboundTarget _ _ _ _ _) as [[url ip]|e]; [|done].
  destruct (mintToken x call ctx) as [t|e]; [|done].
  match goal with |- context [sendWithRetries ?T ?L ?K attempts ?q ?e] =>
    destruct (sends_same T L K attempts q e) as (n & _ & ->) end.
  intros H. apply repeat_spec in H. by subst r.
Qed.

Lemma read_chunks_bound total max chunks bytes :
  read_chunks total max chunks = Some bytes ->
  bytes = concat chunks /\ (chunks <> [] -> total + length bytes <= max)%nat.
Proof.
  revert total bytes. induction chunks as [|c cs IH]; intros total bytes; simpl; [by intros [= <-]|].
  destruct (Nat.ltb_spec max (total + length c)); [done|].
  destruct (read_chunks _ _ cs) as [rest|] eqn:E; [|done]. intros [= <-].
  destruct (IH _ _ E) as [-> Hb]. split; [done|]. intros _. rewrite length_app.
  destruct cs as [|c' cs]; [simpl; lia|]. ospecialize (Hb _); [done|]. lia.
Qed.

(** A successful result is what a 2xx envelope carried. *)
Definition answered (v : jsval) (a : attempt) : Prop :=
  exists status chunks text json, a_reply a = responds status chunks /\
    readBoundedText chunks RUNNER_MAX_OUTPUT_BYTES = Some text /\
    (200 <= status < 300)%Z /\ parse text = Some json /\ RunnerSuccessResponseSchema json = Some v.

Lemma conclude_ok a v : conclude a = inl (result_ok v) -> answered v a.
Proof.
  unfold conclude. destruct (a_reply a) as [status chunks| |m] eqn:Ea; [| |done].
  2: by destruct (a_aborted a).
  destruct (readBoundedText chunks _) as [text|] eqn:Et; [|done].
  destruct (interpret status text) as [r|] eqn:Ei; [|done]. intros [= ->].
  unfold interpret in Ei. destruct (String.eqb_spec text ""%string) as [->|Hne].
  { destruct (_ && _); [done|]. by destruct (_ && _). }
  destruct (parse text) as [json|] eqn:Ep; [|by destruct (500 <=? status)%Z].
  destruct (Z.leb_spec 200 status), (Z.ltb_spec status 300); simpl in Ei;
    try (destruct (RunnerErrorResponseSchema json) as [[]|]; by destruct (_ && _)).
  destruct (RunnerSuccessResponseSchema json) as [v'|] eqn:Es.
  - injection Ei as ->. by exists status, chunks, text, json.
  - by destruct (RunnerErrorResponseSchema json) as [[]|].
Qed.

Lemma sends_ok total todo k attempts r e v :
  (sendWithRetries total todo k attempts r e).1 = result_ok v ->
  exists i, (i < todo)%nat /\ answered v (attempts (k + i)).
Proof.
  revert k e. induction todo as [|todo IH]; intros k e; simpl; [done|].
  destruct (conclude (attempts k)) as [result|e'] eqn:Ec.
  - simpl. intros ->. exists 0%nat. split; [lia|]. rewrite Nat.add_0_r. by apply conclude_ok.
  - destruct (_ && _); [done|]. intros H. destruct (IH (S k) e') as (i & Hi & Ha).
    { by destruct (sendWithRetries _ _ _ _ _ _). }
    exists (S i). split; [lia|]. by rewrite Nat.add_succ_r.
Qed.

(** A client error is final. *)
Lemma client_error_final status text :
  (400 <= status < 500)%Z -> exists m, interpret status text = done_with (result_err m).
Proof.
  intros Hs. unfold interpret.
  destruct (if String.eqb text "" then _ else _) as [json|].
  - destruct (Z.leb_spec 200 status), (Z.ltb_spec status 300); try lia; simpl.
    destruct (Z.leb_spec 400 status), (Z.ltb_spec status 500); try lia; simpl. by eexists.
  - destruct (Z.leb_spec 500 status); [lia|]. by eexists.
Qed.
End remote.

(** ** Resolution of an executor (tool-executor-resolver.ts) *)
Module Resolver.

(** An executor as the resolver makes it: remote, bound to the agent it was
    made for and its URL, or local with the handlers registered. *)
Inductive Executor : Type :=
| remote (agent : AgentRecord) (url : string)
| local (registered : nat)
| noop.

Section resolver.
(** [registerLocalTools]: absent, or the number of handlers it registers. *)
Context (registerLocalTools : option (AgentRecord -> nat)).

Abbreviation Cache := (gmap string Executor).

Definition cacheKey (agent : AgentRecord) : string :=
  ag_agentId agent +:+ ":" +:+ (ag_toolRunnerUrl agent ?? "local")%string.

Definition nonempty_url (agent : AgentRecord) : option string :=
  match ag_toolRunnerUrl agent with
  | Some u => if String.eqb u "" then None else Some u
  | None => None
  end.

Definition resolve (agent : AgentRecord) (cache : Cache) : res error Executor * Cache :=
  let key := cacheKey agent in
  let put x := (Ok x, <[key := x]> cache) in
  match cache !! key with
  | Some cached => (Ok cached, cache)
  | None =>
      match nonempty_url agent with
      | Some url => put (remote agent url)
      | None =>
          let registered := match registerLocalTools with Some f => f agent | None => 0%nat end in
          if (0 <? registered)%nat then put (local registered)
          else match ag_tools agent with
               | _ :: _ => (Err (swift_error VALIDATION
                              ("No execution configuration for agent " +:+ ag_agentId agent)), cache)
               | [] => put noop
               end
      end
  end.

(** Every remote executor of the cache is bound to the id and the URL of its
    key. *)
Definition cache_ok (cache : Cache) : Prop :=
  forall key agent url, cache !! key = Some (remote agent url) ->
    key = cacheKey agent /\ ag_toolRunnerUrl agent = Some url /\ url <> ""%string.

Lemma resolve_ok agent cache :
  cache_ok cache -> cache_ok (resolve agent cache).2.
Proof.
  intros Hc. unfold resolve. destruct (cache !! cacheKey agent); [done|].
  assert (Hput : forall x, (forall a u, x = remote a u -> a = agent /\ nonempty_url agent = Some u) ->
    cache_ok (<[cacheKey agent := x]> cache)).
  { intros x Hx key a u. rewrite lookup_insert. case_decide as E; [|apply Hc].
    intros [= Hxu]. destruct (Hx a u Hxu) as [-> Hu]. unfold nonempty_url in Hu.
    destruct (ag_toolRunnerUrl agent) as [u'|]; [|done].
    destruct (String.eqb_spec u' ""); [done|]. by injection Hu as <-. }
  destruct (nonempty_url agent) as [u|] eqn:Eu.
  - apply Hput. by intros a u' [= <- <-].
  - destruct (_ <? _)%nat; [by apply Hput|]. destruct (ag_tools agent); [by apply Hput|done].
Qed.
End resolver.
End Resolver.
