(* ===== verification/ExecutorsProps.v ===== *)
(** What the outbound guard and the executors promise - and two inputs on
    which they do less than their comments say. *)
From S2P Require Import Prelude Json Shared Deadlines Tools Ssrf LocalExecutor Executors.

(** ** The outbound guard *)

(** On every dotted IPv4 address the bit masks decide exactly the
    networks the code names: loopback, this-network, the three private ones,
    CGNAT and link-local with the metadata address - none more, none less. *)
Theorem v4_guard_exact isIP a b c d :
  octet a -> octet b -> octet c -> octet d -> isIP (dotted a b c d) = 4 ->
  isDisallowedAddress isIP (dotted a b c d) = blocked_network a b.
Proof.
  intros Ha Hb Hc Hd Hip. unfold isDisallowedAddress. rewrite Hip. simpl.
  rewrite ipv4ToInt_dotted by done. by apply isDisallowedV4_networks.
Qed.

(** C22: a target that is allowed is reached over the scheme the policy asks
    for, and pinned to an address that the host advertises; whatever the host
    advertises is an address, and none of what it advertises - not only the
    pinned one - is a blocked one in its printed spelling ([blocked]: the IPv4
    networks, plain or mapped and dotted, and the unspecified, loopback,
    link-local and unique-local addresses of IPv6), except a loopback address
    where the policy permits it.  The hexadecimal spelling of a mapped address is
    not covered: [mapped_hex_is_let_through]. *)
Theorem allowed_target_is_safe isIP parse_url dns raw policy url ip :
  reads_v4 isIP ->
  resolveAllowedOutboundTarget isIP parse_url dns raw policy = Ok (url, ip) ->
  (url_protocol url = "https:"%string \/ url_protocol url = "http:"%string /\ requireHttps policy = false) /\
  exists l, addresses_of isIP dns (unwrap (url_hostname url)) = Ok l /\ In ip l /\
    forall address, In address l ->
      isIP address <> 0 /\ (blocked address -> allowLoopback policy = true /\ loopback address).
Proof.
  intros Hip H. apply resolved_ok in H as (_ & Hp & l & Hl & _ & Hin & Hall). split; [done|].
  exists l. split_and!; [done..|]. intros address Ha. rewrite Forall_forall in Hall.
  apply list_elem_of_In in Ha. apply Hall in Ha. unfold permitted in Ha.
  destruct (isDisallowedAddress isIP address) eqn:Ed; simpl in Ha.
  - apply andb_true_iff in Ha as [Hp' Hl']. split; [|intros Hb; split; [done|by eapply blocked_loopback_only]].
    unfold isLoopbackAddress in Hl'. by destruct (isIP address).
  - split; [by apply allowed_is_address|]. intros Hb. by rewrite (blocked_disallowed _ _ Hip Hb) in Ed.
Qed.

(** The guard reads an IPv4-mapped address only in its dotted spelling:
    the hexadecimal one, which is how a URL parser writes the same address, is
    let through - here to the loopback and to the metadata address. *)
Theorem mapped_hex_is_let_through isIP :
  isIP "::ffff:7f00:1"%string = 6 -> isIP "::ffff:a9fe:a9fe"%string = 6 ->
  isIP "::ffff:127.0.0.1"%string = 6 ->
  isDisallowedAddress isIP "::ffff:127.0.0.1" = true /\
  isDisallowedAddress isIP "::ffff:7f00:1" = false /\
  isDisallowedAddress isIP "::ffff:a9fe:a9fe" = false.
Proof. intros H1 H2 H3. unfold isDisallowedAddress. by rewrite H1, H2, H3. Qed.

(** ** The remote executor *)

(** At most [1 + maxRetries] requests are sent, and they are all the same:
    same URL, same dispatcher, same token and same body with the same
    idempotency key, so that the runner can recognise a retry. *)
Theorem retries_are_identical isIP parse_url dns utf8 x call ctx attempts :
  exists r n, n <= 1 + maxRetries x /\
    (execute isIP parse_url dns utf8 x call ctx false attempts).2 = repeat r n /\
    (n <> 0 -> sent_body r = stringify (request_json (envelope_of x call ctx))).
Proof.
  set (none := {| sent_url := {| url_href := ""; url_protocol := ""; url_hostname := "" |};
                  sent_dispatcher := createPinnedDispatcher isIP ""; sent_body := ""; sent_token := "" |}%string).
  unfold execute. destruct (_ <? _)%nat; [exists none, 0; split_and!; [lia|done|done]|].
  destruct (resolveAllowedOutboundTarget _ _ _ _ _) as [[url ip]|e];
    [|exists none, 0; split_and!; [lia|done|done]].
  destruct (mintToken x call ctx) as [t|e]; [|exists none, 0; split_and!; [lia|done|done]].
  match goal with |- context [sendWithRetries utf8 ?T ?L ?K attempts ?r ?e] =>
    destruct (sends_same utf8 T L K attempts r e) as (n & Hn & ->); exists r, n end.
  split_and!; [lia|done|done].
Qed.

(** A call succeeds only with what a runner answered: some attempt got a
    2xx response, within the size limit, whose body is a success envelope
    carrying exactly this result. *)
Theorem success_comes_from_an_envelope isIP parse_url dns utf8 x call ctx stop attempts v :
  (execute isIP parse_url dns utf8 x call ctx stop attempts).1 = result_ok v ->
  exists i, i <= maxRetries x /\ answered utf8 v (attempts i).
Proof.
  unfold execute. destruct stop; [done|]. destruct (_ <? _)%nat; [done|].
  destruct (resolveAllowedOutboundTarget _ _ _ _ _) as [[url ip]|e]; [|done].
  destruct (mintToken x call ctx) as [t|e]; [|done]. intros H.
  apply sends_ok in H as (i & Hi & Ha). exists i. split; [lia|done].
Qed.

(** C23: nothing reaches the wire unless the guard allowed the target, and then a
    request goes to the URL the guard returned; its connection dials the address
    that was validated and no other - whatever a second lookup of the host would
    say - and so does the connection of every redirect to a host name.  (A
    redirect to an address is not: [redirects_escape_the_pin].) *)
Theorem requests_go_to_the_pinned_address isIP parse_url dns utf8 x call ctx stop attempts r :
  In r (execute isIP parse_url dns utf8 x call ctx stop attempts).2 ->
  exists ip, resolveAllowedOutboundTarget isIP parse_url dns (target_url x call) (x_policy x) = Ok (sent_url r, ip) /\
    dials isIP (sent_dispatcher r) (sent_url r) = [ip] /\
    forall hop, isIP (unwrap (url_hostname hop)) = 0 -> dials isIP (sent_dispatcher r) hop = [ip].
Proof.
  unfold execute. destruct stop; [done|]. destruct (_ <? _)%nat; [done|].
  destruct (resolveAllowedOutboundTarget _ _ _ _ _) as [[url ip]|e] eqn:E; [|done].
  destruct (mintToken x call ctx) as [t|e]; [|done].
  match goal with |- context [sendWithRetries utf8 ?T ?L ?K attempts ?q ?e] =>
    destruct (sends_same utf8 T L K attempts q e) as (n & _ & ->) end.
  intros H. apply repeat_spec in H. subst r. exists ip. split; [done|]. unfold dials. simpl.
  apply resolved_ok in E as (_ & _ & l & Hl & -> & _ & _). unfold addresses_of in Hl. split; [|by intros hop ->].
  destruct (negb _); [by injection Hl as <-|done].
Qed.

(** [fetch] follows redirects, and nobody looks at where they lead: a runner - or
    whoever answers for it - that redirects to an address, over any scheme, is
    followed to that address, blocked or not. *)
Theorem redirects_escape_the_pin isIP pinnedIp hop :
  isIP (unwrap (url_hostname hop)) <> 0 ->
  dials isIP (createPinnedDispatcher isIP pinnedIp) hop = [unwrap (url_hostname hop)].
Proof. intros H. unfold dials. by rewrite (proj2 (Nat.eqb_neq _ _) H). Qed.

(** The runner reads back the request as it was built: the body of a call
    parses, passes the runner's schema, and carries the call's own identity. *)
Theorem request_roundtrip x call ctx :
  starts_with PREFIX_SESSION (tcc_sessionId ctx) = true ->
  starts_with PREFIX_AGENT (x_agentId x) = true ->
  starts_with PREFIX_RUN (tcc_runId ctx) = true ->
  starts_with PREFIX_TOOL_CALL (call_callId call) = true ->
  opt_obj_ok "metadata" (obj_literal [("metadata"%string, tcc_metadata ctx)]) = true ->
  wf (request_json (envelope_of x call ctx)) = true ->
  (parse (stringify (request_json (envelope_of x call ctx))) ≫= RunnerRequestSchema)
  = Some (envelope_of x call ctx).
Proof.
  intros Hs Ha Hr Hc Hm Hw. rewrite parse_stringify by done. cbn [mbind option_bind].
  apply request_schema_json; try done. intros E. cbn in E. rewrite E in Hc. discriminate Hc.
Qed.

(** ** The local executor *)

(** A local call never outlives its timeout nor the abort of its signal,
    and it succeeds only with what its handler resolved to by then. *)
Theorem local_call_is_bounded call ctx signal now x r t :
  LocalToolExecutor.execute call ctx signal now x = (r, t) -> (0 <= LocalToolExecutor.timeoutMs x)%Z ->
  (t <= LocalToolExecutor.timeoutMs x)%Z /\
  (forall a reason, signal = Some (a, reason) -> (t <= Z.max 0 (a - now))%Z) /\
  (forall v, r = result_ok v -> exists handler,
     LocalToolExecutor.handlers x !! call_toolName call = Some handler /\
     LocalToolExecutor.h_delay (handler (call_arguments call) ctx) = Some t /\
     LocalToolExecutor.h_result (handler (call_arguments call) ctx) = LocalToolExecutor.resolves v).
Proof.
  unfold LocalToolExecutor.execute. intros H Hto.
  destruct (aborted signal now) eqn:Ea; [injection H as <- <-; split_and!; [done|lia|done]|].
  destruct (LocalToolExecutor.handlers x !! call_toolName call) as [handler|] eqn:Eh;
    [|injection H as <- <-; split_and!; [done|lia|done]].
  destruct (LocalToolExecutor.race _ _ _) as [w d] eqn:Er.
  assert (Hb := LocalToolExecutor.race_bounds _ _ _ _ _ Er). destruct Hb as [Hb1 Hb2].
  injection H as Hr <-. split_and!; [done| |].
  - intros a reason ->. simpl in Hb2. lia.
  - intros v ->. destruct w; try discriminate Hr. apply LocalToolExecutor.race_handler in Er.
    exists handler. split_and!; [done..|].
    destruct (LocalToolExecutor.h_result _); congruence.
Qed.

(** ** The resolver *)

(** Agents are never crossed: whatever was resolved before, a remote
    executor given to an agent was made for an agent of the same cache key and
    calls exactly that key's runner URL. *)
Theorem remote_executor_matches_agent rl agents agent executor cache made url :
  fold_left (fun c a => (Resolver.resolve rl a c).2) agents ∅ = cache ->
  (Resolver.resolve rl agent cache).1 = Ok executor -> executor = Resolver.remote made url ->
  Resolver.cacheKey made = Resolver.cacheKey agent /\ ag_toolRunnerUrl made = Some url.
Proof.
  intros Hf Hr ->. assert (Hc : Resolver.cache_ok cache).
  { clear Hr. subst cache. induction agents as [|a agents IH] using rev_ind; [intros k a u; simpl; by rewrite lookup_empty|].
    rewrite fold_left_app. simpl. by apply Resolver.resolve_ok. }
  apply (Resolver.resolve_ok rl agent) in Hc. revert Hc Hr. unfold Resolver.resolve.
  destruct (cache !! Resolver.cacheKey agent) as [e|] eqn:E; simpl.
  - intros Hc [= ->]. destruct (Hc _ _ _ E) as (-> & ? & _). done.
  - destruct (Resolver.nonempty_url agent) as [u|] eqn:Eu; simpl.
    + intros Hc [= <- <-]. split; [done|]. unfold Resolver.nonempty_url in Eu.
      destruct (ag_toolRunnerUrl agent); [|done]. by destruct (String.eqb _ _); simplify_eq.
    + destruct (_ <? _)%nat; [done|]. by destruct (ag_tools agent).
Qed.

Definition tools_of (tools : list ToolDefinition) : AgentRecord :=
  {| ag_agentId := "agt_1"; ag_workspaceId := "ws_1"; ag_name := "demo";
     ag_modelConfig := {| mc_model := "echo/echo"; mc_temperature := None; mc_maxTokens := None |};
     ag_systemPrompt := ""; ag_memoryConfig := None; ag_toolRunnerUrl := None; ag_tools := tools |}%string.

(** The cache defeats the check of an agent's configuration: an agent
    with tools and nothing to run them is refused when it is met first, but
    accepted - with an executor that knows no tool - when it was met before it
    had tools. *)
Theorem cache_skips_configuration_check t ts :
  is_ok (Resolver.resolve None (tools_of (t :: ts)) ∅).1 = false /\
  (Resolver.resolve None (tools_of (t :: ts)) (Resolver.resolve None (tools_of []) ∅).2).1 = Ok Resolver.noop.
Proof. split; reflexivity. Qed.

(** ** Witnesses *)

(** [isIP] on dotted decimal, and enough of it on IPv6 for the examples. *)
Definition demo_isIP (s : string) : nat :=
  match ipv4ToInt s with
  | Some n => if String.eqb s (dotted (n / 2 ^ 24 mod 256) (n / 2 ^ 16 mod 256) (n / 2 ^ 8 mod 256) (n mod 256))
              then 4 else 0
  | None => if starts_with "::" s then 6 else 0
  end.

Lemma byte_at q k m r : octet k -> (0 <= r < m)%Z -> (((q * 256 + k) * m + r) / m mod 256 = k)%Z.
Proof.
  intros Hk Hr. unfold octet in Hk. rewrite Z.div_add_l, Z.div_small by lia. rewrite Z.add_0_r.
  rewrite Z.add_comm, Z.mod_add by lia. by apply Z.mod_small; lia.
Qed.

Lemma v4_bytes a b c d :
  octet a -> octet b -> octet c -> octet d ->
  let n := v4_int a b c d in
  (n / 2 ^ 24 mod 256 = a /\ n / 2 ^ 16 mod 256 = b /\ n / 2 ^ 8 mod 256 = c /\ n mod 256 = d)%Z.
Proof.
  intros Ha Hb Hc Hd n. unfold octet in *. split_and!.
  - replace n with ((0 * 256 + a) * 2 ^ 24 + (b * 65536 + c * 256 + d))%Z by (unfold n, v4_int; lia).
    apply byte_at; unfold octet; lia.
  - replace n with ((a * 256 + b) * 2 ^ 16 + (c * 256 + d))%Z by (unfold n, v4_int; lia).
    apply byte_at; unfold octet; lia.
  - replace n with (((a * 256 + b) * 256 + c) * 2 ^ 8 + d)%Z by (unfold n, v4_int; lia).
    apply byte_at; unfold octet; lia.
  - unfold n, v4_int. rewrite Z.add_comm, Z.mod_add by lia. apply Z.mod_small. lia.
Qed.

Lemma demo_reads_v4 : reads_v4 demo_isIP.
Proof.
  intros s. unfold demo_isIP. split.
  - destruct (ipv4ToInt s) as [n|]; [|by destruct (starts_with _ _)].
    destruct (String.eqb_spec s (dotted (n / 2 ^ 24 mod 256) (n / 2 ^ 16 mod 256) (n / 2 ^ 8 mod 256) (n mod 256)))
      as [E|]; [|done].
    intros _. eexists _, _, _, _. split_and!; [..|exact E];
      unfold octet; match goal with |- (0 <= ?x mod 256 <= 255)%Z => pose proof (Z.mod_pos_bound x 256); lia end.
  - intros (a & b & c & d & Ha & Hb & Hc & Hd & ->). rewrite ipv4ToInt_dotted by done.
    destruct (v4_bytes a b c d) as (-> & -> & -> & ->); [done..|]. by rewrite String.eqb_refl.
Qed.

Definition demo_parse (raw : string) : option URL :=
  Some {| url_href := raw; url_protocol := "https:"; url_hostname := "runner.example" |}%string.
Definition demo_dns (h : string) : option (list string) := Some ["93.184.216.34"%string].
Definition demo_policy : OutboundUrlPolicy := {| requireHttps := true; allowLoopback := false |}.

Lemma v4_guard_exact_witness : isDisallowedAddress demo_isIP (dotted 172 20 0 1) = true.
Proof. apply (v4_guard_exact demo_isIP 172 20 0 1); [unfold octet; lia..|vm_compute; reflexivity]. Defined.

(** Of a host that also advertises a private address, nothing is allowed; of this
    one, no advertised address is private. *)
Lemma allowed_target_is_safe_witness :
  exists l, addresses_of demo_isIP demo_dns "runner.example" = Ok l /\ In "93.184.216.34"%string l /\
    forall address, In address l ->
      demo_isIP address <> 0 /\ (blocked address -> allowLoopback demo_policy = true /\ loopback address).
Proof.
  apply (allowed_target_is_safe demo_isIP demo_parse demo_dns "https://runner.example" demo_policy
    {| url_href := "https://runner.example"; url_protocol := "https:"; url_hostname := "runner.example" |}%string
    "93.184.216.34"%string demo_reads_v4).
  vm_compute. reflexivity.
Defined.

Example private_target_is_refused :
  is_ok (resolveAllowedOutboundTarget demo_isIP demo_parse
    (fun _ => Some ["93.184.216.34"; dotted 10 0 0 1])%string "https://runner.example" demo_policy) = false.
Proof. vm_compute. reflexivity. Qed.

Lemma mapped_hex_is_let_through_witness : isDisallowedAddress demo_isIP "::ffff:7f00:1" = false.
Proof. apply (mapped_hex_is_let_through demo_isIP); vm_compute; reflexivity. Defined.

Definition demo_remote : RemoteToolExecutor :=
  mkRemoteToolExecutor "https://runner.example/" "agt_1" demo_policy (fun _ _ => Ok "jwt"%string)
    None None None.
Definition demo_call : ToolCall :=
  {| call_toolName := "add"; call_callId := "tc_1"; call_arguments := Some (JNum 2) |}%string.
Definition demo_tool_ctx : ToolCallContext :=
  {| tcc_sessionId := "ses_1"; tcc_runId := "run_1"; tcc_userId := None; tcc_metadata := None |}%string.

(** The first attempt times out, the second is answered. *)
Definition demo_answer : text :=
  list_ascii_of_string (stringify (JObj [("version", JStr "1"); ("result", JNum 4)]%string)).
Definition demo_attempts (k : nat) : attempt :=
  {| a_reply := match k with O => aborts | _ => responds 200 [demo_answer] end;
     a_aborted := false; a_aborted_later := false |}.

Example remote_retries :
  execute demo_isIP demo_parse demo_dns (fun b => b) demo_remote demo_call demo_tool_ctx false demo_attempts
  = (result_ok (Some (JNum 4)), repeat
      {| sent_url := {| url_href := "https://runner.example/tools/add"; url_protocol := "https:";
                        url_hostname := "runner.example" |};
         sent_dispatcher := createPinnedDispatcher demo_isIP "93.184.216.34";
         sent_body := stringify (request_json (envelope_of demo_remote demo_call demo_tool_ctx));
         sent_token := "jwt" |}%string 2).
Proof. vm_compute. reflexivity. Qed.

Lemma success_comes_from_an_envelope_witness :
  exists i, i <= 1 /\ answered (fun b => b) (Some (JNum 4)) (demo_attempts i).
Proof.
  apply (success_comes_from_an_envelope demo_isIP demo_parse demo_dns (fun b => b) demo_remote demo_call
    demo_tool_ctx false demo_attempts (Some (JNum 4))).
  vm_compute. reflexivity.
Defined.

Lemma requests_go_to_the_pinned_address_witness :
  exists ip, resolveAllowedOutboundTarget demo_isIP demo_parse demo_dns "https://runner.example/tools/add" demo_policy
  = Ok ({| url_href := "https://runner.example/tools/add"; url_protocol := "https:";
           url_hostname := "runner.example" |}, ip)%string.
Proof.
  destruct (requests_go_to_the_pinned_address demo_isIP demo_parse demo_dns (fun b => b) demo_remote demo_call
    demo_tool_ctx false demo_attempts
    {| sent_url := {| url_href := "https://runner.example/tools/add"; url_protocol := "https:";
                      url_hostname := "runner.example" |};
       sent_dispatcher := createPinnedDispatcher demo_isIP "93.184.216.34";
       sent_body := stringify (request_json (envelope_of demo_remote demo_call demo_tool_ctx));
       sent_token := "jwt" |}%string) as (ip & E & _).
  - vm_compute. left. reflexivity.
  - exists ip. exact E.
Defined.

Lemma request_roundtrip_witness :
  (parse (stringify (request_json (envelope_of demo_remote demo_call demo_tool_ctx))) ≫= RunnerRequestSchema)
  = Some (envelope_of demo_remote demo_call demo_tool_ctx).
Proof. apply (request_roundtrip demo_remote demo_call demo_tool_ctx); vm_compute; reflexivity. Defined.

Definition demo_local : LocalToolExecutor.LocalToolExecutor :=
  {| LocalToolExecutor.timeoutMs := 100;
     LocalToolExecutor.handlers := {["add"%string := fun a _ =>
       {| LocalToolExecutor.h_delay := Some 7%Z; LocalToolExecutor.h_result := LocalToolExecutor.resolves a |}]} |}.

Lemma local_call_is_bounded_witness : (7 <= 100)%Z.
Proof.
  apply (local_call_is_bounded demo_call demo_tool_ctx None 0 demo_local (result_ok (Some (JNum 2))) 7);
    vm_compute; [reflexivity|discriminate].
Defined.

Definition demo_remote_agent : AgentRecord :=
  {| ag_agentId := "agt_2"; ag_workspaceId := "ws_1"; ag_name := "demo";
     ag_modelConfig := {| mc_model := "echo/echo"; mc_temperature := None; mc_maxTokens := None |};
     ag_systemPrompt := ""; ag_memoryConfig := None; ag_toolRunnerUrl := Some "https://r.example";
     ag_tools := [] |}%string.

Lemma remote_executor_matches_agent_witness :
  ag_toolRunnerUrl demo_remote_agent = Some "https://r.example"%string.
Proof.
  apply (remote_executor_matches_agent None [tools_of []] demo_remote_agent
    (Resolver.remote demo_remote_agent "https://r.example") _ demo_remote_agent "https://r.example"%string
    eq_refl); vm_compute; reflexivity.
Defined.
