(* ===== verification/ToolRunner.v ===== *)
(** The customer's side of the remote tool boundary
    (packages/sdk/src/tool-runner.ts, runner-token.ts).

    The route of a tool call as a function of the request and the idempotency
    cache, and the runner as a machine whose steps are the arrival of a request
    and the end of an execution.  The JWT library, the tools' input schemas and
    handlers, and the decoding of UTF-8 are parameters. *)
From S2P Require Import Prelude Json Shared Executors.

(** ** Verification of the token (runner-token.ts) *)

Record RunnerTokenClaims := {
  cl_aud : string; cl_workspaceId : string; cl_agentId : string; cl_runId : string;
  cl_callId : string; cl_idempotencyKey : string; cl_toolName : string; cl_exp : Z }.

Record ExpectedRunnerIdentity := { audience : string; workspaceId : string }.

Definition str (value : jsval) : string :=
  match value with Some (JStr s) => s | _ => "" end.

(** The claims of a verified payload. *)
Definition claims_of (expected : ExpectedRunnerIdentity) (payload : json) : RunnerTokenClaims :=
  {| cl_aud := audience expected; cl_workspaceId := str (field "workspaceId" payload);
     cl_agentId := str (field "agentId" payload); cl_runId := str (field "runId" payload);
     cl_callId := str (field "callId" payload);
     cl_idempotencyKey := str (field "idempotencyKey" payload);
     cl_toolName := str (field "toolName" payload);
     cl_exp := match field "exp" payload with Some (JNum n) => n | _ => 0 end |}.

Definition scope_missing (c : RunnerTokenClaims) : bool :=
  existsb (String.eqb "")
    [cl_workspaceId c; cl_agentId c; cl_runId c; cl_callId c; cl_idempotencyKey c; cl_toolName c].

(** ** Outcomes *)

Inductive HandlerOutcome : Type :=
| outcome_ok (result : jsval)
| outcome_failure (status : Z) (code message : string).

(** How a handler ends: after some milliseconds or never, with a value, an
    [Error], or something else that it throws. *)
Inductive ending : Type := resolves (v : jsval) | throws_error (message : string) | throws_other.
Record behaviour := { b_delay : option nat; b_end : ending }.

Definition tool_timeout (toolName : string) (toolTimeoutMs : nat) : HandlerOutcome * nat :=
  (outcome_failure 504 "TIMEOUT" ("Tool " +:+ quoted toolName +:+ " timed out after " +:+
     string_of_Z (Z.of_nat toolTimeoutMs) +:+ "ms"), toolTimeoutMs).

(** The race of a handler against the timeout: the outcome and its instant. *)
Definition executeTool (toolName : string) (toolTimeoutMs : nat) (b : behaviour) :
    HandlerOutcome * nat :=
  match b_delay b with
  | None => tool_timeout toolName toolTimeoutMs
  | Some d =>
      if (d <=? toolTimeoutMs)%nat then
        (match b_end b with
         | resolves v => outcome_ok v
         | throws_error m => outcome_failure 500 "EXECUTION_ERROR" m
         | throws_other => outcome_failure 500 "EXECUTION_ERROR" "Unknown error"
         end, d)
      else tool_timeout toolName toolTimeoutMs
  end.

(** ** The idempotency cache

    An execution is an object that requests share: its promise, and the time
    it settled at.  The map refers to executions by their number and keeps its
    keys in insertion order. *)

(** What a request asks to execute. *)
Record Job := {
  j_key : string; j_tool : string; j_input : jsval; j_context : RunnerRequestContext }.

Record Execution := { x_job : Job; x_started : Z; x_settled : option (Z * HandlerOutcome) }.

Record Runner := { entries : list (string * nat); executions : list Execution }.

Definition initial : Runner := {| entries := []; executions := [] |}.

Fixpoint entry_of (key : string) (l : list (string * nat)) : option nat :=
  match l with
  | [] => None
  | (k, id) :: l => if String.eqb key k then Some id else entry_of key l
  end.

Definition delete_entry (key : string) (l : list (string * nat)) : list (string * nat) :=
  List.filter (fun e => negb (String.eqb key e.1)) l.

(** The loop over the oldest keys. *)
Fixpoint evictIfNeeded (maxEntries : nat) (l : list (string * nat)) : list (string * nat) :=
  match l with
  | [] => []
  | _ :: l' => if (maxEntries <? length l)%nat then evictIfNeeded maxEntries l' else l
  end.

Section runner.
Context (ttlMs : Z) (maxEntries : nat) (toolTimeoutMs : nat).

(** In flight, or settled less than [ttlMs] ago. *)
Definition fresh (s : Runner) (now : Z) (id : nat) : bool :=
  match executions s !! id with
  | Some x => match x_settled x with None => true | Some (at_, _) => (now - at_ <? ttlMs)%Z end
  | None => false
  end.

Definition start (job : Job) (now : Z) (kept : list (string * nat)) (s : Runner) : Runner * nat :=
  let id := length (executions s) in
  ({| entries := evictIfNeeded maxEntries (kept ++ [(j_key job, id)]);
      executions := executions s ++ [{| x_job := job; x_started := now; x_settled := None |}] |}, id).

(** [IdempotencyCache.run]: the execution whose promise is returned. *)
Definition run (job : Job) (now : Z) (s : Runner) : Runner * nat :=
  match entry_of (j_key job) (entries s) with
  | Some id =>
      if fresh s now id
      then ({| entries := delete_entry (j_key job) (entries s) ++ [(j_key job, id)];
               executions := executions s |}, id)
      else start job now (delete_entry (j_key job) (entries s)) s
  | None => start job now (entries s) s
  end.

(** The two callbacks of [exec().then]. *)
Definition on_outcome (id : nat) (now : Z) (o : HandlerOutcome) (s : Runner) : Runner :=
  {| entries := entries s;
     executions := alter (fun x => {| x_job := x_job x; x_started := x_started x;
                                      x_settled := Some (now, o) |}) id (executions s) |}.

Definition on_rejection (job : Job) (s : Runner) : Runner :=
  {| entries := delete_entry (j_key job) (entries s); executions := executions s |}.

(** ** The route *)

Record Answer := { status : Z; body : json }.

Record Request := {
  rq_toolName : string; rq_authorization : option string; rq_body : jsval }.

(** A tool of the registry: its schema accepts with the parsed value, or
    rejects with the flattened error. *)
Record RunnerTool := { inputSafeParse : jsval -> jsval + json }.

Context (registry : gmap string RunnerTool) (expected : ExpectedRunnerIdentity).
(** [jwtVerify(token, publicKey, { algorithms, audience })] and the flattened
    error of the envelope's schema. *)
Context (jwtVerify : string -> string -> res error json) (flatten : jsval -> json).
(** Decoding of UTF-8 bytes. *)
Context (utf8 : text -> text).

Definition verifyRunnerToken (jwt : string) : res error RunnerTokenClaims :=
  match jwtVerify jwt (audience expected) with
  | Err e => Err (swift_error UNAUTHORIZED ("Runner token verification failed: " +:+ error_message e))
  | Ok payload =>
      if negb (bool_decide (str_field "workspaceId" payload = Some (workspaceId expected)))
      then Err (swift_error UNAUTHORIZED "Runner token workspace mismatch")
      else
        let claims := claims_of expected payload in
        if scope_missing claims
        then Err (swift_error UNAUTHORIZED "Runner token missing required scope claims")
        else Ok claims
  end%string.

Definition utf8_encode (t : text) : text :=
  t ≫= fun c => let n := nat_of_ascii c in
    if (n <? 128)%nat then [c] else [ascii_of_nat (192 + n / 64); ascii_of_nat (128 + n mod 64)].

Definition RUNNER_MAX_ERROR_BYTES : nat := 8 * 1024.

Definition capError (message : string) : string :=
  if (byteLength message <=? RUNNER_MAX_ERROR_BYTES)%nat then message
  else on_text (fun t => utf8 (take RUNNER_MAX_ERROR_BYTES (utf8_encode t))) message.

Definition error_body (code message : string) (details : jsval) : json :=
  obj_literal [("version", Some (JStr RUNNER_PROTOCOL_VERSION));
               ("error", Some (obj_literal [("code", Some (JStr code)); ("message", Some (JStr message));
                                            ("details", details)]))]%string.

Definition unauthorized (message : string) : Answer :=
  {| status := 401; body := error_body "UNAUTHORIZED" message None |}.

(** The error handler of the server: what Fastify itself refuses. *)
Definition errorHandler (statusCode : option Z) (code : string) (message : string) : Answer :=
  if bool_decide (statusCode = Some 413%Z) || String.eqb code "FST_ERR_CTP_BODY_TOO_LARGE"
  then {| status := 400; body := error_body "VALIDATION" "Request body exceeds limit" None |}
  else {| status := statusCode ?? 500%Z; body := error_body "INTERNAL" (capError message) None |}.

Definition wrongVersion (b : jsval) : bool :=
  match b with
  | Some (JObj _ as v) => negb (bool_decide (str_field "version" v = Some RUNNER_PROTOCOL_VERSION))
  | Some (JArr _) => true
  | _ => false
  end.

Definition scope_matches (claims : RunnerTokenClaims) (toolName : string) (r : RunnerRequest) : bool :=
  String.eqb (cl_agentId claims) (rc_agentId (rr_context r)) &&
  String.eqb (cl_runId claims) (rc_runId (rr_context r)) &&
  String.eqb (cl_callId claims) (rc_callId (rr_context r)) &&
  String.eqb (cl_toolName claims) toolName &&
  String.eqb (cl_idempotencyKey claims) (rr_idempotencyKey r).

Definition bearer (authorization : option string) : option string :=
  match authorization with
  | Some h => if String.eqb h "" then None
              else if starts_with "Bearer " h then Some (String.substring 7 (String.length h - 7) h)
              else None
  | None => None
  end.

(** The handler of the route up to the cache: the answer that ends it, or the
    job to execute. *)
Definition precheck (q : Request) : Answer + Job :=
  match bearer (rq_authorization q) with
  | None => inl (unauthorized "Invalid or missing authorization")
  | Some jwt =>
      match rq_body q ≫= RunnerRequestSchema with
      | None => inl {| status := 400; body := error_body "VALIDATION"
                  (if wrongVersion (rq_body q) then "Unsupported runner protocol version"
                   else "Invalid request body") (Some (flatten (rq_body q))) |}
      | Some r =>
          match verifyRunnerToken jwt with
          | Err e => inl (unauthorized (if isSwiftAgentError e then error_message e
                                        else "Invalid or missing authorization"))
          | Ok claims =>
              if negb (scope_matches claims (rq_toolName q) r)
              then inl (unauthorized "Runner token scope does not match request")
              else match registry !! rq_toolName q with
              | None => inl {| status := 404; body := error_body "NOT_FOUND"
                          ("Tool " +:+ quoted (rq_toolName q) +:+ " not found") None |}
              | Some toolDef =>
                  match inputSafeParse toolDef (rr_input r) with
                  | inr details => inl {| status := 400; body := error_body "VALIDATION"
                      ("Input validation failed for tool " +:+ quoted (rq_toolName q)) (Some details) |}
                  | inl input =>
                      inr {| j_key := rr_idempotencyKey r; j_tool := rq_toolName q; j_input := input;
                             j_context := rr_context r |}
                  end
              end
          end
      end
  end%string.

(** The route: an answer at once, or the execution that is awaited. *)
Definition route (q : Request) (now : Z) (s : Runner) : Runner * (Answer + nat) :=
  match precheck q with
  | inl answer => (s, inl answer)
  | inr job => let '(s, id) := run job now s in (s, inr id)
  end.

(** The answer once the execution has settled. *)
Definition reply (o : HandlerOutcome) : Answer :=
  match o with
  | outcome_ok result =>
      {| status := 200;
         body := obj_literal [("version", Some (JStr RUNNER_PROTOCOL_VERSION)); ("result", result)]%string |}
  | outcome_failure st code message =>
      {| status := st; body := error_body code (capError message) None |}
  end.

(** ** The machine *)

Inductive Event : Type :=
| ev_request (q : Request) (now : Z)
| ev_settle (id : nat) (b : behaviour).

Inductive step : Runner -> Event -> Runner -> Prop :=
| step_request s q now : step s (ev_request q now) (route q now s).1
| step_settle s id b x o d :
    executions s !! id = Some x -> x_settled x = None ->
    executeTool (j_tool (x_job x)) toolTimeoutMs b = (o, d) ->
    step s (ev_settle id b) (on_outcome id (x_started x + Z.of_nat d) o s).

Inductive steps : Runner -> list Event -> Runner -> Prop :=
| steps_nil s : steps s [] s
| steps_cons s e s' es s'' : step s e s' -> steps s' es s'' -> steps s (e :: es) s''.

(** The key under which an event touches the cache. *)
Definition key_of (e : Event) : option string :=
  match e with
  | ev_request q _ => match precheck q with inr job => Some (j_key job) | inl _ => None end
  | ev_settle _ _ => None
  end.

Definition keys_of (es : list Event) : gset string := list_to_set (omap key_of es).
End runner.
