(* ===== verification/ToolRunnerProps.v ===== *)
(** What the tool runner promises: an execution needs a token scoped to it, a
    retry joins the execution it repeats, and together with the remote executor
    a call is executed at most once - as long as the cache keeps its key. *)
From S2P Require Import Prelude Json Shared Tools Ssrf Executors ToolRunner ExecutorsProps.

(** ** The order of the keys *)

Lemma evict_suffix max pre e post :
  (S (length post) <= max)%nat ->
  exists pre', evictIfNeeded max (pre ++ e :: post) = pre' ++ e :: post /\ (forall x, In x pre' -> In x pre).
Proof.
  intros H. induction pre as [|p pre IH].
  - exists []. simpl. destruct (Nat.ltb_spec max (S (length post))); [lia|done].
  - cbn [app evictIfNeeded]. destruct (_ <? _)%nat.
    + destruct IH as (pre' & -> & Hin). exists pre'. split; [done|]. intros x Hx. right. by apply Hin.
    + by exists (p :: pre).
Qed.

Lemma evict_length max l : (length (evictIfNeeded max l) <= max)%nat.
Proof.
  induction l as [|x l IH]; [simpl; lia|]. cbn [evictIfNeeded].
  destruct (Nat.ltb_spec max (length (x :: l))); [done|lia].
Qed.

Lemma entry_of_held k i pre post :
  ~ In k (map fst pre) -> entry_of k (pre ++ (k, i) :: post) = Some i.
Proof.
  induction pre as [|[k' j] pre IH]; simpl; [by rewrite String.eqb_refl|]. intros H.
  destruct (String.eqb_spec k k') as [->|]; [by destruct H; left|]. apply IH. intros ?. apply H. by right.
Qed.

Lemma entry_of_none k l : entry_of k l = None <-> ~ In k (map fst l).
Proof.
  induction l as [|[k' j] l IH]; simpl; [split; [by intros _ []|done]|].
  destruct (String.eqb_spec k k') as [->|]; [split; [done|intros H; by destruct H; left]|].
  rewrite IH. naive_solver.
Qed.

Lemma delete_keys k l x : In x (map fst (delete_entry k l)) -> In x (map fst l) /\ x <> k.
Proof.
  intros H. apply in_map_iff in H as (e & <- & He). apply filter_In in He as [He Hn].
  apply negb_true_iff, String.eqb_neq in Hn. split; [by apply in_map|done].
Qed.

Lemma delete_absent k l : ~ In k (map fst l) -> delete_entry k l = l.
Proof.
  induction l as [|[k' j] l IH]; simpl; [done|]. intros H.
  destruct (String.eqb_spec k k') as [->|]; [by destruct H; left|]. simpl. f_equal. apply IH.
  intros ?. apply H. by right.
Qed.

Lemma delete_app k l l' : delete_entry k (l ++ l') = delete_entry k l ++ delete_entry k l'.
Proof. apply List.filter_app. Qed.

Lemma delete_other k k' i l : k <> k' -> delete_entry k ((k', i) :: l) = (k', i) :: delete_entry k l.
Proof. intros H. simpl. by rewrite (proj2 (String.eqb_neq k k') H). Qed.

Lemma delete_nodup k l : NoDup (map fst l) -> NoDup (map fst (delete_entry k l)).
Proof.
  induction l as [|[k' j] l IH]; simpl; [done|]. intros [Hn Hd]%NoDup_cons.
  destruct (negb _); [|by apply IH]. simpl. apply NoDup_cons. split; [|by apply IH].
  rewrite list_elem_of_In in *. intros H. by apply delete_keys in H as [? _].
Qed.

Section runner.
Context (ttlMs : Z) (maxEntries toolTimeoutMs : nat).
Context (registry : gmap string RunnerTool) (expected : ExpectedRunnerIdentity).
Context (jwtVerify : string -> string -> res error json) (flatten : jsval -> json).

Abbreviation run := (run ttlMs maxEntries).
Abbreviation route := (route ttlMs maxEntries registry expected jwtVerify flatten).
Abbreviation precheck := (precheck registry expected jwtVerify flatten).
Abbreviation steps := (steps ttlMs maxEntries toolTimeoutMs registry expected jwtVerify flatten).
Abbreviation step := (step ttlMs maxEntries toolTimeoutMs registry expected jwtVerify flatten).
Abbreviation keys_of := (keys_of registry expected jwtVerify flatten).
Abbreviation key_of := (key_of registry expected jwtVerify flatten).

(** [k] is bound to execution [i], and what follows it in the order are
    distinct keys of [ks]: what was requested since. *)
Definition held (k : string) (i : nat) (ks : gset string) (l : list (string * nat)) : Prop :=
  exists pre post, l = pre ++ (k, i) :: post /\ ~ In k (map fst pre) /\
    NoDup (map fst post) /\ forall x, In x (map fst post) -> x ∈ ks.

Lemma held_entry k i ks l : held k i ks l -> entry_of k l = Some i.
Proof. intros (pre & post & -> & Hp & _). by apply entry_of_held. Qed.

Lemma keys_length (l : list (string * nat)) (ks : gset string) :
  NoDup (map fst l) -> (forall x, In x (map fst l) -> x ∈ ks) -> (length l <= size ks)%nat.
Proof.
  intros Hn Hin. rewrite <- (length_map fst l), <- (size_list_to_set (C := gset string) _ Hn).
  apply subseteq_size. intros x Hx. apply elem_of_list_to_set, list_elem_of_In in Hx. by apply Hin.
Qed.

(** Another key is appended, and the map trimmed. *)
Lemma held_append k i ks l k' j :
  held k i ks l -> k' <> k -> k' ∈ ks -> (size ks < maxEntries)%nat ->
  held k i ks (delete_entry k' l ++ [(k', j)]) /\
  held k i ks (evictIfNeeded maxEntries (delete_entry k' l ++ [(k', j)])).
Proof.
  intros (pre & post & -> & Hp & Hn & Hk) Hne Hin Hs.
  rewrite delete_app, delete_other, <- app_assoc by done. cbn [app].
  set (post' := delete_entry k' post ++ [(k', j)]).
  assert (Hn' : NoDup (map fst post')).
  { subst post'. rewrite map_app. apply NoDup_app. split_and!; [by apply delete_nodup| |apply NoDup_singleton].
    intros x Hx. apply list_elem_of_In, delete_keys in Hx as [_ ?]. simpl. by intros ->%list_elem_of_singleton. }
  assert (Hk' : forall x, In x (map fst post') -> x ∈ ks).
  { subst post'. intros x. rewrite map_app, in_app_iff. intros [Hx|[<-|[]]]; [|done].
    apply Hk. by apply delete_keys in Hx as [? _]. }
  assert (Hp' : ~ In k (map fst (delete_entry k' pre))).
  { intros H. by apply delete_keys in H as [? _]. }
  split; [by exists (delete_entry k' pre), post'|].
  assert (Hl := keys_length _ _ Hn' Hk').
  destruct (evict_suffix maxEntries (delete_entry k' pre) (k, i) post') as (pre' & -> & Hsub); [lia|].
  exists pre', post'. split_and!; [done| |done|done].
  intros H. apply in_map_iff in H as (e & He & Hin'). apply Hp'. rewrite <- He. apply in_map. by apply Hsub.
Qed.

(** The key that was just requested is last. *)
Lemma held_last k i ks l : held k i ks (delete_entry k l ++ [(k, i)]).
Proof.
  exists (delete_entry k l), []. split_and!; [done| |apply NoDup_nil_2|done].
  intros H. by apply delete_keys in H as [_ ?].
Qed.

Lemma held_last_evict k i ks l :
  (0 < maxEntries)%nat -> held k i ks (evictIfNeeded maxEntries (delete_entry k l ++ [(k, i)])).
Proof.
  intros Hm. destruct (evict_suffix maxEntries (delete_entry k l) (k, i) []) as (pre & -> & Hsub); [simpl; lia|].
  exists pre, []. split_and!; [done| |apply NoDup_nil_2|done].
  intros H. apply in_map_iff in H as (e & He & Hin). apply Hsub in Hin.
  apply (in_map fst) in Hin. rewrite He in Hin. by apply delete_keys in Hin as [_ ?].
Qed.

(** ** One request *)

(** What a run does: it joins a fresh execution, or starts one. *)
Lemma run_cases job now s s' id :
  run job now s = (s', id) ->
  (entry_of (j_key job) (entries s) = Some id /\ fresh ttlMs s now id = true /\
   executions s' = executions s /\
   entries s' = delete_entry (j_key job) (entries s) ++ [(j_key job, id)]) \/
  (id = length (executions s) /\
   (forall i, entry_of (j_key job) (entries s) = Some i -> fresh ttlMs s now i = false) /\
   executions s' = executions s ++ [{| x_job := job; x_started := now; x_settled := None |}] /\
   entries s' = evictIfNeeded maxEntries (delete_entry (j_key job) (entries s) ++ [(j_key job, id)])).
Proof.
  unfold ToolRunner.run, start. destruct (entry_of _ _) as [i|] eqn:E.
  - destruct (fresh ttlMs s now i) eqn:F; intros [= <- <-]; [by left|right].
    split_and!; [done|by intros ? [= <-]|done|done].
  - intros [= <- <-]. right. apply entry_of_none in E. rewrite delete_absent by done. done.
Qed.

Lemma run_held_last job now s s' id ks :
  run job now s = (s', id) -> (0 < maxEntries)%nat -> held (j_key job) id ks (entries s').
Proof.
  intros H Hm. apply run_cases in H as [(_ & _ & _ & ->)|(-> & _ & _ & ->)];
    [apply held_last|by apply held_last_evict].
Qed.

Lemma run_held_other job now s s' id k i ks :
  run job now s = (s', id) -> held k i ks (entries s) -> j_key job <> k -> j_key job ∈ ks ->
  (size ks < maxEntries)%nat -> held k i ks (entries s').
Proof.
  intros H Hh Hne Hin Hs.
  apply run_cases in H as [(_ & _ & _ & ->)|(-> & _ & _ & ->)]; by eapply held_append.
Qed.

(** Executions only grow, keep their job, and settle once. *)
Definition grows (s s' : Runner) : Prop :=
  forall i x, executions s !! i = Some x -> exists x', executions s' !! i = Some x' /\
    x_job x' = x_job x /\ x_started x' = x_started x.

Lemma grows_refl s : grows s s.
Proof. intros i x ?. by exists x. Qed.

Lemma grows_trans s1 s2 s3 : grows s1 s2 -> grows s2 s3 -> grows s1 s3.
Proof.
  intros H1 H2 i x Hx. destruct (H1 _ _ Hx) as (y & Hy & ? & ?).
  destruct (H2 _ _ Hy) as (z & Hz & ? & ?). exists z. split_and!; [done|congruence..].
Qed.

Lemma run_grows job now s : grows s (run job now s).1.
Proof.
  destruct (run job now s) as [s' id] eqn:E. intros i x Hx. exists x. split_and!; [|done..].
  apply run_cases in E as [(_ & _ & H & _)|(_ & _ & H & _)]; simpl; rewrite H; [done|].
  by apply lookup_app_l_Some.
Qed.

Lemma step_grows s e s' : step s e s' -> grows s s'.
Proof.
  intros [s0 q now|s0 id b x o d Hx Hu He].
  - unfold ToolRunner.route. destruct (precheck q) as [a|job]; [apply grows_refl|].
    pose proof (run_grows job now s0). by destruct (run job now s0).
  - intros i y Hy. simpl. rewrite list_lookup_alter. case_decide as Ei; [|by exists y].
    subst i. rewrite Hy. simpl. by eexists.
Qed.

Lemma steps_grow s es s' : steps s es s' -> grows s s'.
Proof.
  induction 1 as [|s e s1 es s2 H _ IH]; [apply grows_refl|].
  eapply grows_trans; [by eapply step_grows|done].
Qed.

(** Between two requests of a key that is held, it stays held. *)
Lemma steps_held s es s' k i ks :
  steps s es s' -> held k i ks (entries s) -> k ∉ keys_of es -> keys_of es ⊆ ks ->
  (size ks < maxEntries)%nat -> held k i ks (entries s').
Proof.
  intros Hs. induction Hs as [|s e s1 es s2 H _ IH]; intros Hh Hk Hsub Hm; [done|].
  assert (Htail : keys_of es ⊆ keys_of (e :: es)).
  { unfold ToolRunner.keys_of. simpl. destruct (key_of e); [|done]. set_solver. }
  apply IH; [|by intros ?%Htail|by etrans|done]. destruct H as [s q now|s id b x o d]; [|done].
  unfold ToolRunner.keys_of in *. simpl in *. unfold ToolRunner.route.
  destruct (precheck q) as [a|job] eqn:Ea; [done|]. simpl in Hk, Hsub.
  destruct (run job now s) as [s' id] eqn:Er. simpl.
  eapply run_held_other; [done|done|set_solver|set_solver|done].
Qed.

(** A retry joins the execution it repeats.  Whatever happens between two
    requests with the same idempotency key, the second one awaits the execution
    the first was given and starts nothing, provided that this execution is in
    flight or settled less than the TTL ago, and that fewer than [maxEntries]
    other keys were requested meanwhile. *)
Theorem replay_joins_execution s q t s1 id es s2 q' t' job job' :
  route q t s = (s1, inr id) -> steps s1 es s2 ->
  precheck q = inr job -> precheck q' = inr job' -> j_key job' = j_key job ->
  j_key job ∉ keys_of es -> (size (keys_of es) < maxEntries)%nat ->
  (forall x ts o, executions s2 !! id = Some x -> x_settled x = Some (ts, o) -> (t' - ts < ttlMs)%Z) ->
  (route q' t' s2).2 = inr id /\ executions (route q' t' s2).1 = executions s2.
Proof.
  unfold ToolRunner.route. intros H1 Hs Ha Ha' Hk Hnk Hsz Hf. rewrite Ha in H1. rewrite Ha'.
  destruct (run job t s) as [s1' id'] eqn:E1. injection H1 as -> ->.
  assert (Hh := run_held_last _ _ _ _ _ (keys_of es) E1 ltac:(lia)).
  apply (steps_held _ _ _ _ _ _ Hs) in Hh; [|done..].
  assert (Hx : exists x, executions s1 !! id = Some x).
  { apply run_cases in E1 as [(_ & F & -> & _)|(-> & _ & -> & _)].
    - unfold fresh in F. destruct (executions s !! id) as [x|]; [by exists x|done].
    - eexists. by apply list_lookup_middle. }
  destruct Hx as [x Hx]. apply (steps_grow _ _ _ Hs) in Hx as (x' & Hx' & _).
  destruct (run job' t' s2) as [s3 id3] eqn:E3. simpl.
  apply held_entry in Hh. rewrite <- Hk in Hh.
  assert (Hfr : fresh ttlMs s2 t' id = true).
  { unfold fresh. rewrite Hx'. destruct (x_settled x') as [[ts o]|] eqn:Es; [|done].
    apply Z.ltb_lt. by eapply Hf. }
  apply run_cases in E3 as [(E & _ & -> & _)|(_ & E & _)]; [by simplify_eq|].
  apply E in Hh. congruence.
Qed.
(** ** Whole traces *)

Definition requests_of (es : list Event) : list (Request * Z) :=
  omap (fun e => match e with ev_request q t => Some (q, t) | ev_settle _ _ => None end) es.

(** Every execution was admitted from a request of the trace. *)
Lemma executions_admitted s es s' (P : Job -> Prop) :
  steps s es s' -> (forall i x, executions s !! i = Some x -> P (x_job x)) ->
  (forall q t job, In (q, t) (requests_of es) -> precheck q = inr job -> P job) ->
  forall i x, executions s' !! i = Some x -> P (x_job x).
Proof.
  induction 1 as [|s e s1 es s2 H _ IH]; intros HP Hq; [done|]. apply IH.
  - destruct H as [s q now|s id b y o d Hy _ _]; intros i x Hx.
    + unfold ToolRunner.route in Hx. destruct (precheck q) as [a|job] eqn:Ea; [by eapply HP|].
      assert (Hjob : P job) by (eapply (Hq q now); [by left|done]).
      destruct (run job now s) as [s' id] eqn:Er. simpl in Hx.
      apply run_cases in Er as [(_ & _ & E & _)|(_ & _ & E & _)]; rewrite E in Hx; [by eapply HP|].
      apply lookup_app_Some in Hx as [Hx|[_ Hx]]; [by eapply HP|].
      by apply list_lookup_singleton_Some in Hx as [_ <-].
    + simpl in Hx. rewrite list_lookup_alter in Hx. case_decide; [|by eapply HP].
      apply fmap_Some in Hx as (z & Hz & ->). simpl. by eapply HP.
  - intros q t job Hin. eapply Hq. destruct e; [by right|done].
Qed.

(** No execution of the key and no entry for it, or exactly one execution,
    started and settled no earlier than [t0], that the map holds. *)
Definition at_most_one (k : string) (t0 : Z) (ks : gset string) (s : Runner) : Prop :=
  (entry_of k (entries s) = None /\ forall i x, executions s !! i = Some x -> j_key (x_job x) <> k) \/
  exists i x, executions s !! i = Some x /\ held k i ks (entries s) /\ (t0 <= x_started x)%Z /\
    (forall ts o, x_settled x = Some (ts, o) -> (t0 <= ts)%Z) /\
    forall j y, executions s !! j = Some y -> j_key (x_job y) = k -> j = i.

Lemma entry_evict k max l : entry_of k l = None -> entry_of k (evictIfNeeded max l) = None.
Proof.
  rewrite !entry_of_none. intros H Hin. apply H. clear H.
  induction l as [|e l IH]; [done|]. cbn [evictIfNeeded] in Hin.
  destruct (_ <? _)%nat; [right; by apply IH|done].
Qed.

Lemma at_most_one_request k t0 ks s job t s' id :
  at_most_one k t0 ks s -> run job t s = (s', id) -> (size ks < maxEntries)%nat ->
  (j_key job = k -> (t0 <= t < t0 + ttlMs)%Z) -> (j_key job <> k -> j_key job ∈ ks) ->
  at_most_one k t0 ks s'.
Proof.
  intros Hone Hr Hm Ht Hin. assert (Hc := run_cases _ _ _ _ _ Hr).
  destruct Hone as [[He Hx]|(i & x & Hi & Hh & Hst & Hse & Hu)]; destruct (decide (j_key job = k)) as [Ek|Ek].
  - right. assert (Hl := run_held_last _ _ _ _ _ ks Hr ltac:(lia)). rewrite Ek in Hl.
    destruct Hc as [(E & _)|(-> & _ & Ex & _)]; [congruence|]. eexists _, _.
    rewrite Ex. split_and!; [by apply list_lookup_middle|done|simpl; specialize (Ht Ek); lia|done|].
    intros j y Hy Hk. apply lookup_app_Some in Hy as [Hy|[Hj Hy]]; [by destruct (Hx j y)|].
    apply list_lookup_singleton_Some in Hy as [Hy _]. lia.
  - left. destruct Hc as [(_ & _ & -> & ->)|(_ & _ & -> & ->)]; split.
    + rewrite entry_of_none, map_app, in_app_iff in *. simpl. intros [H|[H|[]]]; [|done].
      apply He. by apply delete_keys in H as [? _].
    + done.
    + apply entry_evict. rewrite entry_of_none, map_app, in_app_iff in *. simpl.
      intros [H|[H|[]]]; [|done]. apply He. by apply delete_keys in H as [? _].
    + intros j y Hy. apply lookup_app_Some in Hy as [Hy|[_ Hy]]; [by eapply Hx|].
      by apply list_lookup_singleton_Some in Hy as [_ <-].
  - assert (He := held_entry _ _ _ _ Hh). rewrite <- Ek in He.
    assert (Hfr : fresh ttlMs s t i = true).
    { unfold fresh. rewrite Hi. destruct (x_settled x) as [[ts o]|]; [|done].
      apply Z.ltb_lt. specialize (Hse _ _ eq_refl). specialize (Ht Ek). lia. }
    assert (Hl := run_held_last _ _ _ _ _ ks Hr ltac:(lia)). rewrite Ek in Hl.
    destruct Hc as [(E & _ & Ex & _)|(_ & E & _)]; [|apply E in He; congruence].
    rewrite He in E. injection E as <-. right. exists i, x. rewrite Ex. by split_and!.
  - assert (Hh' := run_held_other _ _ _ _ _ _ _ _ Hr Hh Ek (Hin Ek) Hm). right. exists i, x.
    destruct Hc as [(_ & _ & -> & _)|(_ & _ & -> & _)]; [by split_and!|].
    split_and!; [by apply lookup_app_l_Some|done..|].
    intros j y Hy Hk. apply lookup_app_Some in Hy as [Hy|[_ Hy]]; [by eapply Hu|].
    by apply list_lookup_singleton_Some in Hy as [_ <-].
Qed.

Lemma at_most_one_settle k t0 ks s id x o d :
  at_most_one k t0 ks s -> executions s !! id = Some x ->
  at_most_one k t0 ks (on_outcome id (x_started x + Z.of_nat d) o s).
Proof.
  intros Hone Hx. assert (Hjob : forall j y, executions (on_outcome id (x_started x + Z.of_nat d) o s) !! j = Some y ->
    exists z, executions s !! j = Some z /\ x_job z = x_job y).
  { intros j y. simpl. rewrite list_lookup_alter. case_decide as E; [subst j|by eauto].
    intros (z & Hz & ->)%fmap_Some. exists z. by split. }
  destruct Hone as [[He Hn]|(i & y & Hi & Hh & Hst & Hse & Hu)].
  - left. split; [done|]. intros j y (z & Hz & <-)%Hjob. exact (Hn _ _ Hz).
  - right. exists i. simpl. rewrite list_lookup_alter.
    assert (Hu' : forall j y0, executions (on_outcome id (x_started x + Z.of_nat d) o s) !! j = Some y0 ->
      j_key (x_job y0) = k -> j = i).
    { intros j y0 (z & Hz & <-)%Hjob. by apply Hu. }
    case_decide as E; [|by exists y]. subst id. rewrite Hi in Hx. injection Hx as <-. rewrite Hi.
    eexists. split_and!; [done|done|done| |done]. simpl. intros ts o' [= <- _]. lia.
Qed.

Lemma steps_at_most_one s es s' k t0 ks :
  steps s es s' -> at_most_one k t0 ks s -> keys_of es ⊆ {[k]} ∪ ks -> (size ks < maxEntries)%nat ->
  (forall q t job, In (q, t) (requests_of es) -> precheck q = inr job -> j_key job = k ->
     (t0 <= t < t0 + ttlMs)%Z) ->
  at_most_one k t0 ks s'.
Proof.
  induction 1 as [|s e s1 es s2 H _ IH]; intros Hone Hks Hm Ht; [done|].
  unfold ToolRunner.keys_of in *. simpl in Hks. apply IH.
  - destruct H as [s q now|s id b x o d Hx _ _]; [|by apply at_most_one_settle].
    unfold ToolRunner.route. simpl in Hks. destruct (precheck q) as [a|job] eqn:Ea; [done|].
    destruct (run job now s) as [s' id] eqn:Er. simpl in *.
    eapply at_most_one_request; [done..| |].
    + intros Hk. eapply Ht; [by left|done|done].
    + intros Hk. set_solver.
  - destruct (key_of e); simpl in Hks; set_solver.
  - done.
  - intros q t job Hin. apply Ht. destruct e; [by right|done].
Qed.
(** ** Authorization *)

(** The payload of a verified token names this invocation. *)
Definition scoped_to (payload : json) (toolName : string) (r : RunnerRequest) : Prop :=
  str_field "workspaceId" payload = Some (workspaceId expected) /\
  str_field "agentId" payload = Some (rc_agentId (rr_context r)) /\
  str_field "runId" payload = Some (rc_runId (rr_context r)) /\
  str_field "callId" payload = Some (rc_callId (rr_context r)) /\
  str_field "toolName" payload = Some toolName /\
  str_field "idempotencyKey" payload = Some (rr_idempotencyKey r).

Definition authorizes (q : Request) (r : RunnerRequest) (job : Job) : Prop :=
  exists jwt payload toolDef,
    bearer (rq_authorization q) = Some jwt /\ jwtVerify jwt (audience expected) = Ok payload /\
    (rq_body q ≫= RunnerRequestSchema) = Some r /\ scoped_to payload (rq_toolName q) r /\
    registry !! rq_toolName q = Some toolDef /\
    inputSafeParse toolDef (rr_input r) = inl (j_input job) /\
    job = {| j_key := rr_idempotencyKey r; j_tool := rq_toolName q; j_input := j_input job;
             j_context := rr_context r |}.

Lemma str_nonempty k payload s :
  str (field k payload) = s -> s <> ""%string -> str_field k payload = Some s.
Proof. unfold str, str_field. destruct (field k payload) as [[]|]; congruence. Qed.

Lemma admit_inr q job : precheck q = inr job -> exists r, authorizes q r job.
Proof.
  unfold ToolRunner.precheck, verifyRunnerToken. destruct (bearer _) as [jwt|] eqn:Eb; [|done].
  destruct (rq_body q ≫= RunnerRequestSchema) as [r|] eqn:Er; [|done].
  destruct (jwtVerify jwt _) as [payload|e] eqn:Ej; [|done].
  destruct (bool_decide _) eqn:Ew; [|done]. apply bool_decide_eq_true in Ew. simpl.
  destruct (scope_missing _) eqn:Em; [done|]. destruct (scope_matches _ _ _) eqn:Es; [|done]. simpl.
  destruct (registry !! _) as [toolDef|] eqn:Et; [|done].
  destruct (inputSafeParse _ _) as [input|d] eqn:Ei; [|done]. intros [= <-].
  exists r, jwt, payload, toolDef. unfold scope_missing, scope_matches in *. cbn -[String.eqb] in Em, Es.
  reflect_bools. split_and!; try done.
  split_and!; [done|apply str_nonempty; congruence..].
Qed.

(** C8: nothing runs without a token made for it: every execution of the runner
    was asked by a request whose bearer token verified for this runner's
    audience and belongs to its workspace, and whose signed claims name the
    agent, the run, the call, the tool and the idempotency key of the request;
    and what runs is the tool's own parse of the request's input. *)
Theorem executions_are_authorized es s i x :
  steps initial es s -> executions s !! i = Some x ->
  exists q t r, In (q, t) (requests_of es) /\ authorizes q r (x_job x).
Proof.
  intros Hs Hx. refine (executions_admitted initial es s
    (fun job => exists q t r, In (q, t) (requests_of es) /\ authorizes q r job) Hs _ _ i x Hx).
  - intros j y Hy. done.
  - intros q t job Hin Ha. apply admit_inr in Ha as [r Hr]. eauto.
Qed.

(** ** The remote executor against the runner *)

(** The request that a sent call is when it reaches the runner. *)
Definition delivered (toolName : string) (r : Sent) (q : Request) : Prop :=
  rq_toolName q = toolName /\ rq_body q = parse (sent_body r) /\
  rq_authorization q = Some ("Bearer " +:+ sent_token r)%string.

(** A request is admitted under a key. *)
Definition asks_for (key : string) (q : Request) : Prop :=
  exists job, precheck q = inr job /\ j_key job = key.

Definition well_formed_call (x : RemoteToolExecutor) (call : ToolCall) (ctx : ToolCallContext) : Prop :=
  starts_with PREFIX_SESSION (tcc_sessionId ctx) = true /\
  starts_with PREFIX_AGENT (x_agentId x) = true /\
  starts_with PREFIX_RUN (tcc_runId ctx) = true /\
  starts_with PREFIX_TOOL_CALL (call_callId call) = true /\
  opt_obj_ok "metadata" (obj_literal [("metadata"%string, tcc_metadata ctx)]) = true /\
  wf (request_json (envelope_of x call ctx)) = true.

Lemma envelope_read_back x call ctx :
  well_formed_call x call ctx ->
  (parse (stringify (request_json (envelope_of x call ctx))) ≫= RunnerRequestSchema)
  = Some (envelope_of x call ctx).
Proof.
  intros (Hs & Ha & Hr & Hc & Hm & Hw). rewrite parse_stringify by done. cbn [mbind option_bind].
  apply request_schema_json; try done. intros E. cbn in E. rewrite E in Hc. discriminate Hc.
Qed.

(** C6: end to end, a remote call is executed at most once, and on its own
    arguments.  Take any run of the runner whose requests under the call's key
    are deliveries - any number, repeated, reordered, or interleaved with other
    calls - of what the remote executor sent with its retries.  If the key is
    not asked for beyond the TTL and no more keys are in use than the cache
    holds, at most one execution has this key, its input is the tool's parse of
    the call's arguments, and its context is the call's. *)
Theorem remote_call_runs_at_most_once isIP parse_url dns utf8 x call ctx stop attempts es s t0 :
  well_formed_call x call ctx ->
  steps initial es s ->
  (forall q t, In (q, t) (requests_of es) -> asks_for (call_callId call) q ->
     (t0 <= t < t0 + ttlMs)%Z /\
     exists r, In r (Executors.execute isIP parse_url dns utf8 x call ctx stop attempts).2 /\
               delivered (call_toolName call) r q) ->
  (size (keys_of es ∖ {[call_callId call]}) < maxEntries)%nat ->
  (forall i j y z, executions s !! i = Some y -> executions s !! j = Some z ->
     j_key (x_job y) = call_callId call -> j_key (x_job z) = call_callId call -> i = j) /\
  forall i y, executions s !! i = Some y -> j_key (x_job y) = call_callId call ->
    j_tool (x_job y) = call_toolName call /\ j_context (x_job y) = rr_context (envelope_of x call ctx) /\
    exists toolDef, registry !! call_toolName call = Some toolDef /\
      inputSafeParse toolDef (call_arguments call) = inl (j_input (x_job y)).
Proof.
  intros Hwf Hs Hq Hm. split.
  - assert (Hone : at_most_one (call_callId call) t0 (keys_of es ∖ {[call_callId call]}) s).
    { eapply steps_at_most_one; [done|by left| |done|].
      - intros k Hk. destruct (decide (k = call_callId call)); set_solver.
      - intros q t job Hin Ha Hk. apply (Hq q t Hin). by exists job. }
    intros i j y z Hy Hz Hky Hkz. destruct Hone as [[_ Hn]|(n & w & _ & _ & _ & _ & Hu)].
    + by destruct (Hn _ _ Hy).
    + by rewrite (Hu _ _ Hy Hky), (Hu _ _ Hz Hkz).
  - intros i y Hy. revert i y Hy. refine (executions_admitted _ _ _ (fun job =>
      j_key job = call_callId call -> j_tool job = call_toolName call /\
      j_context job = rr_context (envelope_of x call ctx) /\
      exists toolDef, registry !! call_toolName call = Some toolDef /\
        inputSafeParse toolDef (call_arguments call) = inl (j_input job)) Hs _ _); [done|].
    intros q t job Hin Ha Hk. destruct (Hq q t Hin) as (_ & r & Hr & Ht & Hb & _); [by exists job|].
    apply admit_inr in Ha as (req & jwt & payload & toolDef & _ & _ & Hbody & _ & Hreg & Hi & ->).
    apply sent_bodies in Hr. rewrite Hb, Hr, envelope_read_back in Hbody by done.
    injection Hbody as <-. simpl in *. rewrite Ht in *. split_and!; [done..|]. by exists toolDef.
Qed.
End runner.

(** ** A full cache *)

Lemma evict_drop max l : evictIfNeeded max l = drop (length l - max) l.
Proof.
  induction l as [|x l IH]; [done|]. cbn [evictIfNeeded].
  destruct (Nat.ltb_spec max (length (x :: l))); simpl in *.
  - rewrite IH. by replace (S (length l) - max) with (S (length l - max)) by lia.
  - by replace (S (length l) - max) with 0 by lia.
Qed.

Definition runs (ttlMs : Z) (max : nat) (t : Z) (jobs : list Job) (s : Runner) : Runner :=
  fold_left (fun s job => (run ttlMs max job t s).1) jobs s.

Definition started_at (t : Z) (job : Job) : Execution :=
  {| x_job := job; x_started := t; x_settled := None |}.

(** New keys start executions, and the last [max] keys stay. *)
Lemma runs_new ttl max t jobs :
  NoDup (map j_key jobs) ->
  executions (runs ttl max t jobs initial) = map (started_at t) jobs /\
  map fst (entries (runs ttl max t jobs initial)) = drop (length jobs - max) (map j_key jobs).
Proof.
  induction jobs as [|job jobs IH] using rev_ind; [done|]. rewrite map_app.
  intros [Hn [Hd _]]%NoDup_app. destruct (IH Hn) as [Hx He]. unfold runs in *. rewrite fold_left_app. simpl.
  set (s := fold_left _ jobs initial) in *.
  assert (Hno : entry_of (j_key job) (entries s) = None).
  { apply entry_of_none. rewrite He. intros H. apply (Hd (j_key job)); [|by left].
    apply list_elem_of_In. rewrite <- (take_drop (length jobs - max) (map j_key jobs)).
    apply in_or_app. by right. }
  unfold run. rewrite Hno. simpl. rewrite Hx, map_app. split; [done|].
  rewrite evict_drop, <- skipn_map, map_app, He. simpl. rewrite !length_app. simpl.
  assert (Hl : length (entries s) = length jobs - (length jobs - max)).
  { by rewrite <- (length_map fst), He, length_drop, length_map. }
  rewrite Hl. destruct (Nat.le_gt_cases max (length jobs)).
  - rewrite skipn_app, skipn_skipn, skipn_app, length_drop, !length_map. f_equal; f_equal; lia.
  - replace (length jobs - max) with 0 by lia. rewrite drop_0. f_equal. lia.
Qed.

(** A full cache forgets executions that are still running.  When as many
    other calls as the cache holds have been asked for since, a repeated request
    starts the same job a second time while the first execution is in flight. *)
Theorem evicted_call_runs_twice ttl max t job others :
  length others = max -> NoDup (map j_key (job :: others)) ->
  executions (runs ttl max t (job :: others ++ [job]) initial)
  = started_at t job :: map (started_at t) others ++ [started_at t job].
Proof.
  intros Hl Hn. change (job :: others ++ [job]) with ((job :: others) ++ [job]).
  destruct (runs_new ttl max t _ Hn) as [Hx He]. unfold runs in *. rewrite fold_left_app.
  set (s := fold_left _ (job :: others) initial) in *. cbn [fold_left].
  assert (Hno : entry_of (j_key job) (entries s) = None).
  { apply entry_of_none. rewrite He. simpl length. replace (S (length others) - max) with 1 by lia.
    simpl. rewrite drop_0, <- list_elem_of_In. by apply NoDup_cons in Hn as [? _]. }
  unfold run. rewrite Hno. simpl. by rewrite Hx.
Qed.

(** ** Witnesses *)

Definition demo_payload : json :=
  obj_literal [("workspaceId", Some (JStr "ws_1")); ("agentId", Some (JStr "agt_1"));
    ("runId", Some (JStr "run_1")); ("callId", Some (JStr "tc_1"));
    ("idempotencyKey", Some (JStr "tc_1")); ("toolName", Some (JStr "add"))]%string.
Definition demo_jwtVerify (jwt aud : string) : res error json :=
  if String.eqb jwt "jwt" then Ok demo_payload else Err (PlainError "JWSInvalid" "invalid").
Definition demo_expected : ExpectedRunnerIdentity :=
  {| audience := "https://runner.example"; workspaceId := "ws_1" |}%string.
Definition demo_registry : gmap string RunnerTool :=
  {["add"%string := {| inputSafeParse := fun input => inl input |}]}.
Definition demo_flatten (b : jsval) : json := JNull.

(** The call of the executor's example, as it arrives. *)
Definition demo_request : Request :=
  {| rq_toolName := "add"; rq_authorization := Some "Bearer jwt";
     rq_body := Some (request_json (envelope_of demo_remote demo_call demo_tool_ctx)) |}%string.

Abbreviation demo_route := (route 300000 2 demo_registry demo_expected demo_jwtVerify demo_flatten).
Definition demo_behaviour : behaviour := {| b_delay := Some 40; b_end := resolves (Some (JNum 4)) |}.
Definition demo_first : Runner := (demo_route demo_request 0 initial).1.
Definition demo_second : Runner := (demo_route demo_request 20 demo_first).1.
Definition demo_execution : Execution :=
  {| x_job := {| j_key := "tc_1"; j_tool := "add"; j_input := Some (JNum 2);
                 j_context := rr_context (envelope_of demo_remote demo_call demo_tool_ctx) |};
     x_started := 0; x_settled := None |}%string.
Definition demo_settled : Runner :=
  on_outcome 0 (x_started demo_execution + Z.of_nat 40) (outcome_ok (Some (JNum 4))) demo_second.
Definition demo_trace : list Event :=
  [ev_request demo_request 0; ev_request demo_request 20; ev_settle 0 demo_behaviour].

(** The retry joins the first execution. *)
Example demo_joins : executions demo_second = [demo_execution].
Proof. vm_compute. reflexivity. Qed.

Lemma demo_settles :
  step 300000 2 100 demo_registry demo_expected demo_jwtVerify demo_flatten demo_second
    (ev_settle 0 demo_behaviour) demo_settled.
Proof. apply step_settle; vm_compute; reflexivity. Qed.

Definition demo_end : Execution :=
  {| x_job := x_job demo_execution; x_started := 0; x_settled := Some (40%Z, outcome_ok (Some (JNum 4))) |}.

Lemma demo_ends : executions demo_settled !! 0 = Some demo_end.
Proof. vm_compute. reflexivity. Qed.

Lemma demo_run :
  steps 300000 2 100 demo_registry demo_expected demo_jwtVerify demo_flatten initial demo_trace demo_settled.
Proof.
  eapply steps_cons; [apply step_request|]. eapply steps_cons; [apply step_request|].
  eapply steps_cons; [apply demo_settles|apply steps_nil].
Qed.

Lemma replay_joins_execution_witness : (demo_route demo_request 50 demo_settled).2 = inr 0.
Proof.
  eapply (replay_joins_execution 300000 2 100 demo_registry demo_expected demo_jwtVerify demo_flatten
    demo_first demo_request 20 demo_second 0 [ev_settle 0 demo_behaviour] demo_settled demo_request 50).
  - vm_compute. reflexivity.
  - eapply steps_cons; [apply demo_settles|apply steps_nil].
  - vm_compute. reflexivity.
  - vm_compute. reflexivity.
  - vm_compute. reflexivity.
  - vm_compute. intros H. discriminate H.
  - vm_compute. repeat constructor.
  - intros x ts o Hx. rewrite demo_ends in Hx. injection Hx as <-.
    cbn [x_settled demo_end]. intros [= <- _]. reflexivity.
Defined.

Lemma executions_are_authorized_witness :
  exists q t r, In (q, t) (requests_of demo_trace) /\
    authorizes demo_registry demo_expected demo_jwtVerify q r (x_job demo_execution).
Proof.
  eapply (executions_are_authorized 300000 2 100 demo_registry demo_expected demo_jwtVerify demo_flatten
    demo_trace demo_settled 0 demo_end).
  - apply demo_run.
  - apply demo_ends.
Defined.

Lemma remote_call_runs_at_most_once_witness :
  j_tool (x_job demo_end) = call_toolName demo_call /\
  j_context (x_job demo_end) = rr_context (envelope_of demo_remote demo_call demo_tool_ctx) /\
  exists toolDef, demo_registry !! call_toolName demo_call = Some toolDef /\
    inputSafeParse toolDef (call_arguments demo_call) = inl (j_input (x_job demo_end)).
Proof.
  refine (proj2 (remote_call_runs_at_most_once 300000 2 100 demo_registry demo_expected demo_jwtVerify
    demo_flatten demo_isIP demo_parse demo_dns (fun b => b) demo_remote demo_call demo_tool_ctx false
    demo_attempts demo_trace demo_settled 0 _ demo_run _ _) 0 demo_end demo_ends _).
  - repeat split; vm_compute; reflexivity.
  - intros q t Hin _. split.
    + vm_compute in Hin. destruct Hin as [[= <- <-]|[[= <- <-]|[]]]; lia.
    + eexists. split; [rewrite remote_retries; left; reflexivity|].
      vm_compute in Hin. destruct Hin as [[= <- <-]|[[= <- <-]|[]]]; repeat split; vm_compute; reflexivity.
  - vm_compute. repeat constructor.
  - vm_compute. reflexivity.
Defined.

Definition demo_job (k : string) : Job :=
  {| j_key := k; j_tool := "add"; j_input := None;
     j_context := rr_context (envelope_of demo_remote demo_call demo_tool_ctx) |}%string.

Lemma evicted_call_runs_twice_witness :
  executions (runs 300000 1 0 [demo_job "tc_1"; demo_job "tc_2"; demo_job "tc_1"] initial)
  = map (started_at 0) [demo_job "tc_1"; demo_job "tc_2"; demo_job "tc_1"].
Proof.
  apply (evicted_call_runs_twice 300000 1 0 (demo_job "tc_1") [demo_job "tc_2"]); [reflexivity|].
  apply (bool_decide_unpack (NoDup _)). vm_compute. exact I.
Defined.
