(* ===== verification/Server.v ===== *)
(** The hosted server (apps/server/src/config.ts, container.ts, health.ts,
    main.ts, packages/shared/src/config.ts) and the credentials that it mints
    for remote tools (packages/runtime/src/runner-credentials.ts).

    The environment is a function from names to texts.  What a URL parses to,
    which texts [z.string().url()] accepts, the numbers that are not plain
    digits, the JWT library and the factories of the providers are arguments. *)
From S2P Require Import Prelude Json Shared Tools Effects Dto Models Ssrf.

Abbreviation ProcessEnv := (string -> option string).

(** [!!env[key]]. *)
Definition is_set (v : option string) : bool :=
  match v with Some s => negb (String.eqb s "") | None => false end.

Section config.
Context (parse_url : string -> option URL) (is_url : string -> bool) (other_number : string -> option Z).

(** ** The shared configuration (shared/src/config.ts) *)

Record AppConfig := {
  DATABASE_URL : string; REDIS_URL : string; CLIENT_JWT_SECRET : string;
  OPENAI_API_KEY : option string; ANTHROPIC_API_KEY : option string; GOOGLE_API_KEY : option string;
  PUBLIC_WEBSOCKET_URL : option string; TOOL_RUNNER_PUBLIC_URL : option string;
  RUNNER_TOKEN_PRIVATE_KEY : option string; RUNNER_TOKEN_PUBLIC_KEY : option string;
  RUNNER_AUDIENCE : option string; RUNNER_WORKSPACE_ID : option string;
  RUNNER_REQUIRE_HTTPS : option bool; API_PORT : Z; GATEWAY_PORT : Z;
  COGNITO_USER_POOL_ID : option string; COGNITO_ISSUER_URL : option string; COGNITO_CLIENT_ID : option string }.

Definition required_env (v : option string) : option string := s ← v; guard_opt (negb (String.eqb s "")) (Some s).

Definition url_env (v : option string) : option (option string) :=
  match v with None => Some None | Some s => guard_opt (is_url s) (Some (Some s)) end.

Definition flag_env (v : option string) : option (option bool) :=
  match v with
  | None => Some None
  | Some s => if String.eqb s "true" then Some (Some true)
              else if String.eqb s "false" then Some (Some false) else None
  end.

(** [z.coerce.number().int().positive().default(d)]. *)
Definition port_env (d : Z) (v : option string) : option Z :=
  match v with
  | None => Some d
  | Some s => n ← Number other_number s; guard_opt (0 <? n)%Z (Some n)
  end.

Definition loadConfig (env : ProcessEnv) : option AppConfig :=
  db ← required_env (env "DATABASE_URL"); redis ← required_env (env "REDIS_URL");
  jwt ← required_env (env "CLIENT_JWT_SECRET");
  ws ← url_env (env "PUBLIC_WEBSOCKET_URL"); runner ← url_env (env "TOOL_RUNNER_PUBLIC_URL");
  https ← flag_env (env "RUNNER_REQUIRE_HTTPS");
  api ← port_env 3000 (env "API_PORT"); gateway ← port_env 3001 (env "GATEWAY_PORT");
  issuer ← url_env (env "COGNITO_ISSUER_URL");
  Some {| DATABASE_URL := db; REDIS_URL := redis; CLIENT_JWT_SECRET := jwt;
          OPENAI_API_KEY := env "OPENAI_API_KEY"; ANTHROPIC_API_KEY := env "ANTHROPIC_API_KEY";
          GOOGLE_API_KEY := env "GOOGLE_API_KEY"; PUBLIC_WEBSOCKET_URL := ws; TOOL_RUNNER_PUBLIC_URL := runner;
          RUNNER_TOKEN_PRIVATE_KEY := env "RUNNER_TOKEN_PRIVATE_KEY";
          RUNNER_TOKEN_PUBLIC_KEY := env "RUNNER_TOKEN_PUBLIC_KEY";
          RUNNER_AUDIENCE := env "RUNNER_AUDIENCE"; RUNNER_WORKSPACE_ID := env "RUNNER_WORKSPACE_ID";
          RUNNER_REQUIRE_HTTPS := https; API_PORT := api; GATEWAY_PORT := gateway;
          COGNITO_USER_POOL_ID := env "COGNITO_USER_POOL_ID"; COGNITO_ISSUER_URL := issuer;
          COGNITO_CLIENT_ID := env "COGNITO_CLIENT_ID" |}.

(** ** The server's configuration (config.ts) *)

Definition LOCAL_HOSTS : list string := ["localhost"; "127.0.0.1"; "::1"; "0.0.0.0"].
Definition CLOUD_ENVS : list string := ["dev"; "staging"; "prod"].

Definition cloud (deployEnv : option string) : option string :=
  match deployEnv with
  | Some d => if bool_decide (d ∈ CLOUD_ENVS) then Some d else None
  | None => None
  end.

Definition is_true (v : option string) : bool := bool_decide (v = Some "true").

Definition validatePublicWebsocketUrl (env : ProcessEnv) : option string :=
  match cloud (env "DEPLOY_ENV") with
  | None => None
  | Some deployEnv =>
      let raw := env "PUBLIC_WEBSOCKET_URL" ?? "" in
      if String.eqb raw "" then
        Some ("PUBLIC_WEBSOCKET_URL is required in a cloud environment (DEPLOY_ENV=" +:+ deployEnv +:+ ")")
      else match parse_url raw with
      | None => Some ("PUBLIC_WEBSOCKET_URL is not a valid URL (got '" +:+ raw +:+ "')")
      | Some url =>
          let allowInsecure := is_true (env "PUBLIC_WS_ALLOW_INSECURE") in
          if negb (String.eqb (url_protocol url) "wss:" || (allowInsecure && String.eqb (url_protocol url) "ws:"))
          then Some ("PUBLIC_WEBSOCKET_URL must use the " +:+ (if allowInsecure then "wss:// or ws://" else "wss://")
                 +:+ " scheme in a cloud environment (got '" +:+ raw +:+ "')")
          else if bool_decide (url_hostname url ∈ LOCAL_HOSTS)
          then Some ("PUBLIC_WEBSOCKET_URL must not point at localhost in a cloud environment (got '" +:+ raw +:+ "')")
          else None
      end
  end.

Record ServerConfig := {
  app : AppConfig;
  redis_url : option string;     (* REDIS_URL, cleared when it was not given *)
  AUTO_MIGRATE : bool; LOCAL_FIXTURE_PROVIDER : bool }.

Definition modelKeys : list string := ["OPENAI_API_KEY"; "ANTHROPIC_API_KEY"; "GOOGLE_API_KEY"].

Definition fixture_error (env : ProcessEnv) : option string :=
  if is_true (env "LOCAL_FIXTURE_PROVIDER") then
    (fun d => "LOCAL_FIXTURE_PROVIDER must not be set in a cloud environment (DEPLOY_ENV=" +:+ d +:+
              ") — it is a local-compose-only flag") <$> cloud (env "DEPLOY_ENV")
  else None.

(** What is missing or refused, in the order in which it is collected. *)
Definition missing (env : ProcessEnv) : list string :=
  List.filter (fun k => negb (is_set (env k))) ["DATABASE_URL"; "CLIENT_JWT_SECRET"] ++
  option_list (fixture_error env) ++
  (if existsb (fun k => is_set (env k)) modelKeys || is_true (env "LOCAL_FIXTURE_PROVIDER") then []
   else ["At least one of: " +:+ join ", " modelKeys]) ++
  option_list (validatePublicWebsocketUrl env).

Definition REDIS_PLACEHOLDER : string := "redis://localhost:6379".

Definition envWithDefaults (env : ProcessEnv) : ProcessEnv := fun k =>
  if String.eqb k "REDIS_URL" && negb (is_set (env "REDIS_URL")) then Some REDIS_PLACEHOLDER else env k.

Definition missing_error (ms : list string) : error :=
  PlainError "Error" ("Missing required environment variables:" +:+ String "010" "" +:+
    join (String "010" "") (map (fun m => "  - " +:+ m) ms)).

Definition loadServerConfig (env : ProcessEnv) : res error ServerConfig :=
  match missing env with
  | _ :: _ => Err (missing_error (missing env))
  | [] =>
      match loadConfig (envWithDefaults env) with
      | None => Err (PlainError "ZodError" "")
      | Some config =>
          Ok {| app := config;
                redis_url := if is_set (env "REDIS_URL") then Some (REDIS_URL config) else None;
                AUTO_MIGRATE := is_true (env "AUTO_MIGRATE");
                LOCAL_FIXTURE_PROVIDER := is_true (env "LOCAL_FIXTURE_PROVIDER") |}
      end
  end.

Definition redact (val : option string) : string := if is_set val then "***" else "(not set)".
Definition bool_string (b : bool) : string := if b then "true" else "false".

Definition redactConfig (c : ServerConfig) : list (string * string) :=
  [("DATABASE_URL", if String.eqb (DATABASE_URL (app c)) "" then "(not set)" else "***");
   ("REDIS_URL", if is_set (redis_url c) then "***" else "(disabled)");
   ("CLIENT_JWT_SECRET", redact (Some (CLIENT_JWT_SECRET (app c))));
   ("OPENAI_API_KEY", redact (OPENAI_API_KEY (app c)));
   ("ANTHROPIC_API_KEY", redact (ANTHROPIC_API_KEY (app c)));
   ("GOOGLE_API_KEY", redact (GOOGLE_API_KEY (app c)));
   ("PUBLIC_WEBSOCKET_URL", PUBLIC_WEBSOCKET_URL (app c) ?? "(not set)");
   ("API_PORT", string_of_Z (API_PORT (app c)));
   ("GATEWAY_PORT", "(local-only)");
   ("AUTO_MIGRATE", bool_string (AUTO_MIGRATE c));
   ("LOCAL_FIXTURE_PROVIDER", bool_string (LOCAL_FIXTURE_PROVIDER c))].
End config.

(** ** The container (container.ts) *)

Section container.
Context {P : Type}.
Context (createOpenAIProvider createAnthropicProvider createGoogleProvider
         createEchoProvider createToolFixtureProvider : ProviderConfig -> P).

(** [if (config[key]) { register; push }]. *)
Definition register_keyed (id : string) (factory : ProviderConfig -> P) (key : option string)
    (s : ProviderRegistry P * list string) : ProviderRegistry P * list string :=
  match key with
  | Some k => if String.eqb k "" then s
              else (register id factory (Some (key_config k)) s.1, s.2 ++ [id])
  | None => s
  end.

(** The registry, and the providers that the banner lists. *)
Definition model_providers (c : ServerConfig) : ProviderRegistry P * list string :=
  let s := register_keyed "openai" createOpenAIProvider (OPENAI_API_KEY (app c)) (empty_registry, []) in
  let s := register_keyed "anthropic" createAnthropicProvider (ANTHROPIC_API_KEY (app c)) s in
  let s := register_keyed "google" createGoogleProvider (GOOGLE_API_KEY (app c)) s in
  let r := register "echo" createEchoProvider (Some (key_config "echo-provider-no-key")) s.1 in
  (if LOCAL_FIXTURE_PROVIDER c
   then register "fixture" createToolFixtureProvider (Some (key_config "fixture-provider-no-key")) r
   else r, s.2).
End container.

Definition runnerPolicy (c : ServerConfig) : OutboundUrlPolicy :=
  let https := negb (bool_decide (RUNNER_REQUIRE_HTTPS (app c) = Some false)) in
  {| requireHttps := https; allowLoopback := negb https |}.

(** ** Runner credentials (runner-credentials.ts) *)

Section credentials.
(** A private key, its two importers, and [SignJWT]: the claims, the audience,
    the lifetime in seconds and the instant in milliseconds. *)
Context {Key : Type} (importJWK : json -> res error Key) (importPKCS8 : string -> res error Key).
Context (SignJWT : Key -> json -> string -> Z -> Z -> res error string).

Definition DEFAULT_RUNNER_TOKEN_TTL_SECONDS : Z := 60.
Definition MAX_RUNNER_TOKEN_TTL_SECONDS : Z := 120.

Record TokenScope := {
  ts_aud : string; ts_workspaceId : string; ts_agentId : string; ts_runId : string;
  ts_callId : string; ts_idempotencyKey : string; ts_toolName : string }.

Definition scope_claims (s : TokenScope) : json :=
  JObj [("workspaceId", JStr (ts_workspaceId s)); ("agentId", JStr (ts_agentId s));
        ("runId", JStr (ts_runId s)); ("callId", JStr (ts_callId s));
        ("idempotencyKey", JStr (ts_idempotencyKey s)); ("toolName", JStr (ts_toolName s))].

(** The lifetime of a token; [ttlSeconds] is the floor of what is asked for. *)
Definition token_ttl (ttlSeconds : Z) : Z := Z.min (Z.max 1 ttlSeconds) MAX_RUNNER_TOKEN_TTL_SECONDS.

Definition mintRunnerToken (privateKey : Key) (claims : TokenScope) (ttlSeconds now : Z) : res error string :=
  SignJWT privateKey (scope_claims claims) (ts_aud claims) (token_ttl ttlSeconds) now.

Definition importRunnerPrivateKey (material : string) : res error Key :=
  let trimmed := trim material in
  if starts_with "{" trimmed then
    match parse trimmed with
    | None => Err (PlainError "SyntaxError" "")
    | Some jwk => importJWK jwk
    end
  else importPKCS8 trimmed.

(** The key is imported once; the import gives the same key, or the same
    error, every time. *)
Definition getSigningKey (c : ServerConfig) : res error Key :=
  match RUNNER_TOKEN_PRIVATE_KEY (app c) with
  | Some material =>
      if String.eqb material "" then
        Err (PlainError "Error" "Remote tool execution requires RUNNER_TOKEN_PRIVATE_KEY to be configured")
      else importRunnerPrivateKey material
  | None => Err (PlainError "Error" "Remote tool execution requires RUNNER_TOKEN_PRIVATE_KEY to be configured")
  end.

Definition call_scope (audience : string) (agent : AgentRecord) (call : ToolCall) (ctx : ToolCallContext) :
    TokenScope :=
  {| ts_aud := audience; ts_workspaceId := ag_workspaceId agent; ts_agentId := ag_agentId agent;
     ts_runId := tcc_runId ctx; ts_callId := call_callId call; ts_idempotencyKey := call_callId call;
     ts_toolName := call_toolName call |}.

(** [mintToken], as the container gives it to the resolver. *)
Definition mintToken (c : ServerConfig) (now : Z) (agent : AgentRecord) (call : ToolCall) (ctx : ToolCallContext) :
    res error string :=
  match ag_toolRunnerUrl agent with
  | Some audience =>
      if String.eqb audience "" then
        Err (PlainError "Error" ("Agent " +:+ ag_agentId agent +:+ " has no tool runner URL to scope a token to"))
      else
        let? signingKey := getSigningKey c in
        mintRunnerToken signingKey (call_scope audience agent call ctx) DEFAULT_RUNNER_TOKEN_TTL_SECONDS now
  | None => Err (PlainError "Error" ("Agent " +:+ ag_agentId agent +:+ " has no tool runner URL to scope a token to"))
  end.
End credentials.

(** ** Health (health.ts) *)

Inductive RedisCheck : Type := redis_ok | redis_error | redis_disabled.

Record HealthCheckResult := { hc_ok : bool; hc_db : bool; hc_redis : RedisCheck; hc_connections : nat }.

(** [ping]: what [redisPing] gives, when there is one; it may throw. *)
Definition health (db_up redisEnabled : bool) (ping : option (res error bool)) (connectionCount : option nat) :
    HealthCheckResult * Z :=
  let redis := if redisEnabled then
                 match ping with
                 | None | Some (Ok true) => redis_ok
                 | Some (Ok false) | Some (Err _) => redis_error
                 end
               else redis_disabled in
  let ok := db_up && match redis with redis_error => false | _ => true end in
  ({| hc_ok := ok; hc_db := db_up; hc_redis := redis; hc_connections := connectionCount ?? 0%nat |},
   if ok then 200 else 503)%Z.

(** ** Startup (main.ts) *)

(** What the server has done when it is up, or when a step has thrown. *)
Inductive Stage : Type :=
| st_migrate | st_api | st_gateway | st_health | st_listen (port : Z) | st_banner.

Section startup.
Context (parse_url : string -> option URL) (is_url : string -> bool) (other_number : string -> option Z).
(** Whether a stage throws. *)
Context (throws : Stage -> option error).

Fixpoint perform (todo done : list Stage) : option error * list Stage :=
  match todo with
  | [] => (None, done)
  | s :: todo => match throws s with
                 | Some e => (Some e, done)
                 | None => perform todo (done ++ [s])
                 end
  end.

Definition startServer (env : ProcessEnv) : option error * list Stage :=
  match loadServerConfig parse_url is_url other_number env with
  | Err e => (Some e, [])
  | Ok config =>
      perform ((if AUTO_MIGRATE config then [st_migrate] else []) ++
               [st_api; st_gateway; st_health; st_listen (API_PORT (app config)); st_banner]) []
  end.
End startup.
