(* ===== verification/Spend.v ===== *)
(** The playground's spend ledger and its rate limiter
    (packages/db/src/repositories/playground-spend-repo.ts,
    packages/db/src/schema/playground-spend.ts,
    apps/playground/backend/src/mediator/rate-limit.ts).

    An operation of the repository is one transaction or one statement, so one
    step of the model: the day row serializes concurrent reservations.  Ids and
    times are arguments. *)
From S2P Require Import Prelude Json Shared.

(** ** The ledger *)

Inductive TerminalStatus : Type :=
| st_completed | st_failed | st_cancelled | st_timed_out | st_abandoned.

#[export] Instance TerminalStatus_eq_dec : EqDecision TerminalStatus.
Proof. solve_decision. Defined.

Record Usage := { us_inputTokens : option Z; us_outputTokens : option Z }.

(** A row of playground_spend_reservations; [rs_settled] carries the terminal
    status and the time of a row whose status is 'settled'. *)
Record Reservation := {
  reservationId : string; rs_day : string; rs_sessionId : string; rs_runId : option string;
  reservedMicroUsd : Z; rs_settled : option (TerminalStatus * Z); rs_observed : Usage;
  createdAt : Z }.

(** The two tables. *)
Record Ledger := { days : gmap string Z; reservations : list Reservation }.

Definition empty_ledger : Ledger := {| days := ∅; reservations := [] |}.

Inductive ReserveResult : Type :=
| accepted (reservation : Reservation) (dayTotalMicroUsd : Z)
| refused (dayTotalMicroUsd : Z).

(** Rows a WHERE clause selects, and an UPDATE ... RETURNING of one row. *)
Definition update_where (where_ : Reservation -> bool) (set : Reservation -> Reservation) (l : Ledger) :
    list Reservation * Ledger :=
  (map set (List.filter where_ (reservations l)),
   {| days := days l; reservations := map (fun r => if where_ r then set r else r) (reservations l) |}).

Definition reserve (day : string) (amountMicroUsd ceilingMicroUsd : Z) (sessionId newId : string)
    (now : Z) (l : Ledger) : res error ReserveResult * Ledger :=
  if (amountMicroUsd <=? 0)%Z
  then (Err (PlainError "Error" ("reserve amount must be a positive integer of micro-USD, got " +:+
          string_of_Z amountMicroUsd)), l)
  else
    let total := days l !! day ?? 0%Z in
    if (total + amountMicroUsd <=? ceilingMicroUsd)%Z then
      (* the insert of the reservation: its id is the primary key *)
      if existsb (fun r => String.eqb (reservationId r) newId) (reservations l)
      then (Err (PlainError "Error" "duplicate key value"), l)
      else
        let row := {| reservationId := newId; rs_day := day; rs_sessionId := sessionId; rs_runId := None;
                      reservedMicroUsd := amountMicroUsd; rs_settled := None;
                      rs_observed := {| us_inputTokens := None; us_outputTokens := None |};
                      createdAt := now |} in
        (Ok (accepted row (total + amountMicroUsd)),
         {| days := <[day := (total + amountMicroUsd)%Z]> (days l); reservations := reservations l ++ [row] |})
    else (Ok (refused total), l).

Definition set_run (runId : string) (r : Reservation) : Reservation :=
  {| reservationId := reservationId r; rs_day := rs_day r; rs_sessionId := rs_sessionId r;
     rs_runId := Some runId; reservedMicroUsd := reservedMicroUsd r; rs_settled := rs_settled r;
     rs_observed := rs_observed r; createdAt := createdAt r |}.

Definition attachRun (id runId : string) (l : Ledger) : option Reservation * Ledger :=
  let '(rows, l) := update_where
    (fun r => String.eqb (reservationId r) id && bool_decide (rs_runId r = None)) (set_run runId) l in
  (head rows, l).

Definition set_settled (terminalStatus : TerminalStatus) (observed : option Usage) (now : Z)
    (r : Reservation) : Reservation :=
  {| reservationId := reservationId r; rs_day := rs_day r; rs_sessionId := rs_sessionId r;
     rs_runId := rs_runId r; reservedMicroUsd := reservedMicroUsd r;
     rs_settled := Some (terminalStatus, now);
     rs_observed := observed ?? rs_observed r; createdAt := createdAt r |}.

Definition is_reserved (r : Reservation) : bool :=
  match rs_settled r with None => true | Some _ => false end.

Definition settle (id : string) (terminalStatus : TerminalStatus) (observed : option Usage) (now : Z)
    (l : Ledger) : option Reservation * Ledger :=
  let observed := observed ?? {| us_inputTokens := None; us_outputTokens := None |} in
  let '(rows, l) := update_where (fun r => String.eqb (reservationId r) id && is_reserved r)
    (set_settled terminalStatus (Some observed) now) l in
  (head rows, l).

Definition sweepAbandoned (olderThanMs now : Z) (l : Ledger) : list Reservation * Ledger :=
  update_where (fun r => is_reserved r && (createdAt r <? now - olderThanMs)%Z)
    (set_settled st_abandoned None now) l.

Definition dayTotal (day : string) (l : Ledger) : Z := days l !! day ?? 0%Z.

(** *** Histories *)

Inductive LedgerOp : Type :=
| op_reserve (day : string) (amount ceiling : Z) (sessionId newId : string) (now : Z)
| op_attachRun (id runId : string)
| op_settle (id : string) (status : TerminalStatus) (observed : option Usage) (now : Z)
| op_sweep (olderThanMs now : Z).

Definition apply_op (l : Ledger) (op : LedgerOp) : Ledger :=
  match op with
  | op_reserve d a c s i t => (reserve d a c s i t l).2
  | op_attachRun i r => (attachRun i r l).2
  | op_settle i st o t => (settle i st o t l).2
  | op_sweep o t => (sweepAbandoned o t l).2
  end.

Definition sumZ (l : list Z) : Z := foldr Z.add 0%Z l.

(** What the reservations of a day are charged. *)
Definition charged (day : string) (l : Ledger) : Z :=
  sumZ (map reservedMicroUsd (List.filter (fun r => String.eqb (rs_day r) day) (reservations l))).

(** *** Facts *)

Lemma sumZ_app a b : sumZ (a ++ b) = (sumZ a + sumZ b)%Z.
Proof. induction a as [|x a IH]; simpl; [done|]. rewrite IH. lia. Qed.

(** An update that keeps ids, days and amounts charges the same. *)
Definition keeps_charge (set : Reservation -> Reservation) : Prop :=
  forall r, reservationId (set r) = reservationId r /\ rs_day (set r) = rs_day r /\
            reservedMicroUsd (set r) = reservedMicroUsd r.

Lemma update_charged day where_ set l :
  keeps_charge set -> charged day (update_where where_ set l).2 = charged day l.
Proof.
  intros Hk. unfold charged, update_where. simpl. induction (reservations l) as [|r rs IH]; [done|].
  simpl. destruct (Hk r) as (_ & Hd & Ha).
  destruct (where_ r); rewrite ?Hd; destruct (String.eqb _ _); simpl; rewrite ?Ha; by rewrite IH.
Qed.

Lemma set_run_keeps runId : keeps_charge (set_run runId).
Proof. by intros r. Qed.

Lemma set_settled_keeps st o t : keeps_charge (set_settled st o t).
Proof. by intros r. Qed.

(** Every operation but a reservation is such an update. *)
Lemma update_ops l op :
  (forall d a c s i t, op <> op_reserve d a c s i t) ->
  exists where_ set, apply_op l op = (update_where where_ set l).2 /\ keeps_charge set /\
    ((exists runId, set = set_run runId) \/
     ((exists st o t, set = set_settled st o t) /\ forall r, where_ r = true -> rs_settled r = None)).
Proof.
  assert (Hres : forall r, is_reserved r = true -> rs_settled r = None).
  { intros r. unfold is_reserved. by destruct (rs_settled r). }
  destruct op as [d a c s i t|i r|i st o t|o t]; intros Hn; simpl.
  - by destruct (Hn d a c s i t).
  - eexists _, _. split; [reflexivity|]. split; [apply set_run_keeps|]. left. by eexists.
  - eexists _, _. split; [reflexivity|]. split; [apply set_settled_keeps|]. right.
    split; [by eauto|]. intros r [_ ?]%andb_true_iff. by apply Hres.
  - eexists _, _. split; [reflexivity|]. split; [apply set_settled_keeps|]. right.
    split; [by eauto|]. intros r [? _]%andb_true_iff. by apply Hres.
Qed.

(** The day row is the sum of the day's charges, and within the ceiling. *)
Definition balanced (ceiling : Z) (l : Ledger) : Prop :=
  forall day, dayTotal day l = charged day l /\ (dayTotal day l <= Z.max 0 ceiling)%Z.

Lemma reserve_cases d a c s i t l r l' :
  reserve d a c s i t l = (r, l') ->
  (l' = l /\ forall row n, r <> Ok (accepted row n)) \/
  (exists row, r = Ok (accepted row (dayTotal d l + a)) /\ (0 < a)%Z /\ (dayTotal d l + a <= c)%Z /\
     reservationId row = i /\ rs_day row = d /\ reservedMicroUsd row = a /\ rs_settled row = None /\
     (forall r0, In r0 (reservations l) -> reservationId r0 <> i) /\
     l' = {| days := <[d := (dayTotal d l + a)%Z]> (days l); reservations := reservations l ++ [row] |}).
Proof.
  unfold reserve, dayTotal. destruct (Z.leb_spec a 0); [intros [= <- <-]; by left|].
  destruct (Z.leb_spec ((days l !! d ?? 0) + a) c)%Z; [|intros [= <- <-]; by left].
  destruct (existsb _ _) eqn:E; [intros [= <- <-]; by left|]. intros [= <- <-]. right.
  eexists. split_and!; try done.
  intros r0 Hr0 <-. assert (existsb (fun r => String.eqb (reservationId r) (reservationId r0)) (reservations l) = true).
  { apply existsb_exists. exists r0. by rewrite String.eqb_refl. }
  congruence.
Qed.

Lemma balanced_op ceiling l op :
  balanced ceiling l ->
  (forall d a c s i t, op = op_reserve d a c s i t -> (c <= ceiling)%Z) ->
  balanced ceiling (apply_op l op).
Proof.
  intros Hb Hc. destruct op as [d a c s i t|i r|i st o t|o t].
  2-4: (match goal with |- balanced _ (apply_op _ ?op) =>
    destruct (update_ops l op) as (w & set & -> & Hk & _); [done|] end;
    intros day; rewrite update_charged by done; apply Hb).
  cbn [apply_op]. destruct (reserve d a c s i t l) as [r l'] eqn:E. cbn [snd].
  apply reserve_cases in E as [[-> _]|(row & _ & Ha & Hle & _ & Hd & Hm & _ & _ & ->)]; [done|].
  specialize (Hc _ _ _ _ _ _ eq_refl). intros day. destruct (Hb day) as [He Hl].
  unfold dayTotal, charged in *. simpl. rewrite List.filter_app, map_app, sumZ_app. simpl. rewrite Hd.
  rewrite lookup_insert. destruct (String.eqb_spec d day) as [->|Hne].
  - rewrite decide_True by done. simpl. rewrite Hm. lia.
  - rewrite decide_False by done. simpl. lia.
Qed.

(** ** The sliding-window limiter *)

Record Limit := { lim_max : nat; windowMs : Z }.

Abbreviation Hits := (gmap string (list Z)).

Inductive RateLimitVerdict : Type := allowed | limited (retryAfterSeconds : Z).

(** [Math.ceil(n / 1000)]. *)
Definition ceil_seconds (ms : Z) : Z := (- (- ms / 1000))%Z.

Definition in_window (opts : Limit) (nowMs : Z) (l : list Z) : list Z :=
  List.filter (fun t => nowMs - windowMs opts <? t)%Z l.

Definition check (opts : Limit) (key : string) (nowMs : Z) (hits : Hits) : RateLimitVerdict * Hits :=
  let timestamps := in_window opts nowMs (hits !! key ?? []) in
  if (lim_max opts <=? length timestamps)%nat then
    let oldest := head timestamps ?? nowMs in
    (limited (Z.max 1 (ceil_seconds (oldest + windowMs opts - nowMs))), <[key := timestamps]> hits)
  else (allowed, <[key := timestamps ++ [nowMs]]> hits).

Definition forget (key : string) (hits : Hits) : Hits := delete key hits.

(** The times at which a key's checks were allowed, oldest first. *)
Fixpoint admitted_times (opts : Limit) (key : string) (checks : list (string * Z)) (hits : Hits) : list Z :=
  match checks with
  | [] => []
  | (k, t) :: checks =>
      let '(v, hits) := check opts k t hits in
      match v with
      | allowed => if String.eqb k key then t :: admitted_times opts key checks hits
                   else admitted_times opts key checks hits
      | limited _ => admitted_times opts key checks hits
      end
  end.
