(* ===== verification/SpendProps.v ===== *)
(** What the ledger and the limiter promise. *)
From S2P Require Import Prelude Json Shared Spend.
From Stdlib Require Import Sorting.Sorted.

Definition history (ops : list LedgerOp) : Ledger := fold_left apply_op ops empty_ledger.

(** Every reservation of the history asks for this ceiling at most. *)
Definition ceilings_within (ceiling : Z) (ops : list LedgerOp) : Prop :=
  forall d a c s i t, In (op_reserve d a c s i t) ops -> (c <= ceiling)%Z.

Lemma history_balanced ceiling ops : ceilings_within ceiling ops -> balanced ceiling (history ops).
Proof.
  unfold history. induction ops as [|op ops IH] using rev_ind; intros Hc.
  - intros day. unfold dayTotal, charged. simpl. rewrite lookup_empty. simpl. lia.
  - rewrite fold_left_app. apply balanced_op.
    + apply IH. intros d a c s i t H. apply (Hc d a c s i t). apply in_or_app. by left.
    + intros d a c s i t ->. apply (Hc d a c s i t). apply in_or_app. right. by left.
Qed.

(** The ceiling is never exceeded: after any history of reservations,
    attachments, settlements and sweeps, what a day's accepted reservations are
    charged is exactly the counter of the day row, and at most the ceiling. *)
Theorem ceiling_never_exceeded ceiling ops day :
  ceilings_within ceiling ops ->
  charged day (history ops) = dayTotal day (history ops) /\
  (charged day (history ops) <= Z.max 0 ceiling)%Z.
Proof. intros H. destruct (history_balanced ceiling ops H day) as [<- ?]. done. Qed.

(** ** Rows are final *)

(** [r'] is [r] later on. *)
Definition later (r r' : Reservation) : Prop :=
  reservationId r' = reservationId r /\ rs_day r' = rs_day r /\
  reservedMicroUsd r' = reservedMicroUsd r /\ createdAt r' = createdAt r /\
  (forall runId, rs_runId r = Some runId -> rs_runId r' = Some runId) /\
  (forall x, rs_settled r = Some x -> rs_settled r' = Some x /\ rs_observed r' = rs_observed r).

Lemma later_refl r : later r r.
Proof. by split_and!. Qed.

Lemma later_trans a b c : later a b -> later b c -> later a c.
Proof.
  intros (? & ? & ? & ? & Hr & Hs) (? & ? & ? & ? & Hr' & Hs'). split_and!; try congruence.
  - intros runId HrunId. by apply Hr', Hr.
  - intros x Hx. destruct (Hs x Hx) as [Hy <-]. destruct (Hs' x Hy) as [? <-]. done.
Qed.

Lemma op_later l op r :
  In r (reservations l) -> exists r', In r' (reservations (apply_op l op)) /\ later r r'.
Proof.
  intros Hr. destruct op as [d a c s i t|i runId|i st o t|o t]; cbn [apply_op].
  - destruct (reserve d a c s i t l) as [v l'] eqn:E. exists r. split; [|apply later_refl].
    apply reserve_cases in E as [[-> _]|(row & _ & _ & _ & _ & _ & _ & _ & _ & ->)]; [done|].
    simpl. apply in_or_app. by left.
  - unfold attachRun, update_where. simpl. eexists. split; [by apply in_map|].
    destruct (String.eqb _ _ && bool_decide _) eqn:E; [|apply later_refl]. reflect_bools.
    split_and!; try done. intros x Hx. congruence.
  - unfold settle, update_where. simpl. eexists. split; [by apply in_map|].
    destruct (String.eqb _ _ && is_reserved r) eqn:E; [|apply later_refl]. reflect_bools.
    split_and!; try done. intros x Hx. unfold is_reserved in *. by rewrite Hx in *.
  - unfold sweepAbandoned, update_where. simpl. eexists. split; [by apply in_map|].
    destruct (is_reserved r && _) eqn:E; [|apply later_refl]. reflect_bools.
    split_and!; try done. intros x Hx. unfold is_reserved in *. by rewrite Hx in *.
Qed.

Lemma ops_later ops l r :
  In r (reservations l) -> exists r', In r' (reservations (fold_left apply_op ops l)) /\ later r r'.
Proof.
  revert l r. induction ops as [|op ops IH]; intros l r Hr; [exists r; split; [done|apply later_refl]|].
  destruct (op_later l op r Hr) as (r1 & H1 & L1). destruct (IH _ _ H1) as (r2 & H2 & L2).
  exists r2. split; [done|by eapply later_trans].
Qed.

(** Charges stand and settlements are final: a reservation is never removed
    or refunded, a settled one never changes its outcome, its usage or its
    time, and a sweep settles every reservation older than its limit. *)
Theorem charges_are_final ops ops' r olderThan now :
  In r (reservations (history ops)) ->
  exists r', In r' (reservations (history (ops ++ ops'))) /\ later r r' /\
    (ops' = [op_sweep olderThan now] -> (createdAt r < now - olderThan)%Z ->
     exists x, rs_settled r' = Some x /\ (rs_settled r = None -> x = (st_abandoned, now))).
Proof.
  intros Hr. unfold history. rewrite fold_left_app. destruct (ops_later ops' _ r Hr) as (r' & Hr' & Hl).
  assert (Hd : (exists o t, ops' = [op_sweep o t]) \/ (forall o t, ops' <> [op_sweep o t]))
    by (destruct ops' as [|[] [|]]; eauto; right; intros; discriminate).
  destruct Hd as [(o & t & ->)|Hn].
  - exists (if is_reserved r && (createdAt r <? t - o)%Z then set_settled st_abandoned None t r else r).
    split_and!.
    + simpl. by apply (in_map (fun r => if is_reserved r && (createdAt r <? t - o)%Z
        then set_settled st_abandoned None t r else r)).
    + destruct (is_reserved r && _) eqn:E; [|apply later_refl]. reflect_bools.
      split_and!; try done. intros x Hx. unfold is_reserved in *. by rewrite Hx in *.
    + intros [= -> ->] Ht. rewrite (proj2 (Z.ltb_lt _ _) Ht), andb_true_r. unfold is_reserved.
      destruct (rs_settled r) as [x|] eqn:E; [by exists x|]. by eexists.
  - exists r'. split_and!; [done|done|]. intros ->. by destruct (Hn olderThan now).
Qed.

(** ** The limiter *)

(** Between an entry and the one [max] places later lies a whole window. *)
Definition spaced (opts : Limit) (l : list Z) : Prop :=
  forall i a b, l !! i = Some a -> l !! (i + lim_max opts) = Some b -> (windowMs opts <= b - a)%Z.

(** The admitted times so far: those the map keeps come last, the others have
    left the window of [t]. *)
Definition tracked (opts : Limit) (key : string) (t : Z) (past : list Z) (hits : Hits) : Prop :=
  spaced opts past /\ StronglySorted Z.le past /\ Forall (fun a => a <= t)%Z past /\
  exists pre, past = pre ++ (hits !! key ?? []) /\ Forall (fun a => a <= t - windowMs opts)%Z pre.

Lemma sorted_filter c l :
  StronglySorted Z.le l ->
  exists pre, l = pre ++ List.filter (fun t => c <? t)%Z l /\ Forall (fun a => a <= c)%Z pre.
Proof.
  induction 1 as [|x l Hs IH Hx]; [by exists []|]. simpl. destruct (Z.ltb_spec c x).
  - exists []. split; [|constructor]. simpl. f_equal. symmetry. clear -Hx H.
    induction l as [|y l IH]; [done|]. apply Forall_cons in Hx as [Hy Hx]. simpl.
    rewrite (proj2 (Z.ltb_lt c y)) by lia. f_equal. by apply IH.
  - destruct IH as (pre & E & Hp). exists (x :: pre). simpl. split; [by rewrite <- E|]. by constructor.
Qed.

Lemma sorted_snoc (l : list Z) t :
  StronglySorted Z.le l -> Forall (fun a => a <= t)%Z l -> StronglySorted Z.le (l ++ [t]).
Proof.
  induction 1 as [|x l Hs IH Hx]; intros Ht; [by repeat constructor|].
  apply Forall_cons in Ht as [? Ht]. simpl. constructor; [by apply IH|]. apply Forall_app. by split; [|constructor].
Qed.

Lemma sorted_suffix (pre l : list Z) : StronglySorted Z.le (pre ++ l) -> StronglySorted Z.le l.
Proof. induction pre as [|x pre IH]; simpl; [done|]. intros [H _]%StronglySorted_inv. by apply IH. Qed.

Lemma spaced_snoc opts pre l t :
  spaced opts (pre ++ l) -> Forall (fun a => a <= t - windowMs opts)%Z pre ->
  (length l < lim_max opts)%nat -> spaced opts ((pre ++ l) ++ [t]).
Proof.
  intros Hs Hp Hl i a b Ha Hb. destruct (decide (i + lim_max opts < length (pre ++ l))) as [H|H].
  - rewrite lookup_app_l in Ha, Hb by lia. by eapply Hs.
  - assert (E : i + lim_max opts = length (pre ++ l)).
    { apply lookup_lt_Some in Hb. rewrite length_app in Hb. simpl in Hb. lia. }
    rewrite E, list_lookup_middle in Hb by done. injection Hb as <-.
    rewrite length_app in E. rewrite lookup_app_l in Ha by (rewrite length_app; lia).
    rewrite lookup_app_l in Ha by lia. rewrite Forall_lookup in Hp. specialize (Hp _ _ Ha). lia.
Qed.

(** One check keeps the admitted times tracked. *)
Lemma check_tracked opts key k t0 t past hits v hits' :
  tracked opts key t0 past hits -> (t0 <= t)%Z -> check opts k t hits = (v, hits') ->
  tracked opts key t
    (match v with allowed => if String.eqb k key then past ++ [t] else past | limited _ => past end) hits'.
Proof.
  intros (Hsp & Hso & Hle & pre & Hpast & Hpre) Ht Hc. unfold check in Hc.
  assert (Hle' : Forall (fun a => a <= t)%Z past) by (eapply Forall_impl; [done|]; simpl; lia).
  assert (Hpre' : Forall (fun a => a <= t - windowMs opts)%Z pre) by (eapply Forall_impl; [done|]; simpl; lia).
  destruct (String.eqb_spec k key) as [->|Hne].
  - set (h := hits !! key ?? []) in *.
    destruct (sorted_filter (t - windowMs opts) h) as (p & Eh & Hp).
    { subst past. by eapply sorted_suffix. }
    assert (Epast : past = (pre ++ p) ++ in_window opts t h).
    { rewrite Hpast, <- app_assoc. f_equal. exact Eh. }
    assert (Hpp : Forall (fun a => a <= t - windowMs opts)%Z (pre ++ p)) by (by apply Forall_app).
    destruct (Nat.leb_spec (lim_max opts) (length (in_window opts t h))); injection Hc as <- <-;
      split_and!; rewrite ?lookup_insert_eq; try done.
    + by exists (pre ++ p).
    + rewrite Epast. by apply spaced_snoc; [rewrite <- Epast| |].
    + by apply sorted_snoc.
    + apply Forall_app. split; [done|]. by repeat constructor.
    + exists (pre ++ p). split; [|done]. simpl. rewrite Epast at 1. by rewrite <- app_assoc.
  - assert (E : (match v with allowed => past | limited _ => past end) = past) by (by destruct v).
    rewrite E. split_and!; [done..|]. exists pre. split; [|done].
    rewrite Hpast. f_equal. destruct (_ <=? _)%nat; injection Hc as <- <-; by rewrite lookup_insert_ne.
Qed.

Lemma admitted_spaced opts key checks t0 past hits :
  tracked opts key t0 past hits -> StronglySorted Z.le (t0 :: map snd checks) ->
  spaced opts (past ++ admitted_times opts key checks hits).
Proof.
  revert t0 past hits. induction checks as [|[k t] checks IH]; intros t0 past hits Ht Hs; simpl.
  - rewrite app_nil_r. apply Ht.
  - apply StronglySorted_inv in Hs as [Hs H0]. simpl in H0. apply Forall_cons in H0 as [H0 _].
    destruct (check opts k t hits) as [v hits'] eqn:E.
    assert (Hn := check_tracked _ _ _ _ _ _ _ _ _ Ht H0 E). specialize (IH _ _ _ Hn Hs).
    destruct v; [destruct (String.eqb k key)|]; [|done|done]. by rewrite <- app_assoc in IH.
Qed.

(** C25: a sliding window never admits more than its maximum: whatever other
    keys do, any two admissions of a key that are [max] apart are a whole
    window apart, so no window of [windowMs] holds more than [max] of them. *)
Theorem limiter_bounds_every_window opts key checks i a b :
  StronglySorted Z.le (map snd checks) ->
  admitted_times opts key checks ∅ !! i = Some a ->
  admitted_times opts key checks ∅ !! (i + lim_max opts) = Some b ->
  (windowMs opts <= b - a)%Z.
Proof.
  intros Hs Ha Hb. destruct checks as [|[k t] checks]; [done|].
  refine (admitted_spaced opts key ((k, t) :: checks) t [] ∅ _ _ i a b Ha Hb).
  - split_and!; [intros ? ? ?; by rewrite lookup_nil|constructor|constructor|].
    exists []. split; [|constructor]. by rewrite lookup_empty.
  - simpl in *. constructor; [done|]. constructor; [lia|]. by apply StronglySorted_inv in Hs as [_ ?].
Qed.

(** ** Witnesses *)

Definition demo_ops : list LedgerOp :=
  [op_reserve "2026-01-01" 60 100 "ses_1" "psr_1" 0; op_reserve "2026-01-01" 60 100 "ses_2" "psr_2" 1;
   op_attachRun "psr_1" "run_1"; op_settle "psr_1" st_completed None 5]%string.

Example demo_ledger :
  dayTotal "2026-01-01" (history demo_ops) = 60%Z /\
  map rs_settled (reservations (history demo_ops)) = [Some (st_completed, 5%Z)].
Proof. split; vm_compute; reflexivity. Qed.

Lemma ceiling_never_exceeded_witness : (charged "2026-01-01" (history demo_ops) <= 100)%Z.
Proof.
  apply (ceiling_never_exceeded 100 demo_ops).
  intros d a c s i t H. cbn in H. destruct H as [[= <- <- <- <- <- <-]|[[= <- <- <- <- <- <-]|H]]; [lia..|].
  repeat destruct H as [H|H]; discriminate H || destruct H.
Defined.

Definition demo_row : Reservation :=
  {| reservationId := "psr_9"; rs_day := "2026-01-01"; rs_sessionId := "ses_1"; rs_runId := None;
     reservedMicroUsd := 60; rs_settled := None;
     rs_observed := {| us_inputTokens := None; us_outputTokens := None |}; createdAt := 0 |}%string.

Lemma charges_are_final_witness :
  exists r', In r' (reservations (history ([op_reserve "2026-01-01" 60 100 "ses_1" "psr_9" 0]
    ++ [op_sweep 10 30]))) /\ later demo_row r' /\ rs_settled r' = Some (st_abandoned, 30%Z).
Proof.
  destruct (charges_are_final [op_reserve "2026-01-01" 60 100 "ses_1" "psr_9" 0] [op_sweep 10 30]
    demo_row 10 30) as (r' & Hr & Hl & Hs).
  - vm_compute. left. reflexivity.
  - exists r'. split; [exact Hr|]. split; [exact Hl|].
    destruct (Hs eq_refl) as (x & -> & Hx); [vm_compute; reflexivity|]. by rewrite Hx.
Defined.

Definition demo_limit : Limit := {| lim_max := 2; windowMs := 10 |}.
Definition demo_checks : list (string * Z) :=
  [("a", 0); ("a", 1); ("b", 1); ("a", 2); ("a", 10); ("a", 12)]%string%Z.

Example demo_admitted : admitted_times demo_limit "a" demo_checks ∅ = [0; 1; 10; 12]%Z.
Proof. vm_compute. reflexivity. Qed.

Lemma limiter_bounds_every_window_witness : (10 <= 10 - 0)%Z.
Proof.
  apply (limiter_bounds_every_window demo_limit "a" demo_checks 0 0 10); [|vm_compute; reflexivity..].
  cbn. repeat constructor; lia.
Defined.
