(* ===== verification/Mediator.v ===== *)
(** The playground's mediator (apps/playground/backend/src/mediator/mediator.ts,
    protocol.ts, config.ts).

    The process as a machine: its state is the maps of guests and counters, the
    streams with the frames they still have to handle, the ledger, and the
    promises in flight; an event is whatever lets it run until the next await.
    What the runtime, the browser and the database answer is in the events. *)
From S2P Require Import Prelude Json Shared Spend.

(** ** Configuration and frames *)

(** The guardrails; the alert threshold is the floor of the ceiling times the
    configured fraction. *)
Record MediatorConfig := {
  sessionTtlMs : Z; ipLimit : Limit; sessionLimit : Limit; messagesPerSession : nat;
  messageMaxChars : nat; tokensPerSession : nat; reservationMicroUsd : Z;
  dailyCeilingMicroUsd : Z; alertThresholdMicroUsd : Z; abandonedAfterMs : Z }.

Inductive RefusalReason : Type :=
| rate_limit_ip | rate_limit_session | message_cap | token_cap | daily_ceiling
| session_expired | bad_frame.

(** What the browser is sent: the mediator's frames, and relayed events. *)
Inductive DownFrame : Type :=
| session_ready (guestId sessionId : string) (expiresAtMs : Z)
| refusal (reason : RefusalReason) (message : string) (retryAfterSeconds remMessages remTokens : option Z)
| relay (raw : string).

Definition refuse (reason : RefusalReason) (message : string) : DownFrame :=
  refusal reason message None None None.

(** What the runtime is sent. *)
Inductive UpFrame : Type := ping | send_message (content : string).

Definition up_json (f : UpFrame) : json :=
  match f with
  | ping => obj_literal [("type", Some (JStr "ping"))]
  | send_message c => obj_literal [("type", Some (JStr "send_message")); ("content", Some (JStr c))]
  end%string.

(** [MediatorInboundSchema]: the content of the only accepted frame. *)
Definition MediatorInboundSchema (v : json) : option string :=
  guard_opt (only_keys ["type"; "content"] v && bool_decide (str_field "type" v = Some "send"))
    (c ← str_field "content" v; guard_opt (negb (String.eqb c "")) (Some c))%string.

(** ** The day of an instant

    [new Date(ms).toISOString().slice(0, 10)] for the years 0 to 9999. *)
Definition pad2 (n : Z) : string :=
  (if (n <? 10)%Z then "0" +:+ string_of_Z n else string_of_Z n)%string.
Definition pad4 (n : Z) : string :=
  (if (n <? 10)%Z then "000" else if (n <? 100)%Z then "00" else if (n <? 1000)%Z then "0" else "")%string
  +:+ string_of_Z n.

Definition civil (days : Z) : Z * Z * Z :=
  (let z := days + 719468 in
   let era := z / 146097 in
   let doe := z mod 146097 in
   let yoe := (doe - doe / 1460 + doe / 36524 - doe / 146096) / 365 in
   let doy := doe - (365 * yoe + yoe / 4 - yoe / 100) in
   let mp := (5 * doy + 2) / 153 in
   let d := doy - (153 * mp + 2) / 5 + 1 in
   let m := if mp <? 10 then mp + 3 else mp - 9 in
   (yoe + era * 400 + (if m <=? 2 then 1 else 0), m, d))%Z.

Definition utcDay (nowMs : Z) : string :=
  let '(y, m, d) := civil (nowMs / 86400000)%Z in
  (pad4 y +:+ "-" +:+ pad2 m +:+ "-" +:+ pad2 d)%string.

(** ** State *)

(** A guest object; it outlives its entry in the map while a stream holds it. *)
Record Guest := {
  g_sessionId : string; g_websocketUrl : string; g_expiresAtMs : Z; messagesSent : nat;
  estOutputTokens : nat; pendingReservationIds : list string;
  reservationByRun : gmap string string; seenRuns : gset string; tokenCapBreached : bool }.

(** Where the frame being handled is: before the reservation is decided, or
    with its result. *)
Inductive Inbound : Type :=
| idle
| reserving (content day : string)
| reserved (content day : string) (result : ReserveResult).

Record Stream := {
  s_guest : string; down : list DownFrame; down_closed : bool;
  upstreamReady : bool; pinging : option nat; outQueue : list UpFrame; upstream : list UpFrame;
  inboundChain : list string; inbound : Inbound }.

(** The confirmation of a run: which attempt is asked, or what is settled. *)
Inductive Confirming : Type :=
| asking (attempt : nat)
| settling (status : TerminalStatus) (usage : option Usage).
Record Settlement := { st_reservation : string; st_run : string; st_phase : Confirming }.

Record Mediator := {
  ledger : Ledger; ipHits : Hits; sessionHits : Hits; guests : gset string;
  objects : gmap string Guest; streams : list Stream; alertedDays : gset string;
  mints : nat; attaches : list (string * string); settlements : list Settlement;
  cancels : list string; crashed : bool }.

Definition booted : Mediator :=
  {| ledger := empty_ledger; ipHits := ∅; sessionHits := ∅; guests := ∅; objects := ∅; streams := [];
     alertedDays := ∅; mints := 0; attaches := []; settlements := []; cancels := []; crashed := false |}.

(** *** Updates *)

Definition with_ledger (l : Ledger) (m : Mediator) : Mediator :=
  {| ledger := l; ipHits := ipHits m; sessionHits := sessionHits m; guests := guests m;
     objects := objects m; streams := streams m; alertedDays := alertedDays m; mints := mints m;
     attaches := attaches m; settlements := settlements m; cancels := cancels m; crashed := crashed m |}.

Definition with_stream (i : nat) (s : Stream) (m : Mediator) : Mediator :=
  {| ledger := ledger m; ipHits := ipHits m; sessionHits := sessionHits m; guests := guests m;
     objects := objects m; streams := <[i := s]> (streams m); alertedDays := alertedDays m;
     mints := mints m; attaches := attaches m; settlements := settlements m; cancels := cancels m;
     crashed := crashed m |}.

Definition with_guest (gid : string) (g : Guest) (m : Mediator) : Mediator :=
  {| ledger := ledger m; ipHits := ipHits m; sessionHits := sessionHits m; guests := guests m;
     objects := <[gid := g]> (objects m); streams := streams m; alertedDays := alertedDays m;
     mints := mints m; attaches := attaches m; settlements := settlements m; cancels := cancels m;
     crashed := crashed m |}.

Definition with_hits (ip session : Hits) (m : Mediator) : Mediator :=
  {| ledger := ledger m; ipHits := ip; sessionHits := session; guests := guests m;
     objects := objects m; streams := streams m; alertedDays := alertedDays m; mints := mints m;
     attaches := attaches m; settlements := settlements m; cancels := cancels m; crashed := crashed m |}.

Definition with_calls (att : list (string * string)) (set : list Settlement) (can : list string)
    (m : Mediator) : Mediator :=
  {| ledger := ledger m; ipHits := ipHits m; sessionHits := sessionHits m; guests := guests m;
     objects := objects m; streams := streams m; alertedDays := alertedDays m; mints := mints m;
     attaches := att; settlements := set; cancels := can; crashed := crashed m |}.

Definition with_crash (m : Mediator) : Mediator :=
  {| ledger := ledger m; ipHits := ipHits m; sessionHits := sessionHits m; guests := guests m;
     objects := objects m; streams := streams m; alertedDays := alertedDays m; mints := mints m;
     attaches := attaches m; settlements := settlements m; cancels := cancels m; crashed := true |}.

(** A stream that sends the browser a frame, and one that handles its next. *)
Definition say (f : list DownFrame) (closes : bool) (s : Stream) : Stream :=
  {| s_guest := s_guest s; down := down s ++ f; down_closed := down_closed s || closes;
     upstreamReady := upstreamReady s; pinging := pinging s; outQueue := outQueue s;
     upstream := upstream s; inboundChain := inboundChain s; inbound := inbound s |}.

Definition with_inbound (chain : list string) (i : Inbound) (s : Stream) : Stream :=
  {| s_guest := s_guest s; down := down s; down_closed := down_closed s;
     upstreamReady := upstreamReady s; pinging := pinging s; outQueue := outQueue s;
     upstream := upstream s; inboundChain := chain; inbound := i |}.

(** The upstream socket: readiness, pings sent so far, frames. *)
Definition with_upstream (ready : bool) (p : option nat) (queue sent : list UpFrame) (s : Stream) : Stream :=
  {| s_guest := s_guest s; down := down s; down_closed := down_closed s; upstreamReady := ready;
     pinging := p; outQueue := queue; upstream := sent; inboundChain := inboundChain s;
     inbound := inbound s |}.

Section mediator.
Context (config : MediatorConfig).

(** ** Sweep *)

Definition stale (now : Z) (m : Mediator) (gid : string) : bool :=
  match objects m !! gid with
  | Some g => (g_expiresAtMs g <? now - sessionTtlMs config)%Z
  | None => false
  end.

Definition evicted (now : Z) (m : Mediator) : gset string :=
  filter (fun gid => stale now m gid = true) (guests m).

Definition sweep (now : Z) (m : Mediator) : Mediator :=
  let m' := with_ledger (sweepAbandoned (abandonedAfterMs config) now (ledger m)).2 m in
  {| ledger := ledger m'; ipHits := ipHits m';
     sessionHits := set_fold forget (sessionHits m') (evicted now m);
     guests := guests m' ∖ evicted now m; objects := objects m'; streams := streams m';
     alertedDays := alertedDays m'; mints := mints m'; attaches := attaches m';
     settlements := settlements m'; cancels := cancels m'; crashed := crashed m' |}.

(** ** Session mint: the limiter, then the session the runtime creates *)

Definition with_mint (mints : nat) (guests : gset string) (m : Mediator) : Mediator :=
  {| ledger := ledger m; ipHits := ipHits m; sessionHits := sessionHits m; guests := guests;
     objects := objects m; streams := streams m; alertedDays := alertedDays m; mints := mints;
     attaches := attaches m; settlements := settlements m; cancels := cancels m; crashed := crashed m |}.

Definition mintGuest (ip : string) (now : Z) (m : Mediator) : Mediator * option DownFrame :=
  let '(verdict, hits) := check (ipLimit config) ip now (ipHits m) in
  let m := with_hits hits (sessionHits m) m in
  match verdict with
  | limited retryAfterSeconds =>
      (m, Some (refusal rate_limit_ip
         "Too many playground sessions from this address — try again shortly."
         (Some retryAfterSeconds) None None))
  | allowed => (with_mint (S (mints m)) (guests m) m, None)
  end.

Definition new_guest (sessionId websocketUrl : string) (expiresAtMs : Z) : Guest :=
  {| g_sessionId := sessionId; g_websocketUrl := websocketUrl; g_expiresAtMs := expiresAtMs;
     messagesSent := 0; estOutputTokens := 0; pendingReservationIds := []; reservationByRun := ∅;
     seenRuns := ∅; tokenCapBreached := false |}.

(** The session is created, or its creation rejects. *)
Definition guest_minted (gid : string) (session : option (string * string)) (now : Z) (m : Mediator) :
    Mediator :=
  match session with
  | None => with_mint (pred (mints m)) (guests m) m
  | Some (sessionId, websocketUrl) =>
      with_guest gid (new_guest sessionId websocketUrl (now + sessionTtlMs config))
        (with_mint (pred (mints m)) ({[gid]} ∪ guests m) m)
  end.

(** ** The stream *)

Definition new_stream (gid : string) (frames : list DownFrame) (closed : bool) : Stream :=
  {| s_guest := gid; down := frames; down_closed := closed; upstreamReady := false; pinging := None;
     outQueue := []; upstream := []; inboundChain := []; inbound := idle |}.

Definition expired_frame : DownFrame :=
  refuse session_expired "This guest session has expired — reload to start a new one.".

Definition add_stream (s : Stream) (m : Mediator) : Mediator :=
  {| ledger := ledger m; ipHits := ipHits m; sessionHits := sessionHits m; guests := guests m;
     objects := objects m; streams := streams m ++ [s]; alertedDays := alertedDays m;
     mints := mints m; attaches := attaches m; settlements := settlements m; cancels := cancels m;
     crashed := crashed m |}.

(** The guest that a socket opens for, while it is registered and not expired. *)
Definition registered (gid : string) (now : Z) (m : Mediator) : option Guest :=
  match objects m !! gid with
  | Some g => if bool_decide (gid ∈ guests m) && negb (g_expiresAtMs g <? now)%Z then Some g else None
  | None => None
  end.

(** A socket opens; the frame it is refused with, before it is closed. *)
Definition open_stream (gid : string) (now : Z) (m : Mediator) : Mediator * option DownFrame :=
  match registered gid now m with
  | None => (m, Some expired_frame)
  | Some g =>
      (add_stream (new_stream gid [session_ready gid (g_sessionId g) (g_expiresAtMs g)] false) m, None)
  end.

(** *** The upstream socket *)

Definition flush (s : Stream) : Stream :=
  with_upstream true None [] (upstream s ++ outQueue s) s.

Definition forwardUpstream (f : UpFrame) (s : Stream) : Stream :=
  if upstreamReady s then with_upstream true (pinging s) (outQueue s) (upstream s ++ [f]) s
  else with_upstream false (pinging s) (outQueue s ++ [f]) (upstream s) s.

Definition PING_HANDSHAKE_ATTEMPTS : nat := 20.

(** [ping], when it runs for the time after [attempts]. *)
Definition send_ping (attempts : nat) (s : Stream) : Stream :=
  let attempts := S attempts in
  if upstreamReady s then with_upstream true None (outQueue s) (upstream s) s
  else if (PING_HANDSHAKE_ATTEMPTS <? attempts)%nat then flush s
  else with_upstream false (Some attempts) (outQueue s) (upstream s ++ [ping]) s.

Definition upstream_open (s : Stream) : Stream := send_ping 0 s.

Definition ping_tick (s : Stream) : Stream :=
  match pinging s with Some attempts => send_ping attempts s | None => s end.

Definition upstream_close (s : Stream) : Stream := with_upstream false None (outQueue s) (upstream s) s.

(** *** What the browser sends *)

Definition remaining_messages (g : Guest) : Z :=
  Z.max 0 (Z.of_nat (messagesPerSession config) - Z.of_nat (messagesSent g)).

Definition accepted_frame : string :=
  ("{" +:+ quoted "type" +:+ ":" +:+ quoted "send" +:+ "," +:+ quoted "content" +:+ ":…}")%string.

(** The checks before the reservation: the frame that refuses, whether the
    socket is closed after it, and the hits; or the content to pay for. *)
Definition enforce (gid : string) (g : Guest) (raw : string) (now : Z) (hits : Hits) :
    (DownFrame * bool + string) * Hits :=
  match parse raw with
  | None => (inl (refuse bad_frame ("Could not parse that frame — the playground accepts JSON " +:+
                accepted_frame +:+ "."), false), hits)
  | Some parsed =>
  match MediatorInboundSchema parsed with
  | None => (inl (refuse bad_frame ("Unknown or malformed frame — the playground accepts only " +:+
                accepted_frame +:+ "."), false), hits)
  | Some content =>
      if (g_expiresAtMs g <? now)%Z then (inl (expired_frame, true), hits)
      else
        let '(verdict, hits) := check (sessionLimit config) gid now hits in
        match verdict with
        | limited retryAfterSeconds =>
            (inl (refusal rate_limit_session "Sending too fast — wait a moment and try again."
                    (Some retryAfterSeconds) None None, false), hits)
        | allowed =>
            if (messageMaxChars config <? String.length content)%nat
            then (inl (refusal message_cap ("Messages are capped at " +:+
                    string_of_Z (Z.of_nat (messageMaxChars config)) +:+ " characters in the playground.")
                    None (Some (remaining_messages g)) None, false), hits)
            else if (messagesPerSession config <=? messagesSent g)%nat
            then (inl (refusal message_cap ("This session reached its " +:+
                    string_of_Z (Z.of_nat (messagesPerSession config)) +:+
                    "-message cap — reload for a fresh session.") None (Some 0%Z) None, false), hits)
            else if (tokensPerSession config <=? estOutputTokens g)%nat
            then (inl (refusal token_cap ("This session reached its " +:+
                    string_of_Z (Z.of_nat (tokensPerSession config)) +:+
                    "-token cap — reload for a fresh session.") None None (Some 0%Z), false), hits)
            else (inr content, hits)
        end
  end
  end%string.

(** [handleInbound] on the head of the chain, up to the reservation. *)
Definition start_inbound (i : nat) (now : Z) (m : Mediator) : Mediator :=
  match streams m !! i with
  | Some s =>
      match inbound s, inboundChain s, objects m !! s_guest s with
      | idle, raw :: chain, Some g =>
          let '(verdict, hits) := enforce (s_guest s) g raw now (sessionHits m) in
          let m := with_hits (ipHits m) hits m in
          match verdict with
          | inl (frame, closes) => with_stream i (say [frame] closes (with_inbound chain idle s)) m
          | inr content => with_stream i (with_inbound chain (reserving content (utcDay now)) s) m
          end
      | _, _, _ => m
      end
  | None => m
  end.

(** The reservation is decided by the database; [None] when the call rejects,
    which nothing handles unless another frame is chained behind it. *)
Definition decide_reservation (i : nat) (newId : option string) (now : Z) (m : Mediator) : Mediator :=
  match streams m !! i with
  | Some s =>
      match inbound s, objects m !! s_guest s with
      | reserving content day, Some g =>
          let fails := with_stream i (with_inbound (inboundChain s) idle s)
            (match inboundChain s with [] => with_crash m | _ => m end) in
          match newId with
          | None => fails
          | Some newId =>
              match reserve day (reservationMicroUsd config) (dailyCeilingMicroUsd config)
                      (g_sessionId g) newId now (ledger m) with
              | (Ok result, l) =>
                  with_stream i (with_inbound (inboundChain s) (reserved content day result) s)
                    (with_ledger l m)
              | (Err _, l) => fails
              end
          end
      | _, _ => m
      end
  | None => m
  end.

Definition maybeAlert (day : string) (dayTotalMicroUsd : Z) (m : Mediator) : Mediator :=
  if (alertThresholdMicroUsd config <=? dayTotalMicroUsd)%Z
  then {| ledger := ledger m; ipHits := ipHits m; sessionHits := sessionHits m; guests := guests m;
          objects := objects m; streams := streams m; alertedDays := {[day]} ∪ alertedDays m;
          mints := mints m; attaches := attaches m; settlements := settlements m;
          cancels := cancels m; crashed := crashed m |}
  else m.

Definition paid (reservation : string) (g : Guest) : Guest :=
  {| g_sessionId := g_sessionId g; g_websocketUrl := g_websocketUrl g; g_expiresAtMs := g_expiresAtMs g;
     messagesSent := S (messagesSent g); estOutputTokens := estOutputTokens g;
     pendingReservationIds := pendingReservationIds g ++ [reservation];
     reservationByRun := reservationByRun g; seenRuns := seenRuns g;
     tokenCapBreached := tokenCapBreached g |}.

Definition ceiling_frame : DownFrame :=
  refuse daily_ceiling "The playground's daily spend ceiling has been reached — try again tomorrow, or run the stack yourself with `docker compose up`.".

(** The rest of [handleInbound], when the reservation is known. *)
Definition finish_inbound (i : nat) (m : Mediator) : Mediator :=
  match streams m !! i with
  | Some s =>
      match inbound s, objects m !! s_guest s with
      | reserved content day (refused _), _ =>
          with_stream i (say [ceiling_frame] false (with_inbound (inboundChain s) idle s)) m
      | reserved content day (accepted row total), Some g =>
          with_stream i (forwardUpstream (send_message content) (with_inbound (inboundChain s) idle s))
            (with_guest (s_guest s) (paid (reservationId row) g) (maybeAlert day total m))
      | _, _ => m
      end
  | None => m
  end.

(** *** What the runtime sends *)

Definition CHAT_EVENT_TYPES : list string :=
  ["message_started"; "token"; "tool_call_started"; "tool_call_completed"; "message_completed";
   "run_failed"]%string.

Definition with_runs (pending : list string) (byRun : gmap string string) (seen : gset string) (g : Guest) :
    Guest :=
  {| g_sessionId := g_sessionId g; g_websocketUrl := g_websocketUrl g; g_expiresAtMs := g_expiresAtMs g;
     messagesSent := messagesSent g; estOutputTokens := estOutputTokens g;
     pendingReservationIds := pending; reservationByRun := byRun; seenRuns := seen;
     tokenCapBreached := tokenCapBreached g |}.

Definition with_tokens (est : nat) (breached : bool) (g : Guest) : Guest :=
  {| g_sessionId := g_sessionId g; g_websocketUrl := g_websocketUrl g; g_expiresAtMs := g_expiresAtMs g;
     messagesSent := messagesSent g; estOutputTokens := est;
     pendingReservationIds := pendingReservationIds g; reservationByRun := reservationByRun g;
     seenRuns := seenRuns g; tokenCapBreached := breached |}.

(** [Math.ceil(text.length / 4)]. *)
Definition estimate (s : string) : nat := (String.length s + 3) / 4.

Definition cap_frame : DownFrame :=
  refusal token_cap ("This session crossed its " +:+ string_of_Z (Z.of_nat (tokensPerSession config)) +:+
    "-token cap — the current run is being cancelled.") None None (Some 0%Z).

(** A run starts: the oldest pending reservation is its own. *)
Definition observe_started (gid : string) (g : Guest) (runId : string) (m : Mediator) : Mediator :=
  let seen := {[runId]} ∪ seenRuns g in
  match pendingReservationIds g with
  | rid :: pending =>
      with_calls (attaches m ++ [(rid, runId)]) (settlements m) (cancels m)
        (with_guest gid (with_runs pending (<[runId := rid]> (reservationByRun g)) seen g) m)
  | [] => with_guest gid (with_runs [] (reservationByRun g) seen g) m
  end.

Definition observe_token (i : nat) (s : Stream) (gid : string) (g : Guest) (txt : string)
    (runId : option string) (m : Mediator) : Mediator :=
  let est := estOutputTokens g + estimate txt in
  if (tokensPerSession config <? est)%nat && negb (tokenCapBreached g) then
    let m := with_stream i (say [cap_frame] false s) (with_guest gid (with_tokens est true g) m) in
    match runId with
    | Some r => with_calls (attaches m) (settlements m) (cancels m ++ [r]) m
    | None => m
    end
  else with_guest gid (with_tokens est (tokenCapBreached g) g) m.

(** A terminal event: [settleRun] takes the reservation and starts to ask. *)
Definition observe_terminal (gid : string) (g : Guest) (runId : string) (m : Mediator) : Mediator :=
  match reservationByRun g !! runId with
  | Some rid =>
      with_calls (attaches m)
        (settlements m ++ [{| st_reservation := rid; st_run := runId; st_phase := asking 1 |}]) (cancels m)
        (with_guest gid (with_runs (pendingReservationIds g) (delete runId (reservationByRun g)) (seenRuns g) g) m)
  | None => m
  end.

(** [if (runId)]: absent and empty ids are both false. *)
Definition run_id (frame : json) : option string :=
  match str_field "runId" frame with
  | Some r => if String.eqb r "" then None else Some r
  | None => None
  end.

(** [typeof v === 'string' ? v : '']. *)
Definition string_or_empty (v : jsval) : string := match v with Some (JStr s) => s | _ => "" end.

Definition observeChatEvent (i : nat) (s : Stream) (gid : string) (g : Guest) (frame : json) (m : Mediator) :
    Mediator :=
  let ty := string_or_empty (field "type" frame) in
  match run_id frame with
  | Some runId =>
      if String.eqb ty "message_started" && bool_decide (runId ∉ seenRuns g)
      then observe_started gid g runId m
      else if String.eqb ty "token" then observe_token i s gid g (string_or_empty (field "text" frame)) (Some runId) m
      else if String.eqb ty "message_completed" || String.eqb ty "run_failed"
      then observe_terminal gid g runId m
      else m
  | None =>
      if String.eqb ty "token" then observe_token i s gid g (string_or_empty (field "text" frame)) None m else m
  end%string.

Definition upstream_message (i : nat) (raw : string) (m : Mediator) : Mediator :=
  match streams m !! i with
  | Some s =>
      match parse raw with
      | None => m
      | Some JNull => with_crash m
      | Some frame =>
          let ty := str_field "type" frame in
          if bool_decide (ty = Some "pong") then
            (if upstreamReady s then m
             else with_stream i (with_upstream true (pinging s) [] (upstream s ++ outQueue s) s) m)
          else match ty, objects m !! s_guest s with
          | Some t, Some g =>
              if existsb (String.eqb t) CHAT_EVENT_TYPES then
                let s := say [relay raw] false s in
                observeChatEvent i s (s_guest s) g frame (with_stream i s m)
              else m
          | _, _ => m
          end
      end
  | None => m
  end%string.

(** ** Calls in flight *)

Definition SETTLE_CONFIRM_ATTEMPTS : nat := 3.

Definition terminal_of (status : string) : option TerminalStatus :=
  if String.eqb status "completed" then Some st_completed
  else if String.eqb status "failed" then Some st_failed
  else if String.eqb status "cancelled" then Some st_cancelled
  else if String.eqb status "timed_out" then Some st_timed_out else None.

Definition remove_at {A} (k : nat) (l : list A) : list A := take k l ++ drop (S k) l.

(** [getRun] answers settlement [k]; [None] when it rejects. *)
Definition run_answered (k : nat) (answer : option (string * option Usage)) (m : Mediator) : Mediator :=
  match settlements m !! k with
  | Some {| st_reservation := rid; st_run := runId; st_phase := asking attempt |} =>
      let continue l := with_calls (attaches m) l (cancels m) m in
      match answer with
      | None => continue (remove_at k (settlements m))
      | Some (status, usage) =>
          match terminal_of status with
          | Some st => continue (<[k := {| st_reservation := rid; st_run := runId;
                                           st_phase := settling st usage |}]> (settlements m))
          | None =>
              if (attempt <? SETTLE_CONFIRM_ATTEMPTS)%nat
              then continue (<[k := {| st_reservation := rid; st_run := runId;
                                       st_phase := asking (S attempt) |}]> (settlements m))
              else continue (remove_at k (settlements m))
          end
      end
  | _ => m
  end.

(** [ledger.settle] of settlement [k] executes, or rejects and is logged. *)
Definition settle_executes (k : nat) (ok : bool) (now : Z) (m : Mediator) : Mediator :=
  match settlements m !! k with
  | Some {| st_reservation := rid; st_phase := settling st usage |} =>
      let m' := with_calls (attaches m) (remove_at k (settlements m)) (cancels m) m in
      if ok then with_ledger (settle rid st usage now (ledger m)).2 m' else m'
  | _ => m
  end.

(** [ledger.attachRun] executes, or rejects and is logged. *)
Definition attach_executes (k : nat) (ok : bool) (m : Mediator) : Mediator :=
  match attaches m !! k with
  | Some (rid, runId) =>
      let m' := with_calls (remove_at k (attaches m)) (settlements m) (cancels m) m in
      if ok then with_ledger (attachRun rid runId (ledger m)).2 m' else m'
  | None => m
  end.

(** ** The machine *)

Inductive Event : Type :=
| ev_sweep (now : Z)
| ev_mint (ip : string) (now : Z)
| ev_minted (gid : string) (session : option (string * string)) (now : Z)
| ev_open (gid : string) (now : Z)
| ev_browser (i : nat) (raw : string)
| ev_inbound (i : nat) (now : Z)
| ev_reserve (i : nat) (newId : option string) (now : Z)
| ev_continue (i : nat)
| ev_up_open (i : nat) | ev_ping (i : nat) | ev_up_close (i : nat)
| ev_up_message (i : nat) (raw : string)
| ev_answer (k : nat) (answer : option (string * option Usage))
| ev_settle (k : nat) (ok : bool) (now : Z)
| ev_attach (k : nat) (ok : bool).

Definition on_stream (i : nat) (f : Stream -> Stream) (m : Mediator) : Mediator :=
  match streams m !! i with Some s => with_stream i (f s) m | None => m end.

Definition receive (raw : string) (s : Stream) : Stream :=
  with_inbound (inboundChain s ++ [raw]) (inbound s) s.

Definition handle (m : Mediator) (e : Event) : Mediator :=
  match e with
  | ev_sweep now => sweep now m
  | ev_mint ip now => (mintGuest ip now m).1
  | ev_minted gid session now => guest_minted gid session now m
  | ev_open gid now => (open_stream gid now m).1
  | ev_browser i raw => on_stream i (receive raw) m
  | ev_inbound i now => start_inbound i now m
  | ev_reserve i newId now => decide_reservation i newId now m
  | ev_continue i => finish_inbound i m
  | ev_up_open i => on_stream i upstream_open m
  | ev_ping i => on_stream i ping_tick m
  | ev_up_close i => on_stream i upstream_close m
  | ev_up_message i raw => upstream_message i raw m
  | ev_answer k answer => run_answered k answer m
  | ev_settle k ok now => settle_executes k ok now m
  | ev_attach k ok => attach_executes k ok m
  end.

(** Guest ids are fresh: an event that mints one does not reuse an id. *)
Definition fresh_event (m : Mediator) (e : Event) : Prop :=
  match e with ev_minted gid _ _ => objects m !! gid = None | _ => True end.

Inductive reachable : Mediator -> Prop :=
| reach_boot : reachable booted
| reach_step m e : reachable m -> fresh_event m e -> reachable (handle m e).
End mediator.
