(* ===== verification/MediatorProps.v ===== *)
(** What the mediator's guardrails promise over every interleaving: each
    forwarded message is paid for, the ceiling holds, and the message cap holds
    up to the number of streams a guest has open. *)
From S2P Require Import Prelude Json Shared Spend SpendProps Mediator.

(** ** Sums over the streams *)

Definition total (f : Stream -> nat) (l : list Stream) : nat := list_sum (map f l).

Lemma total_app f a b : total f (a ++ b) = total f a + total f b.
Proof. unfold total. by rewrite map_app, list_sum_app. Qed.

Lemma total_one f s : total f [s] = f s.
Proof. unfold total. simpl. lia. Qed.

Lemma total_insert f l i x y :
  l !! i = Some x -> total f (<[i := y]> l) + f x = total f l + f y.
Proof.
  revert i. induction l as [|z l IH]; intros [|i] H; simplify_eq/=; unfold total in *; simpl in *; [lia|].
  specialize (IH _ H). simpl in IH. lia.
Qed.

Definition is_send (f : UpFrame) : bool := match f with send_message _ => true | ping => false end.

(** The messages that were forwarded on a stream, sent or still queued. *)
Definition forwarded (s : Stream) : nat := length (List.filter is_send (upstream s ++ outQueue s)).

(** Is the handler between the reservation and the forwarding? *)
Definition holds (s : Stream) : nat :=
  match inbound s with reserved _ _ (accepted _ _) => 1 | _ => 0 end.

Definition awaits (s : Stream) : nat :=
  match inbound s with reserving _ _ | reserved _ _ (accepted _ _) => 1 | _ => 0 end.

Definition of_guest (gid : string) (f : Stream -> nat) (s : Stream) : nat :=
  if String.eqb (s_guest s) gid then f s else 0.

Lemma forwarded_new gid f c : forwarded (new_stream gid f c) = 0.
Proof. done. Qed.

Lemma holds_new gid f c : holds (new_stream gid f c) = 0.
Proof. done. Qed.

Lemma awaits_new gid f c : awaits (new_stream gid f c) = 0.
Proof. done. Qed.

Lemma forwarded_with_inbound c i s : forwarded (with_inbound c i s) = forwarded s.
Proof. done. Qed.

Lemma forwarded_say f c s : forwarded (say f c s) = forwarded s.
Proof. done. Qed.

Lemma filter_snoc_send l c : length (List.filter is_send (l ++ [send_message c])) = S (length (List.filter is_send l)).
Proof. rewrite List.filter_app, length_app. simpl. lia. Qed.

Lemma forwarded_forward c s : forwarded (forwardUpstream (send_message c) s) = S (forwarded s).
Proof.
  unfold forwarded, forwardUpstream, with_upstream. destruct (upstreamReady s); simpl.
  - rewrite !List.filter_app, !length_app. simpl. lia.
  - by rewrite app_assoc, filter_snoc_send.
Qed.

Lemma inbound_forward f s : inbound (forwardUpstream f s) = inbound s.
Proof. unfold forwardUpstream. by destruct (upstreamReady s). Qed.

Lemma guest_forward f s : s_guest (forwardUpstream f s) = s_guest s.
Proof. unfold forwardUpstream. by destruct (upstreamReady s). Qed.

Lemma holds_forward f c s : holds (forwardUpstream f (with_inbound c idle s)) = 0.
Proof. unfold holds. by rewrite inbound_forward. Qed.

(** What the invariants see of a stream; the upstream socket's own events move
    frames and keep it. *)
Definition seen (s s' : Stream) : Prop :=
  forwarded s' = forwarded s /\ inbound s' = inbound s /\ s_guest s' = s_guest s.

Lemma seen_refl s : seen s s.
Proof. done. Qed.

Lemma seen_trans a b c : seen a b -> seen b c -> seen a c.
Proof. intros (? & ? & ?) (? & ? & ?). split_and!; congruence. Qed.

Lemma flush_seen ready p s : seen s (with_upstream ready p [] (upstream s ++ outQueue s) s).
Proof. split; [|done]. unfold forwarded, with_upstream. cbn [upstream outQueue]. by rewrite app_nil_r. Qed.

Lemma send_ping_seen n s : seen s (send_ping n s).
Proof.
  unfold send_ping. destruct (upstreamReady s); [done|]. destruct (_ <? _)%nat; [apply flush_seen|].
  split; [|done]. unfold forwarded, with_upstream. cbn [upstream outQueue].
  rewrite <- app_assoc, !List.filter_app, !length_app. done.
Qed.

Lemma ping_tick_seen s : seen s (ping_tick s).
Proof. unfold ping_tick. destruct (pinging s); [apply send_ping_seen|done]. Qed.

(** A measure of streams that depends on what is seen. *)
Definition measures (f : Stream -> nat) : Prop := forall s s', seen s s' -> f s' = f s.

Lemma measures_forwarded : measures forwarded.
Proof. by intros s s' (? & _). Qed.

Lemma measures_holds : measures holds.
Proof. intros s s' (_ & E & _). unfold holds. by rewrite E. Qed.

Lemma measures_awaits : measures awaits.
Proof. intros s s' (_ & E & _). unfold awaits. by rewrite E. Qed.

Lemma measures_of_guest gid f : measures f -> measures (of_guest gid f).
Proof. intros Hf s s' H. unfold of_guest. rewrite (Hf s s' H). by destruct H as (_ & _ & ->). Qed.

Lemma seen_total f l l' : measures f -> Forall2 seen l l' -> total f l' = total f l.
Proof.
  intros Hf. induction 1 as [|s s' l l' H _ IH]; [done|]. unfold total in *. simpl. rewrite IH. by rewrite (Hf s s' H).
Qed.

Lemma seen_insert l i s s' : l !! i = Some s -> seen s s' -> Forall2 seen l (<[i := s']> l).
Proof.
  revert i. induction l as [|x l IH]; intros [|i] H Hs; simplify_eq/=; constructor; try done.
  - clear IH. induction l; constructor; done.
  - by apply IH.
Qed.

Lemma seen_list l : Forall2 seen l l.
Proof. induction l; constructor; done. Qed.

(** ** Events that keep the books *)

Definition charges_nothing (op : LedgerOp) : Prop :=
  match op with op_reserve _ _ _ _ _ _ => False | _ => True end.

Lemma charges_nothing_rows ops l :
  Forall charges_nothing ops -> length (reservations (fold_left apply_op ops l)) = length (reservations l).
Proof.
  intros H. revert l. induction H as [|op ops Ho _ IH]; intros l; [done|]. simpl. rewrite IH.
  destruct (update_ops l op) as (w & set & -> & _); [by intros ? ? ? ? ? ? ->|]. apply length_map.
Qed.

(** Nothing the invariants see has changed, and the ledger charged nothing. *)
Record tame (m m' : Mediator) : Prop := {
  tame_streams : Forall2 seen (streams m) (streams m');
  tame_guests : forall gid, messagesSent <$> objects m' !! gid = messagesSent <$> objects m !! gid;
  tame_history : exists ops, Forall charges_nothing ops /\ ledger m' = fold_left apply_op ops (ledger m) }.

Lemma tame_same m m' :
  streams m' = streams m -> objects m' = objects m -> ledger m' = ledger m -> tame m m'.
Proof. intros Es Eo El. split; rewrite ?Es, ?Eo, ?El; [apply seen_list|done|by exists []]. Qed.

Lemma tame_refl m : tame m m.
Proof. by apply tame_same. Qed.

Lemma tame_trans m1 m2 m3 : tame m1 m2 -> tame m2 m3 -> tame m1 m3.
Proof.
  intros [S1 G1 (o1 & F1 & R1)] [S2 G2 (o2 & F2 & R2)].
  split; [|intros gid; by rewrite G2, G1|exists (o1 ++ o2); by rewrite Forall_app, fold_left_app, R2, R1].
  clear -S1 S2. revert S2. generalize (streams m3) as l3. induction S1; intros l3 S2; inversion S2; subst;
    constructor; [by eapply seen_trans|by apply IHS1].
Qed.

Lemma tame_guest m gid g g' :
  objects m !! gid = Some g -> messagesSent g' = messagesSent g -> tame m (with_guest gid g' m).
Proof.
  intros Hg He. split; [apply seen_list| |by exists []]. intros k. simpl. rewrite lookup_insert.
  case_decide; [subst; rewrite Hg; simpl; by f_equal|done].
Qed.

Lemma tame_stream m i s s' : streams m !! i = Some s -> seen s s' -> tame m (with_stream i s' m).
Proof. intros Hi Hs. split; [by eapply seen_insert|done|by exists []]. Qed.

Lemma tame_calls a b c m : tame m (with_calls a b c m).
Proof. by apply tame_same. Qed.

Lemma tame_ledger op m : charges_nothing op -> tame m (with_ledger (apply_op (ledger m) op) m).
Proof. intros H. split; [apply seen_list|done|]. exists [op]. by repeat constructor. Qed.

Lemma tame_on_stream i f m : (forall s, seen s (f s)) -> tame m (on_stream i f m).
Proof.
  intros Hf. unfold on_stream. destruct (streams m !! i) as [s|] eqn:E; [|apply tame_refl].
  by eapply tame_stream.
Qed.

Section mediator.
Context (config : MediatorConfig).

Abbreviation reachable := (reachable config).
Abbreviation handle := (handle config).

Lemma tame_observe i s gid g frame m :
  streams m !! i = Some s -> objects m !! gid = Some g ->
  tame m (observeChatEvent config i s gid g frame m).
Proof.
  intros Hi Hg.
  assert (Htok : forall txt r, tame m (observe_token config i s gid g txt r m)).
  { intros txt r. unfold observe_token.
    assert (Hw : forall est b, tame m (with_guest gid (with_tokens est b g) m)) by (intros; by eapply tame_guest).
    destruct (_ && _); [|apply Hw].
    assert (Hs : tame m (with_stream i (say [cap_frame config] false s)
                    (with_guest gid (with_tokens (estOutputTokens g + estimate txt) true g) m))).
    { eapply tame_trans; [apply Hw|]. eapply tame_stream; [exact Hi|done]. }
    destruct r; [|exact Hs]. eapply tame_trans; [exact Hs|apply tame_calls]. }
  assert (Hwith : forall a b c p r n, tame m (with_calls a b c (with_guest gid (with_runs p r n g) m))).
  { intros. eapply tame_trans; [|apply tame_calls]. by eapply tame_guest. }
  unfold observeChatEvent. destruct (run_id frame) as [r|].
  - destruct (_ && _).
    { unfold observe_started. destruct (pendingReservationIds g); [by eapply tame_guest|apply Hwith]. }
    destruct (String.eqb _ _); [apply Htok|]. destruct (_ || _); [|apply tame_refl].
    unfold observe_terminal. destruct (reservationByRun g !! r); [apply Hwith|apply tame_refl].
  - destruct (String.eqb _ _); [apply Htok|apply tame_refl].
Qed.

Lemma tame_upstream i raw m : tame m (upstream_message config i raw m).
Proof.
  unfold upstream_message. destruct (streams m !! i) as [s|] eqn:Hi; [|apply tame_refl].
  destruct (parse raw) as [frame|]; [|apply tame_refl].
  destruct frame; try by (apply tame_same).
  all: destruct (bool_decide _);
    [destruct (upstreamReady s); [apply tame_refl|eapply tame_stream; [exact Hi|apply flush_seen]]|].
  all: destruct (str_field _ _) as [t|]; [|apply tame_refl].
  all: destruct (objects m !! s_guest s) as [g|] eqn:Hg; [|apply tame_refl].
  all: destruct (existsb _ _); [|apply tame_refl].
  all: eapply tame_trans; [eapply (tame_stream _ i s (say [relay raw] false s)); [exact Hi|done]|].
  all: apply tame_observe; [|done].
  all: simpl; apply list_lookup_insert_eq; by eapply lookup_lt_Some.
Qed.

(** The events that change nothing the invariants see. *)
Definition is_tame (e : Event) : bool :=
  match e with
  | ev_minted _ _ _ | ev_open _ _ | ev_inbound _ _ | ev_reserve _ _ _ | ev_continue _ => false
  | _ => true
  end.

Lemma tame_event m e : is_tame e = true -> tame m (handle m e).
Proof.
  destruct e as [now|ip now| | |i raw| | | |i|i|i|i raw|k answer|k ok now|k ok]; try done; intros _;
    cbn [Mediator.handle].
  - eapply (tame_trans _ _ _ (tame_ledger (op_sweep (abandonedAfterMs config) now) m I)). by apply tame_same.
  - unfold mintGuest. destruct (check _ _ _ _) as [[|] hits]; by apply tame_same.
  - by apply tame_on_stream.
  - apply tame_on_stream, send_ping_seen.
  - apply tame_on_stream, ping_tick_seen.
  - apply tame_on_stream. by intros s.
  - apply tame_upstream.
  - unfold run_answered. destruct (settlements m !! k) as [[rid r [attempt|]]|]; try apply tame_refl.
    destruct answer as [[status usage]|]; [|apply tame_calls].
    destruct (terminal_of status); [apply tame_calls|]. destruct (_ <? _)%nat; apply tame_calls.
  - unfold settle_executes. destruct (settlements m !! k) as [[rid r [|st usage]]|]; try apply tame_refl.
    destruct ok; [|apply tame_calls].
    eapply (tame_trans _ _ _ (tame_calls _ _ _ m)). by apply (tame_ledger (op_settle rid st usage now)).
  - unfold attach_executes. destruct (attaches m !! k) as [[rid r]|]; [|apply tame_refl].
    destruct ok; [|apply tame_calls].
    eapply (tame_trans _ _ _ (tame_calls _ _ _ m)). by apply (tame_ledger (op_attachRun rid r)).
Qed.
(** ** The books *)

(** The ledger's history reserves the configured amount under the configured
    ceiling. *)
Definition priced (op : LedgerOp) : Prop :=
  match op with
  | op_reserve _ a c _ _ _ => a = reservationMicroUsd config /\ c = dailyCeilingMicroUsd config
  | _ => True
  end.

Lemma charges_nothing_priced ops : Forall charges_nothing ops -> Forall priced ops.
Proof. intros H. eapply Forall_impl; [exact H|]. by intros []. Qed.

(** From [m] to [m'] the books stay balanced: as many reservations are added as
    messages are forwarded or about to be. *)
Definition balanced_step (m m' : Mediator) : Prop :=
  total forwarded (streams m') + total holds (streams m') + length (reservations (ledger m))
  = total forwarded (streams m) + total holds (streams m) + length (reservations (ledger m')) /\
  exists ops, Forall priced ops /\ ledger m' = fold_left apply_op ops (ledger m).

Lemma tame_balanced m m' : tame m m' -> balanced_step m m'.
Proof.
  intros [S G (ops & Hops & R)]. split; [|exists ops; split; [by apply charges_nothing_priced|done]].
  rewrite R, charges_nothing_rows by done.
  by rewrite (seen_total _ _ _ measures_holds S), (seen_total _ _ _ measures_forwarded S).
Qed.

Lemma same_balanced m m' : streams m' = streams m -> ledger m' = ledger m -> balanced_step m m'.
Proof. intros Es El. split; rewrite ?Es, El; [lia|by exists []]. Qed.

(** One stream changes, and keeps the sum of what it forwarded and holds. *)
Lemma stream_balanced m m' i s s' :
  streams m !! i = Some s -> streams m' = <[i := s']> (streams m) -> ledger m' = ledger m ->
  forwarded s' + holds s' = forwarded s + holds s -> balanced_step m m'.
Proof.
  intros Hi Es El E. split; [|rewrite El; by exists []]. rewrite El, Es.
  pose proof (total_insert forwarded _ _ _ s' Hi). pose proof (total_insert holds _ _ _ s' Hi). lia.
Qed.

Lemma inbound_balanced i now m : balanced_step m (start_inbound config i now m).
Proof.
  unfold start_inbound. destruct (streams m !! i) as [s|] eqn:Hi; [|by apply same_balanced].
  destruct (inbound s) eqn:Ei, (inboundChain s), (objects m !! s_guest s); try by apply same_balanced.
  destruct (enforce _ _ _ _ _ _) as [[[frame closes]|content] hits];
    (eapply (stream_balanced _ _ i); [exact Hi|reflexivity|done|]); unfold holds; by rewrite Ei.
Qed.

Lemma reserve_balanced i newId now m : balanced_step m (decide_reservation config i newId now m).
Proof.
  unfold decide_reservation. destruct (streams m !! i) as [s|] eqn:Hi; [|by apply same_balanced].
  destruct (inbound s) as [|content day|] eqn:Ei; try by apply same_balanced.
  destruct (objects m !! s_guest s) as [g|]; [|by apply same_balanced].
  assert (Hfail : forall m', streams m' = streams m -> ledger m' = ledger m ->
    balanced_step m (with_stream i (with_inbound (inboundChain s) idle s) m')).
  { intros m' Es El. eapply (stream_balanced _ _ i); [exact Hi|simpl; by rewrite Es|done|].
    unfold holds. by rewrite Ei. }
  destruct newId as [newId|]; [|by destruct (inboundChain s) eqn:Ec; apply Hfail].
  destruct (reserve _ _ _ _ _ _ _) as [r l] eqn:Er.
  destruct r as [result|e]; [|by destruct (inboundChain s) eqn:Ec; apply Hfail].
  split.
  2: { exists [op_reserve day (reservationMicroUsd config) (dailyCeilingMicroUsd config) (g_sessionId g) newId now].
       split; [by repeat constructor|]. simpl. by rewrite Er. }
  simpl. set (s' := with_inbound _ _ s).
  pose proof (total_insert forwarded _ _ _ s' Hi) as Hf. pose proof (total_insert holds _ _ _ s' Hi) as Hh.
  assert (Hs : holds s = 0) by (unfold holds; by rewrite Ei).
  assert (Hs' : forwarded s' = forwarded s) by done.
  apply reserve_cases in Er as [[-> Hn]|(row & [= ->] & _ & _ & _ & _ & _ & _ & _ & ->)].
  - assert (holds s' = 0) by (destruct result as [row n|]; [by destruct (Hn row n)|done]). lia.
  - assert (holds s' = 1) by done. simpl. rewrite length_app. simpl. lia.
Qed.

Lemma maybeAlert_same day t m :
  streams (maybeAlert config day t m) = streams m /\ ledger (maybeAlert config day t m) = ledger m /\
  objects (maybeAlert config day t m) = objects m.
Proof. unfold maybeAlert. by destruct (_ <=? _)%Z. Qed.

Lemma continue_balanced i m : balanced_step m (finish_inbound config i m).
Proof.
  unfold finish_inbound. destruct (streams m !! i) as [s|] eqn:Hi; [|by apply same_balanced].
  destruct (inbound s) as [| |content day [row t|t]] eqn:Ei; try by apply same_balanced.
  - destruct (objects m !! s_guest s) as [g|]; [|by apply same_balanced].
    destruct (maybeAlert_same day t m) as (Es & El & _).
    eapply (stream_balanced _ _ i); [exact Hi|simpl; by rewrite Es|done|].
    rewrite forwarded_forward, forwarded_with_inbound, holds_forward. unfold holds. rewrite Ei. lia.
  - eapply (stream_balanced _ _ i); [exact Hi|reflexivity|done|]. unfold holds. by rewrite Ei.
Qed.

Lemma event_balanced m e : balanced_step m (handle m e).
Proof.
  destruct (is_tame e) eqn:Ht; [by apply tame_balanced, tame_event|].
  destruct e as [| |gid session now|gid now| |i now|i newId now|i| | | | | | |]; try done;
    cbn [Mediator.handle].
  - unfold guest_minted. destruct session as [[]|]; by apply same_balanced.
  - unfold open_stream. destruct (registered gid now m); simpl; [|by apply same_balanced].
    split; [|by exists []]. simpl. rewrite !total_app, !total_one, forwarded_new, holds_new. lia.
  - apply inbound_balanced.
  - apply reserve_balanced.
  - apply continue_balanced.
Qed.

Lemma reachable_balanced m :
  reachable m ->
  total forwarded (streams m) + total holds (streams m) = length (reservations (ledger m)) /\
  exists ops, Forall priced ops /\ ledger m = history ops.
Proof.
  induction 1 as [|m e _ [IH (ops & Hp & Hl)] _]; [split; [done|by exists []]|].
  destruct (event_balanced m e) as [Hb (ops' & Hp' & Hl')]. split; [lia|].
  exists (ops ++ ops'). rewrite Forall_app. split; [done|]. unfold history in *. by rewrite fold_left_app, Hl', Hl.
Qed.

(** Every row of a priced history has the configured amount. *)
Lemma priced_rows ops :
  Forall priced ops ->
  Forall (fun r => reservedMicroUsd r = reservationMicroUsd config) (reservations (history ops)).
Proof.
  unfold history. induction ops as [|op ops IH] using rev_ind; [by constructor|].
  intros [Hp Ho]%Forall_app. rewrite fold_left_app. simpl. specialize (IH Hp).
  apply (proj1 (Forall_singleton priced op)) in Ho. set (l := fold_left _ _ _) in *.
  destruct op as [d a c s i t|i r|i st o t|o t].
  - simpl. destruct (reserve d a c s i t l) as [v l'] eqn:E. cbn in Ho. destruct Ho as [Hae Hce]. subst a c.
    apply reserve_cases in E as [[-> _]|(row & _ & _ & _ & _ & _ & Hm & _ & _ & ->)]; [done|].
    simpl. apply Forall_app. by repeat constructor.
  - apply Forall_map. eapply Forall_impl; [exact IH|]. intros r' H. by destruct (_ && _).
  - apply Forall_map. eapply Forall_impl; [exact IH|]. intros r' H. by destruct (_ && _).
  - apply Forall_map. eapply Forall_impl; [exact IH|]. intros r' H. by destruct (_ && _).
Qed.

Lemma charged_count day l a :
  Forall (fun r => reservedMicroUsd r = a) (reservations l) ->
  charged day l = (Z.of_nat (length (List.filter (fun r => String.eqb (rs_day r) day) (reservations l))) * a)%Z.
Proof.
  unfold charged. induction 1 as [|r rs Hr _ IH]; [done|]. simpl.
  destruct (String.eqb _ _); [simpl length; simpl map; simpl sumZ|done]. rewrite IH, Hr. lia.
Qed.

(** C7: nothing is forwarded unpaid, and the ceiling holds: in every reachable
    state of the mediator - any number of guests, streams and interleaved
    handlers, with the database and the runtime failing at will - the messages
    forwarded to the runtime, together with those about to be, are as many as
    the reservations of the ledger, and the reservations of a day cost at most
    the ceiling. *)
Theorem forwarded_messages_are_paid m day :
  reachable m ->
  total forwarded (streams m) + total holds (streams m) = length (reservations (ledger m)) /\
  (Z.of_nat (length (List.filter (fun r => String.eqb (rs_day r) day) (reservations (ledger m))))
   * reservationMicroUsd config <= Z.max 0 (dailyCeilingMicroUsd config))%Z.
Proof.
  intros H. destruct (reachable_balanced m H) as [Hb (ops & Hp & Hl)]. split; [done|].
  rewrite Hl, <- charged_count by (by apply priced_rows).
  assert (Hc : ceilings_within (dailyCeilingMicroUsd config) ops).
  { intros d a c s i t Hin. apply list_elem_of_In in Hin. rewrite Forall_forall in Hp.
    destruct (Hp _ Hin) as [_ ->]. done. }
  destruct (history_balanced _ ops Hc day) as [<- ?]. done.
Qed.
(** ** The message cap *)

Definition waits (gid : string) (m : Mediator) : nat := total (of_guest gid awaits) (streams m).

(** The streams that were ever opened for a guest. *)
Definition streams_of (gid : string) (m : Mediator) : nat := total (of_guest gid (fun _ => 1)) (streams m).

Definition sent (gid : string) (m : Mediator) : option nat := messagesSent <$> objects m !! gid.

Lemma waits_bound gid m : waits gid m <= streams_of gid m.
Proof.
  unfold waits, streams_of, total. induction (streams m) as [|s l IH]; [done|]. simpl.
  assert (awaits s <= 1) by (unfold awaits; destruct (inbound s) as [| |? ? []]; lia).
  unfold of_guest at 1 3. destruct (String.eqb _ _); lia.
Qed.

(** A guest has at most one message more than its cap per stream beyond the
    first; those being paid for are counted. *)
Definition quotas (m : Mediator) : Prop :=
  (forall s, In s (streams m) -> is_Some (sent (s_guest s) m)) /\
  forall gid n, sent gid m = Some n -> n + waits gid m + 1 <= messagesPerSession config + streams_of gid m.

Lemma tame_quotas m m' : tame m m' -> quotas m -> quotas m'.
Proof.
  intros [S G _] [Ho Hq]. split.
  - intros s' Hs'. apply list_elem_of_In, list_elem_of_lookup in Hs' as [i Hi].
    destruct (Forall2_lookup_r _ _ _ _ _ S Hi) as (s & Hs & _ & _ & Eg). rewrite Eg.
    unfold sent. rewrite G. apply Ho, list_elem_of_In, list_elem_of_lookup. by exists i.
  - intros gid n. unfold sent, waits, streams_of. rewrite G.
    rewrite (seen_total _ _ _ (measures_of_guest gid _ measures_awaits) S).
    rewrite (seen_total (of_guest gid (fun _ => 1)) _ _ ltac:(by apply measures_of_guest) S). apply Hq.
Qed.

(** One stream changes: its guest is below the cap, or what it sent and awaits
    has not grown. *)
Lemma stream_quotas m m' i s s' :
  quotas m -> streams m !! i = Some s -> streams m' = <[i := s']> (streams m) -> s_guest s' = s_guest s ->
  (forall gid, gid <> s_guest s -> sent gid m' = sent gid m) ->
  (exists n n', sent (s_guest s) m = Some n /\ sent (s_guest s) m' = Some n' /\
     (n' < messagesPerSession config \/ n' + awaits s' <= n + awaits s)) ->
  quotas m'.
Proof.
  intros [Ho Hq] Hi Es Eg Hother (n & n' & Hn & Hn' & Hcase). split.
  - intros x Hx. destruct (decide (s_guest x = s_guest s)) as [->|Hne]; [by exists n'|].
    rewrite Hother by done. apply Ho. rewrite Es in Hx. apply list_elem_of_In, list_elem_of_lookup in Hx as [j Hj].
    apply list_lookup_insert_Some in Hj as [(_ & <- & _)|[_ Hj]]; [done|].
    apply list_elem_of_In, list_elem_of_lookup. by exists j.
  - intros gid k Hk. assert (Hb := waits_bound gid m'). unfold waits, streams_of in *. rewrite Es in *.
    pose proof (total_insert (of_guest gid awaits) _ _ _ s' Hi) as H1.
    pose proof (total_insert (of_guest gid (fun _ => 1)) _ _ _ s' Hi) as H2.
    unfold of_guest at 2 4 in H1. unfold of_guest at 2 4 in H2. rewrite Eg in H1, H2.
    destruct (String.eqb_spec (s_guest s) gid) as [<-|Hne].
    + rewrite Hn' in Hk. injection Hk as <-. specialize (Hq _ _ Hn). unfold waits, streams_of in Hq.
      destruct Hcase; lia.
    + rewrite Hother in Hk by congruence. specialize (Hq _ _ Hk). unfold waits, streams_of in Hq. lia.
Qed.

Lemma enforce_sent gid g raw now hits content hits' :
  enforce config gid g raw now hits = (inr content, hits') -> messagesSent g < messagesPerSession config.
Proof.
  unfold enforce. destruct (parse raw) as [v|]; [|done]. destruct (MediatorInboundSchema v); [|done].
  destruct (_ <? _)%Z; [done|]. destruct (check _ _ _ _) as [[|r] h]; [|done].
  destruct (_ <? _)%nat; [done|]. destruct (Nat.leb_spec (messagesPerSession config) (messagesSent g)); [done|]. done.
Qed.

Lemma inbound_quotas i now m : quotas m -> quotas (start_inbound config i now m).
Proof.
  intros Hq. unfold start_inbound. destruct (streams m !! i) as [s|] eqn:Hi; [|done].
  destruct (inbound s) eqn:Ei, (inboundChain s), (objects m !! s_guest s) as [g|] eqn:Hg; try done.
  destruct (enforce _ _ _ _ _ _) as [[[frame closes]|content] hits] eqn:He;
    (eapply (stream_quotas m _ i); [done|exact Hi|reflexivity|done|done|]);
    exists (messagesSent g), (messagesSent g); unfold sent; simpl; rewrite Hg; (split_and!; [done|done|]).
  - right. unfold awaits. by rewrite Ei.
  - left. by apply enforce_sent in He.
Qed.

Lemma reserve_quotas i newId now m : quotas m -> quotas (decide_reservation config i newId now m).
Proof.
  intros Hq. unfold decide_reservation. destruct (streams m !! i) as [s|] eqn:Hi; [|done].
  destruct (inbound s) as [|content day|] eqn:Ei; try done.
  destruct (objects m !! s_guest s) as [g|] eqn:Hg; [|done].
  assert (Hany : forall m' s', streams m' = <[i := s']> (streams m) -> objects m' = objects m ->
    s_guest s' = s_guest s -> quotas m').
  { intros m' s' Es Eo Eg. eapply (stream_quotas m _ i s s'); [done..| |].
    - intros gid _. unfold sent. by rewrite Eo.
    - exists (messagesSent g), (messagesSent g). unfold sent. rewrite Eo, Hg. split_and!; [done|done|].
      right. unfold awaits at 2. rewrite Ei.
      assert (awaits s' <= 1) by (unfold awaits; destruct (inbound s') as [| |? ? []]; lia). lia. }
  destruct newId as [newId|]; [|by destruct (inboundChain s) eqn:Ec; eapply Hany].
  destruct (reserve _ _ _ _ _ _ _) as [[result|e] l];
    [by eapply Hany|by destruct (inboundChain s) eqn:Ec; eapply Hany].
Qed.

Lemma continue_quotas i m : quotas m -> quotas (finish_inbound config i m).
Proof.
  intros Hq. unfold finish_inbound. destruct (streams m !! i) as [s|] eqn:Hi; [|done].
  destruct (inbound s) as [| |content day [row t|t]] eqn:Ei; try done.
  - destruct (objects m !! s_guest s) as [g|] eqn:Hg; [|done].
    destruct (maybeAlert_same day t m) as (Es & _ & Eo).
    eapply (stream_quotas m _ i); [done|exact Hi|simpl; by rewrite Es|by rewrite guest_forward| |].
    + intros gid Hne. unfold sent. simpl. by rewrite Eo, lookup_insert_ne.
    + exists (messagesSent g), (S (messagesSent g)). unfold sent. simpl.
      rewrite Hg, lookup_insert_eq. split_and!; [done|done|]. right.
      unfold awaits. rewrite inbound_forward, Ei. simpl. lia.
  - eapply (stream_quotas m _ i); [done|exact Hi|reflexivity|done|done|].
    destruct (proj1 Hq s) as [n Hn]; [apply list_elem_of_In, list_elem_of_lookup; by exists i|].
    exists n, n. split_and!; [done|done|]. right. unfold awaits at 1. simpl. lia.
Qed.

Lemma event_quotas m e :
  0 < messagesPerSession config -> fresh_event m e -> quotas m -> quotas (handle m e).
Proof.
  intros Hcap Hf Hq. destruct (is_tame e) eqn:Ht; [by eapply tame_quotas; [apply tame_event|]|].
  destruct e as [| |gid session now|gid now| |i now|i newId now|i| | | | | | |]; try done;
    cbn [Mediator.handle].
  - unfold guest_minted. destruct session as [[sid url]|]; [|done]. destruct Hq as [Ho Hq]. simpl in Hf.
    assert (Hno : forall s, In s (streams m) -> String.eqb (s_guest s) gid = false).
    { intros s Hs. apply String.eqb_neq. intros E. apply Ho in Hs as [n Hs]. unfold sent in Hs.
      by rewrite E, Hf in Hs. }
    split.
    + intros s Hs. unfold sent. simpl. rewrite lookup_insert_ne; [by apply Ho|].
      intros E. apply Hno in Hs. by rewrite <- E, String.eqb_refl in Hs.
    + intros k n. unfold sent. simpl. rewrite lookup_insert. case_decide as E; [|by apply Hq]. subst k.
      intros [= <-]. unfold waits, streams_of. simpl.
      assert (Hz : forall f, total (of_guest gid f) (streams m) = 0).
      { intros f. revert Hno. clear. unfold total. induction (streams m) as [|s l IH]; intros Hno; [done|].
        simpl. unfold of_guest at 1. rewrite Hno by (by left). apply IH. intros x Hx. apply Hno. by right. }
      rewrite !Hz. lia.
  - unfold open_stream, registered. destruct (objects m !! gid) as [g|] eqn:Hg; [|done].
    destruct (_ && _); [|done]. destruct Hq as [Ho Hq]. split.
    + simpl. intros s. rewrite in_app_iff. intros [Hs|[<-|[]]]; [by apply Ho|]. unfold sent. simpl. by rewrite Hg.
    + intros k n Hk. specialize (Hq k n Hk). unfold waits, streams_of in *. simpl.
      rewrite !total_app, !total_one. unfold of_guest at 2 4. rewrite awaits_new.
      destruct (String.eqb _ _); lia.
  - by apply inbound_quotas.
  - by apply reserve_quotas.
  - by apply continue_quotas.
Qed.

(** The message cap holds per stream: a guest never has more messages than
    its cap, plus one for each stream beyond the first that it has opened.
    With one stream - what the playground's page opens - the cap is exact. *)
Theorem messages_bounded_per_stream m gid g :
  0 < messagesPerSession config -> reachable m -> objects m !! gid = Some g ->
  messagesSent g <= messagesPerSession config + pred (streams_of gid m).
Proof.
  intros Hcap Hr Hg. assert (Hq : quotas m).
  { clear Hg. induction Hr as [|m e Hr IH Hf]; [|by apply event_quotas].
    split; [done|]. intros k n. unfold sent. simpl. by rewrite lookup_empty. }
  destruct Hq as [_ Hq]. specialize (Hq gid (messagesSent g)). unfold sent in Hq. rewrite Hg in Hq.
  specialize (Hq eq_refl). lia.
Qed.
End mediator.

(** ** Runs of the machine *)

Fixpoint fresh_run (config : MediatorConfig) (m : Mediator) (es : list Event) : Prop :=
  match es with
  | [] => True
  | e :: es => fresh_event m e /\ fresh_run config (handle config m e) es
  end.

Lemma run_reachable config es m :
  reachable config m -> fresh_run config m es -> reachable config (fold_left (handle config) es m).
Proof.
  revert m. induction es as [|e es IH]; intros m Hr Hf; [done|]. destruct Hf as [Hf Hfs].
  simpl. apply IH; [by constructor|done].
Qed.

Definition demo_mediator : MediatorConfig :=
  {| sessionTtlMs := 600000; ipLimit := {| lim_max := 10; windowMs := 3600000 |};
     sessionLimit := {| lim_max := 6; windowMs := 60000 |}; messagesPerSession := 1;
     messageMaxChars := 500; tokensPerSession := 800; reservationMicroUsd := 64960;
     dailyCeilingMicroUsd := 5000000; alertThresholdMicroUsd := 2500000; abandonedAfterMs := 300000 |}.

Definition demo_frame : string :=
  stringify (obj_literal [("type", Some (JStr "send")); ("content", Some (JStr "hi"))])%string.

(** One guest opens two streams and sends one message on each. *)
Definition demo_events : list Event :=
  [ev_mint "10.0.0.1" 0; ev_minted "pg_1" (Some ("ses_1", "wss://runtime")) 0;
   ev_open "pg_1" 1; ev_open "pg_1" 1; ev_browser 0 demo_frame; ev_browser 1 demo_frame;
   ev_inbound 0 2; ev_inbound 1 2; ev_reserve 0 (Some "psr_1") 3; ev_reserve 1 (Some "psr_2") 3;
   ev_continue 0; ev_continue 1]%string.

Definition after (n : nat) : Mediator := fold_left (handle demo_mediator) (take n demo_events) booted.

Lemma demo_reachable n : reachable demo_mediator (after n).
Proof.
  unfold after. replace (take n demo_events) with (take (n `min` 12) demo_events).
  2: { rewrite <- take_take. by rewrite (take_ge demo_events 12). }
  apply run_reachable; [constructor|].
  enough (H : Forall (fun k => fresh_run demo_mediator booted (take k demo_events)) (seq 0 13)).
  { rewrite Forall_forall in H. apply H, list_elem_of_In, in_seq. simpl. lia. }
  repeat constructor; vm_compute; repeat split.
Qed.

Example demo_day : utcDay 1767225599999 = "2025-12-31"%string /\ utcDay 1767225600000 = "2026-01-01"%string /\
  utcDay 951782400000 = "2000-02-29"%string.
Proof. vm_compute. done. Qed.

(** The chain that orders the frames belongs to a socket and not to the
    guest: a guest with a cap of one message that opens two streams passes the
    check on both before either is counted, and forwards two. *)
Theorem two_streams_exceed_the_cap :
  exists m gid g, reachable demo_mediator m /\ objects m !! gid = Some g /\
    messagesPerSession demo_mediator = 1 /\ messagesSent g = 2 /\ total forwarded (streams m) = 2.
Proof.
  exists (after 12), "pg_1"%string.
  destruct (objects (after 12) !! "pg_1"%string) as [g|] eqn:E; [|by vm_compute in E].
  exists g. split; [apply demo_reachable|]. split; [done|]. split; [done|].
  split; [|by vm_compute]. apply (f_equal (fmap messagesSent)) in E.
  apply (inj Some). etrans; [symmetry; exact E|]. by vm_compute.
Qed.

(** A reservation that fails, with no frame behind it, is handled by nobody. *)
Example reserve_failure_crashes :
  crashed (handle demo_mediator (after 8) (ev_reserve 0 None 3)) = true.
Proof. vm_compute. reflexivity. Qed.

(** ** Witnesses *)

Lemma forwarded_messages_are_paid_witness :
  total forwarded (streams (after 12)) + total holds (streams (after 12))
  = length (reservations (ledger (after 12))).
Proof. apply (forwarded_messages_are_paid demo_mediator (after 12) "1970-01-01"%string), demo_reachable. Defined.

Lemma messages_bounded_per_stream_witness :
  match objects (after 12) !! "pg_1"%string with Some g => messagesSent g <= 2 | None => False end.
Proof.
  destruct (objects (after 12) !! "pg_1"%string) as [g|] eqn:E; [|by vm_compute in E].
  apply (messages_bounded_per_stream demo_mediator (after 12) "pg_1"%string g);
    [vm_compute; repeat constructor|apply demo_reachable|exact E].
Defined.
