(* ===== verification/React.v ===== *)
(** The browser's side (packages/react/src/state.ts, client.ts, types.ts): the
    reducer of the chat's state and the WebSocket client with its queue and its
    reconnections.  URL parsing and the socket's own life are outside. *)
From S2P Require Import Prelude Json Shared.

(** ** The chat's state (state.ts) *)

Inductive ConnectionStatus : Type := connecting | connected | disconnected.
Inductive ChatRole : Type := chat_user | chat_assistant | chat_tool.
Inductive ChatStatus : Type := pending | streaming | complete.

#[export] Instance ChatRole_eq_dec : EqDecision ChatRole.
Proof. solve_decision. Defined.
#[export] Instance ChatStatus_eq_dec : EqDecision ChatStatus.
Proof. solve_decision. Defined.

Record ToolCallInfo := { tci_callId : string; tci_toolName : string; tci_status : ToolCallStatus }.

Record ChatMessage := {
  cm_id : string; cm_role : ChatRole; cm_content : string; cm_status : ChatStatus;
  cm_toolCalls : option (list ToolCallInfo) }.

Record ChatState := {
  messages : list ChatMessage; isStreaming : bool; lastError : option string;
  connectionStatus : ConnectionStatus }.

Definition initialChatState : ChatState :=
  {| messages := []; isStreaming := false; lastError := None; connectionStatus := disconnected |}.

Inductive ChatAction : Type :=
| SEND_USER (id content : string)
| RESET_ERROR
| CONNECTION_STATUS (status : ConnectionStatus)
| server_event (event : ChatEvent).

Definition with_status (st : ChatStatus) (m : ChatMessage) : ChatMessage :=
  {| cm_id := cm_id m; cm_role := cm_role m; cm_content := cm_content m; cm_status := st;
     cm_toolCalls := cm_toolCalls m |}.

Definition with_content (c : string) (m : ChatMessage) : ChatMessage :=
  {| cm_id := cm_id m; cm_role := cm_role m; cm_content := c; cm_status := cm_status m;
     cm_toolCalls := cm_toolCalls m |}.

Definition with_toolCalls (l : list ToolCallInfo) (m : ChatMessage) : ChatMessage :=
  {| cm_id := cm_id m; cm_role := cm_role m; cm_content := cm_content m; cm_status := cm_status m;
     cm_toolCalls := Some l |}.

Definition with_messages (l : list ChatMessage) (s : ChatState) : ChatState :=
  {| messages := l; isStreaming := isStreaming s; lastError := lastError s;
     connectionStatus := connectionStatus s |}.

Definition is_status (st : ChatStatus) (m : ChatMessage) : bool := bool_decide (cm_status m = st).

Definition settle_user (m : ChatMessage) : ChatMessage :=
  if bool_decide (cm_role m = chat_user) && is_status pending m then with_status complete m else m.

Definition append_text (messageId text : string) (m : ChatMessage) : ChatMessage :=
  if String.eqb (cm_id m) messageId && is_status streaming m
  then with_content (cm_content m +:+ text) m else m.

Definition add_call (callId toolName : string) (m : ChatMessage) : ChatMessage :=
  if negb (bool_decide (cm_role m = chat_assistant)) || negb (is_status streaming m) then m
  else with_toolCalls ((cm_toolCalls m ?? []) ++
         [{| tci_callId := callId; tci_toolName := toolName; tci_status := tc_started |}]) m.

Definition end_call (callId : string) (status : ToolCallStatus) (m : ChatMessage) : ChatMessage :=
  match cm_toolCalls m with
  | Some calls =>
      if negb (bool_decide (cm_role m = chat_assistant)) then m
      else with_toolCalls (map (fun tc =>
             if String.eqb (tci_callId tc) callId
             then {| tci_callId := tci_callId tc; tci_toolName := tci_toolName tc; tci_status := status |}
             else tc) calls) m
  | None => m
  end.

Definition complete_message (messageId : string) (m : ChatMessage) : ChatMessage :=
  if String.eqb (cm_id m) messageId then with_status complete m else m.

Definition stop_streaming (m : ChatMessage) : ChatMessage :=
  if is_status streaming m then with_status complete m else m.

Definition chatReducer (state : ChatState) (action : ChatAction) : ChatState :=
  match action with
  | SEND_USER id content =>
      {| messages := messages state ++ [{| cm_id := id; cm_role := chat_user; cm_content := content;
                                           cm_status := pending; cm_toolCalls := None |}];
         isStreaming := true; lastError := None; connectionStatus := connectionStatus state |}
  | RESET_ERROR =>
      {| messages := messages state; isStreaming := isStreaming state; lastError := None;
         connectionStatus := connectionStatus state |}
  | CONNECTION_STATUS status =>
      {| messages := messages state; isStreaming := isStreaming state; lastError := lastError state;
         connectionStatus := status |}
  | server_event (message_started messageId _ _) =>
      {| messages := map settle_user (messages state) ++
           [{| cm_id := messageId; cm_role := chat_assistant; cm_content := ""; cm_status := streaming;
               cm_toolCalls := None |}];
         isStreaming := true; lastError := lastError state; connectionStatus := connectionStatus state |}
  | server_event (token text messageId _ _) =>
      with_messages (map (append_text messageId text) (messages state)) state
  | server_event (tool_call_started callId _ _ toolName) =>
      with_messages (map (add_call callId toolName) (messages state)) state
  | server_event (tool_call_completed callId _ _ _ status) =>
      with_messages (map (end_call callId status) (messages state)) state
  | server_event (message_completed messageId _ _) =>
      {| messages := map (complete_message messageId) (messages state); isStreaming := false;
         lastError := lastError state; connectionStatus := connectionStatus state |}
  | server_event (run_failed _ _ code message _) =>
      {| messages := map stop_streaming (messages state); isStreaming := false;
         lastError := Some ("[" +:+ code +:+ "] " +:+ message)%string;
         connectionStatus := connectionStatus state |}
  end.

(** The state after a sequence of server events. *)
Definition receive_all (es : list ChatEvent) (s : ChatState) : ChatState :=
  fold_left (fun s e => chatReducer s (server_event e)) es s.

(** ** The client (client.ts) *)

(** The socket: absent, opening, open, or on its way to be closed. *)
Inductive SocketState : Type := no_socket | opening | is_open | closing.

Record Client := {
  ws : SocketState; status : ConnectionStatus; retryCount : nat; retryTimer : option Z;
  intentionalClose : bool; messageQueue : list string; sent : list string;
  events : list ChatEvent; errors : list error }.

Section client.
Context (maxRetries : nat) (baseDelayMs : Z).

Definition set_connection (w : SocketState) (st : ConnectionStatus) (c : Client) : Client :=
  {| ws := w; status := st; retryCount := retryCount c; retryTimer := retryTimer c;
     intentionalClose := intentionalClose c; messageQueue := messageQueue c; sent := sent c;
     events := events c; errors := errors c |}.

Definition set_retry (n : nat) (t : option Z) (c : Client) : Client :=
  {| ws := ws c; status := status c; retryCount := n; retryTimer := t;
     intentionalClose := intentionalClose c; messageQueue := messageQueue c; sent := sent c;
     events := events c; errors := errors c |}.

Definition set_queue (q s : list string) (c : Client) : Client :=
  {| ws := ws c; status := status c; retryCount := retryCount c; retryTimer := retryTimer c;
     intentionalClose := intentionalClose c; messageQueue := q; sent := s;
     events := events c; errors := errors c |}.

Definition report (e : error) (c : Client) : Client :=
  {| ws := ws c; status := status c; retryCount := retryCount c; retryTimer := retryTimer c;
     intentionalClose := intentionalClose c; messageQueue := messageQueue c; sent := sent c;
     events := events c; errors := errors c ++ [e] |}.

Definition connect (c : Client) : Client :=
  if intentionalClose c then c else set_connection opening connecting c.

(** [flushQueue]: everything, while the socket is open. *)
Definition flushQueue (c : Client) : Client :=
  match ws c with is_open => set_queue [] (sent c ++ messageQueue c) c | _ => c end.

Definition onopen (c : Client) : Client :=
  flushQueue (set_retry 0 (retryTimer c) (set_connection is_open connected c)).

Definition invalid_frame : error := PlainError "Error" "invalid frame".

Definition onmessage (raw : string) (c : Client) : Client :=
  match parse raw ≫= ChatEventSchema with
  | Some e =>
      {| ws := ws c; status := status c; retryCount := retryCount c; retryTimer := retryTimer c;
         intentionalClose := intentionalClose c; messageQueue := messageQueue c; sent := sent c;
         events := events c ++ [e]; errors := errors c |}
  | None => report invalid_frame c
  end.

Definition closeError (code : Z) (reason : string) : error :=
  let reason := if String.eqb reason "" then "" else ": " +:+ reason in
  (if (code =? 4001)%Z
   then swift_error UNAUTHORIZED ("Connection closed (4001)" +:+ reason +:+
          " — authentication failed; check the client token / websocketUrl.")
   else swift_error CONNECTION_ERROR ("Connection closed (" +:+ string_of_Z code +:+ ")" +:+ reason +:+
          " — the stream dropped; check the server / network. Reconnecting…"))%string.

Definition scheduleReconnect (c : Client) : Client :=
  if (maxRetries <=? retryCount c)%nat || intentionalClose c then c
  else set_retry (S (retryCount c)) (Some (baseDelayMs * 2 ^ Z.of_nat (retryCount c))%Z) c.

Definition onclose (code : Z) (reason : string) (c : Client) : Client :=
  let c := set_connection no_socket disconnected c in
  if intentionalClose c then c
  else scheduleReconnect (if (code =? 1000)%Z then c else report (closeError code reason) c).

Definition payload (content : string) : string :=
  stringify (obj_literal [("type", Some (JStr "send_message")); ("content", Some (JStr content))])%string.

Definition sendMessage (content : string) (c : Client) : Client :=
  match ws c with
  | is_open => set_queue (messageQueue c) (sent c ++ [payload content]) c
  | _ => set_queue (messageQueue c ++ [payload content]) (sent c) c
  end.

Definition disconnect (c : Client) : Client :=
  {| ws := no_socket; status := disconnected; retryCount := retryCount c; retryTimer := None;
     intentionalClose := true; messageQueue := messageQueue c; sent := sent c;
     events := events c; errors := errors c |}.

(** [createChatSession]: URL parsing is outside - whether a URL parses and has
    a token, and the URL with a token set. *)
Section create.
Context (has_token : string -> option bool) (set_token : string -> option string -> string).

Definition resolveConnectionUrl (websocketUrl : option string) (tok : string) : res error string :=
  let missing := Err (PlainError "Error"
    "createChatSession requires a websocketUrl (the value returned by POST /v1/sessions)") in
  match websocketUrl with
  | None => missing
  | Some url =>
      if String.eqb url "" then missing
      else match has_token url with
      | None => Err (PlainError "Error" ("createChatSession received an invalid websocketUrl: " +:+ url))
      | Some true => Ok url
      | Some false => Ok (set_token url (if String.eqb tok "" then None else Some tok))
      end
  end%string.

Definition new_client : Client :=
  connect {| ws := no_socket; status := disconnected; retryCount := 0; retryTimer := None;
             intentionalClose := false; messageQueue := []; sent := []; events := []; errors := [] |}.

(** The client and the URL it connects to. *)
Definition createChatSession (serverProtocolVersion websocketUrl : option string) (tok : string) :
    res error (Client * string) :=
  let? _ := assertProtocolCompatible serverProtocolVersion local_protocol in
  let? url := resolveConnectionUrl websocketUrl tok in
  Ok (new_client, url).
End create.

(** What happens to a client; a socket without handlers, after [disconnect],
    reaches none of its callbacks. *)
Inductive ClientEvent : Type :=
| sock_open | sock_frame (raw : string) | sock_closing | sock_close (code : Z) (reason : string)
| timer_fires | user_sends (content : string) | user_disconnects.

Definition client_step (c : Client) (e : ClientEvent) : Client :=
  match e with
  | sock_open => match ws c with opening => onopen c | _ => c end
  | sock_frame raw => match ws c with is_open => onmessage raw c | _ => c end
  | sock_closing => match ws c with no_socket => c | _ => set_connection closing (status c) c end
  | sock_close code reason => match ws c with no_socket => c | _ => onclose code reason c end
  | timer_fires => match retryTimer c with
                   | Some _ => connect (set_retry (retryCount c) None c)
                   | None => c
                   end
  | user_sends content => sendMessage content c
  | user_disconnects => disconnect c
  end.

Definition client_run (es : list ClientEvent) (c : Client) : Client := fold_left client_step es c.
End client.
