(* ===== verification/ReactProps.v ===== *)
(** What the browser shows of a run, and what its client sends. *)
From S2P Require Import Prelude Json Shared Deadlines Context Tools Models Repos Effects Loop LoopFacts LoopInvariants LoopProps React.
From S2P Require Gateway.

(** ** What a run shows *)

(** A message without its tool calls. *)
Definition view (m : ChatMessage) : string * ChatRole * string * ChatStatus :=
  (cm_id m, cm_role m, cm_content m, cm_status m).

(** The text that the tokens of a run add up to. *)
Fixpoint texts (es : list ChatEvent) : string :=
  match es with
  | [] => ""
  | token t _ _ _ :: es => t +:+ texts es
  | _ :: es => texts es
  end.

(** The error that the last event leaves. *)
Definition error_of (es : list ChatEvent) (before : option string) : option string :=
  match last es with
  | Some (run_failed _ _ code message _) => Some ("[" +:+ code +:+ "] " +:+ message)%string
  | _ => before
  end.

(** Messages of other ids that are not streaming: no event of a run changes
    what they show. *)
Definition settled (id : string) (l : list ChatMessage) : Prop :=
  Forall (fun m => cm_id m <> id /\ cm_status m <> streaming) l.

Definition keeps_view (f : ChatMessage -> ChatMessage) (id : string) : Prop :=
  forall m, cm_id m <> id -> cm_status m <> streaming -> view (f m) = view m.

Lemma keeps_settled f id l :
  keeps_view f id -> settled id l -> settled id (map f l) /\ map view (map f l) = map view l.
Proof.
  intros Hf. induction 1 as [|m l [Hi Hs] _ [IH1 IH2]]; [by split; constructor|].
  specialize (Hf m Hi Hs). unfold view in Hf. injection Hf as E1 E2 E3 E4. simpl. split.
  - constructor; [by rewrite E1, E4|done].
  - unfold view at 1 3. by rewrite E1, E2, E3, E4, IH2.
Qed.

Lemma status_false st m : cm_status m <> st -> is_status st m = false.
Proof. intros. by apply bool_decide_eq_false. Qed.

Lemma append_keeps id t : keeps_view (append_text id t) id.
Proof. intros m Hi _. unfold append_text. by rewrite (proj2 (String.eqb_neq _ _) Hi). Qed.

Lemma add_call_keeps id c n : keeps_view (add_call c n) id.
Proof. intros m _ Hs. unfold add_call. rewrite (status_false _ _ Hs). by rewrite orb_true_r. Qed.

Lemma end_call_keeps id c st : keeps_view (end_call c st) id.
Proof. intros m _ _. unfold end_call. destruct (cm_toolCalls m); [|done]. by destruct (negb _). Qed.

Lemma complete_keeps id : keeps_view (complete_message id) id.
Proof. intros m Hi _. unfold complete_message. by rewrite (proj2 (String.eqb_neq _ _) Hi). Qed.

Lemma stop_keeps id : keeps_view stop_streaming id.
Proof. intros m _ Hs. unfold stop_streaming. by rewrite (status_false _ _ Hs). Qed.

(** A run names two messages: the one it starts with, and the one whose tokens
    follow.  Messages that are neither, and not streaming. *)
Definition clear_of (mid aid : string) (l : list ChatMessage) : Prop := settled mid l /\ settled aid l.

Lemma keeps_clear f id mid aid l :
  keeps_view f id -> id = mid \/ id = aid -> clear_of mid aid l ->
  clear_of mid aid (map f l) /\ map view (map f l) = map view l.
Proof.
  intros Hf Hid [H1 H2]. assert (Hi : settled id l) by (by destruct Hid as [->| ->]).
  assert (Hv : Forall (fun m => view (f m) = view m) l) by (eapply Forall_impl; [exact Hi|]; intros m [? ?]; by apply Hf).
  assert (Hs : forall j, settled j l -> settled j (map f l)).
  { intros j Hj. apply Forall_map. eapply Forall_impl; [apply Forall_and; exact (conj Hj Hv)|].
    intros m [[Ha Hb] E]. unfold view in E. injection E as E1 _ _ E4. simpl. by rewrite E1, E4. }
  split; [by split; apply Hs|]. by apply (keeps_settled f id).
Qed.

(** What the page shows of the tokens, and of the end. *)
Definition shown_text (mid aid : string) (es : list ChatEvent) : string := if String.eqb mid aid then texts es else "".
Definition shown_end (mid aid : string) (es : list ChatEvent) : ChatStatus :=
  match last es with
  | Some (run_failed _ _ _ _ _) => complete
  | _ => if String.eqb mid aid then complete else streaming
  end.

(** The message being streamed. *)
Definition streams_text (id content : string) (m : ChatMessage) : Prop :=
  view m = (id, chat_assistant, content, streaming).

(** The state in the middle of a run: settled messages, then the streamed one. *)
Definition mid_run (mid aid content : string) (old : list (string * ChatRole * string * ChatStatus))
    (s : ChatState) : Prop :=
  exists pre m, messages s = pre ++ [m] /\ clear_of mid aid pre /\ map view pre = old /\
    streams_text mid content m.

(** The state at its end. *)
Definition at_end (mid content : string) (st : ChatStatus) (old : list (string * ChatRole * string * ChatStatus))
    (s : ChatState) : Prop :=
  isStreaming s = false /\ map view (messages s) = old ++ [(mid, chat_assistant, content, st)].

Lemma string_app_assoc (a b c : string) : ((a +:+ b) +:+ c = a +:+ (b +:+ c))%string.
Proof. induction a as [|x a IH]; [done|]. exact (f_equal (String x) IH). Qed.

Lemma string_app_nil (a : string) : (a +:+ "" = a)%string.
Proof. induction a as [|x a IH]; [done|]. exact (f_equal (String x) IH). Qed.

Lemma shown_text_cons mid aid e es : (shown_text mid aid (e :: es) = shown_text mid aid [e] +:+ shown_text mid aid es)%string.
Proof.
  unfold shown_text. destruct (String.eqb mid aid); [|done]. destruct e; try done. simpl. by rewrite string_app_nil.
Qed.

Lemma mid_map mid aid id content content' old s f :
  mid_run mid aid content old s -> keeps_view f id -> id = mid \/ id = aid ->
  (forall m, streams_text mid content m -> streams_text mid content' (f m)) ->
  mid_run mid aid content' old (with_messages (map f (messages s)) s).
Proof.
  intros (pre & m & Em & Hset & Hv & Hm) Hf Hid Hs. destruct (keeps_clear f id mid aid pre Hf Hid Hset) as [Hset' Hv'].
  exists (map f pre), (f m). simpl. rewrite Em, map_app. split_and!; [done|done|congruence|by apply Hs].
Qed.

(** A token of another message changes nothing. *)
Lemma append_streams mid aid content t r ss m :
  streams_text mid content m -> streams_text mid (content +:+ shown_text mid aid [token t aid r ss]) (append_text aid t m).
Proof.
  destruct m as [j ro co st calls]. unfold streams_text, view, append_text, shown_text. simpl. intros E. simplify_eq.
  destruct (String.eqb_spec mid aid) as [->|Hne]; simpl; by rewrite string_app_nil.
Qed.

Lemma mid_step mid aid content old s e p q :
  mid_run mid aid content old s -> names mid aid e -> chat_step p e = Some q -> q <> ph_done -> p <> ph_init ->
  mid_run mid aid (content +:+ shown_text mid aid [e]) old (chatReducer s (server_event e)) /\
  lastError (chatReducer s (server_event e)) = lastError s.
Proof.
  intros Hmid Ha Hc Hq Hp. assert (Hnil : forall e, texts [e] = "" -> (content +:+ shown_text mid aid [e])%string = content).
  { intros e' E. unfold shown_text. rewrite E. destruct (String.eqb mid aid); apply string_app_nil. }
  destruct e as [i r ss|t i r ss|c r ss n|c r ss n st|i r ss|r ss c m cause]; simpl in Ha;
    try (by destruct p); try (by destruct p; simplify_eq/=); (split; [|done]).
  - subst i. eapply mid_map; [exact Hmid|apply append_keeps|by right|]. intros m. apply append_streams.
  - rewrite Hnil by done. eapply (mid_map _ _ mid); [exact Hmid|apply add_call_keeps|by left|].
    intros [j ro co st calls] Hv. unfold streams_text, view in Hv. simpl in Hv. by simplify_eq.
  - rewrite Hnil by done. eapply (mid_map _ _ mid); [exact Hmid|apply end_call_keeps|by left|].
    unfold streams_text. intros m Hv. rewrite <- Hv. unfold end_call. destruct (cm_toolCalls m); [|done].
    by destruct (negb _).
Qed.

Lemma end_step mid aid content old s e p :
  mid_run mid aid content old s -> names mid aid e -> chat_step p e = Some ph_done -> p <> ph_init ->
  at_end mid content (shown_end mid aid [e]) old (chatReducer s (server_event e)) /\
  lastError (chatReducer s (server_event e)) = error_of [e] (lastError s).
Proof.
  intros (pre & m & Em & Hset & Hv & Hm) Ha Hc Hp. unfold streams_text, view in Hm. injection Hm as E1 E2 E3 E4.
  destruct e as [i r ss|t i r ss|c r ss n|c r ss n st|i r ss|r ss c mm cause]; simpl in Ha;
    try (by destruct p); try (destruct p; simpl in Hc; try destruct (String.eqb _ _); discriminate Hc).
  - subst i. split; [|done]. split; [done|]. simpl. rewrite Em, !map_app.
    destruct (keeps_clear _ aid mid aid pre (complete_keeps aid) (or_intror eq_refl) Hset) as [_ ->]. rewrite Hv. f_equal. simpl.
    unfold complete_message, shown_end. rewrite E1. simpl. destruct (String.eqb mid aid); unfold view; simpl; by rewrite E1, E2, E3, ?E4.
  - split; [|done]. split; [done|]. simpl. rewrite Em, !map_app.
    destruct (keeps_clear _ mid mid aid pre (stop_keeps mid) (or_introl eq_refl) Hset) as [_ ->]. rewrite Hv. f_equal. simpl.
    unfold stop_streaming, is_status. rewrite E4. unfold view. simpl. by rewrite E1, E2, E3.
Qed.

Lemma chat_step_init p e : chat_step p e <> Some ph_init.
Proof. destruct p, e; simpl; try discriminate. by destruct (String.eqb _ _). Qed.

(** From the middle of a run to its end. *)
Lemma rest_displayed mid aid es p content old s :
  mid_run mid aid content old s -> Forall (names mid aid) es -> p <> ph_init ->
  chat_run p es = Some ph_done -> p <> ph_done ->
  at_end mid (content +:+ shown_text mid aid es) (shown_end mid aid es) old (receive_all es s) /\
  lastError (receive_all es s) = error_of es (lastError s).
Proof.
  revert p content s. induction es as [|e es IH]; intros p content s Hmid Hall Hp Hrun Hd.
  { by injection Hrun as ->. }
  apply Forall_cons in Hall as [Ha Hall]. simpl in Hrun. destruct (chat_step p e) as [q|] eqn:Hc; [|done].
  destruct (decide (q = ph_done)) as [->|Hq].
  - destruct es as [|e' es]; [|by destruct e'].
    destruct (end_step _ _ _ _ _ _ _ Hmid Ha Hc Hp) as [He Hl].
    change (receive_all [e] s) with (chatReducer s (server_event e)). split; [|exact Hl].
    replace (content +:+ shown_text mid aid [e])%string with content; [done|].
    assert (E : texts [e] = "") by (destruct e; try done; by destruct p).
    unfold shown_text. rewrite E. destruct (String.eqb mid aid); by rewrite string_app_nil.
  - destruct (mid_step _ _ _ _ _ _ _ _ Hmid Ha Hc Hq Hp) as [Hm Hl].
    assert (Hqi : q <> ph_init) by (intros ->; exact (chat_step_init _ _ Hc)).
    destruct (IH q _ _ Hm Hall Hqi Hrun Hq) as [He Hle].
    assert (Hne : es <> []) by (intros ->; simpl in Hrun; congruence).
    change (receive_all (e :: es) s) with (receive_all es (chatReducer s (server_event e))). split.
    + rewrite shown_text_cons, <- string_app_assoc. unfold shown_end in *. by destruct es.
    + rewrite Hle, Hl. by destruct es.
Qed.

(** The messages before a run starts, as they show once it has. *)
Definition shown_before (s : ChatState) : list (string * ChatRole * string * ChatStatus) :=
  map view (map settle_user (messages s)).

Lemma settle_user_settled id l : settled id l -> settled id (map settle_user l).
Proof.
  induction 1 as [|m l [Hi Hs] _ IH]; [constructor|]. simpl. constructor; [|exact IH].
  unfold settle_user. by destruct (_ && _).
Qed.

Lemma started_mid_run mid aid r ss s :
  clear_of mid aid (messages s) ->
  mid_run mid aid "" (shown_before s) (chatReducer s (server_event (message_started mid r ss))).
Proof. intros [H1 H2]. eexists _, _. simpl. split_and!; [done|by split; apply settle_user_settled|done|done]. Qed.

Lemma run_displayed mid aid es s :
  clear_of mid aid (messages s) -> Forall (names mid aid) es -> chat_run ph_init es = Some ph_done ->
  isStreaming (receive_all es s) = false /\
  lastError (receive_all es s) = error_of es (lastError s) /\
  map view (messages (receive_all es s)) =
    match es with
    | message_started _ _ _ :: es => shown_before s ++ [(mid, chat_assistant, shown_text mid aid es, shown_end mid aid es)]
    | _ => map view (messages s)
    end.
Proof.
  intros Hset Hall Hrun. destruct es as [|e es]; [done|].
  apply Forall_cons in Hall as [Ha Hall]. simpl in Hrun.
  destruct e as [i r ss|t i r ss|c r ss n|c r ss n st|i r ss|r ss c m cause]; try discriminate Hrun; simpl in Ha.
  - subst i. destruct (rest_displayed mid aid es ph_stream "" (shown_before s) _
      (started_mid_run mid aid r ss s Hset) Hall) as [[Hst Hv] Hl]; [done|done|done|].
    change (receive_all (message_started mid r ss :: es) s)
      with (receive_all es (chatReducer s (server_event (message_started mid r ss)))).
    split_and!; [exact Hst| |exact Hv]. rewrite Hl. by destruct es.
  - simpl in Hrun. destruct es as [|e' es]; [|by destruct e']. split_and!; [done|done|].
    simpl. by destruct (keeps_clear _ mid mid aid _ (stop_keeps mid) (or_introl eq_refl) Hset) as [_ ->].
Qed.

(** C10: the page shows exactly what the run said, when the events of the run
    name one message: the chat ends with nothing streaming, the earlier messages
    shown as they were, and one message whose text is the concatenation of the
    run's tokens; a failed run leaves its error, and one that fails before it
    starts to speak adds no message. *)
Theorem complete_run_is_displayed id es s :
  settled id (messages s) -> Forall (names id id) es -> chat_run ph_init es = Some ph_done ->
  isStreaming (receive_all es s) = false /\
  lastError (receive_all es s) = error_of es (lastError s) /\
  map view (messages (receive_all es s)) =
    match es with
    | message_started _ _ _ :: _ => shown_before s ++ [(id, chat_assistant, texts es, complete)]
    | _ => map view (messages s)
    end.
Proof.
  intros Hset Hall Hrun. destruct (run_displayed id id es s (conj Hset Hset) Hall Hrun) as (H1 & H2 & H3).
  split_and!; [done|done|]. rewrite H3. destruct es as [|[] es]; try done. unfold shown_text, shown_end.
  rewrite String.eqb_refl. do 3 f_equal. by destruct (last es) as [[]|].
Qed.

(** ** What the loop yields and the page shows *)
Section loop.
Context {P : Type} (outside : Outside P).
Context (ajv_compile : json -> res string Tools.ValidateFunction).
Context (registry : Models.ProviderRegistry P) (penv : string -> option string).
Context (ctx : RunContext) (userContent : string) (options : AgentEngineOptions).
Context (prepared : option string) (now : Z) (db : Db).

Abbreviation mid := (started_id outside prepared).
Abbreviation aid := (assistant_id outside prepared).

(** C11: But the loop names two: it starts with the message of the user and goes
    on with one of its own.  The page shows an empty message that streams for ever,
    whatever the run said; only a failure ends it. *)
Theorem text_of_the_loop_is_not_displayed s :
  let final := final outside ajv_compile registry penv ctx userContent options prepared now db in
  let es := l_events final.2 in
  final.1 = Ret tt -> mid <> aid -> clear_of mid aid (messages s) ->
  isStreaming (receive_all es s) = false /\
  map view (messages (receive_all es s)) =
    match es with
    | message_started _ _ _ :: es =>
        shown_before s ++ [(mid, chat_assistant, ""%string,
                            match last es with Some (run_failed _ _ _ _ _) => complete | _ => streaming end)]
    | _ => map view (messages s)
    end.
Proof.
  intros final es Hf Hne Hset.
  assert (Hp : ended_quietly final.1 final.2) by (by apply run_phase).
  assert (Hrun : chat_run ph_init es = Some ph_done) by (unfold ended_quietly in Hp; rewrite Hf in Hp; exact Hp).
  destruct (run_displayed mid aid es s Hset (run_named outside ajv_compile registry penv ctx userContent options prepared db now
    (ctx_iterationCount ctx)) Hrun) as (H1 & _ & H3).
  split; [done|]. rewrite H3. unfold shown_text, shown_end. by rewrite (proj2 (String.eqb_neq _ _) Hne).
Qed.
End loop.

(** ** A reconnection in the middle of a run *)

Definition told (id r ss : string) (ts : list string) : list ChatEvent := map (fun t => token t id r ss) ts.

Fixpoint concat_all (ts : list string) : string :=
  match ts with [] => "" | t :: ts => t +:+ concat_all ts end.

Lemma receive_cons e es s :
  receive_all (e :: es) s = receive_all es (chatReducer s (server_event e)).
Proof. done. Qed.

Lemma receive_all_app es es' s : receive_all (es ++ es') s = receive_all es' (receive_all es s).
Proof. apply fold_left_app. Qed.

(** A message being streamed, as [message_started] adds it. *)
Definition new_message (id content : string) : ChatMessage :=
  {| cm_id := id; cm_role := chat_assistant; cm_content := content; cm_status := streaming;
     cm_toolCalls := None |}.

(** Several messages with the same id, all streaming: a token goes to all. *)
Lemma told_all id r ss ts s pre l :
  messages s = pre ++ l -> settled id pre ->
  Forall (fun m => cm_id m = id /\ cm_status m = streaming) l ->
  messages (receive_all (told id r ss ts) s) =
    map (fun m => m) pre ++ map (fun m => with_content (cm_content m +:+ concat_all ts) m) l /\
  lastError (receive_all (told id r ss ts) s) = lastError s.
Proof.
  revert s l. induction ts as [|t ts IH]; intros s l Em Hp Hl.
  - simpl. rewrite Em, map_id. split; [|done]. f_equal. clear -Hl.
    induction Hl as [|m l [Hi Hs] _ IH]; [done|]. simpl. rewrite <- IH, string_app_nil. by destruct m.
  - simpl. set (s' := with_messages (map (append_text id t) (messages s)) s).
    set (l' := map (fun m => with_content (cm_content m +:+ t) m) l).
    assert (Epre : map (append_text id t) pre = pre).
    { clear -Hp. induction Hp as [|m pre [Hi Hs] _ IH]; [done|]. simpl. rewrite IH. f_equal.
      unfold append_text. by rewrite (proj2 (String.eqb_neq _ _) Hi). }
    assert (El : map (append_text id t) l = l').
    { clear -Hl. subst l'. induction Hl as [|m l [Hi Hs] _ IH]; [done|]. simpl. rewrite IH. f_equal.
      unfold append_text, is_status. by rewrite Hi, Hs, String.eqb_refl. }
    destruct (IH s' l') as [Hm He]; [simpl; by rewrite Em, map_app, Epre, El|done| |].
    { subst l'. clear -Hl. induction Hl; constructor; done. }
    split; [|exact He]. etrans; [exact Hm|]. f_equal. subst l'. rewrite map_map. apply map_ext.
    intros m. unfold with_content. simpl. by rewrite string_app_assoc.
Qed.

(** A client that reconnects in the middle of a run shows it twice.  The
    gateway replays the run from its first event, and the reducer appends a
    second message with the same id: the tokens go to both, so the first one
    ends with its beginning repeated. *)
Theorem reconnection_duplicates_message id r ss ts k s :
  settled id (messages s) ->
  let es := message_started id r ss :: told id r ss ts ++ [message_completed id r ss] in
  let seen := message_started id r ss :: told id r ss (take k ts) in
  map view (messages (receive_all (seen ++ es) s)) =
    map view (map settle_user (map settle_user (messages s))) ++
      [(id, chat_assistant, (concat_all (take k ts) +:+ concat_all ts)%string, complete);
       (id, chat_assistant, concat_all ts, complete)].
Proof.
  intros Hset es seen. subst es seen. rewrite receive_all_app, !receive_cons, receive_all_app, receive_cons.
  set (s1 := chatReducer s (server_event (message_started id r ss))).
  destruct (told_all id r ss (take k ts) s1 (map settle_user (messages s)) [new_message id ""])
    as [Hm1 _]; [done|by apply settle_user_settled|by repeat constructor|].
  rewrite map_id in Hm1. set (s2 := receive_all (told id r ss (take k ts)) s1) in *.
  set (s3 := chatReducer s2 (server_event (message_started id r ss))).
  destruct (told_all id r ss ts s3 (map settle_user (map settle_user (messages s)))
    [new_message id (concat_all (take k ts)); new_message id ""]) as [Hm3 _].
  - change (messages s3) with (map settle_user (messages s2) ++ [new_message id ""]).
    rewrite Hm1, map_app, <- app_assoc. done.
  - by apply settle_user_settled, settle_user_settled.
  - by repeat constructor.
  - rewrite map_id in Hm3. set (s4 := receive_all (told id r ss ts) s3) in *.
    change (messages (receive_all [] (chatReducer s4 (server_event (message_completed id r ss)))))
      with (map (complete_message id) (messages s4)).
    rewrite Hm3, !map_app.
    destruct (keeps_settled _ id (map settle_user (map settle_user (messages s))) (complete_keeps id))
      as [_ ->]; [by apply settle_user_settled, settle_user_settled|].
    f_equal. unfold complete_message. simpl. by rewrite !String.eqb_refl.
Qed.

(** ** The client *)

(** The messages that were asked to be sent, in order. *)
Definition asked (es : list ClientEvent) : list string :=
  omap (fun e => match e with user_sends content => Some content | _ => None end) es.

(** An open socket has nothing queued; a timer is set for a retry within the
    bound and with its back-off; a client that was disconnected has neither. *)
Definition client_ok (maxRetries : nat) (base : Z) (c : Client) : Prop :=
  (ws c = is_open -> messageQueue c = []) /\ retryCount c <= maxRetries /\
  (forall d, retryTimer c = Some d -> exists k, k < maxRetries /\ d = (base * 2 ^ Z.of_nat k)%Z) /\
  (intentionalClose c = true -> ws c = no_socket /\ retryTimer c = None).

Lemma client_step_ok maxRetries base c e :
  client_ok maxRetries base c -> client_ok maxRetries base (client_step maxRetries base c e).
Proof.
  intros Hc. assert (Hok := Hc). destruct Hc as (Hq & Hn & Ht & Hi).
  assert (Hi' : ws c <> no_socket -> intentionalClose c = false).
  { intros Hw. destruct (intentionalClose c); [|done]. by destruct (Hi eq_refl). }
  destruct e as [|raw| |code reason| |content|]; cbn [client_step].
  - destruct (ws c) eqn:E; try done. specialize (Hi' ltac:(congruence)). unfold onopen, flushQueue.
    split_and!; simpl; [done|lia|done|congruence].
  - destruct (ws c) eqn:E; try done. unfold onmessage. destruct (_ ≫= _); split_and!; simpl; rewrite ?E; done.
  - destruct (ws c) eqn:E; try done; (specialize (Hi' ltac:(congruence)); split_and!; simpl; [done|lia|done|congruence]).
  - destruct (ws c) eqn:E; try done; (specialize (Hi' ltac:(congruence)); unfold onclose; simpl; rewrite Hi';
      unfold scheduleReconnect; destruct (code =? 1000)%Z; simpl;
      destruct (Nat.leb_spec maxRetries (retryCount c)); rewrite ?Hi'; simpl;
      (split_and!; simpl; [done|lia|try done|congruence]); intros d [= <-]; by exists (retryCount c)).
  - destruct (retryTimer c) eqn:E; [|done]. assert (Hf : intentionalClose c = false).
    { destruct (intentionalClose c); [|done]. by destruct (Hi eq_refl). }
    unfold connect. simpl. rewrite Hf. split_and!; simpl; [done|lia|done|congruence].
  - unfold sendMessage. destruct (ws c) eqn:E; (split_and!; simpl; rewrite ?E; done || auto).
  - split_and!; simpl; [done|lia|done|done].
Qed.

(** What has been sent and what waits are what was asked for, in order. *)
Lemma client_step_sent maxRetries base c e :
  client_ok maxRetries base c ->
  sent (client_step maxRetries base c e) ++ messageQueue (client_step maxRetries base c e) =
  (sent c ++ messageQueue c) ++ map payload (asked [e]).
Proof.
  intros (Hq & _). destruct e as [|raw| |code reason| |content|]; cbn [client_step asked omap list_omap map];
    rewrite ?app_nil_r; try done.
  - destruct (ws c); try done. unfold onopen, flushQueue. simpl. by rewrite app_nil_r.
  - destruct (ws c); try done. unfold onmessage. by destruct (_ ≫= _).
  - by destruct (ws c).
  - destruct (ws c); try done; unfold onclose, scheduleReconnect; simpl; destruct (intentionalClose c); try done;
      destruct (code =? 1000)%Z; simpl; by destruct (_ || _).
  - destruct (retryTimer c); [|done]. unfold connect. simpl. by destruct (intentionalClose c).
  - unfold sendMessage. destruct (ws c) eqn:E; simpl; rewrite ?app_assoc; try done.
    rewrite Hq by done. by rewrite !app_nil_r.
Qed.

Lemma asked_app a b : asked (a ++ b) = asked a ++ asked b.
Proof. unfold asked. apply omap_app. Qed.

(** The connections that the timer of a retry opens. *)
Fixpoint reconnections (maxRetries : nat) (base : Z) (es : list ClientEvent) (c : Client) : nat :=
  match es with
  | [] => 0
  | e :: es =>
      (match e, retryTimer c with timer_fires, Some _ => if intentionalClose c then 0 else 1 | _, _ => 0 end) +
      reconnections maxRetries base es (client_step maxRetries base c e)
  end.

Definition pending_retry (c : Client) : nat := match retryTimer c with Some _ => 1 | None => 0 end.

(** A timer is set only by a close that was counted, and while there is no socket. *)
Definition timer_ok (c : Client) : Prop := is_Some (retryTimer c) -> ws c = no_socket /\ 0 < retryCount c.

Lemma client_step_timer maxRetries base c e : timer_ok c -> timer_ok (client_step maxRetries base c e).
Proof.
  unfold timer_ok. intros Ht. destruct e as [|raw| |code reason| |content|]; cbn [client_step].
  - destruct (ws c) eqn:E; try (by rewrite E; auto). unfold onopen, flushQueue. simpl. intros H. by destruct (Ht H).
  - destruct (ws c) eqn:E; try (by rewrite E; auto). unfold onmessage. destruct (_ ≫= _); simpl; by rewrite E.
  - destruct (ws c) eqn:E; simpl; try (by rewrite E; auto); intros H; by destruct (Ht H).
  - destruct (ws c) eqn:E; try (by rewrite E; auto); unfold onclose, scheduleReconnect;
      repeat case_match; simpl in *; first [intros _; split; [done|lia]|intros Hset; by destruct (Ht Hset)].
  - destruct (retryTimer c) eqn:E; [|by rewrite E]. unfold connect. simpl. destruct (intentionalClose c); by intros [].
  - unfold sendMessage. by destruct (ws c) eqn:E; simpl; rewrite ?E.
  - by intros [].
Qed.

(** Until the socket opens, every retry is charged to the counter. *)
Lemma reconnections_counted maxRetries base es c :
  Forall (fun e => e <> sock_open) es -> retryCount c <= maxRetries ->
  reconnections maxRetries base es c + retryCount c <= maxRetries + pending_retry c.
Proof.
  intros He. revert c. induction He as [|e es He _ IH]; intros c Hc; [simpl; lia|]. simpl.
  set (c' := client_step maxRetries base c e).
  cut ((match e, retryTimer c with timer_fires, Some _ => if intentionalClose c then 0 else 1 | _, _ => 0 end) +
    retryCount c + pending_retry c' <= retryCount c' + pending_retry c /\ retryCount c' <= maxRetries).
  { intros [H1 H2]. specialize (IH c' H2). lia. }
  subst c'. unfold pending_retry. destruct e as [|raw| |code reason| |content|]; cbn [client_step].
  - done.
  - destruct (ws c); try lia. unfold onmessage. destruct (_ ≫= _); simpl; lia.
  - destruct (ws c); simpl; lia.
  - destruct (ws c); try lia; unfold onclose, scheduleReconnect; simpl;
      destruct (intentionalClose c) eqn:Ei; simpl; try lia; destruct (code =? 1000)%Z; simpl; rewrite ?Ei, ?orb_false_r;
      destruct (Nat.leb_spec maxRetries (retryCount c)); simpl; destruct (retryTimer c); lia.
  - destruct (retryTimer c) eqn:Et; [|rewrite Et; lia]. unfold connect. simpl. destruct (intentionalClose c); simpl; lia.
  - unfold sendMessage. destruct (ws c); simpl; lia.
  - simpl. destruct (retryTimer c); lia.
Qed.


(** ** Witnesses *)

Definition demo_chat : ChatState := chatReducer initialChatState (SEND_USER "user_1" "hi").
Definition demo_stream : list ChatEvent :=
  [message_started "msg_1" "run_1" "ses_1"; token "Hel" "msg_1" "run_1" "ses_1";
   tool_call_started "tc_1" "run_1" "ses_1" "add";
   tool_call_completed "tc_1" "run_1" "ses_1" "add" tc_completed;
   token "lo" "msg_1" "run_1" "ses_1"; message_completed "msg_1" "run_1" "ses_1"]%string.

Lemma complete_run_is_displayed_witness :
  map view (messages (receive_all demo_stream demo_chat))
  = [("user_1", chat_user, "hi", complete); ("msg_1", chat_assistant, "Hello", complete)]%string.
Proof.
  apply (complete_run_is_displayed "msg_1" demo_stream demo_chat);
    [repeat constructor; discriminate|repeat constructor|reflexivity].
Defined.

Definition demo_seen : list ChatEvent :=
  message_started "msg_1" "run_1" "ses_1" :: told "msg_1" "run_1" "ses_1" ["Hel"]%string.
Definition demo_replayed : list ChatEvent :=
  message_started "msg_1" "run_1" "ses_1" :: told "msg_1" "run_1" "ses_1" ["Hel"; "lo"]%string
    ++ [message_completed "msg_1" "run_1" "ses_1"].

Lemma reconnection_duplicates_message_witness :
  map view (messages (receive_all (demo_seen ++ demo_replayed) demo_chat))
  = [("user_1", chat_user, "hi", complete); ("msg_1", chat_assistant, "HelHello", complete);
     ("msg_1", chat_assistant, "Hello", complete)]%string.
Proof.
  apply (reconnection_duplicates_message "msg_1" "run_1" "ses_1" ["Hel"; "lo"]%string 1 demo_chat).
  repeat constructor; discriminate.
Defined.

(** The demonstration's run speaks, and the page stays empty. *)
Definition demo_said : list ChatEvent :=
  l_events (final (demo_outside false) accept_all demo_registry (fun _ => None) (demo_ctx None) "" demo_options
    (Some "msg_user"%string) 0 demo_prepared_db).2.

Lemma text_of_the_loop_is_not_displayed_witness :
  texts demo_said <> ""%string /\
  map view (messages (receive_all demo_said demo_chat))
  = [("user_1", chat_user, "hi", complete); ("msg_user", chat_assistant, "", streaming)]%string.
Proof.
  split; [vm_compute; discriminate|].
  refine (eq_trans (proj2 (text_of_the_loop_is_not_displayed (demo_outside false) accept_all demo_registry (fun _ => None)
    (demo_ctx None) "" demo_options (Some "msg_user"%string) 0 demo_prepared_db demo_chat _ _ _)) _).
  - vm_compute. reflexivity.
  - vm_compute. discriminate.
  - split; repeat constructor; discriminate.
  - vm_compute. reflexivity.
Defined.
