(* ===== verification/Generator.v ===== *)
(** The project generator (packages/create-swift-agent/src/generate.ts,
    options.ts, cli.ts): flags and prompts, the substitution of the templates,
    and the generation over a disk whose operations may fail.

    A path is a text; what was under the target directory before is there too.
    The flag parser of Node is an argument.  No template has the name of a
    member of [Object.prototype]. *)
From S2P Require Import Prelude Json Shared Effects.
Local Open Scope eff_scope.

(** ** Providers and names (generate.ts) *)

Inductive ProviderId : Type := p_anthropic | p_openai | p_google.

Record ProviderTemplate := { pt_model : string; pt_keyEnv : string }.

Definition PROVIDERS (p : ProviderId) : ProviderTemplate :=
  match p with
  | p_anthropic => {| pt_model := "anthropic/claude-sonnet"; pt_keyEnv := "ANTHROPIC_API_KEY" |}
  | p_openai => {| pt_model := "openai/gpt-4o"; pt_keyEnv := "OPENAI_API_KEY" |}
  | p_google => {| pt_model := "google/gemini-1.5-flash"; pt_keyEnv := "GOOGLE_API_KEY" |}
  end.

Definition PROVIDER_IDS : list string := ["anthropic"; "openai"; "google"].

(** [isProviderId], with the id. *)
Definition provider_id (value : string) : option ProviderId :=
  if String.eqb value "anthropic" then Some p_anthropic
  else if String.eqb value "openai" then Some p_openai
  else if String.eqb value "google" then Some p_google else None.

Definition between (a b c : ascii) : bool :=
  (nat_of_ascii a <=? nat_of_ascii c)%nat && (nat_of_ascii c <=? nat_of_ascii b)%nat.
Definition name_start (c : ascii) : bool := between "a" "z" c || between "0" "9" c.
Definition name_char (c : ascii) : bool := name_start c || existsb (Ascii.eqb c) ["."; "_"; "-"]%char.

(** [/^[a-z0-9][a-z0-9._-]*$/]. *)
Definition name_matches (name : string) : bool :=
  match list_ascii_of_string name with
  | [] => false
  | c :: t => name_start c && forallb name_char t
  end.

Definition validateProjectName (name : string) : option string :=
  if String.eqb name "" then Some "Project name is required."
  else if (100 <? String.length name)%nat then Some "Project name must be 100 characters or fewer."
  else if negb (name_matches name) then
    Some ("Invalid project name " +:+ quoted name +:+ ": use lowercase letters, digits, " +:+ quoted "." +:+ ", " +:+
      quoted "_" +:+ " and " +:+ quoted "-" +:+
      ", starting with a letter or digit (it becomes a directory and an npm package name).")
  else None.

(** ** Substitution *)

(** The first occurrence of a text: what is before it and after it. *)
Fixpoint find_text (token s : text) : option (text * text) :=
  match strip token s with
  | Some after => Some ([], after)
  | None => match s with
            | [] => None
            | c :: s => p ← find_text token s; Some (c :: p.1, p.2)
            end
  end.

(** The replacement patterns of [String.prototype.replace]. *)
Fixpoint expand (matched before after r : text) : text :=
  match r with
  | "$"%char :: "$"%char :: r => "$"%char :: expand matched before after r
  | "$"%char :: "&"%char :: r => matched ++ expand matched before after r
  | "$"%char :: "`"%char :: r => before ++ expand matched before after r
  | "$"%char :: "'"%char :: r => after ++ expand matched before after r
  | c :: r => c :: expand matched before after r
  | [] => []
  end.

(** [s.replace(token, value)]. *)
Definition replace_first (token value s : text) : text :=
  match find_text token s with
  | Some (before, after) => before ++ expand token before after value ++ after
  | None => s
  end.

(** [s.replaceAll(token, value)] where [value] has no pattern: the names, the
    models and the variables that are substituted hold no dollar. *)
Fixpoint replace_all (fuel : nat) (token value s : text) : text :=
  match fuel with
  | O => s
  | S fuel => match find_text token s with
              | Some (before, after) => before ++ value ++ replace_all fuel token value after
              | None => s
              end
  end.

Definition replaceAll (token value s : string) : string :=
  on_text (fun t => replace_all (S (length t)) (list_ascii_of_string token) (list_ascii_of_string value) t) s.

Definition replace (token value s : string) : string :=
  on_text (replace_first (list_ascii_of_string token) (list_ascii_of_string value)) s.

Definition substitute (vars : list (string * string)) (content : string) : string :=
  fold_left (fun out v => replaceAll v.1 v.2 out) vars content.

(** ** The disk *)

Record Disk := { files : gmap string string; dirs : gset string; operations : nat }.

(** The templates: a file with its text, or a directory. *)
Inductive entry : Type :=
| template (name content : string)
| folder (name : string) (children : list entry).

Definition entry_name (e : entry) : string := match e with template n _ | folder n _ => n end.

Definition RENAMES (name : string) : string :=
  if String.eqb name "_gitignore" then ".gitignore"
  else if String.eqb name "env.example" then ".env.example" else name.

Definition join_path (dir name : string) : string := dir +:+ "/" +:+ name.

(** The directories above a path, but for the root; [before] is reversed. *)
Fixpoint parents_from (before t : text) : list text :=
  match t with
  | [] => []
  | c :: t => (if Ascii.eqb c "/" then match before with [] => [] | _ => [rev before] end else []) ++
              parents_from (c :: before) t
  end.
Definition parents (path : string) : list string :=
  map string_of_list_ascii (parents_from [] (list_ascii_of_string path)).

Section generate.
(** What the n-th operation throws, if it does. *)
Context (fails : nat -> option error).

Abbreviation D := (M Disk error).

Definition op {A} (m : D A) : D A := fun d =>
  let d' := {| files := files d; dirs := dirs d; operations := S (operations d) |} in
  match fails (operations d) with Some e => (Throw e, d') | None => m d' end.

Definition file_exists (path : string) (d : Disk) : bool :=
  bool_decide (is_Some (files d !! path)) || bool_decide (path ∈ dirs d).

(** One directory, on the way to [path]. *)
Definition make_directory (path dir : string) : D unit := op (fun d =>
  if bool_decide (is_Some (files d !! dir))
  then (Throw (PlainError "Error"
          ((if String.eqb dir path then "EEXIST: file already exists, mkdir '" else "ENOTDIR: not a directory, mkdir '")
           +:+ path +:+ "'")), d)
  else (Ret tt, {| files := files d; dirs := {[dir]} ∪ dirs d; operations := operations d |})).

(** [mkdirSync(path, { recursive: true })]: with the parents that are missing. *)
Definition mkdirSync (path : string) : D unit := for_each (parents path ++ [path]) (make_directory path).

Definition writeFileSync (path content : string) : D unit := op (fun d =>
  if bool_decide (path ∈ dirs d)
  then (Throw (PlainError "Error" ("EISDIR: illegal operation on a directory, open '" +:+ path +:+ "'")), d)
  else (Ret tt, {| files := <[path := content]> (files d); dirs := dirs d; operations := operations d |})).

Definition readFileSync (path : string) : D string := op (fun d =>
  match files d !! path with
  | Some content => (Ret content, d)
  | None => (Throw (PlainError "Error" ("ENOENT: no such file or directory, open '" +:+ path +:+ "'")), d)
  end).

(** A path is [dir], or below it. *)
Definition under (dir path : string) : bool := String.eqb path dir || starts_with (dir +:+ "/") path.

(** [rmSync(path, { recursive: true, force: true })]. *)
Definition rmSync (path : string) : D unit := op (fun d =>
  (Ret tt, {| files := filter (fun f => under path f.1 = false) (files d);
              dirs := filter (fun p => under path p = false) (dirs d); operations := operations d |})).

(** Reading a template or its directory, which are not on this disk. *)
Definition read_template : D unit := op (ret tt).

(** [copyTree] on one entry of a directory, and on a directory: the paths that
    are written, relative to the project. *)
Fixpoint copy_entry (vars : list (string * string)) (destDir relBase : string) (e : entry) : D (list string) :=
  let destName := RENAMES (entry_name e) in
  let dest := join_path destDir destName in
  let rel := if String.eqb relBase "" then destName else relBase +:+ "/" +:+ destName in
  match e with
  | template _ content =>
      read_template ;;;
      writeFileSync dest (substitute vars content) ;;; ret [rel]
  | folder _ children =>
      mkdirSync dest ;;;
      read_template ;;;
      (fix copy_children (es : list entry) : D (list string) :=
         match es with
         | [] => ret []
         | e :: es => w <~ copy_entry vars dest rel e ;; ws <~ copy_children es ;; ret (w ++ ws)
         end) children
  end.

Definition copyTree (vars : list (string * string)) (destDir : string) (es : list entry) : D (list string) :=
  mkdirSync destDir ;;;
  read_template ;;;
  (fix copy_children (es : list entry) : D (list string) :=
     match es with
     | [] => ret []
     | e :: es => w <~ copy_entry vars destDir "" e ;; ws <~ copy_children es ;; ret (w ++ ws)
     end) es.

(** ** Generation *)

Record GenerateOptions := {
  go_name : string; go_provider : ProviderId; go_providerKey : option string;
  go_targetDir : string; go_templatesDir : string }.

Definition projectDir (o : GenerateOptions) : string := join_path (go_targetDir o) (go_name o).

Definition template_vars (o : GenerateOptions) : list (string * string) :=
  [("__PROJECT_NAME__", go_name o); ("__DEFAULT_MODEL__", pt_model (PROVIDERS (go_provider o)));
   ("__PROVIDER_KEY_ENV__", pt_keyEnv (PROVIDERS (go_provider o)))].

(** The text of [.env]. *)
Definition env_text (o : GenerateOptions) (envExample : string) : string :=
  let key := pt_keyEnv (PROVIDERS (go_provider o)) +:+ "=" in
  match go_providerKey o with
  | Some k => if String.eqb k "" then envExample else replace key (key +:+ k) envExample
  | None => envExample
  end.

Definition write_project (o : GenerateOptions) (templates : list entry) : D (list string) :=
  written <~ copyTree (template_vars o) (projectDir o) templates ;;
  envExample <~ readFileSync (join_path (projectDir o) ".env.example") ;;
  writeFileSync (join_path (projectDir o) ".env") (env_text o envExample) ;;;
  mkdirSync (join_path (projectDir o) ".swiftagent-local") ;;;
  ret (written ++ [".env"]).

(** The files that are written, sorted; [templates]: what the packaged
    directory holds, [None] when it is not there. *)
Definition generateProject (o : GenerateOptions) (templates : option (list entry)) : D (list string) :=
  match validateProjectName (go_name o) with
  | Some message => throw (PlainError "Error" message)
  | None =>
      taken <~ gets (file_exists (projectDir o)) ;;
      if (taken : bool) then
        throw (PlainError "Error" ("Directory " +:+ quoted (go_name o) +:+ " already exists in " +:+ go_targetDir o
          +:+ " — choose a different project name or remove the existing directory."))
      else match templates with
      | None => throw (PlainError "Error" ("Template directory not found: " +:+ go_templatesDir o +:+
                  " (broken installation?)"))
      | Some templates =>
          written <~ try_catch (write_project o templates)
            (fun e => swallow (rmSync (projectDir o)) ;;; throw e) ;;
          ret (sorted_names written)
      end
  end.
End generate.

(** ** Flags and prompts (options.ts) *)

(** What [parseArgs] returns for the declared flags. *)
Record ParsedArgs := {
  pa_name : option string; pa_provider : option string; pa_provider_key : option string;
  pa_yes : bool; pa_no_install : bool; pa_help : bool; pa_positionals : list string }.

Record CliOptions := {
  cli_name : option string; cli_provider : option string; cli_providerKey : option string;
  cli_yes : bool; cli_install : bool; cli_help : bool }.

Section cli.
Context (parseArgs : list string -> res error ParsedArgs).

Definition parseCliArgs (argv : list string) : res error CliOptions :=
  let? a := parseArgs argv in
  match pa_name a, pa_positionals a with
  | Some n, p :: _ as ps =>
      if negb (String.eqb p n) then
        Err (PlainError "Error" ("Conflicting project names: positional " +:+ quoted p +:+ " vs --name " +:+
          quoted n +:+ "."))
      else match ps with
      | _ :: _ :: _ => Err (PlainError "Error" ("Unexpected extra arguments: " +:+ join " " (tail ps)))
      | _ => Ok {| cli_name := Some n; cli_provider := pa_provider a; cli_providerKey := pa_provider_key a;
                   cli_yes := pa_yes a; cli_install := negb (pa_no_install a); cli_help := pa_help a |}
      end
  | name, ps =>
      match ps with
      | _ :: _ :: _ => Err (PlainError "Error" ("Unexpected extra arguments: " +:+ join " " (tail ps)))
      | _ => Ok {| cli_name := match name with Some n => Some n | None => head ps end;
                   cli_provider := pa_provider a; cli_providerKey := pa_provider_key a;
                   cli_yes := pa_yes a; cli_install := negb (pa_no_install a); cli_help := pa_help a |}
      end
  end.

Record ResolvedOptions := { ro_name : string; ro_provider : ProviderId; ro_providerKey : option string }.

Definition DEFAULT_PROVIDER : ProviderId := p_anthropic.

Definition unknown_provider (answer : string) : string :=
  "Unknown provider " +:+ quoted answer +:+ " — expected one of: " +:+ join ", " PROVIDER_IDS +:+ ".".

(** The lines that the prompter is given; a question with no line left is
    never answered. *)
Inductive asked (A : Type) : Type := answered_with (a : A) (rest : list string) | blocked.
Arguments answered_with {A}. Arguments blocked {A}.

Fixpoint ask_name (lines : list string) : asked string :=
  match lines with
  | [] => blocked
  | l :: lines => match validateProjectName (trim l) with
                  | None => answered_with (trim l) lines
                  | Some _ => ask_name lines
                  end
  end.

Fixpoint ask_provider (lines : list string) : asked ProviderId :=
  match lines with
  | [] => blocked
  | l :: lines =>
      if String.eqb (trim l) "" then answered_with DEFAULT_PROVIDER lines
      else match provider_id (trim l) with
           | Some p => answered_with p lines
           | None => ask_provider lines
           end
  end.

Definition ask_key (lines : list string) : asked (option string) :=
  match lines with
  | [] => blocked
  | l :: lines => answered_with (if String.eqb (trim l) "" then None else Some (trim l)) lines
  end.

Definition unless_given {A} (given : option A) (ask : list string -> asked A) (lines : list string) : asked A :=
  match given with Some a => answered_with a lines | None => ask lines end.

Definition prompt (name : option string) (provider : option ProviderId) (key : option string)
    (lines : list string) : option ResolvedOptions :=
  match unless_given name ask_name lines with
  | blocked => None
  | answered_with n lines =>
      match unless_given provider ask_provider lines with
      | blocked => None
      | answered_with p lines =>
          match unless_given (Some <$> key) ask_key lines with
          | blocked => None
          | answered_with k _ => Some {| ro_name := n; ro_provider := p; ro_providerKey := k |}
          end
      end
  end.

Definition NAME_REQUIRED : string :=
  "A project name is required in non-interactive mode: create-swift-agent <name> [--provider anthropic|openai|google] [--provider-key <key>] --yes".

(** [None] when it waits for an answer for ever; [prompter]: the lines, when it
    is interactive. *)
Definition resolveOptions (parsed : CliOptions) (prompter : option (list string)) :
    option (res error ResolvedOptions) :=
  match cli_provider parsed, cli_provider parsed ≫= provider_id with
  | Some p, None => Some (Err (PlainError "Error" (unknown_provider p)))
  | _, provider =>
      match cli_name parsed ≫= validateProjectName with
      | Some message => Some (Err (PlainError "Error" message))
      | None =>
          match prompter with
          | None =>
              match cli_name parsed with
              | None => Some (Err (PlainError "Error" NAME_REQUIRED))
              | Some n => Some (Ok {| ro_name := n; ro_provider := provider ?? DEFAULT_PROVIDER;
                                      ro_providerKey := cli_providerKey parsed |})
              end
          | Some lines => Ok <$> prompt (cli_name parsed) provider (cli_providerKey parsed) lines
          end
      end
  end.

(** ** The command (cli.ts) *)

(** [npm install] in a directory of the project. *)
Context (npmInstall : string -> bool) (fails : nat -> option error).

(** The status that it exits with, [None] while it waits, and the disk. *)
Definition main (argv : list string) (isTTY : bool) (lines : list string) (cwd templatesDir : string)
    (templates : option (list entry)) (d : Disk) : option Z * Disk :=
  match parseCliArgs argv with
  | Err _ => (Some 1, d)
  | Ok parsed =>
      if cli_help parsed then (Some 0, d)
      else match resolveOptions parsed (if negb (cli_yes parsed) && isTTY then Some lines else None) with
      | None => (None, d)
      | Some (Err _) => (Some 1, d)
      | Some (Ok r) =>
          let o := {| go_name := ro_name r; go_provider := ro_provider r; go_providerKey := ro_providerKey r;
                      go_targetDir := cwd; go_templatesDir := templatesDir |} in
          match generateProject fails o templates d with
          | (Ret _, d) =>
              let installOk := npmInstall (join_path (projectDir o) "backend") &&
                               npmInstall (join_path (projectDir o) "frontend") in
              (Some (if cli_install parsed && negb installOk then 1 else 0), d)
          | (_, d) => (Some 1, d)
          end
      end
  end%Z.
End cli.
