(* ===== verification/GeneratorProps.v ===== *)
(** What the generator guarantees: a project is written whole or not at all,
    and nothing else on the disk is touched; the provider's key stays in
    [.env]; the options that reach the generator are valid ones. *)
From S2P Require Import Prelude Json Shared Effects Generator.
Local Open Scope eff_scope.

(** ** What it may touch *)

(** Outside of [dir] the files are the same, and the directories but for parents of
    [dir] that were missing. *)
Definition same_outside (dir : string) (d d' : Disk) : Prop :=
  forall p, under dir p = false -> files d' !! p = files d !! p /\
    (p ∈ dirs d -> p ∈ dirs d') /\ (p ∈ dirs d' -> p ∈ dirs d \/ p ∈ parents dir).

#[export] Instance same_outside_refl dir : Reflexive (same_outside dir).
Proof. intros d p. split; [done|]. split; [done|by left]. Qed.
#[export] Instance same_outside_trans dir : Transitive (same_outside dir).
Proof.
  intros a b c H1 H2 p Hp. destruct (H1 p Hp) as (E1 & A1 & B1), (H2 p Hp) as (E2 & A2 & B2).
  split; [congruence|]. split; [auto|]. intros H. destruct (B2 H); auto.
Qed.

Lemma text_assoc a b c : (a +:+ b) +:+ c = a +:+ (b +:+ c).
Proof. induction a as [|x a IH]; [done|]. exact (f_equal (String x) IH). Qed.

Lemma prefix_iff a b : String.prefix a b = true <-> exists c, b = a +:+ c.
Proof.
  split.
  - revert b. induction a as [|x a IH]; intros b H; [by exists b|]. destruct b as [|y b]; [done|].
    simpl in H. destruct (ascii_dec x y) as [->|]; [|done]. apply IH in H as [c ->]. by exists c.
  - intros [c ->]. induction a as [|x a IH]; simpl; [by destruct c|]. by destruct (ascii_dec x x).
Qed.

Lemma under_iff dir p : under dir p = true <-> p = dir \/ exists c, p = dir +:+ ("/" +:+ c).
Proof.
  unfold under, starts_with. rewrite orb_true_iff, prefix_iff, String.eqb_eq.
  by setoid_rewrite text_assoc.
Qed.

Lemma under_join dir p name : under dir p = true -> under dir (join_path p name) = true.
Proof.
  unfold join_path. rewrite !under_iff. intros [->|[c ->]]; right; [by exists name|].
  exists (c +:+ ("/" +:+ name)). by rewrite !text_assoc.
Qed.

Lemma under_self dir : under dir dir = true.
Proof. apply under_iff. by left. Qed.

(** What is above a path under [dir] is under it or above it. *)
Lemma parents_from_app b s t : parents_from b (s ++ t) = parents_from b s ++ parents_from (rev s ++ b) t.
Proof.
  revert b. induction s as [|c s IH]; intros b; [done|]. simpl. rewrite IH, <- !app_assoc. done.
Qed.

Lemma parents_from_below b t a : a ∈ parents_from b t -> exists u, a = rev b ++ u.
Proof.
  revert b. induction t as [|c t IH]; intros b; simpl; [by intros ?%elem_of_nil|]. rewrite elem_of_app. intros [H|H].
  - destruct (Ascii.eqb c "/"); [|by apply elem_of_nil in H]. destruct b; [by apply elem_of_nil in H|].
    apply list_elem_of_singleton in H as ->. exists []. by rewrite app_nil_r.
  - apply IH in H as [u ->]. simpl. exists (c :: u). by rewrite <- app_assoc.
Qed.

Lemma list_of_app a b : list_ascii_of_string (a +:+ b) = list_ascii_of_string a ++ list_ascii_of_string b.
Proof. induction a as [|c a IH]; [done|]. simpl. by rewrite IH. Qed.

Lemma string_of_app a b : string_of_list_ascii (a ++ b) = string_of_list_ascii a +:+ string_of_list_ascii b.
Proof. induction a as [|c a IH]; [done|]. simpl. by rewrite IH. Qed.

Lemma parents_under dir p a : under dir p = true -> a ∈ parents p -> under dir a = true \/ a ∈ parents dir.
Proof.
  rewrite !under_iff. intros [->|[c ->]] H; [by right|]. unfold parents in *. rewrite list_of_app, parents_from_app in H.
  apply list_elem_of_fmap in H as (t & -> & H). apply elem_of_app in H as [H|H].
  { right. apply list_elem_of_fmap. by exists t. }
  left. rewrite app_nil_r in H. simpl in H.
  assert (Ht : t = list_ascii_of_string dir \/ exists u, t = list_ascii_of_string dir ++ "/"%char :: u).
  { apply elem_of_app in H as [H|H].
    - destruct (rev (list_ascii_of_string dir)) eqn:E; [by apply elem_of_nil in H|].
      apply list_elem_of_singleton in H as ->. left. rewrite <- E. apply rev_involutive.
    - apply parents_from_below in H as [u ->]. right. exists u. simpl. by rewrite rev_involutive, <- app_assoc. }
  destruct Ht as [->|[u ->]]; [left; apply string_of_list_ascii_of_string|right].
  exists (string_of_list_ascii u). by rewrite string_of_app, string_of_list_ascii_of_string.
Qed.

Section touched.
Context (fails : nat -> option error).

Lemma op_moves {A} dir (m : M Disk error A) : moves (same_outside dir) m -> moves (same_outside dir) (op fails m).
Proof.
  intros Hm d. unfold op. destruct (fails _); simpl; [apply (same_outside_refl dir d)|].
  etrans; [|apply Hm]. apply (same_outside_refl dir d).
Qed.

Lemma make_directory_moves dir path p :
  under dir p = true \/ p ∈ parents dir -> moves (same_outside dir) (make_directory fails path p).
Proof.
  intros Hp. apply op_moves. intros d. case_bool_decide; simpl; [done|]. intros q Hq. simpl.
  split; [done|]. split; [set_solver|]. rewrite elem_of_union, elem_of_singleton. intros [->|Hin]; [|by left].
  destruct Hp as [Hp|Hp]; [by rewrite Hp in Hq|by right].
Qed.

Lemma for_each_moves {A} dir (l : list A) (f : A -> M Disk error unit) :
  (forall x, x ∈ l -> moves (same_outside dir) (f x)) -> moves (same_outside dir) (for_each l f).
Proof.
  intros H. induction l as [|x l IH]; simpl; [apply moves_ret, _|].
  apply_move @moves_bind; [apply H; by left|]. intros _. apply IH. intros y Hy. apply H. by right.
Qed.

Lemma mkdir_moves dir p : under dir p = true -> moves (same_outside dir) (mkdirSync fails p).
Proof.
  intros Hp. apply for_each_moves. intros a Ha. apply make_directory_moves.
  apply elem_of_app in Ha as [Ha|Ha]; [by eapply parents_under|]. apply list_elem_of_singleton in Ha as ->. by left.
Qed.

Lemma write_moves dir p content : under dir p = true -> moves (same_outside dir) (writeFileSync fails p content).
Proof.
  intros Hp. apply op_moves. intros d. case_bool_decide; simpl; [done|]. intros q Hq. simpl. split; [|split; [done|by left]].
  rewrite lookup_insert_ne; [done|]. intros ->. by rewrite Hp in Hq.
Qed.

Lemma rm_moves dir : moves (same_outside dir) (rmSync fails dir).
Proof.
  apply op_moves. intros d q Hq. simpl. rewrite elem_of_filter. split; [|split; [done|by intros [_ H]; left]].
  destruct (files d !! q) as [c|] eqn:E.
  - apply map_lookup_filter_Some. done.
  - apply map_lookup_filter_None. by left.
Qed.

(** Entries are nested: what holds of every tree of templates. *)
Fixpoint entry_nested_ind (Q : entry -> Prop) (Hf : forall n c, Q (template n c))
    (Hd : forall n es, Forall Q es -> Q (folder n es)) (e : entry) : Q e :=
  match e with
  | template n c => Hf n c
  | folder n es => Hd n es ((fix go (es : list entry) : Forall Q es :=
      match es with [] => Forall_nil_2 _ | e :: es => Forall_cons_2 _ _ _ (entry_nested_ind Q Hf Hd e) (go es) end) es)
  end.

Ltac disk_step :=
  first [ apply mkdir_moves | apply write_moves | apply op_moves | move_step ].

Lemma copy_entry_moves dir vars dest rel e :
  under dir dest = true -> moves (same_outside dir) (copy_entry fails vars dest rel e).
Proof.
  revert dest rel. induction e as [n c|n es IH] using entry_nested_ind; intros dest rel Hd; simpl.
  - repeat disk_step. by apply under_join.
  - set (path := join_path dest (RENAMES n)). set (rel' := if String.eqb rel "" then _ else _).
    assert (Hp : under dir path = true) by by apply under_join.
    repeat first [exact Hp | disk_step].
    induction IH as [|e es He _ IHes]; [apply moves_ret, _|].
    apply_move @moves_bind; [by apply He|]. intros w. apply_move @moves_bind; [exact IHes|]. intros ws. disk_step.
Qed.

Lemma copyTree_moves dir vars es : moves (same_outside dir) (copyTree fails vars dir es).
Proof.
  unfold copyTree. repeat first [apply under_self | disk_step].
  induction es as [|e es IH]; [apply moves_ret, _|].
  apply_move @moves_bind; [by apply copy_entry_moves, under_self|]. intros w.
  apply_move @moves_bind; [exact IH|]. intros ws. disk_step.
Qed.

Lemma write_project_moves o ts : moves (same_outside (projectDir o)) (write_project fails o ts).
Proof.
  unfold write_project. apply_move @moves_bind; [apply copyTree_moves|]. intros w.
  repeat first [by apply under_join, under_self | disk_step].
  intros d. by destruct (files d !! _).
Qed.

Lemma generate_moves o ts : moves (same_outside (projectDir o)) (generateProject fails o ts).
Proof.
  unfold generateProject.
  repeat first [apply write_project_moves | apply rm_moves | move_step].
Qed.
End touched.

(** ** What is written *)

Definition writes (l : list (string * string)) (m : gmap string string) : gmap string string :=
  fold_left (fun m f => <[f.1 := f.2]> m) l m.

Lemma writes_app l l' m : writes (l ++ l') m = writes l' (writes l m).
Proof. apply fold_left_app. Qed.

(** The files of an entry: the path of each, and its text. *)
Fixpoint rendered (vars : list (string * string)) (dest : string) (e : entry) : list (string * string) :=
  match e with
  | template n content => [(join_path dest (RENAMES n), substitute vars content)]
  | folder n es => flat_map (rendered vars (join_path dest (RENAMES n))) es
  end.

(** When it returns, it has written the files of the list. *)
Definition yields {A} (m : M Disk error A) (l : list (string * string)) : Prop :=
  forall f, post (fun d => files d = f) m (fun o d => match o with Ret _ => files d = writes l f | Throw _ => True | Torn => False end).

Lemma yields_ret {A} (a : A) : yields (ret a) [].
Proof. by intros f d Hd. Qed.

Lemma yields_bind {A B} (m : M Disk error A) (k : A -> M Disk error B) l l' :
  yields m l -> (forall a, yields (k a) l') -> yields (bind m k) (l ++ l').
Proof.
  intros Hm Hk f. eapply post_bind; [apply Hm| |done..]. intros a d Hd. rewrite writes_app. by apply (Hk a).
Qed.

Section written.
Context (fails : nat -> option error).

Lemma op_yields {A} (m : M Disk error A) l : yields m l -> yields (op fails m) l.
Proof. intros Hm f d Hd. unfold op. destruct (fails _); [done|]. by apply Hm. Qed.

Lemma mkdir_yields p : yields (mkdirSync fails p) [].
Proof.
  unfold mkdirSync. induction (parents p ++ [p]) as [|x l IH]; simpl; [apply yields_ret|].
  apply (yields_bind _ _ [] []); [|intros _; exact IH]. apply op_yields. intros f d Hd. by case_bool_decide.
Qed.

Lemma write_yields p content : yields (writeFileSync fails p content) [(p, content)].
Proof. apply op_yields. intros f d <-. by case_bool_decide. Qed.

Lemma read_template_yields : yields (read_template fails) [].
Proof. apply op_yields, yields_ret. Qed.

(** A computation that yields [l], piece by piece. *)
Lemma yields_skip {A B} (m : M Disk error A) (k : A -> M Disk error B) l :
  yields m [] -> (forall a, yields (k a) l) -> yields (bind m k) l.
Proof. apply yields_bind. Qed.

Lemma yields_last {A B} (m : M Disk error A) (k : A -> M Disk error B) l :
  yields m l -> (forall a, yields (k a) []) -> yields (bind m k) l.
Proof. intros Hm Hk. rewrite <- (app_nil_r l). by apply yields_bind. Qed.

Lemma copy_entry_yields vars dest rel e : yields (copy_entry fails vars dest rel e) (rendered vars dest e).
Proof.
  revert dest rel. induction e as [n c|n es IH] using entry_nested_ind; intros dest rel; simpl.
  - apply yields_skip; [apply read_template_yields|]. intros _.
    apply yields_last; [apply write_yields|]. intros _. apply yields_ret.
  - apply yields_skip; [apply mkdir_yields|]. intros _. apply yields_skip; [apply read_template_yields|]. intros _.
    induction IH as [|e es He _ IHes]; [apply yields_ret|]. simpl.
    apply yields_bind; [apply He|]. intros w. apply yields_last; [exact IHes|]. intros ws. apply yields_ret.
Qed.

Definition project_files (o : GenerateOptions) (ts : list entry) : list (string * string) :=
  flat_map (rendered (template_vars o) (projectDir o)) ts.

Lemma copyTree_yields o ts : yields (copyTree fails (template_vars o) (projectDir o) ts) (project_files o ts).
Proof.
  unfold copyTree, project_files. apply yields_skip; [apply mkdir_yields|]. intros _.
  apply yields_skip; [apply read_template_yields|]. intros _.
  induction ts as [|e ts IH]; [apply yields_ret|]. simpl.
  apply yields_bind; [apply copy_entry_yields|]. intros w. apply yields_last; [exact IH|]. intros ws. apply yields_ret.
Qed.

(** The disk once the project is there. *)
Definition generated (o : GenerateOptions) (ts : list entry) (f f' : gmap string string) : Prop :=
  exists example, writes (project_files o ts) f !! join_path (projectDir o) ".env.example" = Some example /\
    f' = writes (project_files o ts ++ [(join_path (projectDir o) ".env", env_text o example)]) f.

Lemma read_post p f :
  post (fun d => files d = f) (readFileSync fails p)
    (fun r d => match r with Ret c => f !! p = Some c /\ files d = f | Throw _ => True | Torn => False end).
Proof.
  intros d <-. unfold readFileSync, op. destruct (fails _); [done|]. simpl. by destruct (files d !! p) eqn:E.
Qed.

Lemma write_project_generated o ts f :
  post (fun d => files d = f) (write_project fails o ts)
    (fun r d => match r with Ret _ => generated o ts f (files d) | Throw _ => True | Torn => False end).
Proof.
  unfold write_project. eapply post_bind; [apply copyTree_yields| |done..]. intros w.
  eapply post_bind; [apply read_post| |done..]. intros example d [Hx Hd].
  pose proof (yields_last _ (fun _ => mkdirSync fails (join_path (projectDir o) ".swiftagent-local") ;;; ret (w ++ [".env"]))
    _ (write_yields (join_path (projectDir o) ".env") (env_text o example))
    (fun _ => yields_skip _ _ _ (mkdir_yields _) (fun _ => yields_ret _)) (files d) d eq_refl) as H.
  destruct (bind _ _ d) as [[ws|e|] d']; simpl in *; [|done..]. exists example. split; [done|].
  by rewrite writes_app, <- Hd.
Qed.
End written.

(** ** All or nothing *)

Section project.
Context (fails : nat -> option error).

(** The disk is a tree: nothing is under a directory that is not there. *)
Definition rooted (dir : string) (d : Disk) : Prop :=
  file_exists dir d = false -> forall p, under dir p = true -> files d !! p = None /\ ~ (p ∈ dirs d).

Lemma rm_result dir d d' r :
  rmSync fails dir d = (r, d') -> r <> Torn /\ operations d' = S (operations d) /\
  (is_Some (fails (operations d)) \/ forall p, under dir p = true -> files d' !! p = None /\ ~ (p ∈ dirs d')).
Proof.
  unfold rmSync, op. destruct (fails (operations d)) as [e|]; intros [= <- <-]; (split; [done|]; split; [done|]); [by left; eexists|].
  right. intros p Hp. simpl. split.
  - apply map_lookup_filter_None. right. intros c _ H. simpl in H. by rewrite Hp in H.
  - rewrite elem_of_filter. intros [H _]. by rewrite Hp in H.
Qed.

(** A disk that holds nothing under [dir], as before, has the same files, and the
    same directories but for missing parents. *)
Lemma same_disk dir d d' :
  same_outside dir d d' -> (forall p, under dir p = true -> files d !! p = None /\ ~ (p ∈ dirs d)) ->
  (forall p, under dir p = true -> files d' !! p = None /\ ~ (p ∈ dirs d')) ->
  files d' = files d /\ dirs d ⊆ dirs d' /\ dirs d' ⊆ dirs d ∪ list_to_set (parents dir).
Proof.
  intros Ho H H'. split_and!.
  - apply map_eq. intros p. destruct (under dir p) eqn:E; [|by apply Ho].
    destruct (H p E) as [-> _]. by destruct (H' p E) as [-> _].
  - intros p Hp. destruct (under dir p) eqn:E; [by destruct (H p E)|by apply (Ho p E)].
  - intros p Hp. rewrite elem_of_union, elem_of_list_to_set.
    destruct (under dir p) eqn:E; [by destruct (H' p E)|by apply (Ho p E)].
Qed.

(** C35: a project is written whole or not at all.  Outside of the project's
    directory no file changes, and no directory but the parents of it that were
    missing and are made.  When the generator returns, the disk holds every
    template under its name, rendered, and the [.env]; when it throws -
    whatever operation failed, at whatever point - the disk is what it was, but
    for such parents, unless the removal failed too. *)
Theorem generation_is_all_or_nothing o ts d r d' :
  rooted (projectDir o) d -> generateProject fails o (Some ts) d = (r, d') ->
  same_outside (projectDir o) d d' /\
  match r with
  | Ret _ => generated o ts (files d) (files d')
  | Throw _ =>
      files d' = files d /\ dirs d ⊆ dirs d' /\ dirs d' ⊆ dirs d ∪ list_to_set (parents (projectDir o)) \/
      is_Some (fails (Nat.pred (operations d')))
  | Torn => False
  end.
Proof.
  intros Hroot E. pose proof (generate_moves fails o (Some ts) d) as Ho. rewrite E in Ho. split; [done|].
  unfold generateProject in E. destruct (validateProjectName _); [injection E as <- <-; left; set_solver|].
  unfold bind, gets at 1 in E. destruct (file_exists (projectDir o) d) eqn:Ex; [injection E as <- <-; left; set_solver|].
  unfold try_catch in E.
  pose proof (write_project_generated fails o ts (files d) d eq_refl) as Hg.
  pose proof (write_project_moves fails o ts d) as Hm.
  destruct (write_project fails o ts d) as [[ws|e|] d1] eqn:Ew; simpl in Hg, Hm, E.
  - injection E as <- <-. done.
  - unfold swallow, try_catch, bind in E. destruct (rmSync fails (projectDir o) d1) as [rr d2] eqn:Er.
    pose proof (rm_result _ _ _ _ Er) as (Ht & Hop & Hrm).
    assert (E' : r = Throw e /\ d' = d2) by (destruct rr; simpl in E; [by injection E as <- <-..|done]). clear E.
    destruct E' as [-> ->]. rewrite Hop. destruct Hrm as [Hf|Hrm]; [by right|]. left.
    exact (same_disk (projectDir o) d d2 Ho (Hroot Ex) Hrm).
  - done.
Qed.

(** ** The key *)

Definition with_key (k : option string) (o : GenerateOptions) : GenerateOptions :=
  {| go_name := go_name o; go_provider := go_provider o; go_providerKey := k;
     go_targetDir := go_targetDir o; go_templatesDir := go_templatesDir o |}.

(** Disks that differ at most in the text of one file. *)
Definition same_but (path : string) (d d' : Disk) : Prop :=
  (forall p, p <> path -> files d !! p = files d' !! p) /\ (is_Some (files d !! path) <-> is_Some (files d' !! path)) /\
  dirs d = dirs d' /\ operations d = operations d'.

Definition alike {A} (path : string) (r r' : outcome error A * Disk) : Prop :=
  r.1 = r'.1 /\ same_but path r.2 r'.2.

Lemma alike_refl {A} path (r : outcome error A * Disk) : alike path r r.
Proof. done. Qed.

Lemma alike_bind {A B} path (r r' : outcome error A * Disk) (k : A -> M Disk error B) m m' d d' :
  m d = r -> m' d' = r' -> alike path r r' ->
  (forall a e e', same_but path e e' -> alike path (k a e) (k a e')) ->
  alike path (bind m k d) (bind m' k d').
Proof.
  intros E E' [Ho Hs] Hk. unfold bind. rewrite E, E'. destruct r as [o1 e], r' as [o2 e']. simpl in *. subst o2.
  destruct o1; [by apply Hk|done..].
Qed.

Lemma alike_op {A} path (m m' : M Disk error A) d d' :
  same_but path d d' -> (forall e e', same_but path e e' -> alike path (m e) (m' e')) ->
  alike path (op fails m d) (op fails m' d').
Proof.
  intros (H1 & H2 & H3 & H4) Hm. unfold op. rewrite H4. destruct (fails _); [|apply Hm]; repeat split; simpl; auto; tauto.
Qed.

Lemma alike_exists path d d' p : same_but path d d' -> is_Some (files d !! p) <-> is_Some (files d' !! p).
Proof. intros (H1 & H2 & _). destruct (decide (p = path)) as [->|Hp]; [done|by rewrite H1]. Qed.

Lemma alike_write path c c' d d' : same_but path d d' ->
  alike path (writeFileSync fails path c d) (writeFileSync fails path c' d').
Proof.
  intros H. apply alike_op; [done|]. intros e e' He. pose proof He as (H1 & H2 & H3 & H4). rewrite H3.
  case_bool_decide; [done|]. split; [done|]. split_and!; simpl; [|by rewrite !lookup_insert_eq|done..].
  intros p Hp. rewrite !lookup_insert_ne by done. by apply H1.
Qed.

Lemma alike_mkdir path p d d' : same_but path d d' -> alike path (mkdirSync fails p d) (mkdirSync fails p d').
Proof.
  unfold mkdirSync. generalize (parents p ++ [p]). intros l. revert d d'.
  induction l as [|x l IH]; intros d d' H; simpl; [done|].
  eapply alike_bind; [reflexivity|reflexivity| |by intros _; apply IH].
  apply alike_op; [done|]. intros e e' He. rewrite (bool_decide_ext _ _ (alike_exists _ _ _ x He)).
  case_bool_decide; [done|]. destruct He as (H1 & H2 & H3 & H4). split; [done|].
  split_and!; simpl; [done..|by rewrite H3|done].
Qed.

Lemma alike_rm path dir d d' : same_but path d d' -> alike path (rmSync fails dir d) (rmSync fails dir d').
Proof.
  intros H. apply alike_op; [done|]. intros e e' (H1 & H2 & H3 & H4). split; [done|].
  assert (Hp : forall f p, filter (fun f => under dir f.1 = false) f !! p
    = if under dir p then None else (f : gmap string string) !! p).
  { intros f p. destruct (under dir p) eqn:E.
    - apply map_lookup_filter_None. right. intros c _ Hc. simpl in Hc. by rewrite E in Hc.
    - destruct (f !! p) eqn:Ef; [by apply map_lookup_filter_Some|]. apply map_lookup_filter_None. by left. }
  split_and!; simpl; [| |by rewrite H3|done].
  - intros p Hne. rewrite !Hp. destruct (under dir p); [done|by apply H1].
  - rewrite !Hp. by destruct (under dir path).
Qed.

Lemma write_alike o ts k d :
  alike (join_path (projectDir o) ".env") (write_project fails o ts d) (write_project fails (with_key k o) ts d).
Proof.
  unfold write_project. change (projectDir (with_key k o)) with (projectDir o).
  change (template_vars (with_key k o)) with (template_vars o). unfold bind at 1 5.
  destruct (copyTree _ _ _ _ d) as [[w|e|] d1]; [|apply alike_refl..].
  unfold bind at 1 4. destruct (readFileSync _ _ d1) as [[x|e|] d2]; [|apply alike_refl..].
  eapply alike_bind; [reflexivity|reflexivity|by apply alike_write|]. intros _ e e' He.
  eapply alike_bind; [reflexivity|reflexivity|by apply alike_mkdir|]. by intros _ f f' Hf.
Qed.

(** The key of the provider is written into [.env] only: with another key,
    or none, the generator ends in the same way and leaves the same disk, but
    for the text of that file. *)
Theorem provider_key_stays_in_env o ts k d :
  alike (join_path (projectDir o) ".env") (generateProject fails o ts d) (generateProject fails (with_key k o) ts d).
Proof.
  unfold generateProject. change (go_name (with_key k o)) with (go_name o).
  destruct (validateProjectName (go_name o)); [apply alike_refl|].
  unfold bind, gets at 1. unfold gets at 1. simpl. change (projectDir (with_key k o)) with (projectDir o).
  destruct (file_exists (projectDir o) d); [apply alike_refl|]. destruct ts as [ts|]; [|apply alike_refl].
  pose proof (write_alike o ts k d) as [Ho Hs]. unfold try_catch.
  destruct (write_project fails o ts d) as [o1 d1], (write_project fails (with_key k o) ts d) as [o2 d2].
  simpl in Ho, Hs. subst o2. destruct o1 as [w|e|]; [done| |done].
  pose proof (alike_rm _ (projectDir o) d1 d2 Hs) as [Hr Hd]. unfold swallow, try_catch, bind.
  change (projectDir (with_key k o)) with (projectDir o).
  destruct (rmSync fails (projectDir o) d1) as [r1 e1], (rmSync fails (projectDir o) d2) as [r2 e2].
  simpl in Hr, Hd. subst r2. by destruct r1.
Qed.
End project.

Lemma expand_plain m b a r : forallb (fun c => negb (Ascii.eqb c "$")) r = true -> expand m b a r = r.
Proof.
  induction r as [|c r IH]; [done|]. cbn [forallb]. rewrite andb_true_iff, negb_true_iff. intros [Hc Hr].
  specialize (IH Hr). destruct c as [[] [] [] [] [] [] [] []]; try discriminate Hc; cbn [expand]; by rewrite IH.
Qed.

(** A key without a dollar is filled in as it is, where its variable is first
    assigned. *)
Theorem key_is_filled_in o k before after s :
  go_providerKey o = Some k -> k <> "" -> forallb (fun c => negb (Ascii.eqb c "$")) (list_ascii_of_string k) = true ->
  find_text (list_ascii_of_string (pt_keyEnv (PROVIDERS (go_provider o)) +:+ "=")) (list_ascii_of_string s)
    = Some (before, after) ->
  list_ascii_of_string (env_text o s)
  = before ++ list_ascii_of_string (pt_keyEnv (PROVIDERS (go_provider o)) +:+ "=") ++ list_ascii_of_string k ++ after.
Proof.
  intros Hk Hne Hd Hf. unfold env_text. rewrite Hk. destruct (String.eqb_spec k ""); [done|].
  unfold replace, on_text. rewrite list_ascii_of_string_of_list_ascii. unfold replace_first. rewrite Hf.
  rewrite expand_plain.
  - f_equal. rewrite app_assoc. f_equal. clear. generalize (pt_keyEnv (PROVIDERS (go_provider o)) +:+ "=") as t.
    induction t as [|c t IH]; [done|]. simpl. by rewrite IH.
  - assert (Ha : forall a b, list_ascii_of_string (a +:+ b) = list_ascii_of_string a ++ list_ascii_of_string b).
    { induction a as [|c a IH]; intros b; [done|]. simpl. by rewrite IH. }
    rewrite !Ha, !forallb_app, Hd. by destruct (go_provider o).
Qed.

(** One with a replacement pattern is not. *)
Theorem dollar_key_is_mangled : exists o, go_providerKey o = Some "sk-$&" /\
  env_text o "ANTHROPIC_API_KEY=" = "ANTHROPIC_API_KEY=sk-ANTHROPIC_API_KEY=".
Proof.
  exists {| go_name := "a"; go_provider := p_anthropic; go_providerKey := Some "sk-$&"; go_targetDir := "/w";
            go_templatesDir := "/t" |}. split; vm_compute; reflexivity.
Qed.

(** ** Options *)

Lemma ask_name_valid lines n rest : ask_name lines = answered_with _ n rest -> validateProjectName n = None.
Proof.
  induction lines as [|l lines IH]; simpl; [done|]. destruct (validateProjectName (trim l)) eqn:E; [done|].
  by intros [= <- <-].
Qed.

(** What the flags and the prompts resolve to is fit for the generator: the
    name is a valid one, and it and the provider are those of the flags where
    they were given.  Without a prompter nothing is waited for. *)
Theorem resolved_options_are_valid parsed prompter :
  (forall r, resolveOptions parsed prompter = Some (Ok r) ->
     validateProjectName (ro_name r) = None /\
     (forall n, cli_name parsed = Some n -> ro_name r = n) /\
     (forall p, cli_provider parsed = Some p -> provider_id p = Some (ro_provider r))) /\
  (prompter = None -> is_Some (resolveOptions parsed prompter)).
Proof.
  unfold resolveOptions. destruct (cli_provider parsed) as [p|]; simpl.
  1: destruct (provider_id p) as [pid|] eqn:Ep; [|split; [done|by eexists]].
  all: destruct (cli_name parsed) as [n|]; simpl;
    [destruct (validateProjectName n) eqn:En; [split; [done|by eexists]|]|];
    destruct prompter as [lines|]; try (split; [intros r [= <-]|by eexists]); try (split; [done|by eexists]);
    try (split_and!; simpl; [done|by intros ? [= <-]|by intros ? [= <-]]).
  all: split; [|done]; intros r; unfold prompt; simpl;
    repeat match goal with |- context [match ?x with answered_with _ _ _ => _ | blocked _ => _ end] =>
      destruct x eqn:? end; try done; intros [= <-]; simpl;
    split_and!; try done; try (by intros ? [= <-]); try (by eapply ask_name_valid).
Qed.

(** ** Witness *)

Definition demo_templates : list entry :=
  [template "_gitignore" "node_modules";
   template "env.example" "ANTHROPIC_API_KEY=";
   folder "backend" [template "server.ts" "const model = '__DEFAULT_MODEL__'"]].
Definition demo_generate : GenerateOptions :=
  {| go_name := "demo"; go_provider := p_anthropic; go_providerKey := Some "sk-1"; go_targetDir := "/w";
     go_templatesDir := "/t" |}.
Definition demo_disk : Disk :=
  {| files := {["/w/notes" := "mine"]}; dirs := {["/w"]}; operations := 0 |}.
(** The thirteenth operation finds the disk full. *)
Definition disk_full (n : nat) : option error := if (n =? 12)%nat then Some (PlainError "Error" "ENOSPC") else None.

Lemma demo_rooted : rooted (projectDir demo_generate) demo_disk.
Proof.
  intros _ p Hp. simpl. split.
  - rewrite lookup_singleton_ne; [done|]. intros <-. vm_compute in Hp. discriminate Hp.
  - intros H%elem_of_singleton. subst p. vm_compute in Hp. discriminate Hp.
Qed.

Lemma generation_is_all_or_nothing_witness :
  (generateProject (fun _ => None) demo_generate (Some demo_templates) demo_disk).1
    = Ret [".env"; ".env.example"; ".gitignore"; "backend/server.ts"] /\
  exists e d', generateProject disk_full demo_generate (Some demo_templates) demo_disk = (Throw e, d') /\
    same_outside "/w/demo" demo_disk d' /\
    (files d' = files demo_disk /\ dirs demo_disk ⊆ dirs d' /\ dirs d' ⊆ dirs demo_disk ∪ list_to_set (parents "/w/demo") \/
     is_Some (disk_full (Nat.pred (operations d')))).
Proof.
  split; [vm_compute; reflexivity|]. exists (PlainError "Error" "ENOSPC").
  exists (generateProject disk_full demo_generate (Some demo_templates) demo_disk).2.
  assert (E : generateProject disk_full demo_generate (Some demo_templates) demo_disk
    = (Throw (PlainError "Error" "ENOSPC"), (generateProject disk_full demo_generate (Some demo_templates) demo_disk).2)).
  { apply injective_projections; [vm_compute; reflexivity|reflexivity]. }
  exact (conj E (generation_is_all_or_nothing disk_full demo_generate demo_templates demo_disk
    (Throw (PlainError "Error" "ENOSPC")) _ demo_rooted E)).
Defined.
