(* ===== verification/Numbers.v ===== *)
(** The numbers of JavaScript: IEEE doubles as the Standard Library's
    [spec_float] at 53 bits of precision, with the operations and the readings
    of texts that the sources use.

    A literal is rounded once, from its exact value, as engines do. *)
From Stdlib Require Import SpecFloat.
From S2P Require Import Prelude Json Shared.

Abbreviation number := spec_float.

Definition num_add : number -> number -> number := SFadd 53 1024.
Definition num_sub : number -> number -> number := SFsub 53 1024.
Definition num_mul : number -> number -> number := SFmul 53 1024.
Definition num_div : number -> number -> number := SFdiv 53 1024.
Definition num_neg : number -> number := SFopp.

(** [x === 0], of either sign. *)
Definition num_is_zero (x : number) : bool := match x with S754_zero _ => true | _ => false end.

Definition isFinite (x : number) : bool :=
  match x with S754_zero _ | S754_finite _ _ _ => true | _ => false end.

(** [x % y]: exact, with the sign of [x]. *)
Definition num_rem (x y : number) : number :=
  match x, y with
  | S754_nan, _ | _, S754_nan | S754_infinity _, _ | _, S754_zero _ => S754_nan
  | _, S754_infinity _ | S754_zero _, _ => x
  | S754_finite sx mx ex, S754_finite _ my ey =>
      let e := Z.min ex ey in
      match (Z.shiftl (Zpos mx) (ex - e) mod Z.shiftl (Zpos my) (ey - e))%Z with
      | Zpos r => binary_round 53 1024 sx r e
      | _ => S754_zero sx
      end
  end.

Definition num_of_Z (z : Z) : number := binary_normalize 53 1024 z 0 false.

(** The double next to [m / d], for [0 <= m]. *)
Definition num_of_ratio (m : Z) (d : positive) : number :=
  match m with
  | Zpos m => SFdiv 53 1024 (S754_finite false m 0) (S754_finite false d 0)
  | _ => S754_zero false
  end.

(** ** Readings *)

Definition digit_at (c : ascii) : Z := (Z.of_nat (nat_of_ascii c) - 48)%Z.
Definition decimal_value (t : text) : Z := fold_left (fun n c => n * 10 + digit_at c)%Z t 0%Z.

Definition pow10 (n : nat) : positive := Pos.pow 10 (Pos.of_nat n).

(** The digits before and after the point, times a power of ten. *)
Definition num_of_decimal (whole fraction : text) (exponent : Z) : number :=
  let m := decimal_value (whole ++ fraction) in
  let k := (exponent - Z.of_nat (length fraction))%Z in
  if (0 <=? k)%Z then num_of_ratio (m * 10 ^ k) 1 else num_of_ratio m (Z.to_pos (10 ^ (- k))).

(** [Number(t)], where [t] has digits and points only. *)
Definition num_of_literal (t : text) : number :=
  let whole := take_while is_digit t in
  match drop_while is_digit t with
  | [] => match whole with [] => S754_nan | _ => num_of_decimal whole [] 0 end
  | c :: fraction =>
      if Ascii.eqb c "." && forallb is_digit fraction && (0 <? length whole + length fraction)%nat
      then num_of_decimal whole fraction 0 else S754_nan
  end.

(** An exponent at the head of a text; 0 when there is none. *)
Definition scan_exponent (t : text) : Z :=
  match t with
  | c :: t =>
      if Ascii.eqb c "e" || Ascii.eqb c "E" then
        let '(sign, t) := match expect "-" t, expect "+" t with
                          | Some r, _ => ((-1)%Z, r)
                          | None, Some r => (1%Z, r)
                          | None, None => (1%Z, t)
                          end in
        (sign * decimal_value (take_while is_digit t))%Z
      else 0%Z
  | [] => 0%Z
  end.

(** [Number.parseFloat(s)]: the longest decimal literal at the head. *)
Definition parseFloat (s : string) : number :=
  let t := drop_while is_space (list_ascii_of_string s) in
  let '(neg, t) := match expect "-" t, expect "+" t with
                   | Some r, _ => (true, r)
                   | None, Some r => (false, r)
                   | None, None => (false, t)
                   end in
  let signed x := if neg : bool then num_neg x else x in
  match strip (list_ascii_of_string "Infinity") t with
  | Some _ => signed (S754_infinity false)
  | None =>
      let whole := take_while is_digit t in
      let t := drop_while is_digit t in
      let '(fraction, t) := match expect "." t with
                            | Some r => (take_while is_digit r, drop_while is_digit r)
                            | None => ([], t)
                            end in
      match whole ++ fraction with
      | [] => S754_nan
      | _ => signed (num_of_decimal whole fraction (scan_exponent t))
      end
  end.

(** [Math.ceil(x)] and [Math.floor(x)], of a finite number. *)
Definition num_ceil (x : number) : Z :=
  match x with
  | S754_finite s m e =>
      let z := if s then Zneg m else Zpos m in
      if (0 <=? e)%Z then (z * 2 ^ e)%Z else (- ((- z) / 2 ^ (- e)))%Z
  | _ => 0%Z
  end.
Definition num_floor (x : number) : Z := (- num_ceil (num_neg x))%Z.

Definition num_ltb : number -> number -> bool := SFltb.
Definition num_leb : number -> number -> bool := SFleb.

(** One tenth and two tenths. *)
Example tenths : num_add (num_of_literal (list_ascii_of_string ".1")) (num_of_literal (list_ascii_of_string "0.2"))
  = num_of_literal (list_ascii_of_string "0.30000000000000004").
Proof. vm_compute. reflexivity. Qed.
Example remainder : num_rem (num_of_Z (-7)) (num_of_literal (list_ascii_of_string "2.5")) = num_of_Z (-2).
Proof. vm_compute. reflexivity. Qed.
Example money : num_ceil (num_mul (num_of_Z 30000) (parseFloat " 0.8e0x")) = 24000%Z.
Proof. vm_compute. reflexivity. Qed.
