(* ===== verification/Calculator.v ===== *)
(** The demonstration's calculator
    (apps/playground/backend/src/tools/calculate.ts): the tokens of an
    expression, and the recursive descent that evaluates them.

    The position in the tokens is the list of those that are left.  The fuel
    bounds the calls; [CalculatorProps] shows that it is always enough. *)
From S2P Require Import Prelude Json Shared Numbers.

(** ** Tokens *)

Definition plain (message : string) : error := PlainError "Error" message.

Definition OPERATORS : text := list_ascii_of_string "+-*/%()".
Definition is_operator (c : ascii) : bool := existsb (Ascii.eqb c) OPERATORS.
(** [/[0-9.]/]. *)
Definition in_number (c : ascii) : bool := is_digit c || Ascii.eqb c ".".

(** The scan that ends a literal keeps what it has read so far. *)
Fixpoint scan (t : text) (literal : text) : res error (list text) :=
  let flush (r : res error (list text)) : res error (list text) :=
    match literal with [] => r | _ => let? ts := r in Ok (literal :: ts) end in
  match t with
  | [] => flush (Ok [])
  | ch :: t =>
      if is_space ch then flush (scan t [])
      else if is_operator ch then flush (let? ts := scan t [] in Ok ([ch] :: ts))
      else if in_number ch then scan t (literal ++ [ch])
      else Err (plain ("Unexpected character " +:+ quoted (String ch "") +:+ " in expression."))
  end.

Definition tokenize (expression : string) : res error (list text) :=
  let? tokens := scan (list_ascii_of_string expression) [] in
  match tokens with
  | [] => Err (plain "Expression is empty.")
  | _ => Ok tokens
  end.

(** ** Evaluation *)

Inductive Op : Type := op_add | op_sub | op_mul | op_div | op_mod.

#[export] Instance Op_eq_dec : EqDecision Op.
Proof. solve_decision. Defined.

Definition sum_op (t : text) : option Op :=
  match t with ["+"%char] => Some op_add | ["-"%char] => Some op_sub | _ => None end.
Definition product_op (t : text) : option Op :=
  match t with
  | ["*"%char] => Some op_mul | ["/"%char] => Some op_div | ["%"%char] => Some op_mod | _ => None
  end.

Definition apply_op (op : Op) (value rhs : number) : res error number :=
  match op with
  | op_add => Ok (num_add value rhs)
  | op_sub => Ok (num_sub value rhs)
  | op_mul => Ok (num_mul value rhs)
  | op_div => if num_is_zero rhs then Err (plain "Division by zero.") else Ok (num_div value rhs)
  | op_mod => if num_is_zero rhs then Err (plain "Modulo by zero.") else Ok (num_rem value rhs)
  end.

Definition unexpected_token (t : text) : error :=
  plain ("Unexpected token " +:+ quoted (string_of_list_ascii t) +:+ " in expression.").
Definition unexpected_end : error := plain "Unexpected end of expression.".
Definition OUT_OF_FUEL : error := plain "out of fuel".

(** A parser: the value, and the tokens that are left. *)
Abbreviation parsed := (res error (number * list text)).

(** The loop of a level: [rhs] parses an operand. *)
Fixpoint loop (op_of : text -> option Op) (rhs : list text -> parsed) (fuel : nat) (value : number)
    (ts : list text) : parsed :=
  match fuel with
  | O => Err OUT_OF_FUEL
  | S fuel =>
      match ts with
      | t :: ts' =>
          match op_of t with
          | Some op =>
              let? r := rhs ts' in
              let? value := apply_op op value r.1 in
              loop op_of rhs fuel value r.2
          | None => Ok (value, ts)
          end
      | [] => Ok (value, ts)
      end
  end.

Definition literal_value (t : text) : res error number :=
  let value := num_of_literal t in
  if isFinite value then Ok value else Err (unexpected_token t).

(** [parseExpr], [parseTerm], [parseFactor] and [parsePrimary] by their levels:
    0, 1, and 2 for the last two. *)
Fixpoint parse_level (fuel level : nat) (ts : list text) : parsed :=
  match fuel with
  | O => Err OUT_OF_FUEL
  | S fuel =>
      match level with
      | O => let? r := parse_level fuel 1 ts in loop sum_op (parse_level fuel 1) fuel r.1 r.2
      | S O => let? r := parse_level fuel 2 ts in loop product_op (parse_level fuel 2) fuel r.1 r.2
      | _ =>
          match ts with
          | [] => Err unexpected_end
          | t :: ts =>
              if bool_decide (t = ["-"%char]) then
                let? r := parse_level fuel 2 ts in Ok (num_neg r.1, r.2)
              else if bool_decide (t = ["("%char]) then
                let? r := parse_level fuel 0 ts in
                match r.2 with
                | [] => Err unexpected_end
                | t :: ts => if bool_decide (t = [")"%char]) then Ok (r.1, ts)
                             else Err (plain "Expected a closing parenthesis.")
                end
              else let? value := literal_value t in Ok (value, ts)
          end
      end
  end.

(** Each token is consumed once, through at most three levels. *)
Definition fuel_for (ts : list text) : nat := S (4 * length ts + 3).

Definition evaluate_tokens (tokens : list text) : res error number :=
  let? r := parse_level (fuel_for tokens) 0 tokens in
  match r.2 with
  | t :: _ => Err (unexpected_token t)
  | [] => if isFinite r.1 then Ok r.1 else Err (plain "Expression did not evaluate to a finite number.")
  end.

Definition evaluateExpression (expression : string) : res error number :=
  let? tokens := tokenize expression in evaluate_tokens tokens.

(** The tool's input: [z.string().min(1).max(200)]. *)
Definition calculate_input (v : json) : option string :=
  e ← str_field "expression" v;
  guard_opt (negb (String.eqb e "") && (String.length e <=? 200)%nat) (Some e).

Example precedence : evaluateExpression "2 + 3*-(4 - .5) % 4" = Ok (num_neg (num_of_literal (list_ascii_of_string ".5"))).
Proof. vm_compute. reflexivity. Qed.
Example nothing_divides : evaluateExpression "1/(2-2)" = Err (plain "Division by zero.").
Proof. vm_compute. reflexivity. Qed.
