(* ===== verification/CalculatorProps.v ===== *)
(** The calculator evaluates the expressions of its grammar and no others, and
    always ends: the recursive descent against a reference grammar with
    syntax trees. *)
From Stdlib Require Import SpecFloat.
From S2P Require Import Prelude Json Shared Numbers Calculator.

(** ** The reference: trees, their values, and the grammar of the source *)

Inductive ast : Type :=
| Lit (t : text)
| Neg (a : ast)
| Bin (op : Op) (a b : ast).

(** Operands are evaluated from left to right. *)
Fixpoint eval (a : ast) : res error number :=
  match a with
  | Lit t => literal_value t
  | Neg a => let? x := eval a in Ok (num_neg x)
  | Bin op a b => let? x := eval a in let? y := eval b in apply_op op x y
  end.

Definition op_token (op : Op) : text :=
  match op with
  | op_add => ["+"%char] | op_sub => ["-"%char] | op_mul => ["*"%char] | op_div => ["/"%char] | op_mod => ["%"%char]
  end.

Definition level_of (op : Op) : nat := match op with op_add | op_sub => 0 | _ => 1 end.

Definition is_literal (t : text) : bool := forallb in_number t && negb (bool_decide (t = [])).

(** expr := term (('+' | '-') term)*, term := factor (('*' | '/' | '%') factor)*,
    factor := '-' factor | number | '(' expr ')', as left-recursive rules. *)
Inductive derives : nat -> list text -> ast -> Prop :=
| d_bin op ts1 ts2 a b :
    derives (level_of op) ts1 a -> derives (S (level_of op)) ts2 b ->
    derives (level_of op) (ts1 ++ op_token op :: ts2) (Bin op a b)
| d_up l ts a : l < 2 -> derives (S l) ts a -> derives l ts a
| d_neg ts a : derives 2 ts a -> derives 2 (["-"%char] :: ts) (Neg a)
| d_paren ts a : derives 0 ts a -> derives 2 (["("%char] :: ts ++ [[")"%char]]) a
| d_lit t : is_literal t = true -> derives 2 [t] (Lit t).

(** ** Fuel *)

Definition shrinks (rhs : list text -> parsed) (n : nat) : Prop :=
  forall ts v ts', length ts < n -> rhs ts = Ok (v, ts') -> length ts' < length ts.

Lemma loop_shrinks op_of rhs n fuel v ts v' ts' :
  shrinks rhs n -> length ts <= n -> loop op_of rhs fuel v ts = Ok (v', ts') -> length ts' <= length ts.
Proof.
  intros Hs. revert v ts. induction fuel as [|fuel IH]; intros v ts Hn; simpl; [done|].
  destruct ts as [|t ts]; [by intros [= <- <-]|]. destruct (op_of t); [|by intros [= <- <-]].
  destruct (rhs ts) as [[x r]|] eqn:Er; simpl; [|done]. simpl in Hn. apply Hs in Er; [|lia].
  destruct (apply_op _ _ _); simpl; [|done]. intros H%IH; simpl; lia.
Qed.

(** Two parsers of operands that agree on what is left of the tokens. *)
Lemma loop_fuel op_of rhs rhs' f f' v ts :
  length ts < f -> length ts < f' -> shrinks rhs (length ts) ->
  (forall ts', length ts' < length ts -> rhs ts' = rhs' ts') ->
  loop op_of rhs f v ts = loop op_of rhs' f' v ts.
Proof.
  revert f' v ts. induction f as [|f IH]; intros f' v ts Hf Hf' Hs He; [lia|]. destruct f' as [|f']; [lia|].
  simpl. destruct ts as [|t ts]; [done|]. simpl in *. destruct (op_of t); [|done].
  rewrite <- He by lia. destruct (rhs ts) as [[x r]|] eqn:Er; simpl; [|done]. pose proof (Hs ts x r ltac:(lia) Er) as Hr.
  destruct (apply_op _ _ _); simpl; [|done]. apply IH; [lia..| |].
  - intros ts1 w ts2 H1. apply Hs. lia.
  - intros ts1 H1. apply He. lia.
Qed.

Lemma parse_shrinks fuel : forall level n, shrinks (parse_level fuel level) n.
Proof.
  induction fuel as [|fuel IH]; intros level n ts v ts' Hn; [done|]. cbn [parse_level].
  destruct level as [|[|level]].
  1-2: destruct (parse_level fuel _ ts) as [[x r]|] eqn:Er; simpl; [|done]; apply (IH _ _ _ _ _ Hn) in Er;
    intros H; eapply (loop_shrinks _ _ (length r)) in H; [lia|apply IH|done].
  destruct ts as [|t ts]; [done|]. simpl in Hn. case_bool_decide.
  { destruct (parse_level fuel 2 ts) as [[x r]|] eqn:Er; simpl; [|done]. intros [= <- <-].
    apply (IH 2 n) in Er; simpl; lia. }
  case_bool_decide.
  - destruct (parse_level fuel 0 ts) as [[x [|p r]]|] eqn:Er; simpl; [done| |done]. case_bool_decide; [|done].
    intros [= <- <-]. apply (IH 0 n) in Er; simpl in *; lia.
  - destruct (literal_value t); simpl; [|done]. intros [= <- <-]. simpl. lia.
Qed.

(** Enough fuel. *)
Definition need (level n : nat) : nat := 4 * n + (4 - level).

Lemma parse_fuel f f' level ts :
  level <= 2 -> need level (length ts) <= f -> need level (length ts) <= f' ->
  parse_level f level ts = parse_level f' level ts.
Proof.
  unfold need. revert f' level ts. induction f as [|f IH]; intros f' level ts Hl Hf Hf'; [lia|].
  destruct f' as [|f']; [lia|]. cbn [parse_level]. destruct level as [|[|level]].
  1-2: rewrite (IH f' _ ts) by lia; destruct (parse_level f' _ ts) as [[x r]|] eqn:Er; simpl; [|done];
    apply (parse_shrinks _ _ (S (length ts))) in Er; [|lia];
    apply loop_fuel; [lia..|apply parse_shrinks|intros ts' H; apply IH; lia].
  destruct ts as [|t ts]; [done|]. simpl in Hf, Hf'. assert (level = 0) as -> by lia.
  rewrite (IH f' 2 ts), (IH f' 0 ts) by lia. done.
Qed.

(** ** The parsers without fuel *)

Definition run (level : nat) (ts : list text) : parsed := parse_level (need level (length ts)) level ts.

(** What a level does after its first operand. *)
Definition cont (level : nat) (v : number) (ts : list text) : parsed :=
  match level with
  | 0 => loop sum_op (run 1) (S (length ts)) v ts
  | 1 => loop product_op (run 2) (S (length ts)) v ts
  | _ => Ok (v, ts)
  end.

Lemma run_shrinks level ts v ts' : run level ts = Ok (v, ts') -> length ts' < length ts.
Proof. apply (parse_shrinks _ level (S (length ts))). lia. Qed.

Lemma run_level level ts :
  level < 2 -> run level ts = (let? r := run (S level) ts in cont level r.1 r.2).
Proof.
  intros Hl. unfold run at 1. destruct (need level (length ts)) as [|n0] eqn:En; unfold need in En; [lia|].
  destruct level as [|[|level]]; [| |lia]; cbn [parse_level]; unfold run.
  1: rewrite (parse_fuel n0 (need 1 (length ts)) 1 ts) by (unfold need; lia).
  2: rewrite (parse_fuel n0 (need 2 (length ts)) 2 ts) by (unfold need; lia).
  all: destruct (parse_level _ _ ts) as [[x r]|] eqn:Er; cbn [res_bind fst snd cont]; [|done];
    apply (parse_shrinks _ _ (S (length ts))) in Er; [|lia].
  all: apply loop_fuel; [lia..|apply parse_shrinks|]; intros ts' H; apply parse_fuel; unfold need; lia.
Qed.

Lemma run_factor t ts :
  run 2 (t :: ts) =
  if bool_decide (t = ["-"%char]) then let? r := run 2 ts in Ok (num_neg r.1, r.2)
  else if bool_decide (t = ["("%char]) then
    let? r := run 0 ts in
    match r.2 with
    | [] => Err unexpected_end
    | t :: ts => if bool_decide (t = [")"%char]) then Ok (r.1, ts)
                 else Err (plain "Expected a closing parenthesis.")
    end
  else let? value := literal_value t in Ok (value, ts).
Proof.
  unfold run at 1. replace (need 2 (length (t :: ts))) with (S (4 * length ts + 5)) by (unfold need; simpl; lia).
  cbn [parse_level]. unfold run.
  rewrite (parse_fuel _ (need 2 (length ts)) 2 ts), (parse_fuel _ (need 0 (length ts)) 0 ts) by (unfold need; lia).
  done.
Qed.

Lemma cont_step level op_of op v ts :
  (level = 0 /\ op_of = sum_op \/ level = 1 /\ op_of = product_op) -> op_of (op_token op) = Some op ->
  cont level v (op_token op :: ts) =
  (let? r := run (S level) ts in let? value := apply_op op v r.1 in cont level value r.2).
Proof.
  intros Hl Ho. destruct Hl as [[-> ->]|[-> ->]]; unfold cont at 1; cbn [loop]; rewrite Ho.
  all: destruct (run _ ts) as [[x r]|] eqn:Er; cbn [res_bind fst snd]; [|done]; apply run_shrinks in Er.
  all: destruct (apply_op op v x); cbn [res_bind]; [|done].
  all: unfold cont; apply loop_fuel; [simpl; lia|lia| |done]; intros ts1 w ts2 _; apply run_shrinks.
Qed.

(** ** Completeness *)

Definition no_product (ts : list text) : Prop := match ts with t :: _ => product_op t = None | [] => True end.

Lemma cont_stops v ts : no_product ts -> cont 1 v ts = Ok (v, ts).
Proof. destruct ts as [|t ts]; [done|]. simpl. by intros ->. Qed.

Lemma bind_assoc {A B C} (m : res error A) (f : A -> res error B) (g : B -> res error C) :
  (let? y := (let? x := m in f x) in g y) = (let? x := m in let? y := f x in g y).
Proof. by destruct m. Qed.

Lemma bind_ext {A B} (m : res error A) (f g : A -> res error B) :
  (forall x, f x = g x) -> (let? x := m in f x) = (let? x := m in g x).
Proof. destruct m; simpl; auto. Qed.

Lemma literal_not_operator t : is_literal t = true ->
  bool_decide (t = ["-"%char]) = false /\ bool_decide (t = ["("%char]) = false.
Proof.
  unfold is_literal. rewrite andb_true_iff. intros [H _].
  split; apply bool_decide_eq_false; intros ->; discriminate H.
Qed.

Lemma derives_run level ts a : derives level ts a ->
  forall rest, (level = 0 -> no_product rest) ->
  run level (ts ++ rest) = (let? v := eval a in cont level v rest).
Proof.
  induction 1 as [op ts1 ts2 a b _ IHa _ IHb|l ts a Hl _ IH|ts a _ IH|ts a _ IH|t Ht]; intros rest Hr.
  - assert (Hop : exists op_of, (level_of op = 0 /\ op_of = sum_op \/ level_of op = 1 /\ op_of = product_op) /\
      op_of (op_token op) = Some op) by (destruct op; eexists; (split; [eauto|reflexivity])).
    destruct Hop as (op_of & Hl & Ho). rewrite <- app_assoc. simpl app. rewrite IHa.
    2: by intros E; destruct op.
    simpl eval. rewrite bind_assoc. apply bind_ext. intros x. rewrite (cont_step _ op_of) by done.
    rewrite IHb, !bind_assoc by done. apply bind_ext. intros y.
    assert (Hc : cont (S (level_of op)) y rest = Ok (y, rest)).
    { destruct Hl as [[E _]|[E _]]; rewrite E; [apply cont_stops, Hr, E|done]. }
    by rewrite Hc.
  - rewrite run_level by done. destruct l as [|[|l]]; [| |lia].
    + rewrite IH by done. destruct (eval a) as [v|]; [|done]. cbn [res_bind]. by rewrite cont_stops by auto.
    + rewrite IH by done. by destruct (eval a).
  - simpl app. rewrite run_factor. rewrite bool_decide_true by done. rewrite IH by done.
    simpl. by destruct (eval a).
  - simpl app. rewrite run_factor, bool_decide_false, bool_decide_true by done.
    rewrite <- app_assoc, IH by done. simpl eval. by destruct (eval a).
  - simpl app. rewrite run_factor. destruct (literal_not_operator t Ht) as [-> ->]. by simpl; destruct (literal_value t).
Qed.

(** ** Soundness *)

Lemma while_splits {A} (p : A -> bool) l :
  l = take_while p l ++ drop_while p l /\ forallb p (take_while p l) = true.
Proof.
  induction l as [|x l [IH1 IH2]]; [done|]. simpl. destruct (p x) eqn:E; [|done]. simpl. rewrite E, IH2.
  split; [by rewrite <- IH1|done].
Qed.

Lemma digits_in_number t : forallb is_digit t = true -> forallb in_number t = true.
Proof. rewrite !forallb_forall. intros H c Hc. unfold in_number. by rewrite H. Qed.

Lemma literal_is_literal t v : literal_value t = Ok v -> is_literal t = true.
Proof.
  unfold literal_value. destruct (isFinite (num_of_literal t)) eqn:Hf; [|done]. intros _. revert Hf.
  unfold num_of_literal, is_literal. destruct (while_splits is_digit t) as [Ht Hd].
  destruct (drop_while is_digit t) as [|c fraction].
  - rewrite app_nil_r in Ht. destruct (take_while is_digit t) as [|d ds]; [done|]. rewrite Ht.
    intros _. by rewrite (digits_in_number _ Hd).
  - destruct (Ascii.eqb_spec c "."); [subst c|done]. destruct (forallb is_digit fraction) eqn:Ef; [|done]. intros _.
    rewrite Ht. rewrite forallb_app, (digits_in_number _ Hd). cbn [forallb].
    rewrite (digits_in_number _ Ef). rewrite bool_decide_false; [done|]. by destruct (take_while is_digit t).
Qed.

Lemma sum_op_token t op : sum_op t = Some op -> t = op_token op /\ level_of op = 0.
Proof. unfold sum_op. repeat case_match; intros [= <-]; done. Qed.
Lemma product_op_token t op : product_op t = Some op -> t = op_token op /\ level_of op = 1.
Proof. unfold product_op. repeat case_match; intros [= <-]; done. Qed.

(** A first operand, and the operands that follow it. *)
Lemma cont_sound level op_of n :
  (level = 0 /\ op_of = sum_op \/ level = 1 /\ op_of = product_op) ->
  (forall ts v rest, length ts < n -> run (S level) ts = Ok (v, rest) ->
     exists ts1 a, ts = ts1 ++ rest /\ derives (S level) ts1 a /\ eval a = Ok v) ->
  forall m ts v0 pre a0 v rest, length ts < m -> length ts <= n -> derives level pre a0 -> eval a0 = Ok v0 ->
  cont level v0 ts = Ok (v, rest) ->
  exists ts1 a, ts = ts1 ++ rest /\ derives level (pre ++ ts1) a /\ eval a = Ok v.
Proof.
  intros Hl Hrun m. induction m as [|m IH]; intros ts v0 pre a0 v rest Hm Hn Hd He Hc; [lia|].
  assert (Hend : (v0, ts) = (v, rest) -> exists ts1 a, ts = ts1 ++ rest /\ derives level (pre ++ ts1) a /\ eval a = Ok v).
  { intros [= <- <-]. exists [], a0. by rewrite app_nil_r. }
  destruct ts as [|t ts]; [apply Hend; destruct Hl as [[-> _]|[-> _]]; simpl in Hc; congruence|]. simpl in Hm, Hn.
  destruct (op_of t) as [op|] eqn:Eo.
  2: { apply Hend. destruct Hl as [[-> ->]|[-> ->]]; simpl in Hc; rewrite Eo in Hc; congruence. }
  assert (Ht : t = op_token op /\ level_of op = level).
  { destruct Hl as [[-> ->]|[-> ->]]; [by apply sum_op_token|by apply product_op_token]. }
  destruct Ht as [-> Hlev]. rewrite (cont_step _ op_of) in Hc by done.
  destruct (run (S level) ts) as [[y r]|] eqn:Er; cbn [res_bind fst snd] in Hc; [|done].
  pose proof (run_shrinks _ _ _ _ Er) as Hs. apply Hrun in Er as (ts2 & b & -> & Hb & Eb); [|lia].
  rewrite length_app in *. destruct (apply_op op v0 y) as [w|] eqn:Ew; cbn [res_bind] in Hc; [|done].
  apply (IH _ _ (pre ++ op_token op :: ts2) (Bin op a0 b)) in Hc as (ts3 & a & -> & Ha & Ea); [|lia|lia| |].
  - exists (op_token op :: ts2 ++ ts3), a. rewrite <- app_assoc in Ha. simpl in *. by rewrite <- app_assoc.
  - rewrite <- Hlev in *. by constructor.
  - simpl. by rewrite He, Eb.
Qed.

Lemma run_sound level ts v rest :
  level <= 2 -> run level ts = Ok (v, rest) ->
  exists ts1 a, ts = ts1 ++ rest /\ derives level ts1 a /\ eval a = Ok v.
Proof.
  remember (need level (length ts)) as n eqn:Hn. revert level ts v rest Hn.
  induction n as [n IH] using lt_wf_ind. intros level ts v rest -> Hl H.
  assert (Hlow : forall l op_of, l < 2 -> (l = 0 /\ op_of = sum_op \/ l = 1 /\ op_of = product_op) -> level = l ->
    exists ts1 a, ts = ts1 ++ rest /\ derives level ts1 a /\ eval a = Ok v).
  { intros l op_of Hl2 Hop ->. rewrite run_level in H by done.
    destruct (run (S l) ts) as [[x r]|] eqn:Er; cbn [res_bind fst snd] in H; [|done].
    pose proof (run_shrinks _ _ _ _ Er) as Hs.
    apply (IH (need (S l) (length ts))) in Er as (ts1 & a & -> & Ha & Ea); [|unfold need; lia|done|lia].
    rewrite length_app in *. eapply (cont_sound l op_of (length r) Hop) in H as (ts2 & b & -> & Hb & Eb).
    + exists (ts1 ++ ts2), b. by rewrite <- app_assoc.
    + intros ts2 w r2 H2. apply (IH (need (S l) (length ts2))); [unfold need; lia|done|lia].
    + apply Nat.lt_succ_diag_r.
    + done.
    + by apply d_up.
    + done. }
  destruct level as [|[|level]]; [by apply (Hlow 0 sum_op); auto|by apply (Hlow 1 product_op); auto|].
  clear Hlow. assert (level = 0) as -> by lia. destruct ts as [|t ts]; [done|]. rewrite run_factor in H.
  case_bool_decide as E1.
  { destruct (run 2 ts) as [[x r]|] eqn:Er; simpl in H; [|done]. injection H as <- <-.
    apply (IH (need 2 (length ts))) in Er as (ts1 & a & -> & Ha & Ea); [|unfold need; simpl; lia|done|lia].
    exists (t :: ts1), (Neg a). rewrite E1. split; [done|]. split; [by apply d_neg|]. simpl. by rewrite Ea. }
  case_bool_decide as E2.
  - destruct (run 0 ts) as [[x [|p r]]|] eqn:Er; simpl in H; [done| |done]. case_bool_decide; [|done].
    injection H as <- <-. apply (IH (need 0 (length ts))) in Er as (ts1 & a & -> & Ha & Ea);
      [|unfold need; simpl; lia|done|lia].
    exists (t :: ts1 ++ [p]), a. subst. split; [simpl; by rewrite <- app_assoc|]. split; [by apply d_paren|done].
  - destruct (literal_value t) as [x|] eqn:Ex; simpl in H; [|done]. injection H as <- <-.
    exists [t], (Lit t). split; [done|]. split; [|done]. apply d_lit. by eapply literal_is_literal.
Qed.

(** ** The calculator *)

Definition finite_result (x : number) : res error number :=
  if isFinite x then Ok x else Err (plain "Expression did not evaluate to a finite number.").

Lemma evaluate_run ts :
  evaluate_tokens ts =
  (let? r := run 0 ts in match r.2 with t :: _ => Err (unexpected_token t) | [] => finite_result r.1 end).
Proof. unfold evaluate_tokens, run, fuel_for. rewrite (parse_fuel _ (need 0 (length ts))) by (unfold need; lia). done. Qed.

Lemma evaluate_derived ts a : derives 0 ts a -> evaluate_tokens ts = (let? x := eval a in finite_result x).
Proof.
  intros H. rewrite evaluate_run. pose proof (derives_run 0 ts a H [] (fun _ => I)) as Hr. rewrite app_nil_r in Hr.
  rewrite Hr. by destruct (eval a).
Qed.

(** C36: the calculator is its grammar.  It has the value [v] for a text exactly
    when the text's tokens derive, in the grammar of the source, some expression
    whose value is [v] and finite; and what it throws for a text of the grammar
    is what the evaluation from left to right throws. *)
Theorem calculator_follows_its_grammar s ts :
  tokenize s = Ok ts ->
  (forall v, evaluateExpression s = Ok v <-> exists a, derives 0 ts a /\ eval a = Ok v /\ isFinite v = true) /\
  (forall a, derives 0 ts a -> evaluateExpression s = (let? x := eval a in finite_result x)).
Proof.
  intros Ht. unfold evaluateExpression. rewrite Ht. simpl. split; [|by apply evaluate_derived]. intros v. split.
  - rewrite evaluate_run. destruct (run 0 ts) as [[x r]|] eqn:Er; simpl; [|done]. destruct r as [|t r]; [|done].
    unfold finite_result. destruct (isFinite x) eqn:Ef; [|done]. intros [= <-].
    apply run_sound in Er as (ts1 & a & -> & Ha & Ea); [|lia]. exists a. by rewrite app_nil_r.
  - intros (a & Ha & Ea & Ef). rewrite (evaluate_derived _ a) by done. rewrite Ea. simpl. unfold finite_result.
    by rewrite Ef.
Qed.

(** ** It always ends *)

Lemma run_ends level ts : level <= 2 -> run level ts <> Err OUT_OF_FUEL.
Proof.
  remember (need level (length ts)) as n eqn:Hn. revert level ts Hn.
  induction n as [n IH] using lt_wf_ind. intros level ts -> Hl.
  assert (Hloop : forall op_of rhs m, (forall ts', length ts' < m -> rhs ts' <> Err OUT_OF_FUEL) -> shrinks rhs m ->
    forall f v r, length r < f -> length r <= m -> loop op_of rhs f v r <> Err OUT_OF_FUEL).
  { intros op_of rhs m Hr Hs f. induction f as [|f IHf]; intros v r Hf Hm; [lia|]. simpl.
    destruct r as [|t r]; [done|]. simpl in *. destruct (op_of t) as [op|]; [|done].
    destruct (rhs r) as [[x r']|e] eqn:Er; simpl; [|rewrite <- Er; apply Hr; lia].
    apply Hs in Er; [|lia]. unfold apply_op. destruct op; simpl; try (apply IHf; lia);
      destruct (num_is_zero x); simpl; try done; apply IHf; lia. }
  assert (Hlow : level < 2 -> run level ts <> Err OUT_OF_FUEL).
  { intros Hl2. rewrite run_level by done.
    pose proof (IH (need (S level) (length ts)) ltac:(unfold need; lia) (S level) ts eq_refl ltac:(lia)) as H1.
    destruct (run (S level) ts) as [[x r]|e] eqn:Er; cbn [res_bind fst snd]; [|congruence].
    apply run_shrinks in Er.
    assert (Hr : forall ts', length ts' < length r -> run (S level) ts' <> Err OUT_OF_FUEL).
    { intros ts' Ht. eapply IH; [|reflexivity|lia]. unfold need. lia. }
    assert (Hs : shrinks (run (S level)) (length r)) by (intros ? ? ? _; apply run_shrinks).
    destruct level as [|[|level]]; [| |lia]; unfold cont; (apply (Hloop _ _ (length r)); [exact Hr|exact Hs|lia|lia]). }
  destruct level as [|[|level]]; [apply Hlow; lia..|]. clear Hlow.
  assert (level = 0) as -> by lia. destruct ts as [|t ts]; [done|]. rewrite run_factor.
  pose proof (IH (need 2 (length ts)) ltac:(unfold need; simpl; lia) 2 ts eq_refl ltac:(lia)) as H2.
  pose proof (IH (need 0 (length ts)) ltac:(unfold need; simpl; lia) 0 ts eq_refl ltac:(lia)) as H0.
  case_bool_decide; [by destruct (run 2 ts)|]. case_bool_decide.
  - destruct (run 0 ts) as [[x [|p r]]|e]; simpl; [done| |done]. by case_bool_decide.
  - unfold literal_value. by destruct (isFinite _).
Qed.

Lemma scan_ends t l : scan t l <> Err OUT_OF_FUEL.
Proof.
  revert l. induction t as [|c t IH]; intros l; simpl; [by destruct l|].
  pose proof (IH []) as H0. pose proof (IH (l ++ [c])) as H1.
  destruct (is_space c); [destruct l; simpl; by destruct (scan t [])|].
  destruct (is_operator c); [destruct l; simpl; by destruct (scan t [])|]. by destruct (in_number c).
Qed.

(** Whatever the text, the calculator answers with a number or one of its
    errors: the recursion is over when the tokens are, at the latest. *)
Theorem evaluation_ends s : evaluateExpression s <> Err OUT_OF_FUEL.
Proof.
  unfold evaluateExpression, tokenize. pose proof (scan_ends (list_ascii_of_string s) []) as H.
  destruct (scan _ _) as [l|e]; cbn [res_bind]; [|congruence]. destruct l as [|t ts]; [done|]. cbn [res_bind].
  rewrite evaluate_run.
  pose proof (run_ends 0 (t :: ts) ltac:(lia)) as H0.
  destruct (run 0 (t :: ts)) as [[x [|p r]]|e]; cbn [res_bind fst snd]; [|discriminate|congruence].
  unfold finite_result. by destruct (isFinite x).
Qed.

(** ** Tokens *)

Lemma number_char c : in_number c = true -> is_space c = false /\ is_operator c = false.
Proof. intros H. destruct c as [[] [] [] [] [] [] [] []]; first [discriminate H|split; reflexivity]. Qed.

Lemma scan_number w acc rest :
  forallb in_number w = true -> acc ++ w <> [] ->
  scan (w ++ " "%char :: rest) acc = (let? ts := scan rest [] in Ok ((acc ++ w) :: ts)).
Proof.
  revert acc. induction w as [|c w IH]; intros acc; simpl.
  - rewrite app_nil_r. by destruct acc.
  - rewrite andb_true_iff. intros [Hc Hw] _. destruct (number_char c Hc) as [-> ->]. rewrite Hc.
    rewrite IH; [by rewrite <- app_assoc|done|]. by destruct acc.
Qed.

(** Literals and operators, with spaces between them, are read back. *)
Theorem spaced_tokens_read_back ts :
  Forall (fun t => is_literal t = true \/ exists c, t = [c] /\ is_operator c = true) ts ->
  scan (flat_map (fun t => t ++ [" "%char]) ts) [] = Ok ts.
Proof.
  induction 1 as [|t ts [Ht|(c & -> & Hc)] _ IH]; [done| |]; simpl.
  - unfold is_literal in Ht. apply andb_true_iff in Ht as [Ht Hn]. rewrite <- app_assoc. simpl.
    rewrite scan_number, IH; [done..|]. simpl. by case_bool_decide.
  - assert (Hs : is_space c = false) by (destruct c as [[] [] [] [] [] [] [] []]; first [discriminate Hc|reflexivity]).
    by rewrite Hs, Hc, IH.
Qed.

(** ** Witness *)

Definition demo_expression : ast :=
  Bin op_sub (Bin op_sub (Lit ["8"%char]) (Bin op_div (Lit ["6"%char]) (Lit ["4"%char]))) (Neg (Lit ["1"%char])).

Lemma demo_derives :
  derives 0 (map list_ascii_of_string ["8"; "-"; "6"; "/"; "4"; "-"; "-"; "1"]) demo_expression.
Proof.
  refine (d_bin op_sub (map list_ascii_of_string ["8"; "-"; "6"; "/"; "4"]) [["-"%char]; ["1"%char]] _ _ _ _).
  - refine (d_bin op_sub [["8"%char]] (map list_ascii_of_string ["6"; "/"; "4"]) _ _ _ _);
      [do 2 (apply d_up; [cbn; lia|]); by apply d_lit|].
    refine (d_bin op_div [["6"%char]] [["4"%char]] _ _ _ _); [apply d_up; [cbn; lia|]|]; by apply d_lit.
  - apply d_up; [cbn; lia|]. apply d_neg. by apply d_lit.
Qed.

Lemma calculator_follows_its_grammar_witness :
  evaluateExpression "8 - 6/4 - -1" = Ok (num_of_literal (list_ascii_of_string "7.5")).
Proof.
  apply (proj1 (calculator_follows_its_grammar "8 - 6/4 - -1"
    (map list_ascii_of_string ["8"; "-"; "6"; "/"; "4"; "-"; "-"; "1"]) ltac:(vm_compute; reflexivity))).
  exists demo_expression. split; [exact demo_derives|]. split; vm_compute; reflexivity.
Defined.
