(* ===== verification/Session.v ===== *)
(** The playground's browser session
    (apps/playground/frontend/src/session.ts, and the frames of
    apps/playground/backend/src/mediator/protocol.ts as they are on the wire):
    the controller over the mediator's socket, and the views of tool calls.

    The controller is a machine of the events of its sockets, which are numbered
    as they are made, and of its callers. *)
From S2P Require Import Prelude Json Shared Dto Spend Mediator React.

(** ** Frames on the wire (protocol.ts) *)

Definition reason_string (r : RefusalReason) : string :=
  match r with
  | rate_limit_ip => "rate_limit_ip" | rate_limit_session => "rate_limit_session" | message_cap => "message_cap"
  | token_cap => "token_cap" | daily_ceiling => "daily_ceiling" | session_expired => "session_expired"
  | bad_frame => "bad_frame"
  end.

Definition all_reasons : list RefusalReason :=
  [rate_limit_ip; rate_limit_session; message_cap; token_cap; daily_ceiling; session_expired; bad_frame].

Definition RefusalReasonSchema (v : json) : option RefusalReason :=
  match v with
  | JStr s => List.find (fun r => String.eqb (reason_string r) s) all_reasons
  | _ => None
  end.

(** [z.number().int().nonnegative()]. *)
Definition nonnegative_int (v : json) : option Z :=
  match v with JNum n => guard_opt (0 <=? n)%Z (Some n) | _ => None end.

Record RefusalFrame := {
  rf_reason : RefusalReason; rf_message : string; rf_retryAfterSeconds : option Z;
  rf_remaining : option (option Z * option Z) }.

Definition remaining_schema (v : json) : option (option Z * option Z) :=
  guard_opt (only_keys ["messages"; "tokens"] v)
    (m ← optional nonnegative_int "messages" v; t ← optional nonnegative_int "tokens" v; Some (m, t)).

Definition RefusalFrameSchema (v : json) : option RefusalFrame :=
  guard_opt (only_keys ["type"; "reason"; "message"; "retryAfterSeconds"; "remaining"] v
             && bool_decide (str_field "type" v = Some "refusal"))
    (r ← (r ← field "reason" v; RefusalReasonSchema r); m ← nonempty_string "message" v;
     s ← optional nonnegative_int "retryAfterSeconds" v; rem ← optional remaining_schema "remaining" v;
     Some {| rf_reason := r; rf_message := m; rf_retryAfterSeconds := s; rf_remaining := rem |}).

Record SessionLimits := { sl_messages : Z; sl_tokens : Z; sl_chars : Z }.

Definition SessionLimitsSchema (v : json) : option SessionLimits :=
  guard_opt (only_keys ["messagesPerSession"; "tokensPerSession"; "messageMaxChars"] v)
    (m ← (x ← field "messagesPerSession" v; positive_int x); t ← (x ← field "tokensPerSession" v; positive_int x);
     c ← (x ← field "messageMaxChars" v; positive_int x);
     Some {| sl_messages := m; sl_tokens := t; sl_chars := c |}).

Record SessionReadyFrame := { sr_guestId : string; sr_sessionId : string; sr_expiresAt : string; sr_limits : SessionLimits }.

Definition SessionReadyFrameSchema (v : json) : option SessionReadyFrame :=
  guard_opt (only_keys ["type"; "guestId"; "sessionId"; "expiresAt"; "limits"] v
             && bool_decide (str_field "type" v = Some "session_ready"))
    (g ← nonempty_string "guestId" v; s ← nonempty_string "sessionId" v; e ← nonempty_string "expiresAt" v;
     l ← (l ← field "limits" v; SessionLimitsSchema l);
     Some {| sr_guestId := g; sr_sessionId := s; sr_expiresAt := e; sr_limits := l |}).

Definition remaining_json (messages tokens : option Z) : jsval :=
  match messages, tokens with
  | None, None => None
  | _, _ => Some (obj_literal [("messages", JNum <$> messages); ("tokens", JNum <$> tokens)])
  end.

(** What the mediator sends for a frame. [toISOString]: the text of an instant. *)
Definition down_text (config : MediatorConfig) (toISOString : Z -> string) (f : DownFrame) : string :=
  match f with
  | session_ready guestId sessionId expiresAtMs =>
      stringify (obj_literal [("type", Some (JStr "session_ready")); ("guestId", Some (JStr guestId));
        ("sessionId", Some (JStr sessionId)); ("expiresAt", Some (JStr (toISOString expiresAtMs)));
        ("limits", Some (obj_literal [
           ("messagesPerSession", Some (JNum (Z.of_nat (messagesPerSession config))));
           ("tokensPerSession", Some (JNum (Z.of_nat (tokensPerSession config))));
           ("messageMaxChars", Some (JNum (Z.of_nat (messageMaxChars config))))]))])
  | refusal reason message retryAfterSeconds remMessages remTokens =>
      stringify (obj_literal [("type", Some (JStr "refusal")); ("reason", Some (JStr (reason_string reason)));
        ("message", Some (JStr message)); ("retryAfterSeconds", JNum <$> retryAfterSeconds);
        ("remaining", remaining_json remMessages remTokens)])
  | relay raw => raw
  end.

(** ** The controller (session.ts) *)

Record LoggedEvent := { le_seq : nat; le_at : Z; le_event : json }.

Record Controller := {
  events : list LoggedEvent; refusals : list RefusalFrame; seq : nat;
  socket : option nat; sockets : nat; c_status : ConnectionStatus;
  sent : list (nat * string);     (* what was given to which socket *)
  errors : nat;                   (* calls of onError *)
  thrown : nat }.                 (* exceptions of the handlers that nothing catches *)

Definition log_event (at_ : Z) (v : json) (c : Controller) : Controller :=
  {| events := events c ++ [{| le_seq := seq c; le_at := at_; le_event := v |}]; refusals := refusals c;
     seq := S (seq c); socket := socket c; sockets := sockets c; c_status := c_status c; sent := sent c;
     errors := errors c; thrown := thrown c |}.

Definition add_refusal (r : RefusalFrame) (c : Controller) : Controller :=
  {| events := events c; refusals := refusals c ++ [r]; seq := seq c; socket := socket c; sockets := sockets c;
     c_status := c_status c; sent := sent c; errors := errors c; thrown := thrown c |}.

Definition with_socket (s : option nat) (n : nat) (st : ConnectionStatus) (c : Controller) : Controller :=
  {| events := events c; refusals := refusals c; seq := seq c; socket := s; sockets := n; c_status := st;
     sent := sent c; errors := errors c; thrown := thrown c |}.

Definition with_faults (e t : nat) (c : Controller) : Controller :=
  {| events := events c; refusals := refusals c; seq := seq c; socket := socket c; sockets := sockets c;
     c_status := c_status c; sent := sent c; errors := e; thrown := t |}.

Definition with_sent (x : nat * string) (c : Controller) : Controller :=
  {| events := events c; refusals := refusals c; seq := seq c; socket := socket c; sockets := sockets c;
     c_status := c_status c; sent := sent c ++ [x]; errors := errors c; thrown := thrown c |}.

Definition handleFrame (raw : string) (at_ : Z) (c : Controller) : Controller :=
  match parse raw with
  | None => with_faults (S (errors c)) (thrown c) c
  | Some JNull => with_faults (errors c) (S (thrown c)) c
  | Some parsed =>
      match str_field "type" parsed with
      | Some type =>
          if existsb (String.eqb type) CHAT_EVENT_TYPES then log_event at_ parsed c
          else match RefusalFrameSchema parsed with
               | Some frame => add_refusal frame c
               | None => c
               end
      | None => c
      end
  end.

Definition attach (c : Controller) : Controller := with_socket (Some (sockets c)) (S (sockets c)) connecting c.

Definition createPlaygroundController : Controller :=
  attach {| events := []; refusals := []; seq := 0; socket := None; sockets := 0; c_status := disconnected;
            sent := []; errors := 0; thrown := 0 |}.

Definition send_frame (text : string) : string :=
  stringify (JObj [("type", JStr "send"); ("content", JStr text)]).

Inductive ControllerEvent : Type :=
| on_open (i : nat) | on_close (i : nat) | on_error (i : nat)
| on_message (i : nat) (raw : string) (at_ : Z)
| call_send (text : string) | call_drop | call_recover.

Definition controller_step (c : Controller) (e : ControllerEvent) : Controller :=
  match e with
  | on_open _ => with_socket (socket c) (sockets c) connected c
  | on_close i => if bool_decide (socket c = Some i) then with_socket (socket c) (sockets c) disconnected c else c
  | on_error _ => with_faults (S (errors c)) (thrown c) c
  | on_message _ raw at_ => handleFrame raw at_ c
  | call_send text => match socket c with Some i => with_sent (i, send_frame text) c | None => c end
  | call_drop => with_socket None (sockets c) disconnected c
  | call_recover => attach c
  end.

(** ** Tool calls *)

Record ToolCallView := {
  tv_callId : string; tv_toolName : string; tv_status : ToolCallStatus; tv_startedAt : Z;
  tv_completedAt : option Z; tv_durationMs : option Z }.

Definition view_status (s : ToolCallStatus) : ToolCallStatus := match s with tc_failed => tc_failed | _ => tc_completed end.

Definition complete_view (at_ : Z) (status : ToolCallStatus) (v : ToolCallView) : ToolCallView :=
  {| tv_callId := tv_callId v; tv_toolName := tv_toolName v; tv_status := view_status status;
     tv_startedAt := tv_startedAt v; tv_completedAt := Some at_; tv_durationMs := Some (at_ - tv_startedAt v)%Z |}.

Definition has_view (callId : string) (vs : list ToolCallView) : bool :=
  existsb (fun v => String.eqb (tv_callId v) callId) vs.

(** [order] and [byId] together: the views in the order of their first event. *)
Definition derive_step (vs : list ToolCallView) (e : Z * ChatEvent) : list ToolCallView :=
  let '(at_, event) := e in
  match event with
  | tool_call_started callId _ _ toolName =>
      if has_view callId vs then vs
      else vs ++ [{| tv_callId := callId; tv_toolName := toolName; tv_status := tc_started; tv_startedAt := at_;
                     tv_completedAt := None; tv_durationMs := None |}]
  | tool_call_completed callId _ _ toolName status =>
      if has_view callId vs
      then map (fun v => if String.eqb (tv_callId v) callId then complete_view at_ status v else v) vs
      else vs ++ [{| tv_callId := callId; tv_toolName := toolName; tv_status := view_status status;
                     tv_startedAt := at_; tv_completedAt := Some at_; tv_durationMs := None |}]
  | _ => vs
  end.

Definition deriveToolCalls (es : list (Z * ChatEvent)) : list ToolCallView := fold_left derive_step es [].

(** ** Minting (fetchSessionInfo) *)

(** [body]: [None] when it cannot be read as JSON, which counts as null. *)
Definition fetchSessionInfo (ok : bool) (status : Z) (body : option json) : res error SessionReadyFrame :=
  if ok then
    match body ≫= SessionReadyFrameSchema with
    | Some info => Ok info
    | None => Err (PlainError "ZodError" "")
    end
  else Err (PlainError "Error" (match body ≫= field "message" with
                                | Some m => to_text m
                                | None => "POST /playground/session failed: " +:+ string_of_Z status
                                end)).
