(* ===== verification/SessionProps.v ===== *)
(** The browser sees what the mediator sends: every frame of a stream is shown,
    in order; and every tool call of the feed has one view. *)
From S2P Require Import Prelude Json Shared Dto Spend SpendProps Mediator MediatorProps React Session.

(** ** Frames on the wire *)

Definition natural (o : option Z) : Prop := match o with Some n => (0 <= n)%Z | None => True end.

(** A frame that the browser understands. *)
Definition readable (f : DownFrame) : Prop :=
  match f with
  | session_ready _ _ _ => True
  | refusal _ message retry messages tokens => message <> "" /\ natural retry /\ natural messages /\ natural tokens
  | relay raw => exists v t, parse raw = Some v /\ v <> JNull /\ str_field "type" v = Some t /\
                   existsb (String.eqb t) CHAT_EVENT_TYPES = true
  end.

Definition frame_of (reason : RefusalReason) (message : string) (retry messages tokens : option Z) : RefusalFrame :=
  {| rf_reason := reason; rf_message := message; rf_retryAfterSeconds := retry;
     rf_remaining := match messages, tokens with None, None => None | _, _ => Some (messages, tokens) end |}.

(** The shown part of a controller after a frame. *)
Definition shows (config : MediatorConfig) (now : Z) (f : DownFrame) (c : Controller) : Controller :=
  match f with
  | session_ready _ _ _ => c
  | refusal reason message retry messages tokens => add_refusal (frame_of reason message retry messages tokens) c
  | relay raw => match parse raw with Some v => log_event now v c | None => c end
  end.

Definition refusal_json (reason : RefusalReason) (message : string) (retry messages tokens : option Z) : json :=
  obj_literal [("type", Some (JStr "refusal")); ("reason", Some (JStr (reason_string reason)));
    ("message", Some (JStr message)); ("retryAfterSeconds", JNum <$> retry);
    ("remaining", remaining_json messages tokens)].

Lemma natural_cases o : natural o -> o = None \/ o = Some 0%Z \/ exists p, o = Some (Zpos p).
Proof. destruct o as [[|p|p]|]; simpl; [by auto|by eauto|lia|by auto]. Qed.

Lemma refusal_read_back reason message retry messages tokens :
  readable (refusal reason message retry messages tokens) ->
  RefusalFrameSchema (refusal_json reason message retry messages tokens)
  = Some (frame_of reason message retry messages tokens).
Proof.
  intros (Hm & Hr & H1 & H2). destruct message as [|ch m]; [done|]. clear Hm.
  apply natural_cases in Hr as [->|[->|[p ->]]], H1 as [->|[->|[p1 ->]]], H2 as [->|[->|[p2 ->]]];
    destruct reason; vm_compute; reflexivity.
Qed.

Lemma frame_shown config iso f now c :
  readable f -> handleFrame (down_text config iso f) now c = shows config now f c.
Proof.
  destruct f as [gid sid exp|reason message retry messages tokens|raw]; intros Hf.
  - unfold handleFrame, down_text. by rewrite parse_stringify.
  - unfold handleFrame. change (down_text _ _ _) with (stringify (refusal_json reason message retry messages tokens)).
    rewrite parse_stringify by (by destruct retry, messages, tokens).
    assert (E : str_field "type" (refusal_json reason message retry messages tokens) = Some "refusal")
      by (by destruct retry, messages, tokens).
    rewrite E. simpl. rewrite refusal_read_back by done. by destruct retry, messages, tokens.
  - destruct Hf as (v & t & Hp & Hn & Ht & Hc). simpl. unfold handleFrame. rewrite Hp.
    destruct v; [done|..]; by rewrite Ht, Hc.
Qed.

(** ** What the mediator says *)

Section mediator.
Context (config : MediatorConfig).

Definition says_readable (s : Stream) : Prop := Forall readable (down s).
Definition tells (m m' : Mediator) : Prop := Forall says_readable (streams m) -> Forall says_readable (streams m').

#[local] Instance tells_refl : Reflexive tells.
Proof. intros m. exact id. Qed.
#[local] Instance tells_trans : Transitive tells.
Proof. intros a b c. unfold tells. auto. Qed.

Lemma tells_same m m' : streams m' = streams m -> tells m m'.
Proof. unfold tells. by intros ->. Qed.

Lemma tells_insert m m' i s s' :
  streams m !! i = Some s -> streams m' = <[i := s']> (streams m) -> (says_readable s -> says_readable s') ->
  tells m m'.
Proof.
  unfold tells. intros Hi -> Hs Hm. apply Forall_insert; [done|]. apply Hs. by eapply Forall_lookup_1.
Qed.

Lemma say_readable f closes s : Forall readable f -> says_readable s -> says_readable (say f closes s).
Proof. intros Hf Hs. apply Forall_app. done. Qed.

Lemma one_readable f : readable f -> Forall readable [f].
Proof. by repeat constructor. Qed.

Lemma refuse_readable reason message : message <> "" -> readable (refuse reason message).
Proof. done. Qed.

Lemma enforce_readable gid g raw now hits f closes hits' :
  enforce config gid g raw now hits = (inl (f, closes), hits') -> readable f.
Proof.
  unfold enforce. destruct (parse raw) as [v|]; [|by intros [= <- _ _]].
  destruct (MediatorInboundSchema v) as [content|]; [|by intros [= <- _ _]].
  destruct (_ <? now)%Z; [by intros [= <- _ _]|].
  destruct (check _ _ _ _) as [[|r] h] eqn:Ec; [|intros [= <- _ _]].
  - destruct (_ <? _); [intros [= <- _ _]; split; [done|]; simpl; unfold remaining_messages; lia|].
    destruct (_ <=? _); [intros [= <- _ _]; split_and!; simpl; done || lia|].
    destruct (_ <=? _); [intros [= <- _ _]; split_and!; simpl; done || lia|done].
  - split; [done|]. simpl. split; [|done]. unfold check in Ec. destruct (_ <=? _); [|done]. injection Ec as <- _. lia.
Qed.

Lemma tells_observe i s gid g frame m :
  streams m !! i = Some s -> tells m (observeChatEvent config i s gid g frame m).
Proof.
  intros Hi.
  assert (Htok : forall txt r, tells m (observe_token config i s gid g txt r m)).
  { intros txt r. unfold observe_token. destruct (_ && _); [|by apply tells_same].
    destruct r; (eapply (tells_insert _ _ i s); [exact Hi|reflexivity|]); apply say_readable, one_readable;
      split_and!; simpl; done || lia. }
  unfold observeChatEvent. destruct (run_id frame) as [r|].
  - destruct (_ && _); [unfold observe_started; destruct (pendingReservationIds g); by apply tells_same|].
    destruct (String.eqb _ _); [apply Htok|]. destruct (_ || _); [|done].
    unfold observe_terminal. destruct (reservationByRun g !! r); [by apply tells_same|done].
  - destruct (String.eqb _ _); [apply Htok|done].
Qed.

Lemma tells_upstream i raw m : tells m (upstream_message config i raw m).
Proof.
  unfold upstream_message. destruct (streams m !! i) as [s|] eqn:Hi; [|done].
  destruct (parse raw) as [frame|] eqn:Ep; [|done].
  assert (Hrelay : frame <> JNull -> tells m
    (let ty := str_field "type" frame in
     if bool_decide (ty = Some "pong") then
       if upstreamReady s then m else with_stream i (with_upstream true (pinging s) [] (upstream s ++ outQueue s) s) m
     else match ty, objects m !! s_guest s with
          | Some t, Some g =>
              if existsb (String.eqb t) CHAT_EVENT_TYPES then
                observeChatEvent config i (say [relay raw] false s) (s_guest (say [relay raw] false s)) g frame
                  (with_stream i (say [relay raw] false s) m)
              else m
          | _, _ => m
          end)).
  { intros Hn. cbv zeta. case_bool_decide.
    { destruct (upstreamReady s); [done|]. by eapply (tells_insert _ _ i s). }
    destruct (str_field "type" frame) as [t|] eqn:Et; [|done].
    destruct (objects m !! s_guest s) as [g|]; [|done]. destruct (existsb _ _) eqn:Ec; [|done].
    transitivity (with_stream i (say [relay raw] false s) m);
      [eapply (tells_insert _ _ i s (say [relay raw] false s)); [exact Hi|reflexivity|]|].
    - apply say_readable, one_readable. by exists frame, t.
    - apply tells_observe. simpl. apply list_lookup_insert_eq. by eapply lookup_lt_Some. }
  destruct frame; [by apply tells_same|..]; by apply Hrelay.
Qed.

Lemma tells_on_stream i f m : (forall s, down (f s) = down s) -> tells m (on_stream i f m).
Proof.
  intros Hf. unfold on_stream. destruct (streams m !! i) as [s|] eqn:E; [|done].
  eapply tells_insert; [exact E|reflexivity|]. unfold says_readable. by rewrite Hf.
Qed.

Lemma down_send_ping n s : down (send_ping n s) = down s.
Proof. unfold send_ping. by repeat case_match. Qed.
Lemma down_forward f s : down (forwardUpstream f s) = down s.
Proof. unfold forwardUpstream. by repeat case_match. Qed.

Lemma tells_inbound i now m : tells m (start_inbound config i now m).
Proof.
  unfold start_inbound. destruct (streams m !! i) as [s|] eqn:Hi; [|done].
  destruct (inbound s); [|done..]. destruct (inboundChain s) as [|raw chain]; [done|].
  destruct (objects m !! s_guest s) as [g|]; [|done].
  destruct (enforce _ _ _ _ _ _) as [[[f closes]|content] hits] eqn:Ee;
    (eapply (tells_insert _ _ i s); [exact Hi|reflexivity|]); [|done].
  apply (say_readable _ _ (with_inbound chain idle s)), one_readable. by eapply enforce_readable.
Qed.

Lemma tells_reserve i newId now m : tells m (decide_reservation config i newId now m).
Proof.
  unfold decide_reservation. destruct (streams m !! i) as [s|] eqn:Hi; [|done].
  destruct (inbound s); try done. destruct (objects m !! s_guest s) as [g|]; [|done].
  destruct newId as [rid|]; [destruct (reserve _ _ _ _ _ _ _) as [[result|e] l]|];
    try destruct (inboundChain s); by eapply (tells_insert _ _ i s).
Qed.

Lemma tells_continue i m : tells m (finish_inbound config i m).
Proof.
  unfold finish_inbound. destruct (streams m !! i) as [s|] eqn:Hi; [|done].
  destruct (inbound s) as [| |content day [row total|total]]; try done.
  - destruct (objects m !! s_guest s) as [g|]; [|done]. eapply (tells_insert _ _ i s); [exact Hi| |].
    + unfold maybeAlert. by destruct (_ <=? _)%Z.
    + unfold says_readable. by rewrite down_forward.
  - eapply (tells_insert _ _ i s); [exact Hi|by destruct (objects m !! s_guest s)|].
    by apply (say_readable _ _ (with_inbound (inboundChain s) idle s)), one_readable.
Qed.

Lemma tells_event m e : tells m (handle config m e).
Proof.
  destruct e as [now|ip now|gid session now|gid now|i raw|i now|i newId now|i|i|i|i|i raw|k answer|k ok now|k ok];
    cbn [handle].
  - by apply tells_same.
  - unfold mintGuest. destruct (check _ _ _ _) as [[|] hits]; by apply tells_same.
  - unfold guest_minted. destruct session as [[]|]; by apply tells_same.
  - unfold open_stream. destruct (registered _ _ _); [|done]. unfold tells. simpl. intros H.
    apply Forall_app. split; [done|]. by repeat constructor.
  - by apply tells_on_stream.
  - apply tells_inbound.
  - apply tells_reserve.
  - apply tells_continue.
  - apply tells_on_stream. intros s. apply down_send_ping.
  - apply tells_on_stream. intros s. unfold ping_tick. destruct (pinging s); [apply down_send_ping|done].
  - by apply tells_on_stream.
  - apply tells_upstream.
  - unfold run_answered. apply tells_same. by repeat case_match.
  - unfold settle_executes. apply tells_same. by repeat case_match.
  - unfold attach_executes. apply tells_same. by repeat case_match.
Qed.

Lemma reachable_readable m : reachable config m -> Forall says_readable (streams m).
Proof. induction 1 as [|m e _ IH _]; [constructor|]. by apply tells_event. Qed.

(** The relayed texts of a list of frames, and its refusals. *)
Definition raws (fs : list DownFrame) : list string :=
  flat_map (fun f => match f with relay raw => [raw] | _ => [] end) fs.
Definition refused_frames (fs : list DownFrame) : list RefusalFrame :=
  flat_map (fun f => match f with
                     | refusal reason message retry messages tokens => [frame_of reason message retry messages tokens]
                     | _ => []
                     end) fs.

Lemma frames_shown iso now fs c :
  Forall readable fs ->
  let c' := fold_left (fun c f => handleFrame (down_text config iso f) now c) fs c in
  map (fun e => Some (le_event e)) (events c') = map (fun e => Some (le_event e)) (events c) ++ map parse (raws fs) /\
  refusals c' = refusals c ++ refused_frames fs /\ errors c' = errors c /\ thrown c' = thrown c.
Proof.
  intros H. revert c. induction H as [|f fs Hf _ IH]; intros c; [by rewrite !app_nil_r|]. cbn [fold_left].
  rewrite frame_shown by done. destruct (IH (shows config now f c)) as (H1 & H2 & H3 & H4). cbv zeta.
  rewrite H1, H2, H3, H4. destruct f as [gid sid exp|reason message retry messages tokens|raw]; [done| |].
  - split_and!; simpl; try rewrite <- app_assoc; done.
  - destruct Hf as (v & t & Hp & _). simpl. rewrite Hp. simpl. by rewrite map_app, <- app_assoc.
Qed.

(** C37: what the mediator says is what the visitor sees.  Let a browser's socket
    receive, in their order, the frames of a stream of any reachable mediator:
    the log takes every relayed event, parsed, and the refusals every refusal,
    once each and in that order; no frame is dropped as unknown, is reported as
    an error, or throws. *)
Theorem visitor_sees_what_is_sent iso m i s c now :
  reachable config m -> streams m !! i = Some s ->
  let c' := fold_left (fun c f => handleFrame (down_text config iso f) now c) (down s) c in
  map (fun e => Some (le_event e)) (events c') = map (fun e => Some (le_event e)) (events c) ++ map parse (raws (down s)) /\
  refusals c' = refusals c ++ refused_frames (down s) /\ errors c' = errors c /\ thrown c' = thrown c.
Proof. intros Hm Hi. by apply frames_shown, (Forall_lookup_1 _ _ _ _ (reachable_readable m Hm) Hi). Qed.
End mediator.

(** ** Tool calls *)

(** The events of one call, and its view from those alone. *)
Definition call_of (e : ChatEvent) : option string :=
  match e with tool_call_started c _ _ _ | tool_call_completed c _ _ _ _ => Some c | _ => None end.

Definition of_call (id : string) (e : Z * ChatEvent) : bool := bool_decide (call_of e.2 = Some id).

(** The ids of the calls in the order of their first event. *)
Fixpoint first_seen (seen : list string) (es : list (Z * ChatEvent)) : list string :=
  match es with
  | [] => []
  | e :: es => match call_of e.2 with
               | Some id => if existsb (String.eqb id) seen then first_seen seen es
                            else id :: first_seen (id :: seen) es
               | None => first_seen seen es
               end
  end.

Definition completion_of (e : Z * ChatEvent) : option (Z * ToolCallStatus) :=
  match e.2 with tool_call_completed _ _ _ _ st => Some (e.1, st) | _ => None end.

Definition tool_of (e : ChatEvent) : string :=
  match e with tool_call_started _ _ _ t | tool_call_completed _ _ _ t _ => t | _ => "" end.

(** The view of a call whose events are these: it starts with the first, its
    end is the last completion, and its duration lies between the two - unless
    the only event is a completion, which has no start to measure from. *)
Definition view_from (id : string) (mine : list (Z * ChatEvent)) : option ToolCallView :=
  match mine with
  | [] => None
  | (t0, e0) :: rest =>
      let name := tool_of e0 in
      match last (omap completion_of mine) with
      | None => Some {| tv_callId := id; tv_toolName := name; tv_status := tc_started; tv_startedAt := t0;
                        tv_completedAt := None; tv_durationMs := None |}
      | Some (t, st) =>
          Some {| tv_callId := id; tv_toolName := name; tv_status := view_status st; tv_startedAt := t0;
                  tv_completedAt := Some t;
                  tv_durationMs := match completion_of (t0, e0), omap completion_of rest with
                                   | Some _, [] => None
                                   | _, _ => Some (t - t0)%Z
                                   end |}
      end
  end.

Definition view_of (es : list (Z * ChatEvent)) (id : string) : option ToolCallView :=
  view_from id (List.filter (of_call id) es).

Lemma view_from_id id mine v : view_from id mine = Some v -> tv_callId v = id.
Proof. destruct mine as [|[t0 e0] rest]; [done|]. unfold view_from. by repeat case_match; intros [= <-]. Qed.

Lemma view_from_snoc id mine e v :
  view_from id mine = Some v -> view_from id (mine ++ [e]) =
  Some (match completion_of e with Some (t, st) => complete_view t st v | None => v end).
Proof.
  destruct mine as [|[t0 e0] rest]; [done|]. unfold view_from. cbn [app]. rewrite app_comm_cons, !omap_app.
  destruct (completion_of e) as [[t st]|] eqn:Ee; cbn [omap list_omap]; rewrite Ee.
  - rewrite last_snoc. destruct (completion_of (t0, e0)) as [[t1 s1]|].
    + cbn [app]. destruct (last _) as [[t2 s2]|]; intros [= <-]; unfold complete_view; simpl; f_equal; f_equal;
        by destruct (omap completion_of rest).
    + destruct (last _) as [[t2 s2]|]; intros [= <-]; done.
  - rewrite !app_nil_r. done.
Qed.

Definition calls_of (es : list (Z * ChatEvent)) : list string := omap (fun e => call_of e.2) es.

Lemma first_seen_snoc seen es e :
  first_seen seen (es ++ [e]) = first_seen seen es ++
  match call_of e.2 with
  | Some id => if existsb (String.eqb id) (seen ++ calls_of es) then [] else [id]
  | None => []
  end.
Proof.
  revert seen. induction es as [|x es IH]; intros seen; simpl.
  - rewrite app_nil_r. destruct (call_of e.2); [|done]. by destruct (existsb _ _).
  - unfold calls_of in *. simpl. destruct (call_of x.2) as [i|]; [|by rewrite IH].
    destruct (existsb (String.eqb i) seen) eqn:Ei; rewrite IH; simpl; f_equal.
    + destruct (call_of e.2) as [id|]; [|done]. rewrite !existsb_app. simpl.
      destruct (String.eqb_spec id i) as [->|]; [by rewrite Ei|done].
    + destruct (call_of e.2) as [id|]; [|done]. simpl. rewrite !existsb_app. simpl.
      by destruct (existsb (String.eqb id) seen), (String.eqb id i).
Qed.

Lemma of_call_snoc id es e :
  List.filter (of_call id) (es ++ [e]) = List.filter (of_call id) es ++ (if of_call id e then [e] else []).
Proof. rewrite List.filter_app. simpl. by destruct (of_call id e). Qed.

Lemma seen_call id es : existsb (String.eqb id) (calls_of es) = true <-> List.filter (of_call id) es <> [].
Proof.
  induction es as [|e es IH]; [done|]. unfold calls_of in *. simpl. unfold of_call at 1.
  destruct (call_of e.2) as [i|]; simpl.
  - destruct (String.eqb_spec id i) as [->|Hn]; [by rewrite bool_decide_true|].
    rewrite bool_decide_false by congruence. exact IH.
  - exact IH.
Qed.

Lemma view_some id mine : mine <> [] -> exists v, view_from id mine = Some v.
Proof. destruct mine as [|[t0 e0] rest]; [done|]. intros _. unfold view_from. repeat case_match; by eexists. Qed.

Lemma has_views id f ids :
  (forall i v, f i = Some v -> tv_callId v = i) -> (forall i, i ∈ ids -> is_Some (f i)) ->
  has_view id (omap f ids) = existsb (String.eqb id) ids.
Proof.
  intros Hid Hs. induction ids as [|i ids IH]; [done|]. simpl.
  destruct (Hs i) as [v Hv]; [by left|]. rewrite Hv. unfold has_view. simpl. rewrite (Hid i v Hv), String.eqb_sym.
  f_equal. apply IH. intros j Hj. apply Hs. by right.
Qed.

Lemma first_seen_calls seen es id :
  existsb (String.eqb id) (first_seen seen es) =
  existsb (String.eqb id) (calls_of es) && negb (existsb (String.eqb id) seen).
Proof.
  revert seen. induction es as [|e es IH]; intros seen; [done|]. unfold calls_of in *. simpl.
  destruct (call_of e.2) as [i|]; [|done]. destruct (existsb (String.eqb i) seen) eqn:Ei; simpl; rewrite IH; simpl;
    destruct (String.eqb_spec id i) as [->|]; rewrite ?Ei; simpl; try done.
  by destruct (existsb _ (omap _ es)).
Qed.

Lemma omap_ext_in {A B} (f g : A -> option B) (l : list A) : (forall x, x ∈ l -> f x = g x) -> omap f l = omap g l.
Proof.
  induction l as [|x l IH]; intros H; [done|]. simpl. rewrite (H x) by by left.
  destruct (g x); [f_equal|]; apply IH; intros y Hy; apply H; by right.
Qed.

(** Adding an event of a call changes the view of that call alone. *)
Lemma view_of_snoc es e id :
  view_of (es ++ [e]) id = if of_call id e then view_from id (List.filter (of_call id) es ++ [e]) else view_of es id.
Proof. unfold view_of. rewrite of_call_snoc. destruct (of_call id e); [done|]. by rewrite app_nil_r. Qed.

Lemma updated_views es e id ids t st :
  call_of e.2 = Some id -> (forall i, i ∈ ids -> existsb (String.eqb i) (calls_of es) = true) ->
  completion_of e = Some (t, st) ->
  omap (view_of (es ++ [e])) ids
  = map (fun v => if String.eqb (tv_callId v) id then complete_view t st v else v) (omap (view_of es) ids).
Proof.
  intros Hc Hs Hk. induction ids as [|i ids IH]; [done|]. simpl.
  destruct (view_some i (List.filter (of_call i) es)) as [v Hv]; [apply seen_call, Hs; by left|].
  rewrite view_of_snoc. change (view_from i (List.filter (of_call i) es)) with (view_of es i) in Hv. rewrite Hv.
  pose proof (view_from_id _ _ _ Hv) as Hid. unfold of_call at 1. rewrite Hc.
  specialize (IH (fun j Hj => Hs j (list_elem_of_further _ _ _ Hj))).
  case_bool_decide as E.
  - rewrite (view_from_snoc _ _ _ _ Hv), Hk. simpl. destruct (String.eqb_spec (tv_callId v) id); [|congruence].
    f_equal. exact IH.
  - simpl. destruct (String.eqb_spec (tv_callId v) id); [congruence|]. f_equal. exact IH.
Qed.

(** Every tool call of the feed has one view, in the order of the calls'
    first events, and a view depends on the events of its call alone: it starts
    with the first, ends with the last completion, and shows its status and the
    time between the two. *)
Theorem each_call_is_shown_once es :
  deriveToolCalls es = omap (view_of es) (first_seen [] es).
Proof.
  unfold deriveToolCalls. induction es as [|e es IH] using rev_ind; [done|].
  rewrite fold_left_app, IH. simpl. rewrite first_seen_snoc. simpl. clear IH.
  assert (Hseen : forall i, i ∈ first_seen [] es -> existsb (String.eqb i) (calls_of es) = true).
  { intros i Hi. apply existsb_elem in Hi. rewrite first_seen_calls in Hi. by destruct (existsb _ (calls_of es)). }
  assert (Hhas : forall id, has_view id (omap (view_of es) (first_seen [] es)) = existsb (String.eqb id) (calls_of es)).
  { intros id. rewrite has_views, first_seen_calls; [by rewrite andb_true_r| |].
    - intros i v. apply view_from_id.
    - intros i Hi. destruct (view_some i (List.filter (of_call i) es)) as [v Hv]; [by apply seen_call, Hseen|]. by exists v. }
  assert (Hsame : forall i, call_of e.2 <> Some i -> view_of (es ++ [e]) i = view_of es i).
  { intros i Hi. rewrite view_of_snoc. unfold of_call. by rewrite bool_decide_false. }
  assert (Hnew : forall id, call_of e.2 = Some id -> existsb (String.eqb id) (calls_of es) = false ->
    omap (view_of (es ++ [e])) (first_seen [] es ++ [id]) =
    omap (view_of es) (first_seen [] es) ++ omap (view_from id) [[e]]).
  { intros id Hc Hn. rewrite omap_app. f_equal.
    - apply omap_ext_in. intros i Hi%Hseen. apply Hsame. congruence.
    - simpl. rewrite view_of_snoc. unfold of_call at 1. rewrite bool_decide_true by done.
      destruct (List.filter (of_call id) es) eqn:E; [done|].
      assert (existsb (String.eqb id) (calls_of es) = true) by (apply seen_call; by rewrite E). congruence. }
  destruct e as [t ev]. destruct ev as [| |id r s name|id r s name st| |]; simpl derive_step.
  1, 2, 5, 6: simpl; rewrite app_nil_r; apply omap_ext_in; intros i _; by rewrite Hsame.
  - rewrite Hhas. simpl. destruct (existsb _ (calls_of es)) eqn:E; [|by rewrite Hnew].
    rewrite app_nil_r. apply omap_ext_in. intros i Hi. rewrite view_of_snoc. unfold of_call at 1. simpl.
    case_bool_decide; [|done]. destruct (view_some i (List.filter (of_call i) es)) as [v Hv]; [by apply seen_call, Hseen|].
    rewrite (view_from_snoc _ _ _ _ Hv). simpl. exact Hv.
  - rewrite Hhas. simpl. destruct (existsb _ (calls_of es)) eqn:E; [|by rewrite Hnew].
    rewrite app_nil_r. symmetry. by apply updated_views.
Qed.

(** A replayed completion - the runtime replays the events of a run that is
    still active to a new socket - moves the end of a call: its duration is the
    time until the replay. *)
Theorem replay_inflates_the_duration :
  deriveToolCalls [(0%Z, tool_call_started "tc" "r" "s" "add"); (40%Z, tool_call_completed "tc" "r" "s" "add" tc_completed);
                   (9000%Z, tool_call_started "tc" "r" "s" "add");
                   (9001%Z, tool_call_completed "tc" "r" "s" "add" tc_completed)]
  = [{| tv_callId := "tc"; tv_toolName := "add"; tv_status := tc_completed; tv_startedAt := 0;
        tv_completedAt := Some 9001%Z; tv_durationMs := Some 9001%Z |}].
Proof. reflexivity. Qed.

(** ** Witness *)

(** A frame that is refused, and an event that is relayed. *)
Definition demo_relayed : string := stringify (event_json (token "hello" "msg_1" "run_1" "ses_1")).
Definition demo_talk : list Mediator.Event :=
  [ev_mint "10.0.0.1" 0; ev_minted "pg_1" (Some ("ses_1", "wss://runtime")) 0; ev_open "pg_1" 1;
   ev_browser 0 "{}"; ev_inbound 0 2; ev_up_message 0 demo_relayed].
Definition demo_spoken : Mediator := fold_left (handle demo_mediator) demo_talk booted.
Definition demo_shown : Controller :=
  fold_left (fun c f => handleFrame (down_text demo_mediator (fun _ => "1970") f) 5 c)
    (match streams demo_spoken !! 0 with Some s => down s | None => [] end) createPlaygroundController.

Lemma visitor_sees_what_is_sent_witness :
  map le_event (events demo_shown) = [event_json (token "hello" "msg_1" "run_1" "ses_1")] /\
  length (refusals demo_shown) = 1 /\ errors demo_shown = 0 /\ thrown demo_shown = 0.
Proof.
  split; [vm_compute; reflexivity|]. split; [vm_compute; reflexivity|]. unfold demo_shown.
  destruct (streams demo_spoken !! 0) as [s|] eqn:E; [|by vm_compute in E].
  refine (proj2 (proj2 (visitor_sees_what_is_sent demo_mediator (fun _ => "1970") demo_spoken 0 s
    createPlaygroundController 5 _ E))).
  apply run_reachable; [constructor|]. vm_compute. repeat split.
Defined.

(** ** What the comments exclude *)

(** A frame that is not an object crashes the handler. *)
Theorem null_frame_throws now c : thrown (handleFrame "null" now c) = S (thrown c).
Proof. reflexivity. Qed.

(** A socket that was dropped while it was connecting still reports itself as
    the connection when it opens, and its messages still enter the log. *)
Theorem dropped_socket_is_heard c i raw now :
  let c' := controller_step c call_drop in
  c_status (controller_step c' (on_open i)) = connected /\
  controller_step c' (on_message i raw now) = handleFrame raw now c'.
Proof. done. Qed.
