(* ===== verification/Guardrails.v ===== *)
(** The guardrails of the playground from the environment
    (apps/playground/backend/src/mediator/config.ts).

    Integers are exact, as they are in doubles below 2^53; [INFINITE] stands for
    the number that is greater than them all. *)
From Stdlib Require Import SpecFloat.
From S2P Require Import Prelude Json Shared Spend Mediator Numbers.

Abbreviation Environment := (string -> option string).

Definition not_positive (key what raw : string) : error :=
  PlainError "Error" (key +:+ " must be a positive " +:+ what +:+ ", got " +:+
    string_of_list_ascii (print_string raw)).

Definition INFINITE : Z := 2 ^ 1024.

Definition int (env : Environment) (key : string) (fallback : Z) : res error Z :=
  match env key with
  | None | Some "" => Ok fallback
  | Some raw =>
      match parseInt raw with
      | Some parsed => if ((parsed <=? 0) || (INFINITE <=? parsed))%Z then Err (not_positive key "integer" raw)
                       else Ok parsed
      | None => Err (not_positive key "integer" raw)
      end
  end.

Definition num (env : Environment) (key : string) (fallback : number) : res error number :=
  match env key with
  | None | Some "" => Ok fallback
  | Some raw =>
      let parsed := parseFloat raw in
      if negb (isFinite parsed) || num_leb parsed (S754_zero false)
      then Err (not_positive key "number" raw) else Ok parsed
  end.

(** The whole configuration; [MediatorConfig] is what the mediator uses of it. *)
Record Guardrails := {
  gr_config : MediatorConfig; maxInputTokensPerRun : Z; maxOutputTokensPerRun : Z;
  inputPriceUsdPerMTok : number; outputPriceUsdPerMTok : number; alertThresholdFraction : number;
  sweepIntervalMs : Z }.

Definition decimal (s : string) : number := parseFloat s.

(** [Math.ceil(maxInput * inputPrice + maxOutput * outputPrice)]. *)
Definition derived_reservation (maxIn maxOut : Z) (priceIn priceOut : number) : Z :=
  let sum := num_add (num_mul (num_of_Z maxIn) priceIn) (num_mul (num_of_Z maxOut) priceOut) in
  if isFinite sum then num_ceil sum else INFINITE.

Definition loadMediatorConfig (env : Environment) : res error Guardrails :=
  let? maxIn := int env "PLAYGROUND_MAX_INPUT_TOKENS_PER_RUN" 30000 in
  let? maxOut := int env "PLAYGROUND_MAX_OUTPUT_TOKENS_PER_RUN" 10240 in
  let? priceIn := num env "PLAYGROUND_INPUT_PRICE_USD_PER_MTOK" (decimal "0.8") in
  let? priceOut := num env "PLAYGROUND_OUTPUT_PRICE_USD_PER_MTOK" (decimal "4.0") in
  let? reservation := int env "PLAYGROUND_RESERVATION_MICRO_USD" (derived_reservation maxIn maxOut priceIn priceOut) in
  let? fraction := num env "PLAYGROUND_ALERT_THRESHOLD_FRACTION" (decimal "0.5") in
  if num_ltb (num_of_Z 1) fraction then
    Err (PlainError "Error" "PLAYGROUND_ALERT_THRESHOLD_FRACTION must be <= 1")
  else
    let? ttl := int env "PLAYGROUND_SESSION_TTL_SECONDS" 600 in
    let? mints := int env "PLAYGROUND_IP_MINTS_PER_WINDOW" 10 in
    let? ipWindow := int env "PLAYGROUND_IP_WINDOW_SECONDS" 3600 in
    let? sends := int env "PLAYGROUND_SESSION_SENDS_PER_WINDOW" 6 in
    let? window := int env "PLAYGROUND_SESSION_WINDOW_SECONDS" 60 in
    let? messages := int env "PLAYGROUND_MESSAGES_PER_SESSION" 20 in
    let? chars := int env "PLAYGROUND_MESSAGE_MAX_CHARS" 500 in
    let? tokens := int env "PLAYGROUND_TOKENS_PER_SESSION" 8000 in
    let? ceiling := int env "PLAYGROUND_DAILY_CEILING_MICRO_USD" 5000000 in
    let? sweep := int env "PLAYGROUND_SWEEP_INTERVAL_SECONDS" 60 in
    let? abandoned := int env "PLAYGROUND_ABANDONED_AFTER_SECONDS" 300 in
    Ok {| gr_config :=
            {| sessionTtlMs := ttl * 1000;
               ipLimit := {| lim_max := Z.to_nat mints; windowMs := ipWindow * 1000 |};
               sessionLimit := {| lim_max := Z.to_nat sends; windowMs := window * 1000 |};
               messagesPerSession := Z.to_nat messages; messageMaxChars := Z.to_nat chars;
               tokensPerSession := Z.to_nat tokens; reservationMicroUsd := reservation;
               dailyCeilingMicroUsd := ceiling;
               alertThresholdMicroUsd := num_floor (num_mul (num_of_Z ceiling) fraction);
               abandonedAfterMs := abandoned * 1000 |};
          maxInputTokensPerRun := maxIn; maxOutputTokensPerRun := maxOut; inputPriceUsdPerMTok := priceIn;
          outputPriceUsdPerMTok := priceOut; alertThresholdFraction := fraction; sweepIntervalMs := sweep * 1000 |}%Z.

(** ** What is loaded *)

Lemma int_positive env key fallback z : (0 < fallback)%Z -> int env key fallback = Ok z -> (0 < z)%Z.
Proof.
  intros Hf. unfold int. destruct (env key) as [[|c raw]|]; [by intros [= <-]| |by intros [= <-]].
  destruct (parseInt _) as [p|]; [|done]. destruct (Z.leb_spec p 0); [done|]. by destruct (_ <=? _)%Z; intros [= <-].
Qed.

(** Every limit that is loaded is positive; the amount of a reservation is the
    configured one, or is derived from the caps and the prices. *)
Theorem loaded_limits_are_positive env g :
  loadMediatorConfig env = Ok g ->
  let c := gr_config g in
  (0 < sessionTtlMs c)%Z /\ 0 < lim_max (ipLimit c) /\ (0 < windowMs (ipLimit c))%Z /\
  0 < lim_max (sessionLimit c) /\ (0 < windowMs (sessionLimit c))%Z /\ 0 < messagesPerSession c /\
  0 < messageMaxChars c /\ 0 < tokensPerSession c /\ (0 < dailyCeilingMicroUsd c)%Z /\ (0 < abandonedAfterMs c)%Z /\
  ((0 < reservationMicroUsd c)%Z \/ reservationMicroUsd c =
     derived_reservation (maxInputTokensPerRun g) (maxOutputTokensPerRun g) (inputPriceUsdPerMTok g)
       (outputPriceUsdPerMTok g)).
Proof.
  unfold loadMediatorConfig. intros H.
  assert (Hr : forall d z, int env "PLAYGROUND_RESERVATION_MICRO_USD" d = Ok z -> (0 < z)%Z \/ z = d).
  { intros d z. unfold int. destruct (env _) as [[|ch raw]|]; [intros [= <-]; by right| |intros [= <-]; by right].
    destruct (parseInt _) as [p|]; [|done]. destruct (Z.leb_spec p 0); [done|].
    destruct (_ <=? _)%Z; intros [= <-]. by left. }
  repeat match type of H with
    | res_bind _ _ = _ => apply res_bind_ok in H as (? & ? & H)
    | (if ?b then _ else _) = _ => destruct b; [done|]
    end.
  injection H as <-. cbn [gr_config sessionTtlMs ipLimit sessionLimit lim_max windowMs messagesPerSession
    messageMaxChars tokensPerSession dailyCeilingMicroUsd abandonedAfterMs reservationMicroUsd maxInputTokensPerRun
    maxOutputTokensPerRun inputPriceUsdPerMTok outputPriceUsdPerMTok].
  match goal with E : int env "PLAYGROUND_RESERVATION_MICRO_USD" _ = _ |- _ => apply Hr in E end.
  repeat match goal with E : int env _ _ = _ |- _ => apply int_positive in E; [|lia] end.
  split_and!; (lia || done).
Qed.

(** The default posture: a run reserves 64 960 micro-USD, and a day admits 76. *)
Example default_posture :
  match loadMediatorConfig (fun _ => None) with
  | Ok g => reservationMicroUsd (gr_config g) = 64960%Z /\ alertThresholdMicroUsd (gr_config g) = 2500000%Z /\
            (dailyCeilingMicroUsd (gr_config g) / reservationMicroUsd (gr_config g) = 76)%Z
  | Err _ => False
  end.
Proof. vm_compute. repeat split. Qed.

(** A number with separators is cut at the first: a ceiling of five dollars
    becomes one of five millionths. *)
Theorem separators_cut_the_number env :
  env "PLAYGROUND_DAILY_CEILING_MICRO_USD" = Some "5_000_000" ->
  int env "PLAYGROUND_DAILY_CEILING_MICRO_USD" 5000000 = Ok 5%Z.
Proof. intros H. unfold int. rewrite H. vm_compute. reflexivity. Qed.
