(* ===== verification/Retention.v ===== *)
(** The clean-up of the playground's own database
    (apps/playground/backend/src/scripts/retention-cleanup.ts).

    Seven DELETE statements, each a transaction of its own: [now()] is read anew
    by each, and the service that uses the database moves it between them.  A
    statement that would leave a row without its parent is refused by the
    foreign keys of the schema.  The database's time zone is UTC, so that an
    interval of days is one of hours. *)
From S2P Require Import Prelude Json Shared Observability Repos RunService Store Spend Mediator Numbers Guardrails.

(** The store with the sessions' creation times, and the ledger. *)
Record Database := { pg_store : Store; pg_sessionTimes : gmap string Z; pg_ledger : Ledger }.

Definition with_store (s : Store) (d : Database) : Database :=
  {| pg_store := s; pg_sessionTimes := pg_sessionTimes d; pg_ledger := pg_ledger d |}.

Definition sessions_of (d : Database) : gmap string SessionRecord := db_sessions (st_db (pg_store d)).
Definition runs_of (d : Database) : gmap string RunRecord := db_runs (st_db (pg_store d)).
Definition messages_of (d : Database) : list MessageRecord := db_messages (st_db (pg_store d)).
Definition toolCalls_of (d : Database) : gmap string ToolCallRecord := db_toolCalls (st_db (pg_store d)).
Definition traces_of (d : Database) : gmap string TraceRecord := st_traces (pg_store d).
Definition spans_of (d : Database) : list SpanRecord := st_spans (pg_store d).

Definition HOUR : Z := 3600000.

(** ** The rows that the WHERE clauses select *)

(** [session_id IN (old)]. *)
Definition old_session (cutoff : Z) (d : Database) (sessionId : string) : bool :=
  match sessions_of d !! sessionId, pg_sessionTimes d !! sessionId with
  | Some _, Some created => (created <? cutoff)%Z
  | _, _ => false
  end.

(** [run_id IN (oldRuns)]. *)
Definition old_run (cutoff : Z) (d : Database) (runId : string) : bool :=
  match runs_of d !! runId with Some r => old_session cutoff d (run_sessionId r) | None => false end.

(** [trace_id IN (SELECT trace_id FROM traces WHERE run_id IN (oldRuns))]. *)
Definition old_trace (cutoff : Z) (d : Database) (traceId : string) : bool :=
  match traces_of d !! traceId with Some t => old_run cutoff d (tr_runId t) | None => false end.

(** ** The statements *)

(** Rows of a table without those that [p] selects. *)
Definition keep_rows {A} (p : A -> bool) (m : gmap string A) : gmap string A := filter (fun kv => p kv.2 = false) m.

(** Whether a row of the table refers to a row that is not there. *)
Definition dangling {A B} (key : A -> option string) (rows : list A) (parents : gmap string B) : bool :=
  existsb (fun x => match key x with Some k => negb (bool_decide (is_Some (parents !! k))) | None => false end) rows.

Definition rows {A} (m : gmap string A) : list A := (map_to_list m).*2.

Definition fk_error (what : string) : error := constraint_error what.

Definition delete_spans (cutoff : Z) (d : Database) : res error Database :=
  let spans := List.filter (fun x => negb (old_trace cutoff d (sr_traceId x))) (spans_of d) in
  Ok (with_store (set_traces (traces_of d) spans (pg_store d)) d).

Definition delete_traces (cutoff : Z) (d : Database) : res error Database :=
  let traces := keep_rows (fun t => old_run cutoff d (tr_runId t)) (traces_of d) in
  if dangling (fun x => Some (sr_traceId x)) (spans_of d) traces
  then Err (fk_error "trace_spans_trace_id_traces_trace_id_fk")
  else Ok (with_store (set_traces traces (spans_of d) (pg_store d)) d).

Definition delete_toolCalls (cutoff : Z) (d : Database) : res error Database :=
  Ok (with_store (set_db (set_toolCalls (st_db (pg_store d))
        (keep_rows (fun c => old_run cutoff d (tcr_runId c)) (toolCalls_of d))) (pg_store d)) d).

Definition delete_messages (cutoff : Z) (d : Database) : res error Database :=
  Ok (with_store (set_db (set_messages (st_db (pg_store d))
        (List.filter (fun m => negb (old_session cutoff d (msg_sessionId m))) (messages_of d))) (pg_store d)) d).

Definition delete_runs (cutoff : Z) (d : Database) : res error Database :=
  let runs := keep_rows (fun r => old_session cutoff d (run_sessionId r)) (runs_of d) in
  if dangling msg_runId (messages_of d) runs then Err (fk_error "messages_run_id_runs_run_id_fk")
  else if dangling (fun c => Some (tcr_runId c)) (rows (toolCalls_of d)) runs
  then Err (fk_error "tool_calls_run_id_runs_run_id_fk")
  else if dangling (fun t => Some (tr_runId t)) (rows (traces_of d)) runs
  then Err (fk_error "traces_run_id_runs_run_id_fk")
  else Ok (with_store (set_db (set_runs (st_db (pg_store d)) runs) (pg_store d)) d).

Definition delete_sessions (cutoff : Z) (d : Database) : res error Database :=
  let sessions := filter (fun kv => old_session cutoff d kv.1 = false) (sessions_of d) in
  if dangling (fun r => Some (run_sessionId r)) (rows (runs_of d)) sessions
  then Err (fk_error "runs_session_id_sessions_session_id_fk")
  else if dangling (fun m => Some (msg_sessionId m)) (messages_of d) sessions
  then Err (fk_error "messages_session_id_sessions_session_id_fk")
  else Ok {| pg_store := set_metadata (filter (fun kv => old_session cutoff d kv.1 = false) (st_metadata (pg_store d)))
               (set_db (set_sessions (st_db (pg_store d)) sessions) (pg_store d));
             pg_sessionTimes := filter (fun kv => old_session cutoff d kv.1 = false) (pg_sessionTimes d);
             pg_ledger := pg_ledger d |}.

Definition settled_before (cutoff : Z) (r : Reservation) : bool :=
  match rs_settled r with Some _ => (createdAt r <? cutoff)%Z | None => false end.

Definition delete_reservations (cutoff : Z) (d : Database) : res error Database :=
  Ok {| pg_store := pg_store d; pg_sessionTimes := pg_sessionTimes d;
        pg_ledger := {| days := days (pg_ledger d);
          reservations := List.filter (fun r => negb (settled_before cutoff r)) (reservations (pg_ledger d)) |} |}.

(** ** The script *)

Definition intEnv : (string -> option string) -> string -> Z -> res error Z := int.

(** The statements, in the order of the script, with their windows. *)
Definition statements (retentionHours auditDays : Z) : list ((Z -> Database -> res error Database) * Z) :=
  [(delete_spans, retentionHours * HOUR); (delete_traces, retentionHours * HOUR);
   (delete_toolCalls, retentionHours * HOUR); (delete_messages, retentionHours * HOUR);
   (delete_runs, retentionHours * HOUR); (delete_sessions, retentionHours * HOUR);
   (delete_reservations, auditDays * 24 * HOUR)]%Z.

(** What lies outside of the script: its clock, what other processes do before
    a statement, and a statement that the database refuses for another reason. *)
Record Surroundings := {
  su_now : nat -> Z; su_moves : nat -> Database -> Database; su_refuses : nat -> option error }.

(** The outcome of the statements from the [k]th on: it ends, or an error does. *)
Fixpoint run_statements (w : Surroundings) (k : nat) (todo : list ((Z -> Database -> res error Database) * Z)) (d : Database) :
    option error * Database :=
  match todo with
  | [] => (None, d)
  | (statement, window) :: todo =>
      let d := su_moves w k d in
      match su_refuses w k with
      | Some e => (Some e, d)
      | None =>
          match statement (su_now w k - window)%Z d with
          | Ok d' => run_statements w (S k) todo d'
          | Err e => (Some e, d)
          end
      end
  end.

(** A variable that is set, and not to the empty text. *)
Definition is_given (o : option string) : Prop := match o with Some s => s <> "" | None => False end.

Definition main (env : string -> option string) (w : Surroundings) (d : Database) : option error * Database :=
  match env "DATABASE_URL" with
  | None | Some "" =>
      (Some (PlainError "Error" "DATABASE_URL is required (the playground's own isolated database)"), d)
  | Some _ =>
      match intEnv env "PLAYGROUND_RETENTION_HOURS" 24, intEnv env "PLAYGROUND_LEDGER_AUDIT_DAYS" 30 with
      | Ok retentionHours, Ok auditDays => run_statements w 0 (statements retentionHours auditDays) d
      | Err e, _ | Ok _, Err e => (Some e, d)
      end
  end.

(** ** What the clean-up guarantees *)

(** ** Rows and their parents *)

(** Every foreign key has its row. *)
Record intact (d : Database) : Prop := {
  c_spans : dangling (fun x => Some (sr_traceId x)) (spans_of d) (traces_of d) = false;
  c_traces : dangling (fun t => Some (tr_runId t)) (rows (traces_of d)) (runs_of d) = false;
  c_calls : dangling (fun c => Some (tcr_runId c)) (rows (toolCalls_of d)) (runs_of d) = false;
  c_message_runs : dangling msg_runId (messages_of d) (runs_of d) = false;
  c_messages : dangling (fun m => Some (msg_sessionId m)) (messages_of d) (sessions_of d) = false;
  c_runs : dangling (fun r => Some (run_sessionId r)) (rows (runs_of d)) (sessions_of d) = false }.

(** A message belongs to the session of its run. *)
Definition threaded (d : Database) : Prop :=
  forall m r run, m ∈ messages_of d -> msg_runId m = Some r -> runs_of d !! r = Some run ->
    run_sessionId run = msg_sessionId m.

Lemma dangling_false {A B} (key : A -> option string) l (parents : gmap string B) :
  dangling key l parents = false <-> forall x k, x ∈ l -> key x = Some k -> is_Some (parents !! k).
Proof.
  unfold dangling. rewrite <- not_true_iff_false, existsb_exists. split.
  - intros H x k Hx Hk. destruct (parents !! k) eqn:E; [by eexists|]. exfalso. apply H. exists x.
    split; [by apply list_elem_of_In|]. rewrite Hk, E. by rewrite bool_decide_false by (by intros [? ?]).
  - intros H (x & Hx & Hd). destruct (key x) as [k|] eqn:Hk; [|done].
    apply list_elem_of_In in Hx. pose proof (H x k Hx Hk). by rewrite bool_decide_true in Hd.
Qed.

Lemma parent {A B} (key : A -> option string) l (parents : gmap string B) x k :
  dangling key l parents = false -> x ∈ l -> key x = Some k -> is_Some (parents !! k).
Proof. rewrite dangling_false. eauto. Qed.

Lemma dangling_fewer {A B} (key : A -> option string) l l' (parents : gmap string B) :
  l' ⊆ l -> dangling key l parents = false -> dangling key l' parents = false.
Proof. rewrite !dangling_false. intros Hs H x k Hx. apply H. by apply Hs. Qed.

Lemma elem_of_rows {A} (m : gmap string A) v : v ∈ rows m <-> exists k, m !! k = Some v.
Proof.
  unfold rows. rewrite list_elem_of_fmap. split.
  - intros ([k x] & -> & H). apply elem_of_map_to_list in H. by exists k.
  - intros (k & H). exists (k, v). split; [done|]. by apply elem_of_map_to_list.
Qed.

Lemma rows_mono {A} (m m' : gmap string A) : m' ⊆ m -> rows m' ⊆ rows m.
Proof. intros H v. rewrite !elem_of_rows. intros (k & Hk). exists k. by eapply lookup_weaken. Qed.

Lemma keep_rows_sub {A} (p : A -> bool) m : keep_rows p m ⊆ m.
Proof. apply map_filter_subseteq. Qed.

Lemma filter_sub {A} (p : A -> bool) (l : list A) : List.filter p l ⊆ l.
Proof. intros x Hx. apply list_elem_of_In, filter_In in Hx as [Hx _]. by apply list_elem_of_In. Qed.

#[local] Hint Resolve keep_rows_sub filter_sub rows_mono : core.
#[local] Hint Extern 1 (_ ⊆ _) => apply map_filter_subseteq : core.

Definition keeps_closed (f : Database -> Database) : Prop := forall d, intact d -> intact (f d).

Lemma statement_closed statement window cutoff h a d d' :
  In (statement, window) (statements h a) -> statement cutoff d = Ok d' -> intact d -> intact d'.
Proof.
  intros Hin E [C1 C2 C3 C4 C5 C6].
  repeat (destruct Hin as [[= <- <-]|Hin]; [revert E|]); [..|done];
    unfold delete_spans, delete_traces, delete_toolCalls, delete_messages, delete_runs, delete_sessions,
      delete_reservations; repeat (case_goal; [done|]); intros [= <-]; split; try done;
    first [exact (dangling_fewer _ _ _ _ (filter_sub _ _) C1) | exact (dangling_fewer _ _ _ _ (filter_sub _ _) C4)
          | exact (dangling_fewer _ _ _ _ (filter_sub _ _) C5)
          | exact (dangling_fewer _ _ _ _ (rows_mono _ _ (keep_rows_sub _ _)) C2)
          | exact (dangling_fewer _ _ _ _ (rows_mono _ _ (keep_rows_sub _ _)) C3)
          | exact (dangling_fewer _ _ _ _ (rows_mono _ _ (keep_rows_sub _ _)) C6)].
Qed.

Lemma statements_closed w k todo d :
  (forall k, keeps_closed (su_moves w k)) -> (exists h a, todo `suffix_of` statements h a) -> intact d ->
  intact (run_statements w k todo d).2.
Proof.
  intros Hm. revert k d. induction todo as [|[statement window] todo IH]; intros k d (h & a & Hs) Hd; [done|].
  simpl. apply (Hm k) in Hd. destruct (su_refuses w k); [done|].
  destruct (statement _ _) as [d'|e] eqn:E; [|done]. apply IH.
  - exists h, a. etransitivity; [|exact Hs]. by exists [(statement, window)].
  - eapply statement_closed; [|exact E|done]. destruct Hs as [pre Hs]. rewrite Hs. apply in_app_iff. right. by left.
Qed.

(** ** The clean-up as one step *)

(** The database with these tables. *)
Definition put (d : Database) sessions times metadata runs messages toolCalls traces spans ledger : Database :=
  {| pg_store := set_metadata metadata (set_traces traces spans (set_db
       {| db_sessions := sessions; db_agents := db_agents (st_db (pg_store d)); db_runs := runs;
          db_messages := messages; db_toolCalls := toolCalls |} (pg_store d)));
     pg_sessionTimes := times; pg_ledger := {| days := days (pg_ledger d); reservations := ledger |} |}.

Definition young {A} (cutoff : Z) (d : Database) (kv : string * A) : Prop := old_session cutoff d kv.1 = false.

(** What a clean-up is for: the database without the sessions that are older
    than [cutoff] and all that hangs off them, and without the reservations that
    were settled and are older than [audit]. *)
Definition pruned (cutoff audit : Z) (d : Database) : Database :=
  put d (filter (fun kv => old_session cutoff d kv.1 = false) (sessions_of d))
    (filter (fun kv => old_session cutoff d kv.1 = false) (pg_sessionTimes d))
    (filter (fun kv => old_session cutoff d kv.1 = false) (st_metadata (pg_store d)))
    (keep_rows (fun r => old_session cutoff d (run_sessionId r)) (runs_of d))
    (List.filter (fun m => negb (old_session cutoff d (msg_sessionId m))) (messages_of d))
    (keep_rows (fun c => old_run cutoff d (tcr_runId c)) (toolCalls_of d))
    (keep_rows (fun t => old_run cutoff d (tr_runId t)) (traces_of d))
    (List.filter (fun x => negb (old_trace cutoff d (sr_traceId x))) (spans_of d))
    (List.filter (fun r => negb (settled_before audit r)) (reservations (pg_ledger d))).

(** [l'] is [l] without rows that [p] selects; also for tables with a key. *)
Definition trimmed {A} (p : A -> bool) (l l' : list A) : Prop :=
  exists k, l' = List.filter k l /\ forall x, x ∈ l -> k x = false -> p x = true.

Definition trimmed_map {A} (p : string -> A -> bool) (m m' : gmap string A) : Prop :=
  m' ⊆ m /\ forall k v, m !! k = Some v -> m' !! k = None -> p k v = true.

Lemma trimmed_refl {A} (p : A -> bool) l : trimmed p l l.
Proof. exists (fun _ => true). split; [by rewrite filter_all|done]. Qed.

Lemma trimmed_map_refl {A} (p : string -> A -> bool) m : trimmed_map p m m.
Proof. split; [done|]. intros k v -> [=]. Qed.

Lemma trimmed_by {A} (q p : A -> bool) l :
  (forall x, x ∈ l -> q x = true -> p x = true) -> trimmed p l (List.filter (fun x => negb (q x)) l).
Proof. intros H. exists (fun x => negb (q x)). split; [done|]. intros x Hx Hq. apply H; [done|]. by apply negb_false_iff. Qed.

Lemma trimmed_map_by {A} (q p : string -> A -> bool) m :
  (forall k v, m !! k = Some v -> q k v = true -> p k v = true) ->
  trimmed_map p m (filter (fun kv => q kv.1 kv.2 = false) m).
Proof.
  intros H. split; [apply map_filter_subseteq|]. intros k v Hk Hn. apply H; [done|].
  destruct (q k v) eqn:E; [done|]. exfalso. rewrite (map_lookup_filter_Some_2 _ _ _ v) in Hn; done.
Qed.

(** Trimming first changes nothing, when the rows that remain are selected as
    before. *)
Lemma filter_trimmed {A} (p p' : A -> bool) l l' :
  trimmed p l l' -> (forall x, x ∈ l' -> p' x = p x) ->
  List.filter (fun x => negb (p' x)) l' = List.filter (fun x => negb (p x)) l.
Proof.
  intros (k & -> & Hk) H. induction l as [|x l IH]; [done|]. simpl.
  assert (IH' : List.filter (fun x => negb (p' x)) (List.filter k l) = List.filter (fun x => negb (p x)) l).
  { apply IH; [intros y Hy; apply Hk; by right|]. intros y Hy. apply H. simpl. case_match; [by right|done]. }
  destruct (k x) eqn:E; simpl.
  - rewrite (H x) by (simpl; rewrite E; by left). by rewrite IH'.
  - rewrite (Hk x) by (by left || done). simpl. exact IH'.
Qed.

Lemma filter_trimmed_map {A} (p p' : string -> A -> bool) m m' :
  trimmed_map p m m' -> (forall k v, m' !! k = Some v -> p' k v = p k v) ->
  filter (fun kv => p' kv.1 kv.2 = false) m' = filter (fun kv => p kv.1 kv.2 = false) m.
Proof.
  intros [Hs Hk] H. apply map_eq. intros k. apply option_eq. intros v. rewrite !map_lookup_filter_Some. simpl. split.
  - intros [E F]. rewrite H in F by done. split; [by eapply lookup_weaken|done].
  - intros [E F]. destruct (m' !! k) as [v'|] eqn:E'.
    + pose proof (lookup_weaken _ _ _ _ E' Hs). simplify_eq. by rewrite (H _ _ E').
    + rewrite (Hk k v) in F; done.
Qed.

(** ** A statement removes what the clean-up removes *)

(** [d'] is [d] without rows that a clean-up at [cutoff] and [audit] removes. *)
Record removes (cutoff audit : Z) (d d' : Database) : Prop := {
  rm_put : put d' = put d;
  rm_sessions : trimmed_map (fun k _ => old_session cutoff d k) (sessions_of d) (sessions_of d');
  rm_times : trimmed_map (fun k _ => old_session cutoff d k) (pg_sessionTimes d) (pg_sessionTimes d');
  rm_metadata : trimmed_map (fun k _ => old_session cutoff d k) (st_metadata (pg_store d)) (st_metadata (pg_store d'));
  rm_runs : trimmed_map (fun _ r => old_session cutoff d (run_sessionId r)) (runs_of d) (runs_of d');
  rm_messages : trimmed (fun m => old_session cutoff d (msg_sessionId m)) (messages_of d) (messages_of d');
  rm_calls : trimmed_map (fun _ c => old_run cutoff d (tcr_runId c)) (toolCalls_of d) (toolCalls_of d');
  rm_traces : trimmed_map (fun _ t => old_run cutoff d (tr_runId t)) (traces_of d) (traces_of d');
  rm_spans : trimmed (fun x => old_trace cutoff d (sr_traceId x)) (spans_of d) (spans_of d');
  rm_reservations : trimmed (settled_before audit) (reservations (pg_ledger d)) (reservations (pg_ledger d'));
  (* A session that stays keeps its time, and one that is gone leaves nothing behind. *)
  rm_kept : forall k, is_Some (sessions_of d' !! k) -> pg_sessionTimes d' !! k = pg_sessionTimes d !! k;
  rm_gone : forall k, sessions_of d' !! k = None -> old_session cutoff d k = true ->
    pg_sessionTimes d' !! k = None /\ st_metadata (pg_store d') !! k = None }.

Section removes.
Context (cutoff audit : Z) (d d' : Database) (H : removes cutoff audit d d') (Hc : intact d').

Lemma same_session k : is_Some (sessions_of d' !! k) -> old_session cutoff d' k = old_session cutoff d k.
Proof using H.
  intros Hk. unfold old_session. rewrite (rm_kept _ _ _ _ H k Hk). destruct Hk as [x Hx]. rewrite Hx.
  by rewrite (lookup_weaken _ _ _ _ Hx (proj1 (rm_sessions _ _ _ _ H))).
Qed.

Lemma same_run k : is_Some (runs_of d' !! k) -> old_run cutoff d' k = old_run cutoff d k.
Proof using H Hc.
  intros [r Hr]. unfold old_run. rewrite Hr, (lookup_weaken _ _ _ _ Hr (proj1 (rm_runs _ _ _ _ H))).
  apply same_session. eapply (parent _ _ _ r _ (c_runs _ Hc)); [|done]. apply elem_of_rows. by exists k.
Qed.

Lemma same_trace k : is_Some (traces_of d' !! k) -> old_trace cutoff d' k = old_trace cutoff d k.
Proof using H Hc.
  intros [t Ht]. unfold old_trace. rewrite Ht, (lookup_weaken _ _ _ _ Ht (proj1 (rm_traces _ _ _ _ H))).
  apply same_run. eapply (parent _ _ _ t _ (c_traces _ Hc)); [|done]. apply elem_of_rows. by exists k.
Qed.

(** A table by the session's key: what it holds of a session that is gone is
    gone too, or of a session that was never old. *)
Lemma same_side {A} (m m' : gmap string A) :
  trimmed_map (fun k _ => old_session cutoff d k) m m' ->
  (forall k, sessions_of d' !! k = None -> old_session cutoff d k = true -> m' !! k = None) ->
  filter (fun kv => old_session cutoff d' kv.1 = false) m' = filter (fun kv => old_session cutoff d kv.1 = false) m.
Proof using H.
  intros Hm Hg. apply (filter_trimmed_map (fun k _ => old_session cutoff d k) (fun k _ => old_session cutoff d' k)); [done|].
  intros k v Hk. destruct (sessions_of d' !! k) eqn:E; [by apply same_session; eexists|].
  unfold old_session at 1. rewrite E. destruct (old_session cutoff d k) eqn:Ho; [|done].
  by rewrite (Hg k E Ho) in Hk.
Qed.

(** What was removed before makes no difference in the end. *)
Lemma pruned_removes : pruned cutoff audit d' = pruned cutoff audit d.
Proof using H Hc.
  unfold pruned. rewrite (rm_put _ _ _ _ H). destruct Hc as [C1 C2 C3 C4 C5 C6].
  f_equal.
  - apply same_side; [apply H|]. by intros.
  - apply same_side; [apply H|]. intros k E Ho. by apply (rm_gone _ _ _ _ H).
  - apply same_side; [apply H|]. intros k E Ho. by apply (rm_gone _ _ _ _ H).
  - apply (filter_trimmed_map (fun _ r => old_session cutoff d (run_sessionId r))
      (fun _ r => old_session cutoff d' (run_sessionId r))); [apply H|].
    intros k r Hr. apply same_session. eapply (parent _ _ _ r _ C6); [|done]. apply elem_of_rows. by exists k.
  - apply filter_trimmed; [apply H|]. intros m Hm. apply same_session. by eapply (parent _ _ _ m _ C5).
  - apply (filter_trimmed_map (fun _ c => old_run cutoff d (tcr_runId c))
      (fun _ c => old_run cutoff d' (tcr_runId c))); [apply H|].
    intros k c Hk. apply same_run. eapply (parent _ _ _ c _ C3); [|done]. apply elem_of_rows. by exists k.
  - apply (filter_trimmed_map (fun _ t => old_run cutoff d (tr_runId t))
      (fun _ t => old_run cutoff d' (tr_runId t))); [apply H|].
    intros k t Hk. apply same_run. eapply (parent _ _ _ t _ C2); [|done]. apply elem_of_rows. by exists k.
  - apply filter_trimmed; [apply H|]. intros x Hx. apply same_trace. by eapply (parent _ _ _ x _ C1).
  - by apply filter_trimmed; [apply H|].
Qed.
End removes.

Lemma old_session_le c cutoff d k : (c <= cutoff)%Z -> old_session c d k = true -> old_session cutoff d k = true.
Proof.
  intros Hc. unfold old_session. destruct (sessions_of d !! k), (pg_sessionTimes d !! k); try done.
  intros ?%Z.ltb_lt. apply Z.ltb_lt. lia.
Qed.

Lemma old_run_le c cutoff d k : (c <= cutoff)%Z -> old_run c d k = true -> old_run cutoff d k = true.
Proof. intros Hc. unfold old_run. destruct (runs_of d !! k); [by apply old_session_le|done]. Qed.

Lemma old_trace_le c cutoff d k : (c <= cutoff)%Z -> old_trace c d k = true -> old_trace cutoff d k = true.
Proof. intros Hc. unfold old_trace. destruct (traces_of d !! k); [by apply old_run_le|done]. Qed.

#[local] Hint Resolve trimmed_refl trimmed_map_refl old_session_le old_run_le old_trace_le : core.

(** The statements on sessions' rows, and the one on the ledger. *)
Definition of_sessions (statement : Z -> Database -> res error Database) : Prop :=
  statement = delete_spans \/ statement = delete_traces \/ statement = delete_toolCalls \/
  statement = delete_messages \/ statement = delete_runs \/ statement = delete_sessions.

Lemma gone_before cutoff d k : sessions_of d !! k = None -> old_session cutoff d k = true -> False.
Proof. unfold old_session. by intros ->. Qed.

Lemma lookup_side {A} c d k (m : gmap string A) :
  old_session c d k = false -> filter (fun kv => old_session c d kv.1 = false) m !! k = m !! k.
Proof.
  intros E. apply option_eq. intros v. rewrite map_lookup_filter_Some. simpl. tauto.
Qed.

(** A table that lost the rows that its statement selects. *)
Ltac by_selection c d :=
  match goal with
  | |- trimmed_map (fun _ x => old_session _ _ (run_sessionId x)) _ _ =>
      apply (trimmed_map_by (fun _ x => old_session c d (run_sessionId x)))
  | |- trimmed_map (fun _ x => old_run _ _ (tr_runId x)) _ _ =>
      apply (trimmed_map_by (fun _ x => old_run c d (tr_runId x)))
  | |- trimmed_map (fun _ x => old_run _ _ (tcr_runId x)) _ _ =>
      apply (trimmed_map_by (fun _ x => old_run c d (tcr_runId x)))
  | |- trimmed_map (fun k _ => old_session _ _ k) _ _ => apply (trimmed_map_by (fun k _ => old_session c d k))
  end.

Lemma statement_removes statement c cutoff audit d d' :
  of_sessions statement -> (c <= cutoff)%Z -> statement c d = Ok d' -> removes cutoff audit d d'.
Proof.
  intros Hs Hc. repeat (destruct Hs as [->|Hs]); [..|subst];
    unfold delete_spans, delete_traces, delete_toolCalls, delete_messages, delete_runs, delete_sessions;
    repeat (case_goal; [done|]); intros [= <-]; split;
    try solve [done | apply trimmed_refl | apply trimmed_map_refl | (intros k E Ho; destruct (gone_before _ _ _ E Ho))
              | apply trimmed_by; eauto | by_selection c d; eauto].
  - intros k Hk. simpl. destruct Hk as [x Hx]. apply map_lookup_filter_Some in Hx as [_ Hx].
    by apply lookup_side.
  - intros k Hn Ho. assert (old_session c d k = true) as Hc'.
    { apply not_false_iff_true. intros E.
      change (filter (fun kv => old_session c d kv.1 = false) (sessions_of d) !! k = None) in Hn.
      rewrite lookup_side in Hn by done. by destruct (gone_before _ _ _ Hn Ho). }
    split; by apply map_lookup_filter_None; right; intros ? _; simpl; rewrite Hc'.
Qed.

Lemma reservations_removes c cutoff audit d d' :
  (c <= audit)%Z -> delete_reservations c d = Ok d' -> removes cutoff audit d d'.
Proof.
  intros Hc [= <-]. split; try done; try apply trimmed_refl; try apply trimmed_map_refl.
  - apply trimmed_by. intros r _. unfold settled_before. destruct (rs_settled r); [|done].
    intros ?%Z.ltb_lt. apply Z.ltb_lt. lia.
  - intros k E Ho. destruct (gone_before _ _ _ E Ho).
Qed.

(** Each statement of the script removes what a clean-up at a later instant
    removes. *)
Lemma scripted_removes statement window h a d d' now later later' :
  In (statement, window) (statements h a) -> (now <= later)%Z -> (now <= later')%Z -> statement (now - window)%Z d = Ok d' ->
  removes (later - h * HOUR) (later' - a * 24 * HOUR) d d'.
Proof.
  intros Hin Hn Hn' E. unfold of_sessions. destruct Hin as [[= <- <-]|[[= <- <-]|[[= <- <-]|[[= <- <-]|
    [[= <- <-]|[[= <- <-]|[[= <- <-]|[]]]]]]]];
    first [refine (statement_removes _ _ _ _ _ _ _ _ E); [unfold of_sessions; tauto|lia]
          |refine (reservations_removes _ _ _ _ _ _ E); lia].
Qed.

Lemma removes_threaded cutoff audit d d' : removes cutoff audit d d' -> threaded d -> threaded d'.
Proof.
  intros H Ht m r run Hm Hr Hrun. eapply Ht; [|exact Hr|by eapply lookup_weaken, (rm_runs _ _ _ _ H)].
  destruct (rm_messages _ _ _ _ H) as (k & E & _). rewrite E in Hm. by apply filter_sub in Hm.
Qed.

(** A run of the script, whole or interrupted at any statement. *)
Lemma partial_run w k todo h a later later' d :
  todo `suffix_of` statements h a -> (forall i d, su_moves w i d = d) -> (forall i, (su_now w i <= later)%Z /\ (su_now w i <= later')%Z) ->
  intact d -> threaded d ->
  let d' := (run_statements w k todo d).2 in
  intact d' /\ threaded d' /\
  pruned (later - h * HOUR) (later' - a * 24 * HOUR) d' = pruned (later - h * HOUR) (later' - a * 24 * HOUR) d.
Proof.
  intros Hs Hm Hn. revert k d Hs. induction todo as [|[statement window] todo IH]; intros k d Hs Hd Ht; [done|].
  simpl. rewrite Hm. destruct (su_refuses w k); [done|]. destruct (statement _ _) as [d1|e] eqn:E; [|done].
  assert (Hin : In (statement, window) (statements h a)).
  { destruct Hs as [pre ->]. apply in_app_iff. right. by left. }
  assert (Hd1 : intact d1) by (by eapply statement_closed).
  pose proof (scripted_removes _ _ h a d d1 _ later later' Hin (proj1 (Hn k)) (proj2 (Hn k)) E) as Hr.
  destruct (IH (S k) d1) as (Hc & Ht' & ->); [|done|by eapply removes_threaded|].
  - etransitivity; [|exact Hs]. by exists [(statement, window)].
  - split_and!; [done|done|]. by apply pruned_removes.
Qed.

(** ** A run that nothing disturbs *)

Lemma delete_runs_ok c d :
  intact d -> threaded d ->
  Forall (fun m => old_session c d (msg_sessionId m) = false) (messages_of d) ->
  (forall x, x ∈ rows (toolCalls_of d) -> old_run c d (tcr_runId x) = false) ->
  (forall t, t ∈ rows (traces_of d) -> old_run c d (tr_runId t) = false) ->
  delete_runs c d = Ok (with_store (set_db (set_runs (st_db (pg_store d))
    (keep_rows (fun r => old_session c d (run_sessionId r)) (runs_of d))) (pg_store d)) d).
Proof.
  intros [C1 C2 C3 C4 C5 C6] Ht Hm Hk Htr. unfold delete_runs.
  assert (Hkeep : forall r, is_Some (runs_of d !! r) -> old_run c d r = false ->
    is_Some (keep_rows (fun x => old_session c d (run_sessionId x)) (runs_of d) !! r)).
  { intros r [run Hr] Ho. unfold old_run in Ho. rewrite Hr in Ho. exists run. by apply map_lookup_filter_Some. }
  rewrite (proj2 (dangling_false msg_runId _ _)).
  2: { intros m r Hm' Hr.
    destruct (parent _ _ _ _ _ C4 Hm' Hr) as [run Hrun]. apply Hkeep; [by eexists|]. unfold old_run. rewrite Hrun.
    rewrite (Ht m r run) by done. rewrite Forall_forall in Hm. by apply Hm. }
  rewrite (proj2 (dangling_false _ (rows (toolCalls_of d)) _)).
  2: { intros x r Hx [= <-].
    apply Hkeep; [by eapply (parent _ _ _ x _ C3)|by apply Hk]. }
  rewrite (proj2 (dangling_false _ (rows (traces_of d)) _)); [done|]. intros x r Hx [= <-].
  apply Hkeep; [by eapply (parent _ _ _ x _ C2)|by apply Htr].
Qed.

Lemma delete_traces_ok c d :
  intact d -> (forall x, x ∈ spans_of d -> old_trace c d (sr_traceId x) = false) ->
  delete_traces c d = Ok (with_store (set_traces (keep_rows (fun t => old_run c d (tr_runId t)) (traces_of d))
    (spans_of d) (pg_store d)) d).
Proof.
  intros [C1 _ _ _ _ _] Hs. unfold delete_traces. rewrite (proj2 (dangling_false _ _ _)); [done|]. intros x t Hx [= <-].
  destruct (parent _ _ _ x _ C1 Hx eq_refl) as [tr Htr]. exists tr. apply map_lookup_filter_Some. split; [done|].
  specialize (Hs x Hx). unfold old_trace in Hs. by rewrite Htr in Hs.
Qed.

Lemma delete_sessions_ok c d :
  intact d -> (forall r, r ∈ rows (runs_of d) -> old_session c d (run_sessionId r) = false) ->
  Forall (fun m => old_session c d (msg_sessionId m) = false) (messages_of d) ->
  is_ok (delete_sessions c d) = true.
Proof.
  intros [C1 C2 C3 C4 C5 C6] Hr Hm. unfold delete_sessions.
  assert (Hkeep : forall s, is_Some (sessions_of d !! s) -> old_session c d s = false ->
    is_Some (filter (fun kv => old_session c d kv.1 = false) (sessions_of d) !! s)).
  { intros s [x Hx] Ho. exists x. by apply map_lookup_filter_Some. }
  rewrite (proj2 (dangling_false _ (rows (runs_of d)) _)).
  2: { intros r s Hx [= <-].
    apply Hkeep; [by eapply (parent _ _ _ r _ C6)|by apply Hr]. }
  rewrite (proj2 (dangling_false _ (messages_of d) _)); [done|]. intros m s Hx [= <-].
  rewrite Forall_forall in Hm. apply Hkeep; [by eapply (parent _ _ _ m _ C5)|by apply Hm].
Qed.

Section same_cutoff.
Context (c c' : Z) (d : Database) (H : forall k, old_session c d k = old_session c' d k).

Lemma same_old_run k : old_run c d k = old_run c' d k.
Proof using H. unfold old_run. by destruct (runs_of d !! k). Qed.

Lemma same_old_trace k : old_trace c d k = old_trace c' d k.
Proof using H. unfold old_trace. destruct (traces_of d !! k); [apply same_old_run|done]. Qed.

Lemma keep_rows_ext {A} (p q : A -> bool) m : (forall x, p x = q x) -> keep_rows p m = keep_rows q m.
Proof. intros E. apply map_filter_ext. intros k x _. simpl. by rewrite E. Qed.

Lemma keep_keys_ext {A} (m : gmap string A) :
  filter (fun kv => old_session c d kv.1 = false) m = filter (fun kv => old_session c' d kv.1 = false) m.
Proof using H. apply map_filter_ext. intros k x _. simpl. by rewrite H. Qed.

Lemma same_cutoff statement : of_sessions statement -> statement c d = statement c' d.
Proof using H.
  intros Hs. repeat (destruct Hs as [->|Hs]); [..|subst];
    unfold delete_spans, delete_traces, delete_toolCalls, delete_messages, delete_runs, delete_sessions.
  - by rewrite (filter_ext _ (fun x => negb (old_trace c' d (sr_traceId x)))) by (intros; by rewrite same_old_trace).
  - by rewrite (keep_rows_ext _ (fun t => old_run c' d (tr_runId t))) by (intros; apply same_old_run).
  - by rewrite (keep_rows_ext _ (fun x => old_run c' d (tcr_runId x))) by (intros; apply same_old_run).
  - by rewrite (filter_ext _ (fun m => negb (old_session c' d (msg_sessionId m)))) by (intros; by rewrite H).
  - by rewrite (keep_rows_ext _ (fun r => old_session c' d (run_sessionId r))) by (intros; apply H).
  - by rewrite !keep_keys_ext.
Qed.
End same_cutoff.


Section quiet.
Context (w : Surroundings) (h a : Z) (d : Database).
Context (Hmoves : forall k d, su_moves w k d = d) (Hrefuses : forall k, su_refuses w k = None).
Context (Hd : intact d) (Ht : threaded d).

Abbreviation c := (su_now w 0 - h * HOUR)%Z.

(** No session grows old while the script runs. *)
Context (Hsteady : forall k id, k < 6 -> old_session (su_now w k - h * HOUR) d id = old_session c d id).

Lemma run_step k statement window todo d0 d1 :
  statement (su_now w k - window)%Z d0 = Ok d1 ->
  run_statements w k ((statement, window) :: todo) d0 = run_statements w (S k) todo d1.
Proof using Hmoves Hrefuses. intros E. simpl. by rewrite Hmoves, Hrefuses, E. Qed.

(** One statement on a state with the sessions of [d]. *)
Lemma quiet_step k statement d0 d1 :
  k < 6 -> of_sessions statement -> sessions_of d0 = sessions_of d -> pg_sessionTimes d0 = pg_sessionTimes d ->
  statement c d0 = Ok d1 -> statement (su_now w k - h * HOUR)%Z d0 = Ok d1.
Proof using Hsteady.
  intros Hk Hs E1 E2 E. rewrite (same_cutoff _ c); [done| |done]. intros id.
  specialize (Hsteady k id Hk). unfold old_session in *. by rewrite E1, E2.
Qed.

Definition without_traces : Database :=
  with_store (set_traces (keep_rows (fun t => old_run c d (tr_runId t)) (traces_of d))
    (List.filter (fun x => negb (old_trace c d (sr_traceId x))) (spans_of d)) (pg_store d)) d.

Definition without_messages : Database :=
  let s := pg_store without_traces in
  with_store (set_db (set_messages (set_toolCalls (st_db s)
      (keep_rows (fun x => old_run c d (tcr_runId x)) (toolCalls_of d)))
    (List.filter (fun m => negb (old_session c d (msg_sessionId m))) (messages_of d))) s) d.

Definition without_runs : Database :=
  with_store (set_db (set_runs (st_db (pg_store without_messages))
    (keep_rows (fun r => old_session c d (run_sessionId r)) (runs_of d))) (pg_store without_messages)) d.

Lemma kept_rows {A} (p : A -> bool) (m : gmap string A) x : x ∈ rows (keep_rows p m) -> p x = false.
Proof. rewrite elem_of_rows. intros (k & Hk). by apply map_lookup_filter_Some in Hk as [_ ?]. Qed.

Lemma kept_list {A} (p : A -> bool) l x : x ∈ List.filter (fun x => negb (p x)) l -> p x = false.
Proof. intros Hx. apply list_elem_of_In, filter_In in Hx as [_ Hx]. by apply negb_true_iff. Qed.

#[local] Hint Extern 1 (of_sessions _) => (unfold of_sessions; tauto) : core.

Lemma traces_deleted :
  delete_spans c d = Ok (with_store (set_traces (traces_of d) (spans_of without_traces) (pg_store d)) d) /\
  delete_traces c (with_store (set_traces (traces_of d) (spans_of without_traces) (pg_store d)) d) = Ok without_traces.
Proof using Hd.
  split; [done|]. rewrite delete_traces_ok; [done| |].
  - eapply (statement_closed delete_spans (h * HOUR) c h 0 d); [by left|done|done].
  - intros x Hx. by apply kept_list in Hx.
Qed.

Lemma closed_without_traces : intact without_traces.
Proof using Hd.
  destruct traces_deleted as [E1 E2].
  eapply (statement_closed delete_traces (h * HOUR) c h 0); [by right; left|exact E2|].
  eapply (statement_closed delete_spans (h * HOUR) c h 0); [by left|exact E1|done].
Qed.

Lemma closed_without_messages : intact without_messages.
Proof using Hd.
  set (d3 := with_store (set_db (set_toolCalls (st_db (pg_store without_traces))
    (keep_rows (fun x => old_run c d (tcr_runId x)) (toolCalls_of d))) (pg_store without_traces)) d).
  eapply (statement_closed delete_messages (h * HOUR) c h 0 d3); [by do 3 right; left|done|].
  eapply (statement_closed delete_toolCalls (h * HOUR) c h 0 without_traces); [by do 2 right; left|done|].
  apply closed_without_traces.
Qed.

Lemma runs_deleted : delete_runs c without_messages = Ok without_runs.
Proof using Hd Ht.
  rewrite delete_runs_ok; [done|apply closed_without_messages| | | |].
  - intros m r run Hm. apply filter_sub in Hm. by apply Ht.
  - apply Forall_forall. intros m Hm. exact (kept_list (fun m => old_session c d (msg_sessionId m)) _ m Hm).
  - intros x Hx. exact (kept_rows (fun x => old_run c d (tcr_runId x)) _ x Hx).
  - intros x Hx. exact (kept_rows (fun x => old_run c d (tr_runId x)) _ x Hx).
Qed.

Lemma sessions_deleted : exists d6, delete_sessions c without_runs = Ok d6 /\
  forall audit, delete_reservations audit d6 = Ok (pruned c audit d).
Proof using Hd Ht.
  destruct (delete_sessions c without_runs) as [d6|e] eqn:E.
  - exists d6. split; [done|]. intros audit. revert E. unfold delete_sessions. repeat (case_goal; [done|]). by intros [= <-].
  - exfalso. pose proof (delete_sessions_ok c without_runs) as H. rewrite E in H. discriminate H.
    + eapply (statement_closed delete_runs (h * HOUR) c h 0 without_messages); [by do 4 right; left|apply runs_deleted|].
      apply closed_without_messages.
    + intros r Hr. exact (kept_rows (fun r => old_session c d (run_sessionId r)) _ r Hr).
    + apply Forall_forall. intros m Hm. exact (kept_list (fun m => old_session c d (msg_sessionId m)) _ m Hm).
Qed.

Lemma quiet_run : run_statements w 0 (statements h a) d = (None, pruned c (su_now w 6 - a * 24 * HOUR) d).
Proof using Hd Hmoves Hrefuses Hsteady Ht.
  destruct traces_deleted as [E1 E2], sessions_deleted as (d6 & E6 & E7). unfold statements.
  erewrite (run_step 0) by (apply (quiet_step 0); [lia|auto|done|done|exact E1]).
  erewrite (run_step 1) by (apply (quiet_step 1); [lia|auto|done|done|exact E2]).
  erewrite (run_step 2) by (apply (quiet_step 2); [lia|auto|done|done|reflexivity]).
  erewrite (run_step 3) by (apply (quiet_step 3); [lia|auto|done|done|reflexivity]).
  erewrite (run_step 4) by (apply (quiet_step 4); [lia|auto|done|done|exact runs_deleted]).
  erewrite (run_step 5) by (apply (quiet_step 5); [lia|auto|done|done|exact E6]).
  by rewrite (run_step 6 _ _ _ _ _ (E7 _)).
Qed.
End quiet.

(** ** The script *)

Lemma main_runs env w d h a :
  is_given (env "DATABASE_URL") -> intEnv env "PLAYGROUND_RETENTION_HOURS" 24 = Ok h ->
  intEnv env "PLAYGROUND_LEDGER_AUDIT_DAYS" 30 = Ok a -> main env w d = run_statements w 0 (statements h a) d.
Proof. unfold main, is_given. intros Hg -> ->. by destruct (env "DATABASE_URL") as [[|c s]|]. Qed.

(** The clean-up can be repeated.  Whatever became of a first run - it may
    have ended, or been stopped before any of its statements - a later run,
    during which nothing else moves the database and no session passes the
    window, ends, and leaves exactly what one clean-up of the first database
    leaves: the sessions in the window with all that hangs off them, the
    reservations that are not settled or are in the audit window, and the totals
    of the days. *)
Theorem interrupted_cleanup_can_be_repeated env w w' h a d :
  is_given (env "DATABASE_URL") -> intEnv env "PLAYGROUND_RETENTION_HOURS" 24 = Ok h ->
  intEnv env "PLAYGROUND_LEDGER_AUDIT_DAYS" 30 = Ok a ->
  intact d -> threaded d ->
  (forall k d, su_moves w k d = d) -> (forall k d, su_moves w' k d = d) -> (forall k, su_refuses w' k = None) ->
  (forall k, (su_now w k <= su_now w' 0 /\ su_now w k <= su_now w' 6)%Z) ->
  let d' := (main env w d).2 in
  (forall k id, k < 6 -> old_session (su_now w' k - h * HOUR) d' id = old_session (su_now w' 0 - h * HOUR) d' id) ->
  main env w' d' = (None, pruned (su_now w' 0 - h * HOUR) (su_now w' 6 - a * 24 * HOUR) d).
Proof.
  intros Hg Hh Ha Hd Ht Hm Hm' Hr Hn d' Hw. rewrite (main_runs _ _ _ h a) by done.
  subst d'. rewrite (main_runs _ w _ h a) in * by done.
  destruct (partial_run w 0 (statements h a) h a (su_now w' 0) (su_now w' 6) d) as (Hc & Htr & <-); try done.
  by apply quiet_run.
Qed.

(** The foreign keys hold throughout, whatever the service does meanwhile. *)
Theorem cleanup_keeps_references env w d :
  (forall k, keeps_closed (su_moves w k)) -> intact d -> intact (main env w d).2.
Proof.
  intros Hm Hd. unfold main. repeat (case_match; try done). apply statements_closed; [done| |done]. by eexists _, _.
Qed.

(** ** Examples *)

Definition demo_session (id : string) : SessionRecord :=
  {| ses_sessionId := id; ses_agentId := "agt_1"; ses_userId := None; ses_status := active |}.
Definition demo_run (id session : string) : RunRecord :=
  {| run_runId := id; run_sessionId := session; run_status := completed; run_model := "echo/a"; run_tokenUsage := None |}.
Definition demo_message (id session run : string) : MessageRecord :=
  {| msg_messageId := id; msg_sessionId := session; msg_runId := Some run; msg_role := user_role; msg_content := "hi" |}.
Definition demo_trace (id run : string) : TraceRecord :=
  {| tr_traceId := id; tr_runId := run; tr_rootSpanId := "spn_1"; tr_startedAt := 0; tr_completedAt := None;
     tr_totalDurationMs := None |}.

(** Two guests, the second an hour after the first. *)
Definition demo_database : Database :=
  {| pg_store := {|
       st_svc := createRunExecutionService {|
         db_sessions := {["ses_1" := demo_session "ses_1"; "ses_2" := demo_session "ses_2"]}; db_agents := ∅;
         db_runs := {["run_1" := demo_run "run_1" "ses_1"; "run_2" := demo_run "run_2" "ses_2"]};
         db_messages := [demo_message "msg_1" "ses_1" "run_1"; demo_message "msg_2" "ses_2" "run_2"];
         db_toolCalls := ∅ |};
       st_agentTimes := ∅; st_metadata := ∅; st_keys := []; st_workspaces := ∅; st_users := []; st_members := [];
       st_traces := {["trc_1" := demo_trace "trc_1" "run_1"; "trc_2" := demo_trace "trc_2" "run_2"]};
       st_spans := [] |};
     pg_sessionTimes := {["ses_1" := 0%Z; "ses_2" := HOUR]}; pg_ledger := empty_ledger |}.

Definition demo_env (key : string) : option string :=
  if String.eqb key "DATABASE_URL" then Some "postgres://db" else None.

Definition still (now : nat -> Z) (refuses : nat -> option error) : Surroundings :=
  {| su_now := now; su_moves := fun _ d => d; su_refuses := refuses |}.

(** A run that loses its connection before the messages, half an hour past the
    first guest's day, and one a quarter later. *)
Definition demo_lost : Surroundings :=
  still (fun _ => 24 * HOUR + 1800000)%Z (fun k => if k =? 3 then Some (PlainError "Error" "ECONNRESET") else None).
Definition demo_again : Surroundings := still (fun _ => 24 * HOUR + 2700000)%Z (fun _ => None).

Lemma demo_intact : intact demo_database.
Proof. by split. Qed.

Lemma interrupted_cleanup_can_be_repeated_witness :
  (main demo_env demo_lost demo_database).1 = Some (PlainError "Error" "ECONNRESET") /\
  main demo_env demo_again (main demo_env demo_lost demo_database).2
  = (None, pruned 2700000 (-694 * HOUR - 900000) demo_database) /\
  map msg_messageId (messages_of (pruned 2700000 (-694 * HOUR - 900000) demo_database)) = ["msg_2"].
Proof.
  split; [vm_compute; reflexivity|]. split; [|vm_compute; reflexivity].
  apply (interrupted_cleanup_can_be_repeated demo_env demo_lost demo_again 24 30).
  - discriminate.
  - reflexivity.
  - reflexivity.
  - exact demo_intact.
  - intros m r run Hm Hr Hrun. simpl in Hm.
    apply elem_of_cons in Hm as [->|Hm]; [|apply list_elem_of_singleton in Hm as ->];
      injection Hr as <-; vm_compute in Hrun; injection Hrun as <-; reflexivity.
  - reflexivity.
  - reflexivity.
  - reflexivity.
  - intros k. split; vm_compute; discriminate.
  - reflexivity.
Defined.

(** [now()] is read by every statement: a session that passes the window
    between the statements on its children and the one on its runs stops the
    script, with the foreign key of a child that is still there. *)
Theorem crossing_session_stops_the_cleanup :
  (main demo_env (still (fun k => 24 * HOUR + Z.of_nat k / 4)%Z (fun _ => None)) demo_database).1
  = Some (fk_error "messages_run_id_runs_run_id_fk") /\
  (main demo_env (still (fun _ => 24 * HOUR)%Z (fun _ => None)) demo_database).1 = None.
Proof. split; vm_compute; reflexivity. Qed.
