(* ===== verification/Hooks.v ===== *)
(** The React hooks (packages/react/src/hooks/use-connection.ts and
    use-agent-chat.ts) over the client and the reducer of [React].

    One mounted component that calls [useAgentChat].  React is a library: a
    component renders when its parent does or when a state cell has changed
    ([pending]); a commit runs the clean-ups of the effects whose dependencies
    changed, then these effects, in their order; setting a cell to the value it
    has schedules nothing. *)
From S2P Require Import Prelude Json Shared React.

#[export] Instance ConnectionStatus_eq_dec : EqDecision ConnectionStatus.
Proof. solve_decision. Defined.

(** The arguments that the effect of [useConnection] depends on. *)
Record Args := {
  sessionId : option string; tok : option string; websocketUrl : option string;
  serverProtocolVersion : option string }.

#[export] Instance Args_eq_dec : EqDecision Args.
Proof. solve_decision. Defined.

(** [clients]: every client that was made, in order.  The client of the ref of
    [useConnection] is the one that its effect listens to and will clean up;
    [shown] is the one that the last render returned, [subscribed] the one whose
    events are dispatched. *)
Record Hook := {
  clients : list Client; clientRef : option nat; shown : option nat; subscribed : option nat;
  h_status : ConnectionStatus; h_error : option string; reconnectAttempt : nat; h_state : ChatState;
  deps : option Args; synced : option ConnectionStatus; userIds : nat; h_pending : bool; mounted : bool }.

Definition unmounted : Hook :=
  {| clients := []; clientRef := None; shown := None; subscribed := None; h_status := disconnected;
     h_error := None; reconnectAttempt := 0; h_state := initialChatState; deps := None; synced := None;
     userIds := 0; h_pending := true; mounted := true |}.

(** ** Cells *)

Definition schedule (b : bool) (h : Hook) : Hook :=
  {| clients := clients h; clientRef := clientRef h; shown := shown h; subscribed := subscribed h;
     h_status := h_status h; h_error := h_error h; reconnectAttempt := reconnectAttempt h; h_state := h_state h;
     deps := deps h; synced := synced h; userIds := userIds h; h_pending := h_pending h || b; mounted := mounted h |}.

Definition setConnectionStatus (s : ConnectionStatus) (h : Hook) : Hook :=
  schedule (negb (bool_decide (s = h_status h)))
  {| clients := clients h; clientRef := clientRef h; shown := shown h; subscribed := subscribed h;
     h_status := s; h_error := h_error h; reconnectAttempt := reconnectAttempt h; h_state := h_state h;
     deps := deps h; synced := synced h; userIds := userIds h; h_pending := h_pending h; mounted := mounted h |}.

Definition setLastError (e : option string) (h : Hook) : Hook :=
  schedule (negb (bool_decide (e = h_error h)))
  {| clients := clients h; clientRef := clientRef h; shown := shown h; subscribed := subscribed h;
     h_status := h_status h; h_error := e; reconnectAttempt := reconnectAttempt h; h_state := h_state h;
     deps := deps h; synced := synced h; userIds := userIds h; h_pending := h_pending h; mounted := mounted h |}.

Definition setReconnectAttempt (n : nat) (h : Hook) : Hook :=
  schedule (negb (n =? reconnectAttempt h))
  {| clients := clients h; clientRef := clientRef h; shown := shown h; subscribed := subscribed h;
     h_status := h_status h; h_error := h_error h; reconnectAttempt := n; h_state := h_state h;
     deps := deps h; synced := synced h; userIds := userIds h; h_pending := h_pending h; mounted := mounted h |}.

Definition dispatch (a : ChatAction) (h : Hook) : Hook :=
  schedule true
  {| clients := clients h; clientRef := clientRef h; shown := shown h; subscribed := subscribed h;
     h_status := h_status h; h_error := h_error h; reconnectAttempt := reconnectAttempt h;
     h_state := chatReducer (h_state h) a;
     deps := deps h; synced := synced h; userIds := userIds h; h_pending := h_pending h; mounted := mounted h |}.

Definition set_refs (ref show sub : option nat) (h : Hook) : Hook :=
  {| clients := clients h; clientRef := ref; shown := show; subscribed := sub;
     h_status := h_status h; h_error := h_error h; reconnectAttempt := reconnectAttempt h; h_state := h_state h;
     deps := deps h; synced := synced h; userIds := userIds h; h_pending := h_pending h; mounted := mounted h |}.

Definition set_clients (l : list Client) (h : Hook) : Hook :=
  {| clients := l; clientRef := clientRef h; shown := shown h; subscribed := subscribed h;
     h_status := h_status h; h_error := h_error h; reconnectAttempt := reconnectAttempt h; h_state := h_state h;
     deps := deps h; synced := synced h; userIds := userIds h; h_pending := h_pending h; mounted := mounted h |}.

Definition committed (a : Args) (s : ConnectionStatus) (pend : bool) (h : Hook) : Hook :=
  {| clients := clients h; clientRef := clientRef h; shown := shown h; subscribed := subscribed h;
     h_status := h_status h; h_error := h_error h; reconnectAttempt := reconnectAttempt h; h_state := h_state h;
     deps := Some a; synced := Some s; userIds := userIds h; h_pending := pend; mounted := mounted h |}.

(** [err.message]: what is reported is always an [Error]. *)
Definition handleError (e : error) (h : Hook) : Hook := setLastError (Some (error_message e)) h.

Section hook.
Context (maxRetries : nat) (baseDelayMs : Z).
Context (has_token : string -> option bool) (set_token : string -> option string -> string).

(** ** The effect of [useConnection] *)

(** [!sessionId || !token]. *)
Definition missing (o : option string) : bool :=
  match o with None => true | Some s => String.eqb s "" end.

Definition connection_effect (a : Args) (h : Hook) : Hook :=
  if missing (sessionId a) || missing (tok a) then setConnectionStatus disconnected h
  else
    match createChatSession has_token set_token (serverProtocolVersion a) (websocketUrl a) (tok a ?? "") with
    | Err e => setConnectionStatus disconnected (handleError e h)
    | Ok (client, _) =>
        setConnectionStatus (status client)
          (set_refs (Some (length (clients h))) (shown h) (subscribed h) (set_clients (clients h ++ [client]) h))
    end.

(** Its clean-up: the client is let go of, and disconnected. *)
Definition connection_cleanup (h : Hook) : Hook :=
  match clientRef h with
  | Some i => set_refs None (shown h) (subscribed h) (set_clients (alter disconnect i (clients h)) h)
  | None => h
  end.

(** The status handler that the effect registers. *)
Definition on_status (s : ConnectionStatus) (h : Hook) : Hook :=
  let h := setConnectionStatus s h in
  match s with
  | connecting => setReconnectAttempt (S (reconnectAttempt h)) h
  | connected => setReconnectAttempt 0 h
  | disconnected => h
  end.

(** ** Rendering [useAgentChat] *)

(** The effect that subscribes depends on the client of the render, the one that
    syncs the reducer on the status of the render. *)
Definition renders (a : Args) (h : Hook) : Hook :=
  if negb (mounted h) then h else
  let client := clientRef h in
  let rendered := h_status h in
  let reconnects := negb (bool_decide (deps h = Some a)) in
  let resubscribes := negb (bool_decide (shown h = client)) in
  let syncs := negb (bool_decide (synced h = Some rendered)) in
  let h := committed a rendered false h in
  let h := if reconnects then connection_cleanup h else h in
  let h := set_refs (clientRef h) client (if resubscribes then None else subscribed h) h in
  let h := if reconnects then connection_effect a h else h in
  let h := if resubscribes then set_refs (clientRef h) (shown h) client h else h in
  if syncs then dispatch (CONNECTION_STATUS rendered) h else h.

Definition unmounts (h : Hook) : Hook :=
  let h := connection_cleanup h in
  {| clients := clients h; clientRef := clientRef h; shown := shown h; subscribed := None;
     h_status := h_status h; h_error := h_error h; reconnectAttempt := reconnectAttempt h; h_state := h_state h;
     deps := deps h; synced := synced h; userIds := userIds h; h_pending := h_pending h; mounted := false |}.

(** ** What a client tells its handlers *)

(** The calls of [setStatus] in a step of the client. *)
Definition notified (c : Client) (e : ClientEvent) : option ConnectionStatus :=
  match e with
  | sock_open => match ws c with opening => Some connected | _ => None end
  | sock_close _ _ => match ws c with no_socket => None | _ => Some disconnected end
  | timer_fires => match retryTimer c with
                   | Some _ => if intentionalClose c then None else Some connecting
                   | None => None
                   end
  | _ => None
  end.

Definition fold_new {X} (before after : list X) (f : X -> Hook -> Hook) (h : Hook) : Hook :=
  fold_left (fun h x => f x h) (drop (length before) after) h.

(** A step of the [i]th client: its status reaches the handler while the effect
    listens, its events those who subscribed, its errors [handleError]. *)
Definition client_moves (i : nat) (e : ClientEvent) (h : Hook) : Hook :=
  match clients h !! i with
  | None => h
  | Some c =>
      let c' := client_step maxRetries baseDelayMs c e in
      let h := set_clients (<[i := c']> (clients h)) h in
      let h := match notified c e with
               | Some s => if bool_decide (clientRef h = Some i) then on_status s h else h
               | None => h
               end in
      let h := if bool_decide (subscribed h = Some i)
               then fold_new (events c) (events c') (fun e => dispatch (server_event e)) h else h in
      fold_new (errors c) (errors c') handleError h
  end.

(** ** [send] *)

Definition generateUserMsgId (now : Z) (n : nat) : string :=
  "user_" +:+ string_of_Z now +:+ "_" +:+ string_of_Z (Z.of_nat n).

Definition send (content : string) (now : Z) (h : Hook) : Hook :=
  let n := S (userIds h) in
  let h := dispatch (SEND_USER (generateUserMsgId now n) content) h in
  let h := {| clients := clients h; clientRef := clientRef h; shown := shown h; subscribed := subscribed h;
     h_status := h_status h; h_error := h_error h; reconnectAttempt := reconnectAttempt h; h_state := h_state h;
     deps := deps h; synced := synced h; userIds := n; h_pending := h_pending h; mounted := mounted h |} in
  match shown h with Some i => set_clients (alter (sendMessage content) i (clients h)) h | None => h end.

Inductive HookEvent : Type :=
| render_with (a : Args) | client_event (i : nat) (e : ClientEvent) | user_send (content : string) (now : Z)
| unmount.

(** A client is only disconnected by the clean-up, and only [send] gives it
    messages. *)
Definition outside (e : ClientEvent) : bool :=
  match e with user_sends _ | user_disconnects => false | _ => true end.

Definition hook_step (h : Hook) (e : HookEvent) : Hook :=
  match e with
  | render_with a => renders a h
  | client_event i e => if outside e then client_moves i e h else h
  | user_send content now => send content now h
  | unmount => unmounts h
  end.

Definition hook_run : list HookEvent -> Hook -> Hook := fold_left hook_step.
End hook.

(** What the last render returned, but for [send]. *)
Record UseAgentChatResult := {
  r_messages : list ChatMessage; r_isStreaming : bool; r_connectionStatus : ConnectionStatus;
  r_lastError : option string }.

Definition result (h : Hook) : UseAgentChatResult :=
  {| r_messages := messages (h_state h); r_isStreaming := isStreaming (h_state h);
     r_connectionStatus := h_status h; r_lastError := h_error h |}.

(** ** What the hooks guarantee *)

(** ** The client, seen through its notifications *)

Lemma notified_status n d c e : outside e = true ->
  status (client_step n d c e) = (notified c e ?? status c).
Proof.
  destruct e; try done; intros _; simpl.
  - by destruct (ws c) eqn:E; unfold onopen, flushQueue; simpl.
  - destruct (ws c); try done. unfold onmessage. by destruct (_ ≫= _).
  - by destruct (ws c).
  - unfold onclose, scheduleReconnect. destruct (ws c); simpl; try done;
      destruct (intentionalClose c); simpl; try done; destruct (code =? 1000)%Z; simpl; by destruct (_ || _).
  - destruct (retryTimer c); [|done]. unfold connect. simpl. by destruct (intentionalClose c).
Qed.

Lemma step_intentional n d c e : outside e = true ->
  intentionalClose (client_step n d c e) = intentionalClose c.
Proof.
  destruct e; try done; intros _; simpl.
  - by destruct (ws c) eqn:E; unfold onopen, flushQueue; simpl.
  - destruct (ws c); try done. unfold onmessage. by destruct (_ ≫= _).
  - by destruct (ws c).
  - unfold onclose, scheduleReconnect. destruct (ws c); simpl; try done;
      destruct (intentionalClose c) eqn:E; simpl; try done; destruct (code =? 1000)%Z; simpl;
      destruct (_ || _); simpl; done.
  - destruct (retryTimer c); [|done]. unfold connect. simpl. by destruct (intentionalClose c) eqn:E; simpl.
Qed.

(** A client that was let go of: nothing of the outside reaches it. *)
Definition dead (c : Client) : Prop :=
  ws c = no_socket /\ status c = disconnected /\ retryTimer c = None /\ intentionalClose c = true.

Lemma dead_stays n d c e : outside e = true -> dead c -> client_step n d c e = c.
Proof. intros Ho (E1 & _ & E2 & _). destruct e; try done; simpl; by rewrite ?E1, ?E2. Qed.

Lemma disconnect_dead c : dead (disconnect c).
Proof. done. Qed.

Lemma send_dead x c : dead c -> dead (sendMessage x c).
Proof. intros (E1 & E2 & E3 & E4). unfold sendMessage. rewrite E1. by split_and!. Qed.

(** ** Cells leave the rest alone *)

(** Two hooks with the same clients, refs and status. *)
Record alike (h h' : Hook) : Prop := {
  a_clients : clients h' = clients h; a_ref : clientRef h' = clientRef h; a_shown : shown h' = shown h;
  a_sub : subscribed h' = subscribed h; a_deps : deps h' = deps h; a_status : h_status h' = h_status h;
  a_mounted : mounted h' = mounted h; a_ids : userIds h' = userIds h;
  a_pending : h_pending h = true -> h_pending h' = true }.

#[export] Instance alike_refl : Reflexive alike.
Proof. by intros h; split. Qed.
#[export] Instance alike_trans : Transitive alike.
Proof. intros a b c [] []. split; try congruence. auto. Qed.

Lemma alike_dispatch a h : alike h (dispatch a h).
Proof. split; simpl; try done. intros ->. done. Qed.
Lemma alike_error e h : alike h (setLastError e h).
Proof. split; simpl; try done. by intros ->. Qed.
Lemma alike_attempt n h : alike h (setReconnectAttempt n h).
Proof. split; simpl; try done. by intros ->. Qed.

Lemma alike_fold {X} (f : X -> Hook -> Hook) before after h :
  (forall x h, alike h (f x h)) -> alike h (fold_new before after f h).
Proof.
  intros Hf. unfold fold_new. revert h. induction (drop _ after) as [|x l IH]; intros h; [reflexivity|].
  simpl. etrans; [apply Hf|apply IH].
Qed.

(** ** One live client, and its status *)

Definition current (h : Hook) : option Client := clientRef h ≫= fun i => clients h !! i.

Record sound (h : Hook) : Prop := {
  s_dead : forall i c, clients h !! i = Some c -> clientRef h <> Some i -> dead c;
  s_live : forall i, clientRef h = Some i -> exists c, clients h !! i = Some c /\ intentionalClose c = false;
  s_status : mounted h = true -> h_status h = (status <$> current h) ?? disconnected;
  s_sub : mounted h = true -> subscribed h = shown h;
  s_stale : mounted h = true -> shown h <> clientRef h ->
    h_pending h = true \/ h_status h = connecting \/ clientRef h = None;
  s_gone : mounted h = false -> clientRef h = None /\ subscribed h = None }.

Lemma sound_alike h h' : alike h h' -> sound h -> sound h'.
Proof.
  intros [E1 E2 E3 E4 _ E5 E6 _ Hp] [H1 H2 H3 H4 H5 H6].
  split; unfold current; rewrite ?E1, ?E2, ?E3, ?E4, ?E5, ?E6; auto.
  intros Hm Hs. destruct (H5 Hm Hs) as [?|?]; auto.
Qed.

Section sound.
Context (maxRetries : nat) (baseDelayMs : Z).
Context (has_token : string -> option bool) (set_token : string -> option string -> string).

(** A handler of the current client's status. *)
Lemma on_status_alike s h : alike (setConnectionStatus s h) (on_status s h).
Proof. unfold on_status. destruct s; [apply alike_attempt|apply alike_attempt|reflexivity]. Qed.

Lemma sound_moves i e h : outside e = true -> sound h -> sound (client_moves maxRetries baseDelayMs i e h).
Proof.
  intros Ho Hs. unfold client_moves. destruct (clients h !! i) as [c|] eqn:Ec; [|done].
  set (c' := client_step maxRetries baseDelayMs c e). cbv zeta.
  match goal with |- sound (fold_new _ _ _ ?x) => enough (sound x) as K end.
  { eapply sound_alike; [|exact K]. apply alike_fold. intros. apply alike_error. }
  match goal with |- sound (if _ then fold_new _ _ _ ?x else _) => enough (sound x) as K end.
  { match goal with |- sound (if ?b then _ else _) => destruct b end; [|exact K]. eapply sound_alike; [|exact K]. apply alike_fold. intros. apply alike_dispatch. }
  destruct Hs as [H1 H2 H3 H4 H5 H6]. destruct (decide (clientRef h = Some i)) as [Er|Er].
  - (* the current client *)
    assert (Hc : forall j x, <[i:=c']> (clients h) !! j = Some x -> Some i <> Some j -> dead x).
    { intros j x Hx Hne. rewrite list_lookup_insert_ne in Hx by congruence. apply (H1 j); congruence. }
    assert (Hl : <[i:=c']> (clients h) !! i = Some c').
    { apply list_lookup_insert_eq. by eapply lookup_lt_Some. }
    assert (Hi : intentionalClose c' = false).
    { unfold c'. rewrite step_intentional by done. destruct (H2 i Er) as (x & Hx & E). congruence. }
    assert (Hst : status c' = notified c e ?? status c) by by apply notified_status.
    destruct (notified c e) as [s|] eqn:En; simpl in Hst.
    + rewrite bool_decide_true by (by simpl). eapply sound_alike; [apply on_status_alike|].
      split; simpl; rewrite ?Er; auto.
      * intros j [= <-]. eauto.
      * intros _. unfold current. simpl. rewrite Er. simpl. by rewrite Hl; simpl.
      * intros Hm Hne. destruct (bool_decide (s = h_status h)) eqn:Es; [|left; by rewrite orb_true_r].
        apply bool_decide_eq_true in Es as ->. rewrite orb_false_r. rewrite Er in H5. auto.
      * intros Hm. destruct (H6 Hm) as [? _]. congruence.
    + split; simpl; rewrite ?Er; auto.
      * intros j [= <-]. eauto.
      * intros Hm. unfold current. simpl. rewrite Er. simpl. rewrite Hl. simpl. rewrite Hst, (H3 Hm).
        unfold current. rewrite Er. simpl. by rewrite Ec.
      * intros Hm Hne. rewrite Er in H5. auto.
      * intros Hm. destruct (H6 Hm) as [? _]. congruence.
  - (* another one: it is dead *)
    assert (Hd : dead c) by by eapply H1. assert (c' = c) as -> by by apply dead_stays.
    rewrite list_insert_id by done. destruct (notified c e); [rewrite bool_decide_false by done|]; by destruct h.
Qed.

(** *** Rendering *)

Definition all_dead (h : Hook) : Prop := forall i c, clients h !! i = Some c -> dead c.

Lemma cleanup_dead h : sound h -> all_dead (connection_cleanup h) /\ clientRef (connection_cleanup h) = None.
Proof.
  intros [H1 H2 _ _ _ _]. unfold all_dead, connection_cleanup. destruct (clientRef h) as [i|] eqn:E; simpl.
  - split; [|done]. intros j c. rewrite list_lookup_alter. case_decide as Hne.
    + intros (x & _ & ->)%fmap_Some. apply disconnect_dead.
    + intros Hj. apply (H1 j); congruence.
  - split; [|done]. intros j c Hj. by apply (H1 j).
Qed.

Lemma cleanup_refs h :
  let h' := connection_cleanup h in
  shown h' = shown h /\ subscribed h' = subscribed h /\ mounted h' = mounted h /\ deps h' = deps h /\
  synced h' = synced h /\ h_status h' = h_status h.
Proof. unfold connection_cleanup. by destruct (clientRef h). Qed.

(** The effect of [useConnection], on a hook whose clients are all dead. *)
Record connects (h h' : Hook) : Prop := {
  k_dead : forall i c, clients h' !! i = Some c -> clientRef h' <> Some i -> dead c;
  k_live : forall i, clientRef h' = Some i -> exists c, clients h' !! i = Some c /\ intentionalClose c = false;
  k_status : h_status h' = (status <$> current h') ?? disconnected;
  k_new : clientRef h' = None \/ h_status h' = connecting;
  k_refs : shown h' = shown h /\ subscribed h' = subscribed h /\ mounted h' = mounted h }.

Lemma effect_connects a h :
  all_dead h -> clientRef h = None -> connects h (connection_effect has_token set_token a h).
Proof.
  intros Hd Hr. unfold connection_effect.
  destruct (_ || _).
  { split; simpl; rewrite ?Hr; try done; [intros i c Hi _; by apply (Hd i)| |by left].
    unfold current. simpl. by rewrite Hr. }
  destruct (createChatSession _ _ _ _ _) as [[client url]|e] eqn:E; simpl.
  - assert (client = new_client) as ->.
    { unfold createChatSession in E. destruct (assertProtocolCompatible _ _); [|done]. simpl in E.
      destruct (resolveConnectionUrl _ _ _ _); [|done]. by injection E as <- _. }
    split; simpl; try done.
    + intros i c Hi Hne. apply lookup_app_Some in Hi as [Hi|[Hi Hc]]; [by apply (Hd i)|].
      apply list_lookup_singleton_Some in Hc as [Hc _]. destruct Hne. f_equal. lia.
    + intros i [= <-]. rewrite lookup_app_r, Nat.sub_diag by lia. by eexists.
    + unfold current. simpl. rewrite lookup_app_r, Nat.sub_diag by lia. done.
    + by right.
  - split; simpl; rewrite ?Hr; try done; [intros i c Hi _; by apply (Hd i)| |by left].
    unfold current. simpl. by rewrite Hr.
Qed.

Lemma connects_sound h h' client :
  connects h h' -> shown h = client -> mounted h = true -> sound (set_refs (clientRef h') (shown h') client h').
Proof.
  intros [K1 K2 K3 K4 (K5 & K6 & K7)] Hs Hm. split; unfold current in *; simpl; auto; [congruence| |congruence].
  intros _ _. right. tauto.
Qed.

Lemma set_refs_same h : set_refs (clientRef h) (shown h) (subscribed h) h = h.
Proof. by destruct h. Qed.

Lemma sound_sync (b : bool) a h : sound h -> sound (if b then dispatch a h else h).
Proof. intros H. destruct b; [|done]. eapply sound_alike; [apply alike_dispatch|done]. Qed.

Lemma sound_renders a h : sound h -> sound (renders has_token set_token a h).
Proof.
  intros Hs. unfold renders. destruct (mounted h) eqn:Em; [|done]. cbv beta iota zeta delta [negb].
  apply sound_sync. destruct (bool_decide (deps h = Some a)) eqn:Ed.
  - (* the same arguments: the refs catch up *)
    destruct Hs as [H1 H2 H3 H4 H5 H6].
    destruct (bool_decide (shown h = clientRef h)) eqn:Er; simpl.
    + apply bool_decide_eq_true in Er. split; unfold current in *; simpl; try done; auto; try congruence.
      intros _. by rewrite H4, Er.
    + split; unfold current in *; simpl; try done; auto; congruence.
  - set (h0 := committed a (h_status h) false h).
    assert (Hd : all_dead (connection_cleanup h0) /\ clientRef (connection_cleanup h0) = None).
    { destruct (cleanup_dead h Hs) as [D1 D2]. unfold connection_cleanup, all_dead in *. simpl in *.
      by destruct (clientRef h). }
    destruct Hd as [D1 D2], (cleanup_refs h0) as (R1 & R2 & R3 & _).
    assert (Hsub : subscribed h = shown h) by by apply (s_sub _ Hs).
    destruct (bool_decide (shown h = clientRef h)) eqn:Er; cbn [negb].
    + apply bool_decide_eq_true in Er.
      match goal with |- sound (connection_effect _ _ _ ?x) => pose proof (effect_connects a x D1 D2) as K end.
      pose proof (connects_sound _ _ (clientRef h) K eq_refl) as S.
      rewrite <- (set_refs_same (connection_effect _ _ _ _)).
      destruct K as [_ _ _ _ (K5 & K6 & K7)]. simpl in *.
      assert (E : subscribed (connection_effect has_token set_token a
        (set_refs (clientRef (connection_cleanup h0)) (clientRef h) (subscribed (connection_cleanup h0))
           (connection_cleanup h0))) = clientRef h) by (rewrite K6, R2; simpl; by rewrite Hsub, Er).
      rewrite E. apply S. by rewrite R3.
    + match goal with |- context [connection_effect _ _ _ ?x] => pose proof (effect_connects a x D1 D2) as K end.
      apply (connects_sound _ _ (clientRef h) K eq_refl). simpl. by rewrite R3.
Qed.

Lemma sound_sends x now h : sound h -> sound (send x now h).
Proof.
  intros Hs. unfold send.
  assert (K : sound {| clients := clients h; clientRef := clientRef h; shown := shown h; subscribed := subscribed h;
    h_status := h_status h; h_error := h_error h; reconnectAttempt := reconnectAttempt h;
    h_state := chatReducer (h_state h) (SEND_USER (generateUserMsgId now (S (userIds h))) x); deps := deps h;
    synced := synced h; userIds := S (userIds h); h_pending := h_pending h || true; mounted := mounted h |}).
  { destruct Hs as [H1 H2 H3 H4 H5 H6]. split; simpl; auto. intros _ _. left. by rewrite orb_true_r. }
  simpl. destruct (shown h) as [i|]; [|exact K].
  destruct K as [H1 H2 H3 H4 H5 H6]. split; simpl in *; auto.
  - intros j c. rewrite list_lookup_alter. case_decide as Hd; [|by apply H1]. subst i. intros (y & Hy & ->)%fmap_Some Hne.
    apply send_dead. by apply (H1 j).
  - intros j Hj. destruct (H2 j Hj) as (c & Hc & Hi). rewrite list_lookup_alter. case_decide as Hd; [|eauto].
    subst i. rewrite Hc. eexists. split; [done|]. unfold sendMessage. by destruct (ws c).
  - intros Hm. rewrite (H3 Hm). unfold current. simpl. destruct (clientRef h) as [j|]; simpl; [|done].
    rewrite list_lookup_alter. case_decide as Hd; [|done]. subst i. destruct (clients h !! j) as [c|]; [|done]. simpl.
    unfold sendMessage. by destruct (ws c).
Qed.

Lemma sound_unmounts h : sound h -> sound (unmounts h).
Proof.
  intros Hs. destruct (cleanup_dead h Hs) as [D1 D2]. unfold unmounts. split; simpl; try done.
  - intros i c Hi _. by apply (D1 i).
  - rewrite D2. done.
Qed.

Lemma sound_start : sound unmounted.
Proof. by split. Qed.

Lemma sound_run es h : sound h -> sound (hook_run maxRetries baseDelayMs has_token set_token es h).
Proof.
  revert h. induction es as [|e es IH]; intros h Hs; [done|]. simpl. apply IH. destruct e; simpl.
  - by apply sound_renders.
  - destruct (outside e) eqn:E; [by apply sound_moves|done].
  - by apply sound_sends.
  - by apply sound_unmounts.
Qed.

(** C39: whatever happens to a component that uses the hooks - renders with any
    arguments, anything that its clients' sockets and timers do, messages that
    the user sends, and its unmounting - at most one of the clients that it made
    has a socket or a timer; the status that it returns is this client's, or
    [disconnected] when there is none; and an unmounted component leaves no
    client with a socket or a timer. *)
Theorem one_connection_is_live es :
  let h := hook_run maxRetries baseDelayMs has_token set_token es unmounted in
  (forall i c, clients h !! i = Some c -> ws c <> no_socket \/ retryTimer c <> None -> clientRef h = Some i) /\
  (mounted h = true -> r_connectionStatus (result h) =
     match clientRef h ≫= fun i => clients h !! i with Some c => status c | None => disconnected end) /\
  (mounted h = false -> forall i c, clients h !! i = Some c -> dead c).
Proof.
  intros h. pose proof (sound_run es unmounted sound_start) as [H1 H2 H3 _ _ H6]. fold h in H1, H2, H3, H6.
  split_and!.
  - intros i c Hi Hc. destruct (decide (clientRef h = Some i)) as [|Hn]; [done|].
    destruct (H1 i c Hi Hn) as (E1 & _ & E2 & _). by destruct Hc.
  - intros Hm. simpl. rewrite (H3 Hm). unfold current. by destruct (_ ≫= _).
  - intros Hm i c Hi. destruct (H6 Hm) as [E _]. apply (H1 i); congruence.
Qed.

(** ** What the client receives is displayed *)

(** The chat but for the copy of the connection's status. *)
Definition same_chat (s s' : ChatState) : Prop :=
  messages s = messages s' /\ isStreaming s = isStreaming s' /\ lastError s = lastError s'.

#[local] Instance same_chat_refl : Reflexive same_chat.
Proof. by intros s. Qed.

Lemma same_chat_reducer a s s' : same_chat s s' -> same_chat (chatReducer s a) (chatReducer s' a).
Proof.
  intros (E1 & E2 & E3). destruct a as [| | |[]]; unfold same_chat; simpl; rewrite ?E1, ?E2, ?E3; done.
Qed.

Lemma same_chat_status c s s' : same_chat s s' -> same_chat (chatReducer s (CONNECTION_STATUS c)) s'.
Proof. done. Qed.

Definition shown_chat (actions : list ChatAction) : ChatState := fold_left chatReducer actions initialChatState.

(** What a component is told: the events that its client takes from the socket,
    and the messages of the user. *)
Fixpoint told (c : Client) (n : nat) (es : list HookEvent) : list ChatAction :=
  match es with
  | [] => []
  | client_event 0 e :: es =>
      if outside e
      then let c' := client_step maxRetries baseDelayMs c e in
           map server_event (drop (length (React.events c)) (React.events c')) ++ told c' n es
      else told c n es
  | user_send x now :: es => SEND_USER (generateUserMsgId now (S n)) x :: told (sendMessage x c) (S n) es
  | _ :: es => told c n es
  end.

(** What happens to the client. *)
Definition of_client (e : HookEvent) : option ClientEvent :=
  match e with
  | client_event 0 e => if outside e then Some e else None
  | user_send x _ => Some (user_sends x)
  | _ => None
  end.

(** A component that keeps its arguments. *)
Definition keeps (a : Args) (e : HookEvent) : Prop :=
  match e with render_with a' => a' = a | unmount => False | _ => True end.

(** The hook at rest on its only client. *)
Record joined (a : Args) (c : Client) (n : nat) (s : ChatState) (h : Hook) : Prop := {
  j_clients : clients h = [c]; j_ref : clientRef h = Some 0; j_shown : shown h = Some 0;
  j_sub : subscribed h = Some 0; j_deps : deps h = Some a; j_mounted : mounted h = true; j_ids : userIds h = n;
  j_chat : same_chat (h_state h) s }.

Lemma joined_alike a c n s h h' :
  alike h h' -> same_chat (h_state h') s -> joined a c n s h -> joined a c n s h'.
Proof. intros [] Hc []. split; congruence. Qed.

Lemma fold_events before after s h :
  same_chat (h_state h) s ->
  same_chat (h_state (fold_new before after (fun e => dispatch (server_event e)) h))
    (fold_left chatReducer (map server_event (drop (length before) after)) s).
Proof.
  unfold fold_new. revert h s. induction (drop _ after) as [|e l IH]; intros h s Hc; [done|]. simpl. apply IH.
  exact (same_chat_reducer (server_event e) _ _ Hc).
Qed.

Lemma state_errors before after h : h_state (fold_new before after handleError h) = h_state h.
Proof. unfold fold_new. revert h. induction (drop _ after) as [|e l IH]; intros h; [done|]. simpl. by rewrite IH. Qed.

Lemma joined_moves a c n s h e :
  outside e = true -> joined a c n s h ->
  let c' := client_step maxRetries baseDelayMs c e in
  joined a c' n (fold_left chatReducer (map server_event (drop (length (React.events c)) (React.events c'))) s)
    (client_moves maxRetries baseDelayMs 0 e h).
Proof.
  intros Ho [J1 J2 J3 J4 J5 J6 J7 J8] c'. unfold client_moves. rewrite J1. cbn [lookup list_lookup]. cbv zeta.
  fold c'. set (h0 := set_clients (<[0:=c']> [c]) h).
  set (h1 := match notified c e with Some _ => _ | None => _ end).
  assert (K : joined a c' n s h1).
  { subst h1. destruct (notified c e) as [st|]; [|by split].
    rewrite bool_decide_true by exact J2. destruct st; by split. }
  destruct K as [K1 K2 K3 K4 K5 K6 K7 K8]. rewrite (bool_decide_true _ K4).
  set (h2 := fold_new _ _ _ h1).
  assert (A2 : alike h1 h2) by (apply alike_fold; intros; apply alike_dispatch).
  assert (A3 : alike h2 (fold_new (React.errors c) (React.errors c') handleError h2))
    by (apply alike_fold; intros; apply alike_error).
  destruct (transitivity A2 A3). split; try congruence. rewrite state_errors. by apply fold_events.
Qed.

Lemma joined_render a c n s h : joined a c n s h -> joined a c n s (renders has_token set_token a h).
Proof.
  intros [J1 J2 J3 J4 J5 J6 J7 J8]. unfold renders. rewrite J6, J3, J2, J5. cbn [negb].
  rewrite (bool_decide_true (Some a = Some a)), (bool_decide_true (Some 0 = Some 0)) by done. cbn [negb].
  match goal with |- joined _ _ _ _ (if _ then dispatch _ ?x else _) => assert (K : joined a c n s x) by by split end.
  match goal with |- joined _ _ _ _ (if ?b then _ else _) => destruct b end; [|exact K].
  destruct K. by split.
Qed.

Lemma joined_send a c n s h x now :
  joined a c n s h ->
  joined a (sendMessage x c) (S n) (chatReducer s (SEND_USER (generateUserMsgId now (S n)) x)) (send x now h).
Proof.
  intros [J1 J2 J3 J4 J5 J6 J7 J8]. unfold send. simpl. rewrite J3. split; simpl; try done.
  - by rewrite J1.
  - by rewrite J7.
  - rewrite J7. exact (same_chat_reducer (SEND_USER _ _) _ _ J8).
Qed.

Lemma joined_run a es : Forall (keeps a) es -> forall c n s h, joined a c n s h ->
  exists n', joined a (client_run maxRetries baseDelayMs (omap of_client es) c) n'
    (fold_left chatReducer (told c n es) s) (hook_run maxRetries baseDelayMs has_token set_token es h).
Proof.
  induction 1 as [|e es He _ IH]; intros c n s h J; [by exists n|]. destruct e as [a'|i e|x now|]; simpl in *.
  - subst a'. by apply IH, joined_render.
  - destruct (outside e) eqn:Ho; [|destruct i; by apply IH]. destruct i as [|i].
    + rewrite fold_left_app. by apply IH, joined_moves.
    + apply IH. unfold client_moves. by rewrite (j_clients _ _ _ _ _ J).
  - by apply IH, joined_send.
  - done.
Qed.

(** The first render makes the client, the second returns it and subscribes. *)
Record made (a : Args) (h : Hook) : Prop := {
  md_clients : clients h = [new_client]; md_ref : clientRef h = Some 0; md_shown : shown h = None;
  md_deps : deps h = Some a; md_mounted : mounted h = true; md_ids : userIds h = 0;
  md_chat : same_chat (h_state h) initialChatState }.

Lemma made_alike a h h' : alike h h' -> same_chat (h_state h') initialChatState -> made a h -> made a h'.
Proof. intros [] Hc []. split; congruence. Qed.

Lemma first_render a url :
  missing (sessionId a) = false -> missing (tok a) = false ->
  createChatSession has_token set_token (serverProtocolVersion a) (websocketUrl a) (tok a ?? "") = Ok (new_client, url) ->
  made a (renders has_token set_token a unmounted).
Proof.
  intros H1 H2 E. unfold renders, connection_effect. rewrite H1, H2, E.
  cbv [mounted unmounted negb clientRef shown h_status deps synced orb].
  rewrite !bool_decide_false by done. rewrite bool_decide_true by done. by split.
Qed.

Lemma second_render a h : made a h -> joined a new_client 0 initialChatState (renders has_token set_token a h).
Proof.
  intros [J1 J2 J3 J5 J6 J7 J8]. unfold renders. rewrite J6, J3, J2, J5. cbn [negb].
  rewrite (bool_decide_true (Some a = Some a)) by done. rewrite (bool_decide_false (None = Some 0)) by done. cbn [negb].
  match goal with |- joined _ _ _ _ (if _ then dispatch _ ?x else _) => assert (K : joined a new_client 0 initialChatState x) by by split end.
  match goal with |- joined _ _ _ _ (if ?b then _ else _) => destruct b end; [|exact K].
  destruct K. by split.
Qed.

Lemma hook_run_app es es' h :
  hook_run maxRetries baseDelayMs has_token set_token (es ++ es') h =
  hook_run maxRetries baseDelayMs has_token set_token es' (hook_run maxRetries baseDelayMs has_token set_token es h).
Proof. apply fold_left_app. Qed.

Lemma joined_mount a url :
  missing (sessionId a) = false -> missing (tok a) = false ->
  createChatSession has_token set_token (serverProtocolVersion a) (websocketUrl a) (tok a ?? "") = Ok (new_client, url) ->
  joined a new_client 0 initialChatState
    (hook_run maxRetries baseDelayMs has_token set_token [render_with a; render_with a] unmounted).
Proof. intros H1 H2 E. exact (second_render _ _ (first_render _ _ H1 H2 E)). Qed.

Definition event_of (a : ChatAction) : option ChatEvent := match a with server_event e => Some e | _ => None end.
Definition text_of (a : ChatAction) : option string := match a with SEND_USER _ x => Some x | _ => None end.
Definition sent_text (e : HookEvent) : option string := match e with user_send x _ => Some x | _ => None end.

Lemma events_grow c e : exists l, React.events (client_step maxRetries baseDelayMs c e) = React.events c ++ l.
Proof.
  assert (K : forall l, l = React.events c -> exists l', l = React.events c ++ l').
  { intros l ->. exists []. by rewrite app_nil_r. }
  destruct e; simpl; try by apply K.
  - apply K. by destruct (ws c) eqn:E; unfold onopen, flushQueue; simpl.
  - destruct (ws c); try by apply K. unfold onmessage. destruct (_ ≫= _); [by eexists|by apply K].
  - apply K. by destruct (ws c).
  - apply K. unfold onclose, scheduleReconnect. destruct (ws c); simpl; try done;
      destruct (intentionalClose c); simpl; try done; destruct (code =? 1000)%Z; simpl; by destruct (_ || _).
  - apply K. destruct (retryTimer c); [|done]. unfold connect. simpl. by destruct (intentionalClose c).
  - apply K. unfold sendMessage. by destruct (ws c).
Qed.

Lemma omap_events l : omap event_of (map server_event l) = l.
Proof. induction l as [|e l IH]; [done|]. change (e :: omap event_of (map server_event l) = e :: l). by f_equal. Qed.
Lemma omap_texts l : omap text_of (map server_event l) = [].
Proof. by induction l. Qed.

Lemma told_events c n es :
  React.events c ++ omap event_of (told c n es) = React.events (client_run maxRetries baseDelayMs (omap of_client es) c).
Proof.
  revert c n. induction es as [|e es IH]; intros c n; simpl; [by rewrite app_nil_r|].
  destruct e as [a|[|i] e|x now|]; simpl; try apply IH.
  - destruct (outside e) eqn:Ho; simpl; [|apply IH]. destruct (events_grow c e) as [l El].
    rewrite <- (IH _ n), omap_app, omap_events, El, drop_app_length. by rewrite <- app_assoc.
  - rewrite <- (IH _ (S n)). unfold sendMessage. by destruct (ws c).
Qed.

Lemma told_texts c n es : omap text_of (told c n es) = omap sent_text es.
Proof.
  revert c n. induction es as [|e es IH]; intros c n; simpl; [done|].
  destruct e as [a|[|i] e|x now|]; simpl; try apply IH.
  - destruct (outside e) eqn:Ho; simpl; [|apply IH]. rewrite omap_app, omap_texts. apply IH.
  - by rewrite IH.
Qed.

(** C38: the hooks show what the client receives.  A component that is mounted
    with arguments that a client can be made of, and that React renders again as
    the first effect asks, has one client from then on, which behaves like
    [client.ts] alone; whatever its socket and its timer do and however often
    the component renders, its chat is that of the reducer over every event that
    the client took from the socket, and every message that the user sent, once
    each and in their order. *)
Theorem received_events_are_displayed a url es :
  missing (sessionId a) = false -> missing (tok a) = false ->
  createChatSession has_token set_token (serverProtocolVersion a) (websocketUrl a) (tok a ?? "") = Ok (new_client, url) ->
  Forall (keeps a) es ->
  let h := hook_run maxRetries baseDelayMs has_token set_token (render_with a :: render_with a :: es) unmounted in
  let c := client_run maxRetries baseDelayMs (omap of_client es) new_client in
  clients h = [c] /\
  same_chat (h_state h) (shown_chat (told new_client 0 es)) /\
  omap event_of (told new_client 0 es) = React.events c /\
  omap text_of (told new_client 0 es) = omap sent_text es.
Proof.
  intros H1 H2 E He h c. pose proof (joined_mount a url H1 H2 E) as J.
  assert (Eh := hook_run_app [render_with a; render_with a] es unmounted : h = _). clearbody h. subst h.
  destruct (joined_run a es He _ _ _ _ J) as [n' [J1 _ _ _ _ _ _ J8]]. split_and!; [exact J1|exact J8| |apply told_texts].
  exact (told_events new_client 0 es).
Qed.
End sound.

(** ** Where they do less *)

Section less.
Context (maxRetries : nat) (baseDelayMs : Z).
Context (has_token : string -> option bool) (set_token : string -> option string -> string).

Abbreviation run := (hook_run maxRetries baseDelayMs has_token set_token).

(** A failed run sets the reducer's error, which the hook does not return:
    [lastError] is the connection's. *)
Theorem run_failure_is_not_returned h i c raw r s code m callId :
  clients h !! i = Some c -> ws c = is_open -> subscribed h = Some i ->
  (parse raw ≫= ChatEventSchema) = Some (run_failed r s code m callId) ->
  let h' := run [client_event i (sock_frame raw)] h in
  lastError (h_state h') = Some ("[" +:+ code +:+ "] " +:+ m) /\ r_lastError (result h') = r_lastError (result h).
Proof.
  intros Hc Hw Hs Hp. cbn [hook_run fold_left hook_step outside]. unfold client_moves. rewrite Hc.
  cbn [client_step notified]. rewrite Hw. unfold onmessage. rewrite Hp. cbn [React.events React.errors].
  rewrite bool_decide_true by exact Hs. unfold fold_new. rewrite drop_app_length, drop_all. done.
Qed.
End less.

(** ** Examples *)

Definition demo_args (s : string) : Args :=
  {| sessionId := Some s; tok := Some "t"; websocketUrl := Some "ws://x"; serverProtocolVersion := None |}.
Definition demo_frame : string := stringify (event_json (message_started "msg_1" "run_1" "ses_1")).
Definition demo_token (_ : string) : option bool := Some true.
Definition demo_set (u : string) (_ : option string) : string := u.

Lemma received_events_are_displayed_witness :
  let es := [client_event 0 sock_open; render_with (demo_args "ses_1"); client_event 0 (sock_frame demo_frame);
             user_send "hi" 7; client_event 0 (sock_close 1006 ""); client_event 0 timer_fires] in
  let h := hook_run 5 1000 demo_token demo_set (render_with (demo_args "ses_1") :: render_with (demo_args "ses_1") :: es)
             unmounted in
  map cm_id (messages (h_state h)) = ["msg_1"; "user_7_1"] /\ h_status h = connecting /\
  same_chat (h_state h) (shown_chat (told 5 1000 new_client 0 es)).
Proof.
  intros es h. split; [vm_compute; reflexivity|]. split; [vm_compute; reflexivity|].
  assert (Hk : Forall (keeps (demo_args "ses_1")) es) by (repeat constructor).
  destruct (received_events_are_displayed 5 1000 demo_token demo_set (demo_args "ses_1") "ws://x" es
    eq_refl eq_refl eq_refl Hk) as (_ & H & _).
  exact H.
Defined.

(** A component that changes its session while the first client still connects
    sets the status that it has: React renders nothing, the subscription stays
    with the old client, and what the new one receives before the next render is
    not displayed, and what the user sends is queued on the old one. *)
Theorem switched_session_misses_events :
  let h := hook_run 5 1000 demo_token demo_set
    [render_with (demo_args "ses_0"); render_with (demo_args "ses_0"); render_with (demo_args "ses_1")] unmounted in
  let h' := hook_run 5 1000 demo_token demo_set
    [client_event 1 sock_open; client_event 1 (sock_frame demo_frame); user_send "hi" 7] h in
  h_pending h = false /\ clientRef h = Some 1 /\ subscribed h = Some 0 /\
  (React.events <$> clients h' !! 1) = Some [message_started "msg_1" "run_1" "ses_1"] /\
  map cm_id (messages (h_state h')) = ["user_7_1"] /\
  (React.sent <$> clients h' !! 1) = Some [] /\ (messageQueue <$> clients h' !! 0) = Some [payload "hi"].
Proof. vm_compute. repeat split. Qed.
