(* ===== verification/DemoTools.v ===== *)
(** The playground's other tools and their budgets
    (apps/playground/backend/src/tools/weather.ts, budget.ts,
    unreliable-service.ts, agent.ts).

    The file starts with [decodeURIComponent], the reading of what
    [encodeURIComponent] wrote.  What a tool's [execute] does is the time after which it settles, if ever,
    and how; network answers are an argument. *)
From S2P Require Import Prelude Json Shared Dto Calculator.

Definition of_hex (c : ascii) : option nat :=
  let n := nat_of_ascii c in
  if (48 <=? n)%nat && (n <=? 57)%nat then Some (n - 48)
  else if (65 <=? n)%nat && (n <=? 70)%nat then Some (n - 55)
  else if (97 <=? n)%nat && (n <=? 102)%nat then Some (n - 87)
  else None.

Definition byte_of (a b : ascii) : option nat := x ← of_hex a; y ← of_hex b; Some (16 * x + y).

(** [decodeURIComponent] on texts of code units below 256: a byte below 128
    stands for itself, and two bytes of UTF-8 for a code unit. *)
Fixpoint decode_text (t : text) : option text :=
  match t with
  | [] => Some []
  | "%"%char :: a :: b :: t1 =>
      match byte_of a b with
      | Some n =>
          if (n <? 128)%nat then t' ← decode_text t1; Some (ascii_of_nat n :: t')
          else match t1 with
               | "%"%char :: c :: d :: t2 =>
                   m ← byte_of c d;
                   if ((n =? 194) || (n =? 195))%nat && ((128 <=? m) && (m <? 192))%nat
                   then t' ← decode_text t2; Some (ascii_of_nat (64 * (n - 192) + (m - 128)) :: t')
                   else None
               | _ => None
               end
      | None => None
      end
  | "%"%char :: _ => None
  | c :: t => t' ← decode_text t; Some (c :: t')
  end.

Definition decodeURIComponent (s : string) : option string :=
  string_of_list_ascii <$> decode_text (list_ascii_of_string s).

(** The pairs of a query: [k=v] joined by [&], percent encoded. *)
Definition query_pair (s : string) : option (string * string) :=
  p ← split_at "=" s; k ← decodeURIComponent p.1; v ← decodeURIComponent p.2; Some (k, v).

Fixpoint split_all (fuel : nat) (sep : ascii) (s : string) : list string :=
  match fuel with
  | 0 => [s]
  | S fuel => match split_at sep s with
              | Some (a, b) => a :: split_all fuel sep b
              | None => [s]
              end
  end.

Definition query_of (q : string) : option (list (string * string)) :=
  mapM query_pair (split_all (String.length q) "&" q).

(** ** Encoding *)

Lemma of_upper_hex n : n < 16 -> of_hex (upper_hex n) = Some n.
Proof. intros H. do 16 (destruct n as [|n]; [reflexivity|]). lia. Qed.

Lemma byte_of_percent n : n < 256 -> byte_of (upper_hex (n / 16)) (upper_hex (n mod 16)) = Some n.
Proof.
  intros H. unfold byte_of. pose proof (Nat.div_mod_eq n 16). pose proof (Nat.mod_upper_bound n 16 ltac:(lia)).
  rewrite !of_upper_hex by lia. cbn [mbind option_bind]. f_equal. lia.
Qed.

Lemma decode_plain c t : c <> "%"%char -> decode_text (c :: t) = (t' ← decode_text t; Some (c :: t')).
Proof. intros H. simpl. destruct c as [[] [] [] [] [] [] [] []]; try reflexivity. done. Qed.

Lemma unreserved_plain c : unreserved c = true -> c <> "%"%char.
Proof. intros H ->. discriminate H. Qed.

Lemma nat_of_ascii_lt c : nat_of_ascii c < 256.
Proof. apply nat_ascii_bounded. Qed.

Lemma decode_char c t : decode_text (encode_char c ++ t) = (t' ← decode_text t; Some (c :: t')).
Proof.
  unfold encode_char. destruct (unreserved c) eqn:E; [by apply decode_plain, unreserved_plain|].
  pose proof (nat_of_ascii_lt c) as Hc. destruct (Nat.ltb_spec (nat_of_ascii c) 128) as [Hl|Hl].
  - unfold percent. cbn [app decode_text]. rewrite byte_of_percent by lia.
    by rewrite (proj2 (Nat.ltb_lt _ _) Hl), ascii_nat_embedding.
  - set (n := nat_of_ascii c) in *.
    assert (Hd : n / 64 = 2 \/ n / 64 = 3).
    { pose proof (Nat.div_mod_eq n 64). pose proof (Nat.mod_upper_bound n 64 ltac:(lia)). lia. }
    pose proof (Nat.div_mod_eq n 64) as Hm. pose proof (Nat.mod_upper_bound n 64 ltac:(lia)) as Hu.
    unfold percent. cbn [app decode_text]. rewrite byte_of_percent by lia.
    rewrite (proj2 (Nat.ltb_ge _ _)) by lia. rewrite byte_of_percent by lia. cbn [mbind option_bind].
    assert (((192 + n / 64 =? 194) || (192 + n / 64 =? 195))%nat = true) as -> by (destruct Hd as [-> | ->]; reflexivity).
    assert (((128 <=? 128 + n mod 64) && (128 + n mod 64 <? 192))%nat = true) as ->
      by (apply andb_true_intro; split; [apply Nat.leb_le|apply Nat.ltb_lt]; lia).
    cbn [andb]. replace (64 * (192 + n / 64 - 192) + (128 + n mod 64 - 128)) with n by lia.
    unfold n. by rewrite ascii_nat_embedding.
Qed.

Lemma decode_encoded t : decode_text (t ≫= encode_char) = Some t.
Proof. induction t as [|c t IH]; [done|]. cbn [mbind list_bind]. rewrite decode_char. by rewrite IH. Qed.

(** What was encoded is decoded as it was. *)
Lemma decode_encode s : decodeURIComponent (encodeURIComponent s) = Some s.
Proof.
  unfold decodeURIComponent, encodeURIComponent, on_text. rewrite list_ascii_of_string_of_list_ascii, decode_encoded.
  simpl. by rewrite string_of_list_ascii_of_string.
Qed.

(** The characters of an encoded text. *)
Definition encoded_char (c : ascii) : bool := unreserved c || Ascii.eqb c "%".

Lemma upper_hex_encoded n : n < 16 -> encoded_char (upper_hex n) = true.
Proof. intros H. do 16 (destruct n as [|n]; [reflexivity|]). lia. Qed.

Lemma percent_encoded n : n < 256 -> forallb encoded_char (percent n) = true.
Proof.
  intros H. unfold percent. cbn [forallb]. pose proof (Nat.div_mod_eq n 16).
  pose proof (Nat.mod_upper_bound n 16 ltac:(lia)). by rewrite !upper_hex_encoded by lia.
Qed.

Lemma encoded_chars s : forallb encoded_char (list_ascii_of_string (encodeURIComponent s)) = true.
Proof.
  unfold encodeURIComponent, on_text. rewrite list_ascii_of_string_of_list_ascii.
  induction (list_ascii_of_string s) as [|c t IH]; [done|]. cbn [mbind list_bind]. rewrite forallb_app. rewrite IH, andb_true_r.
  unfold encode_char. destruct (unreserved c) eqn:E; [simpl; by unfold encoded_char; rewrite E|].
  pose proof (nat_of_ascii_lt c) as Hc. pose proof (Nat.div_mod_eq (nat_of_ascii c) 64).
  pose proof (Nat.mod_upper_bound (nat_of_ascii c) 64 ltac:(lia)).
  destruct (_ <? 128)%nat; [by apply percent_encoded|]. rewrite forallb_app. by rewrite !percent_encoded by lia.
Qed.

(** A character that an encoded text does not have does not split it. *)
Lemma split_at_none c s : forallb (fun x => negb (Ascii.eqb x c)) (list_ascii_of_string s) = true -> split_at c s = None.
Proof.
  induction s as [|x s IH]; [done|]. simpl. intros [H1 H2]%andb_true_iff.
  destruct (Ascii.eqb x c); [done|]. by rewrite IH.
Qed.

Lemma encoded_unsplit c s : encoded_char c = false -> split_at c (encodeURIComponent s) = None.
Proof.
  intros Hc. apply split_at_none. apply forallb_forall. intros x Hx.
  pose proof (encoded_chars s) as H. rewrite forallb_forall in H. specialize (H x Hx).
  destruct (Ascii.eqb_spec x c) as [->|]; [congruence|done].
Qed.

Definition avoids (c : ascii) (s : string) : Prop := forallb (fun x => negb (Ascii.eqb x c)) (list_ascii_of_string s) = true.

Lemma avoids_app c a b : avoids c (a +:+ b) <-> avoids c a /\ avoids c b.
Proof.
  unfold avoids. induction a as [|x a IH]; simpl; [by split; [|intros [_ ?]]|].
  rewrite !andb_true_iff, IH. tauto.
Qed.

Lemma encoded_avoids c s : encoded_char c = false -> avoids c (encodeURIComponent s).
Proof.
  intros Hc. apply forallb_forall. intros x Hx. pose proof (encoded_chars s) as H. rewrite forallb_forall in H.
  specialize (H x Hx). destruct (Ascii.eqb_spec x c) as [->|]; [congruence|done].
Qed.

Lemma split_at_avoids c a b : avoids c a -> split_at c (a +:+ String c b) = Some (a, b).
Proof.
  intros H. apply split_at_app; [apply Ascii.eqb_refl|]. intros x Hx ->. unfold avoids in H.
  rewrite forallb_forall in H. specialize (H c Hx). by rewrite Ascii.eqb_refl in H.
Qed.

(** Pairs written one after the other are read as these pairs. *)
Definition pair_text (p : string * string) : string := p.1 +:+ "=" +:+ p.2.

Fixpoint query_text (ps : list (string * string)) : string :=
  match ps with
  | [] => ""
  | [p] => pair_text p
  | p :: ps => pair_text p +:+ "&" +:+ query_text ps
  end.

Definition pair_ok (p : string * string) : Prop := avoids "=" p.1 /\ avoids "&" p.1 /\ avoids "&" p.2.

Lemma avoids_pair p : pair_ok p -> avoids "&" (pair_text p).
Proof. intros (_ & H1 & H2). unfold pair_text. rewrite avoids_app. split; [done|]. by apply avoids_app. Qed.

Lemma split_all_query p ps n :
  Forall pair_ok (p :: ps) -> length ps <= n -> split_all n "&" (query_text (p :: ps)) = map pair_text (p :: ps).
Proof.
  revert p n. induction ps as [|q ps IH]; intros p n Hp Hn; apply Forall_cons in Hp as [H1 Hp].
  - simpl. destruct n; simpl; [done|]. by rewrite (split_at_none _ _ (avoids_pair p H1)).
  - simpl in Hn. destruct n as [|n]; [lia|].
    change (query_text (p :: q :: ps)) with (pair_text p +:+ String "&" (query_text (q :: ps))).
    cbn [split_all]. rewrite split_at_avoids by by apply avoids_pair. cbn [map]. f_equal. apply IH; [done|lia].
Qed.

Lemma query_text_length p ps : length ps <= String.length (query_text (p :: ps)).
Proof.
  revert p. induction ps as [|q ps IH]; intros p; [apply Nat.le_0_l|].
  change (query_text (p :: q :: ps)) with (pair_text p +:+ String "&" (query_text (q :: ps))).
  rewrite string_app_length. cbn [String.length length]. specialize (IH q). lia.
Qed.

Lemma query_read ps p vs :
  Forall pair_ok (p :: ps) ->
  Forall2 (fun p v => decodeURIComponent p.1 = Some v.1 /\ decodeURIComponent p.2 = Some v.2) (p :: ps) vs ->
  query_of (query_text (p :: ps)) = Some vs.
Proof.
  intros Hp Hv. unfold query_of. rewrite split_all_query; [|done|apply query_text_length].
  apply mapM_Some. apply Forall2_fmap_l.
  revert Hp. induction Hv as [|q v l l' [E1 E2] _ IH]; intros Hp; constructor.
  - apply Forall_cons in Hp as [(H1 & _) _]. unfold compose, query_pair, pair_text.
    change ("=" +:+ q.2) with (String "=" q.2). rewrite split_at_avoids by done. simpl. rewrite E1. simpl. rewrite E2.
    by destruct v.
  - apply Forall_cons in Hp as [_ Hp]. by apply IH.
Qed.

(** ** The tools *)

(** ** Weather (weather.ts) *)

Definition GEOCODE_URL : string := "https://geocoding-api.open-meteo.com/v1/search".
Definition FORECAST_URL : string := "https://api.open-meteo.com/v1/forecast".

(** What [fetchImpl] gives: it rejects, or answers; [fr_json] is the body, or
    how reading it fails. *)
Record FetchResponse := { fr_ok : bool; fr_status : Z; fr_json : res error json }.

(** [z.number()]. *)
Definition number_schema (v : json) : option json :=
  match v with JNum _ | JFloat _ => Some v | _ => None end.

Record Place := { pl_name : string; pl_latitude : json; pl_longitude : json; pl_country : option string }.

Definition string_schema (v : json) : option string := match v with JStr s => Some s | _ => None end.

Definition place_schema (v : json) : option Place :=
  guard_opt (match v with JObj _ => true | _ => false end)
    (n ← (x ← field "name" v; string_schema x); la ← (x ← field "latitude" v; number_schema x);
     lo ← (x ← field "longitude" v; number_schema x); c ← optional string_schema "country" v;
     Some {| pl_name := n; pl_latitude := la; pl_longitude := lo; pl_country := c |}).

(** The [results], when they are there. *)
Definition GeocodeResponseSchema (v : json) : option (option (list Place)) :=
  guard_opt (match v with JObj _ => true | _ => false end)
    (optional (fun x => match x with JArr l => mapM place_schema l | _ => None end) "results" v).

Record Forecast := { fc_temperature : json; fc_wind : json; fc_code : json }.

Definition ForecastResponseSchema (v : json) : option Forecast :=
  c ← field "current" v;
  guard_opt (match v, c with JObj _, JObj _ => true | _, _ => false end)
    (t ← (x ← field "temperature_2m" c; number_schema x); w ← (x ← field "wind_speed_10m" c; number_schema x);
     k ← (x ← field "weather_code" c; number_schema x);
     Some {| fc_temperature := t; fc_wind := w; fc_code := k |}).

Definition zod_error : error := PlainError "ZodError" "".

Section weather.
Context (fetchImpl : string -> res error FetchResponse).
(** The text of a number that is not an integer. *)
Context (number_text : string -> string).

Definition interpolate (v : json) : string :=
  match v with JNum n => string_of_Z n | JFloat lit => number_text lit | _ => "" end.

Definition geocode_url (city : string) : string := GEOCODE_URL +:+ "?name=" +:+ encodeURIComponent city +:+ "&count=1".

Definition forecast_url (p : Place) : string :=
  FORECAST_URL +:+ "?latitude=" +:+ interpolate (pl_latitude p) +:+ "&longitude=" +:+ interpolate (pl_longitude p) +:+
  "&current=temperature_2m,wind_speed_10m,weather_code".

(** [parse(await res.json())]. *)
Definition parsed_body {X} (schema : json -> option X) (r : FetchResponse) : res error X :=
  let? v := fr_json r in match schema v with Some x => Ok x | None => Err zod_error end.

(** The place: what the first request is for. *)
Definition locate (city : string) : res error Place :=
  let? geoRes := fetchImpl (geocode_url city) in
  if negb (fr_ok geoRes)
  then Err (plain ("Geocoding request failed with status " +:+ string_of_Z (fr_status geoRes) +:+ "."))
  else
    let? geo := parsed_body GeocodeResponseSchema geoRes in
    match geo with
    | Some (place :: _) => Ok place
    | _ => Err (plain ("No location found for " +:+ quoted city +:+ "."))
    end.

Definition forecast (place : Place) : res error json :=
  let? forecastRes := fetchImpl (forecast_url place) in
  if negb (fr_ok forecastRes)
  then Err (plain ("Forecast request failed with status " +:+ string_of_Z (fr_status forecastRes) +:+ "."))
  else
    let? f := parsed_body ForecastResponseSchema forecastRes in
    Ok (JObj [("city", JStr (pl_name place)); ("country", match pl_country place with Some c => JStr c | None => JNull end);
              ("temperatureC", fc_temperature f); ("windSpeedKmh", fc_wind f); ("weatherCode", fc_code f)]).

(** [execute], with the URLs that it requests in their order. *)
Definition get_weather (city : string) : list string * res error json :=
  match locate city with
  | Err e => ([geocode_url city], Err e)
  | Ok place => ([geocode_url city; forecast_url place], forecast place)
  end.
End weather.

(** [z.string().min(1).max(100)]. *)
Definition weather_input (v : json) : option string :=
  s ← nonempty_string "city" v; guard_opt (String.length s <=? 100)%nat (Some s).

(** ** Budgets (budget.ts) *)

(** When an [execute] settles, if it does, and with what. *)
Record Settlement := { settles_at : option Z; outcome_of : res error json }.

Record DemoTool := { dt_name : string; dt_execute : json -> Settlement }.

(** The process's map of budgets, in the order of its keys. *)
Fixpoint budgets_set (name : string) (ms : Z) (l : list (string * Z)) : list (string * Z) :=
  match l with
  | [] => [(name, ms)]
  | (n, m) :: l => if String.eqb n name then (n, ms) :: l else (n, m) :: budgets_set name ms l
  end.

Definition breach (name : string) (budgetMs : Z) : error :=
  plain ("Tool " +:+ quoted name +:+ " exceeded its demo-owned budget of " +:+ string_of_Z budgetMs +:+ "ms.").

(** The race: the timer is set first, and wins a tie of timers; a tool that has
    settled when it returns does not wait for one. *)
Definition budgeted (name : string) (budgetMs : Z) (run : Settlement) : Settlement :=
  match settles_at run with
  | Some t => if ((t <=? 0) || (t <? budgetMs))%Z then run
              else {| settles_at := Some budgetMs; outcome_of := Err (breach name budgetMs) |}
  | None => {| settles_at := Some budgetMs; outcome_of := Err (breach name budgetMs) |}
  end.

Definition withBudget (def : DemoTool) (budgetMs : Z) (budgets : list (string * Z)) :
    DemoTool * list (string * Z) :=
  ({| dt_name := dt_name def; dt_execute := fun input => budgeted (dt_name def) budgetMs (dt_execute def input) |},
   budgets_set (dt_name def) budgetMs budgets).

Definition listDemoBudgets (budgets : list (string * Z)) : list json :=
  map (fun b => JObj [("toolName", JStr b.1); ("budgetMs", JNum b.2)]) budgets.

(** ** The unreliable service, and the agent's tools (agent.ts) *)

Definition UNRELIABLE_HANG_MS : Z := 60000.

Definition unreliableServiceTool : DemoTool :=
  {| dt_name := "unreliable_service";
     dt_execute := fun _ => {| settles_at := Some UNRELIABLE_HANG_MS;
       outcome_of := Ok (JObj [("status", JStr "unreachable — you should never see this result")]) |} |}.

(** The three tools of the agent, over what the first two do. *)
Definition playgroundTools (getWeatherTool calculateTool : DemoTool) : list DemoTool * list (string * Z) :=
  let '(w, b) := withBudget getWeatherTool 5000 [] in
  let '(c, b) := withBudget calculateTool 1000 b in
  let '(u, b) := withBudget unreliableServiceTool 1500 b in
  ([w; c; u], b).

(** ** What the tools guarantee *)

(** ** The weather's requests *)

Section weather.
Context (fetchImpl : string -> res error FetchResponse) (number_text : string -> string).

(** The text of a number has digits, a point, signs and an exponent. *)
Definition number_char (c : ascii) : bool :=
  is_digit c || existsb (Ascii.eqb c) ["."; "-"; "+"; "e"]%char.
Context (Hnumber : forall lit, forallb number_char (list_ascii_of_string (number_text lit)) = true).

Lemma number_chars v : number_schema v = Some v -> forallb number_char (list_ascii_of_string (interpolate number_text v)) = true.
Proof using Hnumber.
  destruct v; try done; intros _; [|apply Hnumber]. simpl. unfold string_of_Z, on_text.
  rewrite list_ascii_of_string_of_list_ascii. unfold print_int.
  assert (Hd : forall u, forallb number_char (digits u) = true) by (induction u; simpl; by rewrite ?IHu).
  destruct (Z.to_int n); simpl; apply Hd.
Qed.

Lemma avoids_number c s : number_char c = false -> forallb number_char (list_ascii_of_string s) = true -> avoids c s.
Proof.
  intros Hc H. apply forallb_forall. intros x Hx. rewrite forallb_forall in H. specialize (H x Hx).
  destruct (Ascii.eqb_spec x c) as [->|]; [congruence|done].
Qed.

Lemma decode_avoids s : avoids "%" s -> decodeURIComponent s = Some s.
Proof.
  intros H. unfold decodeURIComponent. enough (decode_text (list_ascii_of_string s) = Some (list_ascii_of_string s)) as ->.
  { simpl. by rewrite string_of_list_ascii_of_string. }
  unfold avoids in H. induction (list_ascii_of_string s) as [|c t IH]; [done|]. simpl in H.
  apply andb_true_iff in H as [Hc H]. rewrite decode_plain; [by rewrite IH|]. intros ->. discriminate Hc.
Qed.

Lemma number_schema_idem v w : number_schema v = Some w -> number_schema w = Some w.
Proof. destruct v; try done; by intros [= <-]. Qed.

Lemma place_numbers v p : place_schema v = Some p ->
  number_schema (pl_latitude p) = Some (pl_latitude p) /\ number_schema (pl_longitude p) = Some (pl_longitude p).
Proof.
  unfold place_schema, guard_opt. destruct v; try done. intros H.
  apply bind_Some in H as (n & _ & H). apply bind_Some in H as (la & H1 & H). apply bind_Some in H as (lo & H2 & H).
  apply bind_Some in H as (c & _ & [= <-]). simpl. apply bind_Some in H1 as (x & _ & H1), H2 as (y & _ & H2).
  eauto using number_schema_idem.
Qed.

Lemma located_numbers city p : locate fetchImpl city = Ok p ->
  number_schema (pl_latitude p) = Some (pl_latitude p) /\ number_schema (pl_longitude p) = Some (pl_longitude p).
Proof.
  unfold locate, parsed_body. destruct (fetchImpl _) as [r|]; [|done]. simpl. destruct (fr_ok r); [|done]. simpl.
  destruct (fr_json r) as [v|]; [|done]. simpl. unfold GeocodeResponseSchema, guard_opt. destruct v; try done.
  destruct (optional _ _ _) as [[[|q l]|]|] eqn:E; simpl; try done. intros [= <-].
  unfold optional in E. destruct (field _ _) as [x|]; [|done]. destruct x as [| | | | |l0|]; try done.
  simpl in E. apply fmap_Some in E as (ps & E & [= <-]). apply mapM_Some in E.
  destruct l0 as [|v0 l0]; inversion E; subst. by eapply place_numbers.
Qed.

(** The weather tool's requests go to its two hosts, and say what they are
    to say.  For any city that a visitor can give - with any characters - and
    any answers, the first request is for the fixed geocoding URL with a query
    that a server reads as this city and one result; and the second, when there
    is one, is for the fixed forecast URL with the coordinates of the first
    place that the answer names and three constant fields. *)
Theorem weather_asks_for_the_city city :
  exists q rest, (get_weather fetchImpl number_text city).1 = (GEOCODE_URL +:+ String "?" q) :: rest /\
    split_at "?" (GEOCODE_URL +:+ String "?" q) = Some (GEOCODE_URL, q) /\
    query_of q = Some [("name", city); ("count", "1")] /\
    (rest = [] \/ exists p q', locate fetchImpl city = Ok p /\ rest = [FORECAST_URL +:+ String "?" q'] /\
       split_at "?" (FORECAST_URL +:+ String "?" q') = Some (FORECAST_URL, q') /\
       query_of q' = Some [("latitude", interpolate number_text (pl_latitude p));
                           ("longitude", interpolate number_text (pl_longitude p));
                           ("current", "temperature_2m,wind_speed_10m,weather_code")]).
Proof using Hnumber.
  exists (query_text [("name", encodeURIComponent city); ("count", "1")]).
  exists (match locate fetchImpl city with Ok p => [forecast_url number_text p] | Err _ => [] end).
  split; [unfold get_weather; by destruct (locate fetchImpl city)|]. split; [by apply split_at_avoids|]. split.
  - apply query_read.
    + repeat constructor; try done. simpl. by apply encoded_avoids.
    + repeat constructor; simpl; try done. apply decode_encode.
  - destruct (locate fetchImpl city) as [p|e] eqn:E; [right|by left].
    destruct (located_numbers city p E) as [N1%number_chars N2%number_chars].
    exists p, (query_text [("latitude", interpolate number_text (pl_latitude p));
      ("longitude", interpolate number_text (pl_longitude p)); ("current", "temperature_2m,wind_speed_10m,weather_code")]).
    split; [done|]. split; [|split; [by apply split_at_avoids|]].
    + reflexivity.
    + apply query_read; repeat constructor; simpl; try done; try by eapply avoids_number.
      * by apply decode_avoids; eapply avoids_number; [|exact N1].
      * by apply decode_avoids; eapply avoids_number; [|exact N2].
Qed.
End weather.

(** ** Budgets *)

(** A tool with a budget settles in time: with what the tool gives, when it
    settles before, and otherwise, at the budget, with the breach. *)
Theorem budget_bounds_execution def ms budgets input :
  (0 <= ms)%Z ->
  let run := dt_execute def input in
  let run' := dt_execute (withBudget def ms budgets).1 input in
  (exists t, settles_at run' = Some t /\ (t <= ms)%Z \/ settles_at run' = Some t /\ (t <= 0)%Z) /\
  (run' = run \/ settles_at run' = Some ms /\ outcome_of run' = Err (breach (dt_name def) ms) /\
     forall t, settles_at run = Some t -> (ms <= t)%Z).
Proof.
  intros Hms run run'. subst run'. cbn [withBudget fst dt_execute]. fold run. unfold budgeted.
  destruct (settles_at run) as [t|] eqn:E; [|split; [exists ms; left; split; [done|lia]|by right]].
  destruct ((t <=? 0) || (t <? ms))%Z eqn:Eb.
  - split; [|by left]. exists t. rewrite E. apply orb_true_iff in Eb as [H%Z.leb_le|H%Z.ltb_lt]; [by right|].
    left. split; [done|lia].
  - apply orb_false_iff in Eb as [H1%Z.leb_gt H2%Z.ltb_ge]. split; [exists ms; left; split; [done|simpl; lia]|].
    right. split_and!; [done|done|]. by intros t' [= <-].
Qed.

(** The deliberately failing tool fails, after a second and a half. *)
Theorem unreliable_service_fails w c input :
  exists u, (playgroundTools w c).1 !! 2 = Some u /\
    dt_execute u input = {| settles_at := Some 1500%Z; outcome_of := Err (breach "unreliable_service" 1500) |}.
Proof. by eexists. Qed.

(** ** Examples *)

Definition demo_answers (url : string) : res error FetchResponse :=
  if String.eqb url (geocode_url "Aix & Co?")
  then Ok {| fr_ok := true; fr_status := 200; fr_json := Ok (JObj [("results", JArr [JObj
         [("name", JStr "Aix"); ("latitude", JFloat "43.5"); ("longitude", JNum 5)]])]) |}
  else Ok {| fr_ok := true; fr_status := 200; fr_json := Ok (JObj [("current", JObj
         [("temperature_2m", JFloat "21.5"); ("wind_speed_10m", JNum 9); ("weather_code", JNum 3)])]) |}.

Definition demo_text (lit : string) : string :=
  if forallb number_char (list_ascii_of_string lit) then lit else "0".

Lemma weather_asks_for_the_city_witness :
  (get_weather demo_answers demo_text "Aix & Co?").2 =
    Ok (JObj [("city", JStr "Aix"); ("country", JNull); ("temperatureC", JFloat "21.5"); ("windSpeedKmh", JNum 9);
              ("weatherCode", JNum 3)]) /\
  exists q rest, (get_weather demo_answers demo_text "Aix & Co?").1 = (GEOCODE_URL +:+ String "?" q) :: rest /\
    query_of q = Some [("name", "Aix & Co?"); ("count", "1")].
Proof.
  split; [vm_compute; reflexivity|].
  assert (Hn : forall lit, forallb number_char (list_ascii_of_string (demo_text lit)) = true).
  { intros lit. unfold demo_text. by destruct (forallb number_char (list_ascii_of_string lit)) eqn:E. }
  destruct (weather_asks_for_the_city demo_answers demo_text Hn "Aix & Co?") as (q & rest & H1 & _ & H2 & _).
  exists q, rest. split; [exact H1|exact H2].
Defined.
