(* ===== verification/Dco.v ===== *)
(** The check of sign-offs (scripts/check-dco.mjs): the expression over commit
    messages, the exemptions, and the exit code.  What git answers is an
    argument; the self-test is not modelled. *)
From S2P Require Import Prelude Json Shared.

(** ** The expression [/^Signed-off-by: .+ <.+@.+>$/m] *)

(** The line terminators, below 256. *)
Definition terminator (c : ascii) : bool := Ascii.eqb c "010" || Ascii.eqb c "013".

(** A literal, and [.+], before the rest of the expression; the rest is tried at
    every length. *)
Definition literal (s : string) (k : text -> bool) (t : text) : bool :=
  match strip (list_ascii_of_string s) t with Some r => k r | None => false end.

Fixpoint some_chars (k : text -> bool) (t : text) : bool :=
  match t with
  | c :: t => negb (terminator c) && (k t || some_chars k t)
  | [] => false
  end.

(** [$] with the flag m. *)
Definition at_end (t : text) : bool := match t with c :: _ => terminator c | [] => true end.

Definition signoff_here : text -> bool :=
  literal "Signed-off-by: " (some_chars (literal " <" (some_chars (literal "@" (some_chars (literal ">" at_end)))))).

(** [SIGNOFF_RE.test(message)]: at the start, or after a terminator. *)
Fixpoint signoff_after (t : text) : bool :=
  match t with
  | c :: t => terminator c && signoff_here t || signoff_after t
  | [] => false
  end.

Definition SIGNOFF_RE (message : string) : bool :=
  let t := list_ascii_of_string message in signoff_here t || signoff_after t.

(** ** The check *)

Definition DCO_ADOPTION_COMMIT : string := "626eb9c2edfed1fc15e7ff729dd05dee1a4870b9".

(** What git prints: [git_ok] is whether the command succeeds. *)
Record Git := {
  rev_list : string -> res error string; show_message : string -> res error string;
  show_parents : string -> res error string; is_ancestor : string -> string -> bool }.

Definition NEWLINE : ascii := "010".

(** [s.split('\n').filter(Boolean)]. *)
Fixpoint lines_from (acc : text) (t : text) : list text :=
  match t with
  | [] => [rev acc]
  | c :: t => if Ascii.eqb c NEWLINE then rev acc :: lines_from [] t else lines_from (c :: acc) t
  end.

Definition split_lines (s : string) : list string := map string_of_list_ascii (lines_from [] (list_ascii_of_string s)).

Definition nonempty (s : string) : bool := negb (String.eqb s "").

(** [parents.split(/\s+/).length] of a trimmed text that is not empty: one more
    than its runs of white space. *)
Fixpoint space_runs (inside : bool) (t : text) : nat :=
  match t with
  | [] => 0
  | c :: t => if is_space c then (if inside then 0 else 1) + space_runs true t else space_runs false t
  end.

Definition parentCount (parents : string) : nat :=
  let p := trim parents in if String.eqb p "" then 0 else S (space_runs false (list_ascii_of_string p)).

Record Offender := { of_sha : string; of_firstLine : string }.

Section check.
Context (git : Git).

Definition predatesAdoption (sha : string) : bool :=
  is_ancestor git sha DCO_ADOPTION_COMMIT && negb (String.eqb sha DCO_ADOPTION_COMMIT).

(** The body of the loop, on the count and the offenders. *)
Definition check_commit (sha : string) (st : nat * list Offender) : res error (nat * list Offender) :=
  let? message := show_message git sha in
  let? parents := show_parents git sha in
  if (2 <=? parentCount parents) || predatesAdoption sha then Ok st
  else Ok (S st.1, if SIGNOFF_RE message then st.2
                   else st.2 ++ [{| of_sha := sha; of_firstLine := hd "" (split_lines message) |}]).

Fixpoint check_commits (shas : list string) (st : nat * list Offender) : res error (nat * list Offender) :=
  match shas with
  | [] => Ok st
  | sha :: shas => let? st := check_commit sha st in check_commits shas st
  end.

Definition checkRange (range : string) : res error (nat * list Offender) :=
  let? out := rev_list git range in
  check_commits (List.filter nonempty (split_lines out)) (0, []).

Definition reportAndExit (r : nat * list Offender) : Z := match r.2 with [] => 0 | _ => 1 end.

(** The exit code of the script on its argument; an exception of git ends the
    process with 1. *)
Definition dco_main (selfTest : Z) (arg : option string) : Z :=
  match arg with
  | None | Some "" => 1
  | Some range =>
      if String.eqb range "--self-test" then selfTest else match checkRange range with Ok r => reportAndExit r | Err _ => 1 end
  end.
End check.

(** ** What a sign-off is *)

Definition line_text (t : text) : Prop := Forall (fun c => terminator c = false) t.

(** A line of the message: it starts it or follows a terminator, and ends it or
    is followed by one. *)
Definition is_line (l t : text) : Prop :=
  exists before after, t = before ++ l ++ after /\ line_text l /\
    (before = [] \/ exists b c, before = b ++ [c] /\ terminator c = true) /\
    (after = [] \/ exists c a, after = c :: a /\ terminator c = true).

Definition signoff (l : text) : Prop :=
  exists name user host, name <> [] /\ user <> [] /\ host <> [] /\
    l = list_ascii_of_string "Signed-off-by: " ++ name ++ list_ascii_of_string " <" ++ user ++
        list_ascii_of_string "@" ++ host ++ list_ascii_of_string ">".

Lemma strip_spec p t r : strip p t = Some r <-> t = p ++ r.
Proof.
  revert t. induction p as [|a p IH]; intros t; simpl; [split; [by intros [= ->]|by intros ->]|].
  destruct t as [|b t]; [by split|]. destruct (Ascii.eqb_spec a b) as [->|Hne].
  - rewrite IH. split; [by intros ->|by intros [= ->]].
  - split; [done|]. intros [= <-]. done.
Qed.

Lemma literal_spec s k t : literal s k t = true <-> exists r, t = list_ascii_of_string s ++ r /\ k r = true.
Proof.
  unfold literal. destruct (strip _ t) as [r|] eqn:E.
  - apply strip_spec in E. subst t. split; [by exists r|]. intros (r' & H & Hk). by apply app_inv_head in H as ->.
  - split; [done|]. intros (r & H & _). apply strip_spec in H. congruence.
Qed.

Lemma some_chars_spec k t :
  some_chars k t = true <-> exists w r, t = w ++ r /\ w <> [] /\ line_text w /\ k r = true.
Proof.
  split.
  - induction t as [|c t IH]; [done|]. simpl. intros [Hc%negb_true_iff H]%andb_true_iff.
    apply orb_true_iff in H as [H|H].
    + exists [c], t. split_and!; [done|done|by constructor|done].
    + destruct (IH H) as (w & r & -> & _ & Hw & Hk). exists (c :: w), r. split_and!; [done|done|by constructor|done].
  - intros (w & r & -> & Hn & Hw & Hk). induction Hw as [|c w Hc Hw IH]; [done|]. simpl. rewrite Hc. simpl.
    destruct w as [|c' w]; [simpl; by rewrite Hk|]. rewrite IH by done. apply orb_true_r.
Qed.

Lemma at_end_spec t : at_end t = true <-> t = [] \/ exists c a, t = c :: a /\ terminator c = true.
Proof. destruct t as [|c a]; simpl; [tauto|]. split; [intros H; right; eauto|]. by intros [|(? & ? & [= -> ->] & ?)]. Qed.

Lemma signoff_here_spec t :
  signoff_here t = true <-> exists l after, t = l ++ after /\ line_text l /\ signoff l /\ at_end after = true.
Proof.
  unfold signoff_here. rewrite literal_spec. split.
  - intros (r & -> & H). apply some_chars_spec in H as (name & r1 & -> & N1 & L1 & H).
    apply literal_spec in H as (r2 & -> & H). apply some_chars_spec in H as (user & r3 & -> & N2 & L2 & H).
    apply literal_spec in H as (r4 & -> & H). apply some_chars_spec in H as (host & r5 & -> & N3 & L3 & H).
    apply literal_spec in H as (after & -> & H).
    eexists (list_ascii_of_string "Signed-off-by: " ++ name ++ list_ascii_of_string " <" ++ user ++
        list_ascii_of_string "@" ++ host ++ list_ascii_of_string ">"), after.
    split_and!; [by rewrite <- !app_assoc| |by exists name, user, host|done].
    unfold line_text in *. rewrite !Forall_app. split_and!; try done; by repeat constructor.
  - intros (l & after & -> & Hl & (name & user & host & N1 & N2 & N3 & ->) & H).
    unfold line_text in Hl. rewrite !Forall_app in Hl. destruct Hl as (_ & L1 & _ & L2 & _ & L3 & _).
    rewrite <- !app_assoc. eexists. split; [done|]. apply some_chars_spec. eexists name, _. split_and!; [done..|].
    apply literal_spec. eexists. split; [done|]. apply some_chars_spec. eexists user, _. split_and!; [done..|].
    apply literal_spec. eexists. split; [done|]. apply some_chars_spec. eexists host, _. split_and!; [done..|].
    apply literal_spec. by eexists.
Qed.

Lemma signoff_after_spec t :
  signoff_after t = true <-> exists b c r, t = b ++ c :: r /\ terminator c = true /\ signoff_here r = true.
Proof.
  induction t as [|c t IH]; simpl; [split; [done|by intros ([] & ? & ? & ? & _)]|].
  rewrite orb_true_iff, andb_true_iff, IH. split.
  - intros [[Hc Hr]|(b & c' & r & -> & Hc & Hr)]; [by exists [], c, t|by exists (c :: b), c', r].
  - intros ([|x b] & c' & r & E & Hc & Hr); injection E as -> ->; [by left|right; by exists b, c', r].
Qed.

(** The expression finds a line of the message that is a sign-off. *)
Lemma SIGNOFF_RE_spec m : SIGNOFF_RE m = true <-> exists l, is_line l (list_ascii_of_string m) /\ signoff l.
Proof.
  unfold SIGNOFF_RE. rewrite orb_true_iff, signoff_after_spec. split.
  - intros [H|(b & c & r & E & Hc & H)]; apply signoff_here_spec in H as (l & after & E' & Hl & Hs & Ha%at_end_spec);
      exists l; (split; [|done]).
    + exists [], after. split_and!; [done|done|by left|done].
    + exists (b ++ [c]), after. rewrite E, E'. split_and!; [by rewrite <- app_assoc|done|right; eauto|done].
  - intros (l & (before & after & E & Hl & Hb & Ha) & Hs). rewrite E.
    assert (H : signoff_here (l ++ after) = true).
    { apply signoff_here_spec. exists l, after. split_and!; [done..|]. by apply at_end_spec. }
    destruct Hb as [->|(b & c & -> & Hc)]; [by left|right]. exists b, c, (l ++ after). by rewrite <- app_assoc.
Qed.

(** ** What passes *)

Section passes.
Context (git : Git).

(** What the check demands of a commit. *)
Definition signed_off (sha : string) : Prop :=
  exists message parents, show_message git sha = Ok message /\ show_parents git sha = Ok parents /\
    (2 <= parentCount parents \/ predatesAdoption git sha = true \/
     exists l, is_line l (list_ascii_of_string message) /\ signoff l).

Lemma check_commits_none shas : forall n,
  (exists k, check_commits git shas (n, []) = Ok (k, [])) <-> Forall signed_off shas.
Proof.
  assert (Hmore : forall shas st k, check_commits git shas st = Ok (k, []) -> st.2 = []).
  { intros l. induction l as [|sha l IH]; intros st k; simpl; [by intros [= ->]|].
    destruct (check_commit git sha st) as [st'|] eqn:E; [|done]. simpl. intros H. apply IH in H.
    unfold check_commit in E. destruct (show_message _ _); [|done]. simpl in E. destruct (show_parents _ _); [|done].
    simpl in E. destruct (_ || _); [by injection E as <-|]. injection E as <-. simpl in H.
    destruct (SIGNOFF_RE _); [done|]. by apply app_eq_nil in H as []. }
  induction shas as [|sha shas IH]; intros n; simpl; [split; [constructor|by exists n]|]. rewrite Forall_cons. unfold signed_off at 1.
  unfold check_commit at 1. destruct (show_message git sha) as [m|e]; cbn [res_bind];
    [|split; [by intros []|by intros [(? & ? & ? & _) _]]].
  destruct (show_parents git sha) as [p|e]; cbn [res_bind]; [|split; [by intros []|by intros [(? & ? & _ & ? & _) _]]].
  destruct ((2 <=? parentCount p) || predatesAdoption git sha) eqn:Ex; cbn [res_bind fst snd].
  - rewrite IH. split; [|tauto]. intros H. split; [|done]. exists m, p. split_and!; [done|done|].
    apply orb_true_iff in Ex as [Ex%Nat.leb_le|Ex]; tauto.
  - apply orb_false_iff in Ex as [E1%Nat.leb_gt E2]. destruct (SIGNOFF_RE m) eqn:Er; cbn [app].
    + rewrite IH. split; [|tauto]. intros H. split; [|done]. exists m, p. split_and!; [done|done|].
      right. right. by apply SIGNOFF_RE_spec.
    + split; [intros [k H]; by apply Hmore in H|]. intros [(m' & p' & [= <-] & [= <-] & H) _]. exfalso.
      destruct H as [H|[H|H]]; [lia|congruence|]. apply SIGNOFF_RE_spec in H. congruence.
Qed.

(** The script ends with 0 exactly when git answers and every commit of the
    range is a merge, predates the adoption, or has a line that is a sign-off. *)
Theorem dco_check_is_exact t range :
  range <> "" -> range <> "--self-test" ->
  dco_main git t (Some range) = 0%Z <->
  exists out, rev_list git range = Ok out /\ Forall signed_off (List.filter nonempty (split_lines out)).
Proof.
  intros Hr Ht. unfold dco_main, checkRange. destruct range as [|c range]; [done|].
  rewrite (proj2 (String.eqb_neq _ _) Ht). destruct (rev_list _ _) as [out|e]; simpl; [|by split; [|intros (? & ? & _)]].
  pose proof (check_commits_none (List.filter nonempty (split_lines out)) 0) as H.
  destruct (check_commits _ _ _) as [[k o]|e]; simpl.
  - unfold reportAndExit. simpl. split.
    + destruct o; [|done]. intros _. exists out. split; [done|]. apply H. by exists k.
    + intros (out' & [= <-] & Hf). apply H in Hf as [k' [= -> ->]]. done.
  - split; [done|]. intros (out' & [= <-] & Hf). by apply H in Hf as [].
Qed.
End passes.

(** Any line counts, also one that is no trailer of the message. *)
Definition AT : string := String NEWLINE "".
Theorem quoted_signoff_is_accepted :
  SIGNOFF_RE ("revert" +:+ AT +:+ "Signed-off-by: A <a@b>" +:+ AT +:+ "was missing here") = true /\
  SIGNOFF_RE "x Signed-off-by: A <a@b>" = false /\ SIGNOFF_RE "Signed-off-by: A <a@b> " = false.
Proof. by vm_compute. Qed.
