(* ===== verification/Hosted.v ===== *)
(** The engine as the hosted container wires it (apps/server/src/container.ts):
    one execution service without options, over the providers of the
    configuration, and a resolver without local tools; then the shutdown of the
    hosted server (main.ts) and of the standalone gateway
    (packages/gateway/src/server.ts). *)
From S2P Require Import Prelude Json Shared Deadlines Context Tools Models Repos Effects Loop RunService Engine Executors Server Gateway.
Import ConnectionManager SessionBridge.

(** [options ?? {}] of an engine that is built without them. *)
Definition NO_OPTIONS : AgentEngineOptions :=
  {| o_maxToolIterations := None; o_toolTimeoutMs := None; o_modelTimeoutMs := None; o_totalRunMs := None;
     o_memoryStrategy := None; o_lastN := None |}.

Section hosted.
Context {P : Type} (openai anthropic google echo fixture : ProviderConfig -> P).
Context (outside : Outside P) (awaits : Awaits).
Context (ajv_compile : json -> res string ValidateFunction) (penv : string -> option string).

(** The registry that the engine's dependencies carry. *)
Definition hosted_registry (c : ServerConfig) : ProviderRegistry P :=
  (model_providers openai anthropic google echo fixture c).1.

(** A run of the shared service. *)
Definition hosted_run (c : ServerConfig) (runId sessionId userMessage userMessageId : string) (signal : Signal)
    (t : Z) (db : Db) : outcome error unit * LoopState :=
  executePreparedRun outside awaits ajv_compile (hosted_registry c) penv NO_OPTIONS runId sessionId userMessage
    userMessageId signal t db.

(** The resolver of the container registers no local tools. *)
Definition hosted_resolve (agent : AgentRecord) (cache : gmap string Resolver.Executor) :=
  Resolver.resolve None agent cache.

(** [createToolExecutor] of tool-executor-factory.ts, which the container does
    not use: without a URL it is a local executor that knows no tool. *)
Definition createToolExecutor (agent : AgentRecord) : Resolver.Executor :=
  match Resolver.nonempty_url agent with Some url => Resolver.remote agent url | None => Resolver.local 0 end.

(** Nothing ends a hosted run but its caller: no deadline is armed on the run,
    on a model call or on a tool call. *)
Theorem hosted_run_has_no_deadline signal base scope t :
  prepared_signal NO_OPTIONS signal t = signal /\
  deriveCallDeadline base scope (o_modelTimeoutMs NO_OPTIONS) t = base /\
  deriveCallDeadline base scope (o_toolTimeoutMs NO_OPTIONS) t = base.
Proof. split; [|done]. unfold prepared_signal, createDeadlineController. simpl. by destruct signal as [[]|]. Qed.

(** The executors that the container's resolver has made. *)
Inductive resolved_cache : gmap string Resolver.Executor -> Prop :=
| resolved_none : resolved_cache ∅
| resolved_more agent cache : resolved_cache cache -> resolved_cache (hosted_resolve agent cache).2.

Lemma hosted_cache cache key x :
  resolved_cache cache -> cache !! key = Some x -> match x with Resolver.local _ => False | _ => True end.
Proof.
  intros Hc. revert key x. induction Hc as [|agent cache Hc IH]; intros key x; [by rewrite lookup_empty|].
  unfold hosted_resolve, Resolver.resolve. destruct (cache !! Resolver.cacheKey agent); [apply IH|].
  destruct (Resolver.nonempty_url agent) as [u|]; [|cbn [Nat.ltb Nat.leb]; destruct (ag_tools agent); [|apply IH]]; cbn [snd];
    rewrite lookup_insert; case_decide; try apply IH; by intros [= <-].
Qed.

(** A tool of a hosted agent never runs in the server's process: the executor is
    remote, at the agent's own URL when it was made for it, or the one that does
    nothing; and an agent with tools and no URL that is not known is refused. *)
Theorem hosted_tools_run_remotely agent cache :
  resolved_cache cache ->
  match (hosted_resolve agent cache).1 with
  | Ok (Resolver.local _) => False
  | Ok (Resolver.remote _ url) => ag_toolRunnerUrl agent = Some url /\ url <> "" \/ is_Some (cache !! Resolver.cacheKey agent)
  | Ok Resolver.noop => True
  | Err _ => Resolver.nonempty_url agent = None /\ ag_tools agent <> []
  end.
Proof.
  intros Hc. unfold hosted_resolve, Resolver.resolve. destruct (cache !! Resolver.cacheKey agent) as [x|] eqn:Ex.
  - apply (hosted_cache _ _ _ Hc) in Ex. destruct x; [by right|done|done].
  - unfold Resolver.nonempty_url. destruct (ag_toolRunnerUrl agent) as [u|]; simpl.
    + destruct (String.eqb_spec u ""); simpl; [by destruct (ag_tools agent)|by left].
    + by destruct (ag_tools agent).
Qed.
End hosted.

(** ** The graceful shutdown of the hosted server (apps/server/src/main.ts) and of
    the standalone gateway (packages/gateway/src/server.ts)

    Closing the HTTP server ends the sockets that are still open at the
    transport: their clients see the code 1005.  Each awaited step may reject,
    and then those after it do not happen. *)

Record Host := {
  bridge : Bridge; timers : Heartbeat.Manager; listening : bool; redis : bool; database : bool;
  exited : option Z }.

Definition set_bridge (b : Bridge) (h : Host) : Host :=
  {| bridge := b; timers := timers h; listening := listening h; redis := redis h; database := database h;
     exited := exited h |}.

(** [connectionManager.closeAll(1001, 'Server shutting down')]. *)
Definition say_goodbye (h : Host) : Host := set_bridge (set_cm (closeAll 1001 (cm (bridge h))) (bridge h)) h.

(** [heartbeat.clear()]. *)
Definition stop_timers (h : Host) : Host :=
  {| bridge := bridge h; timers := Heartbeat.clear (timers h); listening := listening h; redis := redis h;
     database := database h; exited := exited h |}.

(** [app.close()]. *)
Definition close_transport (c : Connections) : Connections :=
  set_sockets (fmap (fun k => if ws_open k then close_socket 1005 k else k) (sockets c)) c.

Definition close_app (h : Host) : Host :=
  {| bridge := set_cm (close_transport (cm (bridge h))) (bridge h); timers := timers h; listening := false;
     redis := redis h; database := database h; exited := exited h |}.

(** [sessionBridge.shutdown()]. *)
Definition bridge_shutdown (h : Host) : Host :=
  {| bridge := set_buffers ∅ (bridge h); timers := timers h; listening := listening h; redis := false;
     database := database h; exited := exited h |}.

Definition close_database (h : Host) : Host :=
  {| bridge := bridge h; timers := timers h; listening := listening h; redis := redis h; database := false;
     exited := exited h |}.

Definition exit_process (code : Z) (h : Host) : Host :=
  {| bridge := bridge h; timers := timers h; listening := listening h; redis := redis h; database := database h;
     exited := Some code |}.

(** An awaited step that rejects ends the handler: nothing catches it. *)
Definition awaited (refused : option error) (step : Host -> Host) (rest : Host -> option error * Host) (h : Host) :
    option error * Host :=
  match refused with Some e => (Some e, h) | None => rest (step h) end.

(** main.ts; [refuses] by the number of the awaited step. *)
Definition shutdown (refuses : nat -> option error) (h : Host) : option error * Host :=
  let h := stop_timers (say_goodbye h) in
  awaited (refuses 0) close_app
    (awaited (refuses 1) bridge_shutdown
      (awaited (refuses 2) close_database (fun h => (None, exit_process 0 h)))) h.

(** server.ts of the gateway. *)
Definition gateway_shutdown (refuses : nat -> option error) (h : Host) : option error * Host :=
  awaited (refuses 0) close_app
    (fun h => awaited (refuses 1) bridge_shutdown (fun h => (None, h)) (stop_timers (say_goodbye h))) h.

(** [startGateway]: the port that it listens on. *)
Definition DEFAULT_GATEWAY_PORT : Z := 3001.
Definition gateway_port (port : option Z) : Z := port ?? DEFAULT_GATEWAY_PORT.

(** ** Who is told *)

Definition registered (ws : nat) (c : Connections) : Prop :=
  exists sid set, sessions c !! sid = Some set /\ ws ∈ set.

Lemma close_all_sockets code (l : list nat) (m : gmap nat Socket) ws (k : Socket) :
  m !! ws = Some k -> ws ∈ l ->
  exists k', fold_left (fun m ws => alter (close_socket code) ws m) l m !! ws = Some k' /\
    ws_open k' = false /\ ws_closed k' = Some (ws_closed k ?? code).
Proof.
  revert m k. induction l as [|w l IH]; intros m k Hk Hin; [by apply elem_of_nil in Hin|]. simpl.
  assert (Hw : alter (close_socket code) w m !! ws = Some (if decide (w = ws) then close_socket code k else k)).
  { case_decide as E; [subst; by rewrite lookup_alter_eq, Hk|by rewrite lookup_alter_ne]. }
  destruct (decide (ws ∈ l)) as [Hl|Hl].
  - destruct (IH _ _ Hw Hl) as (k' & H1 & H2 & H3). exists k'. split_and!; [done|done|]. rewrite H3.
    case_decide; [simpl; by destruct (ws_closed k)|done].
  - assert (w = ws) as -> by (apply elem_of_cons in Hin as [->|]; done). rewrite decide_True in Hw by done.
    exists (close_socket code k). split; [|done]. clear IH Hin Hk. revert Hl Hw.
    generalize (alter (close_socket code) ws m). intros m' Hl Hw. revert m' Hw.
    induction l as [|w l IH]; intros m' Hw; [done|]. simpl. apply not_elem_of_cons in Hl as [Hne Hl]. apply IH; [done|].
    by rewrite lookup_alter_ne.
Qed.

Lemma registered_all ws c : registered ws c -> ws ∈ concat (map snd (map_to_list (sessions c))).
Proof.
  intros (sid & set & H & Hin). apply list_elem_of_In, in_concat. exists set. split; [|by apply list_elem_of_In].
  apply in_map_iff. exists (sid, set). split; [done|]. by apply list_elem_of_In, elem_of_map_to_list.
Qed.

Lemma goodbye_closes ws k h :
  registered ws (cm (bridge h)) -> sockets (cm (bridge h)) !! ws = Some k ->
  exists k', sockets (cm (bridge (say_goodbye h))) !! ws = Some k' /\ ws_open k' = false /\
    ws_closed k' = Some (ws_closed k ?? 1001%Z).
Proof. intros Hr Hk. apply close_all_sockets; [done|by apply registered_all]. Qed.

Lemma transport_lookup (c : Connections) (ws : nat) :
  sockets (close_transport c) !! ws = (fun k => if ws_open k then close_socket 1005 k else k) <$> sockets c !! ws.
Proof. unfold close_transport. simpl. by rewrite lookup_fmap. Qed.

(** The hosted server tells its clients that it goes away: whatever fails
    during the shutdown, every registered socket that was not closed before is
    closed with 1001, and no timer of the heartbeat is left; when nothing fails
    the process exits with Redis and the database closed. *)
Theorem hosted_shutdown_says_goodbye refuses h ws k :
  registered ws (cm (bridge h)) -> sockets (cm (bridge h)) !! ws = Some k -> ws_closed k = None ->
  let r := shutdown refuses h in
  (exists k', sockets (cm (bridge r.2)) !! ws = Some k' /\ ws_open k' = false /\ ws_closed k' = Some 1001%Z) /\
  Heartbeat.entries (timers r.2) = ∅ /\
  (r.1 = None -> exited r.2 = Some 0%Z /\ listening r.2 = false /\ redis r.2 = false /\ database r.2 = false).
Proof.
  intros Hr Hk Hc r. destruct (goodbye_closes ws k h Hr Hk) as (k' & H1 & H2 & H3). rewrite Hc in H3. simpl in H3.
  assert (H4 : sockets (close_transport (cm (bridge (say_goodbye h)))) !! ws = Some k').
  { rewrite transport_lookup, H1. simpl. by rewrite H2. }
  subst r. unfold shutdown, awaited. destruct (refuses 0), (refuses 1), (refuses 2); simpl;
    (split; [exists k'; split; [first [exact H1|exact H4]|by split]|]); by split.
Qed.

(** The standalone gateway closes its HTTP server first: its clients see no
    code. *)
Theorem gateway_shutdown_cuts_off refuses h ws k :
  refuses 0 = None -> registered ws (cm (bridge h)) -> sockets (cm (bridge h)) !! ws = Some k ->
  ws_open k = true -> ws_closed k = None ->
  exists k', sockets (cm (bridge (gateway_shutdown refuses h).2)) !! ws = Some k' /\ ws_closed k' = Some 1005%Z.
Proof.
  intros H0 Hr Hk Ho Hc. unfold gateway_shutdown, awaited. rewrite H0.
  assert (Hk1 : sockets (cm (bridge (close_app h))) !! ws = Some (close_socket 1005 k)).
  { simpl. rewrite lookup_fmap, Hk. simpl. by rewrite Ho. }
  destruct (goodbye_closes ws _ (close_app h) Hr Hk1) as (k' & H1 & _ & H3). simpl in H3. rewrite Hc in H3.
  destruct (refuses 1); simpl; exists k'; by split.
Qed.
