(* ===== verification/VerifyPack.v ===== *)
(** The publish dry run (scripts/verify-pack.mjs): the checks on the tarball of
    each package, and the exit code of the script.

    What pnpm and tar print, and the files of the repository, are arguments; the
    log lines of checks that pass are left out.  A failure is kept as the package
    and its message. *)
From S2P Require Import Prelude Json Shared Generator Dco.

(** ** Texts *)

Definition ends_with (p s : string) : bool :=
  match strip (rev (list_ascii_of_string p)) (rev (list_ascii_of_string s)) with Some _ => true | None => false end.

Definition includes (p s : string) : bool :=
  match find_text (list_ascii_of_string p) (list_ascii_of_string s) with Some _ => true | None => false end.

Definition member (f : string) (l : list string) : bool := existsb (String.eqb f) l.

(** ** The roster *)

Record Package := { pk_name : string; pk_dir : string; pk_cli : bool }.

Definition PACKAGES : list Package :=
  [{| pk_name := "@swiftagent/sdk"; pk_dir := "packages/sdk"; pk_cli := false |};
   {| pk_name := "@swiftagent/react"; pk_dir := "packages/react"; pk_cli := false |};
   {| pk_name := "@swiftagent/shared"; pk_dir := "packages/shared"; pk_cli := false |};
   {| pk_name := "create-swift-agent"; pk_dir := "packages/create-swift-agent"; pk_cli := true |}].

Definition REGISTRY : string := "https://registry.npmjs.org".
Definition ACCESS : string := "public".
Definition LICENSE_ID : string := "Apache-2.0".

Definition REQUIRED_TEMPLATE_FILES : list string :=
  map (fun f => "package/templates/" +:+ f)
    ["README.md"; "_gitignore"; "env.example"; "docker-compose.yml"; "backend/package.json";
     "backend/tsconfig.json"; "backend/eslint.config.js"; "backend/src/server.ts"; "frontend/package.json";
     "frontend/tsconfig.json"; "frontend/eslint.config.js"; "frontend/vite.config.ts"; "frontend/index.html";
     "frontend/src/main.tsx"; "frontend/src/App.tsx"].

(** ** Entry points *)

(** [node.replace(/^\.\//, 'package/')]. *)
Definition packaged (node : string) : string :=
  match strip ["."; "/"]%char (list_ascii_of_string node) with
  | Some t => "package/" +:+ string_of_list_ascii t
  | None => node
  end.

(** The texts of an exports map, in the order of the walk. *)
Fixpoint leaves (node : json) : list string :=
  match node with
  | JStr s => [s]
  | JArr l => l ≫= leaves
  | JObj o => o ≫= fun m => leaves m.2
  | _ => []
  end.

(** [Set.add]. *)
Definition add_once (f : string) (l : list string) : list string := if member f l then l else l ++ [f].

Definition entryPointsFromExports (exportsMap : json) : list string * list string :=
  fold_left (fun acc s =>
    if ends_with ".d.ts" s then (acc.1, add_once (packaged s) acc.2)
    else if ends_with ".js" s then (add_once (packaged s) acc.1, acc.2) else acc) (leaves exportsMap) ([], []).

(** ** The checks *)

Definition Failure : Type := (string * string)%type.

(** [if (bad) fail(pkg.name, msg)]. *)
Definition check_that (good : bool) (pkg : Package) (msg : string) : list Failure :=
  if good then [] else [(pk_name pkg, msg)].

(** [/tsconfig.*\.json$/]. *)
Fixpoint tsconfig_json (t : text) : bool :=
  match strip (list_ascii_of_string "tsconfig") t with
  | Some r => forallb (fun c => negb (terminator c)) r && ends_with ".json" (string_of_list_ascii r)
  | None => false
  end ||
  match t with _ :: t => tsconfig_json t | [] => false end.

Definition forbidden_file (f : string) : bool :=
  starts_with "package/src/" f || (ends_with ".test.js" f || ends_with ".test.d.ts" f) ||
  (starts_with "__tests__/" f || includes "/__tests__/" f) || tsconfig_json (list_ascii_of_string f) ||
  includes "/.turbo/" f || ends_with ".cjs" f.

Definition exempt (pkg : Package) (f : string) : bool := pk_cli pkg && starts_with "package/templates/" f.

Definition digits_then (k : text -> bool) (t : text) : bool :=
  match take_while is_digit t with [] => false | _ => k (drop_while is_digit t) end.

Definition version_char (c : ascii) : bool :=
  between "0" "9" c || between "A" "Z" c || between "a" "z" c || Ascii.eqb c "." || Ascii.eqb c "-".

Definition version_tail (t : text) : bool :=
  match t with
  | [] => true
  | c :: r => Ascii.eqb c "-" && negb (bool_decide (r = [])) && forallb version_char r
  end.

Definition dot_then (k : text -> bool) (t : text) : bool :=
  match t with c :: t => Ascii.eqb c "." && k t | [] => false end.

(** [/^[\^~]?\d+\.\d+\.\d+(-[0-9A-Za-z.-]+)?$/]. *)
Definition version_text (t : text) : bool :=
  digits_then (dot_then (digits_then (dot_then (digits_then version_tail))))
    match t with c :: r => if Ascii.eqb c "^" || Ascii.eqb c "~" then r else t | [] => t end.

Definition concrete_version (s : string) : bool := version_text (list_ascii_of_string s).

(** [`${v}`]. *)
Definition interpolated (v : jsval) : string := (to_text <$> v) ?? "undefined".

(** [v?.k]. *)
Definition member_of (k : string) (v : jsval) : jsval := x ← v; field k x.

Definition exports_checks (pkg : Package) (shipped : list string) (packed : json) : list Failure :=
  let '(js, types) := entryPointsFromExports (match field "exports" packed with Some v => v | None => JNull end) in
  ((js ++ types) ≫= fun f => check_that (member f shipped) pkg ("missing exports target " +:+ replace "package/" "" f)) ++
  check_that (member "package/README.md" shipped) pkg "missing README.md" ++
  check_that (member "package/package.json" shipped) pkg "missing package.json".

Definition forbidden_files (pkg : Package) (shipped : list string) : list string :=
  List.filter forbidden_file (List.filter (fun f => negb (exempt pkg f)) shipped).

Definition forbidden_checks (pkg : Package) (shipped : list string) : list Failure :=
  let forbidden := forbidden_files pkg shipped in
  check_that (bool_decide (forbidden = [])) pkg ("forbidden files in tarball: " +:+ join ", " forbidden).

Definition type_error (what : string) : error := PlainError "TypeError" what.

Definition dependency_checks (pkg : Package) (packed : json) : res error (list Failure) :=
  match member_of "@swiftagent/shared" (field "dependencies" packed) with
  | None => Ok []
  | Some (JStr shared) =>
      if starts_with "workspace:" shared then
        Ok [(pk_name pkg, "@swiftagent/shared not resolved (still " +:+ quoted shared +:+ ")")]
      else Ok (check_that (concrete_version shared) pkg
                 ("@swiftagent/shared has unexpected version " +:+ quoted shared))
  | Some JNull => Err (type_error "Cannot read properties of null (reading 'startsWith')")
  | Some _ => Err (type_error "shared.startsWith is not a function")
  end.

Definition is_string (v : jsval) (s : string) : bool :=
  match v with Some (JStr t) => String.eqb t s | _ => false end.

Definition lists_string (v : jsval) (s : string) : bool :=
  match v with Some (JArr l) => existsb (fun x => is_string (Some x) s) l | _ => false end.

Definition metadata_checks (pkg : Package) (packed : json) : list Failure :=
  let registry := member_of "registry" (field "publishConfig" packed) in
  let access := member_of "access" (field "publishConfig" packed) in
  let license := field "license" packed in
  check_that (negb (has_field "private" packed)) pkg ("packed manifest still has " +:+ quoted "private") ++
  check_that (is_string registry REGISTRY) pkg
    ("publishConfig.registry is " +:+ quoted (interpolated registry) +:+ ", expected " +:+ REGISTRY) ++
  check_that (is_string access ACCESS) pkg
    ("publishConfig.access is " +:+ quoted (interpolated access) +:+ ", expected " +:+ quoted ACCESS) ++
  check_that (is_string license LICENSE_ID) pkg
    ("license is " +:+ quoted (interpolated license) +:+ ", expected " +:+ quoted LICENSE_ID) ++
  check_that (lists_string (field "files" packed) "dist" && lists_string (field "files" packed) "README.md") pkg
    ("files allowlist must contain " +:+ quoted "dist" +:+ " and " +:+ quoted "README.md").

Definition filled (v : jsval) : bool :=
  truthy_val v && match v with Some (JObj []) | Some (JArr []) => false | _ => true end.

Definition field_checks (pkg : Package) (packed : json) : list Failure :=
  ["repository"; "license"; "description"; "author"] ≫= fun f =>
    check_that (filled (field f packed)) pkg ("empty/missing " +:+ quoted f).

Definition surface_checks (pkg : Package) (packed source : json) : list Failure :=
  ["exports"; "main"; "types"] ≫= fun f =>
    check_that (bool_decide (stringify_val (field f packed) = stringify_val (field f source))) pkg
      ("packed " +:+ quoted f +:+ " differs from on-disk source (WS-36 surface perturbed)").

(** What tar answers on a tarball. *)
Record Tarball := { tar_list : res error string; tar_read : string -> res error string }.

(** [lines.map(trim).filter(Boolean).map(replace)]. *)
Definition listing (out : string) : list string :=
  map (replace "package/./" "package/") (List.filter nonempty (map trim (split_lines out))).

Definition parse_manifest (s : string) : res error json :=
  match parse s with Some v => Ok v | None => Err (PlainError "SyntaxError" s) end.

Section gate.
(** The files of the repository, by their path under its root. *)
Context (root_file : string -> res error string).

Definition legal_check (pkg : Package) (t : Tarball) (shipped : list string) (legal : string) : res error (list Failure) :=
  if negb (member ("package/" +:+ legal) shipped) then Ok [(pk_name pkg, "missing " +:+ legal +:+ " in tarball")]
  else
    let? packed := tar_read t ("package/" +:+ legal) in
    let? root := root_file legal in
    Ok (check_that (String.eqb packed root) pkg
          (legal +:+ " in tarball differs from root " +:+ legal +:+ " (copies drifted)")).

Definition bin_checks (pkg : Package) (t : Tarball) (shipped : list string) (packed : json) : res error (list Failure) :=
  let bin := field "bin" packed in
  if negb (is_string (member_of "create-swift-agent" bin) "./dist/cli.js")
  then Ok [(pk_name pkg, "bin mapping missing/wrong: " +:+ (stringify_val bin ?? "undefined"))]
  else
    let binPath := "package/dist/cli.js" in
    if negb (member binPath shipped) then Ok [(pk_name pkg, "bin target " +:+ binPath +:+ " missing from tarball")]
    else
      let? content := tar_read t binPath in
      Ok (check_that (starts_with "#!/usr/bin/env node" content) pkg
            ("bin target " +:+ binPath +:+ " lacks the #!/usr/bin/env node shebang")).

Definition template_checks (pkg : Package) (shipped : list string) : list Failure :=
  REQUIRED_TEMPLATE_FILES ≫= fun f => check_that (member f shipped) pkg ("templates file missing from tarball: " +:+ f).

Definition cli_checks (pkg : Package) (t : Tarball) (shipped : list string) (packed : json) : res error (list Failure) :=
  if pk_cli pkg then let? b := bin_checks pkg t shipped packed in Ok (b ++ template_checks pkg shipped) else Ok [].

(** [null.exports], and [in] on what is no object. *)
Definition readable (v : json) : res error unit :=
  match v with
  | JNull => Err (type_error "Cannot read properties of null (reading 'exports')")
  | JObj _ | JArr _ => Ok tt
  | _ => Err (type_error "Cannot use 'in' operator to search for 'private'")
  end.

Definition not_null (v : json) : res error unit :=
  match v with JNull => Err (type_error "Cannot read properties of null (reading 'exports')") | _ => Ok tt end.

Definition verifyTarball (pkg : Package) (t : Tarball) : res error (list Failure) :=
  let? out := tar_list t in
  let shipped := listing out in
  let? text := tar_read t "package/package.json" in
  let? packed := parse_manifest text in
  let? onDisk := root_file (pk_dir pkg +:+ "/package.json") in
  let? source := parse_manifest onDisk in
  let? _ := readable packed in
  let? dependencies := dependency_checks pkg packed in
  let? license := legal_check pkg t shipped "LICENSE" in
  let? notice := legal_check pkg t shipped "NOTICE" in
  let? _ := not_null source in
  let? cli := cli_checks pkg t shipped packed in
  Ok (exports_checks pkg shipped packed ++ forbidden_checks pkg shipped ++ dependencies ++ metadata_checks pkg packed ++
      license ++ notice ++ field_checks pkg packed ++ surface_checks pkg packed source ++ cli).

(** [pkg.name.split('/').at(-1)]. *)
Definition last_segment (name : string) : string :=
  match split_at "/" name with Some (_, rest) => rest | None => name end.

(** What [pnpm pack] leaves: the names in the temporary directory, after it ran
    in the directory of the package. *)
Context (tmp : string) (packed_names : Package -> res error (list string)) (tarball_at : string -> Tarball).

Definition find_tarball (pkg : Package) (names : list string) : option string :=
  List.find (includes (last_segment (pk_name pkg))) (map (join_path tmp) (List.filter (ends_with ".tgz") names)).

Definition verifyPackage (pkg : Package) : res error (list Failure) :=
  let? names := packed_names pkg in
  match find_tarball pkg names with
  | None => Ok [(pk_name pkg, "no tarball produced by pnpm pack")]
  | Some path => verifyTarball pkg (tarball_at path)
  end.

Fixpoint verifyAll (pkgs : list Package) : res error (list Failure) :=
  match pkgs with
  | [] => Ok []
  | p :: pkgs => let? f := verifyPackage p in let? fs := verifyAll pkgs in Ok (f ++ fs)
  end.

(** The exit code; an exception ends the process with 1. *)
Definition main : Z := match verifyAll PACKAGES with Ok [] => 0 | _ => 1 end.
End gate.

(** ** What passes

    What the expressions and searches find, what each check demands, and the
    exit code. *)

(** ** Texts *)

Definition starts (p s : string) : Prop := exists b, list_ascii_of_string s = list_ascii_of_string p ++ b.
Definition ends (p s : string) : Prop := exists a, list_ascii_of_string s = a ++ list_ascii_of_string p.
Definition contains (p s : string) : Prop :=
  exists a b, list_ascii_of_string s = a ++ list_ascii_of_string p ++ b.

Lemma starts_with_spec p s : starts_with p s = true <-> starts p s.
Proof.
  unfold starts, starts_with. revert s. induction p as [|c p IH]; intros s; simpl; [split; [by eauto|by destruct s]|].
  destruct s as [|d s]; simpl; [split; [done|by intros [? ?]]|]. destruct (ascii_dec c d) as [->|Hne].
  - rewrite IH. split; intros [b H]; exists b; congruence.
  - split; [done|]. intros [b [= ? _]]. congruence.
Qed.

Lemma ends_with_spec p s : ends_with p s = true <-> ends p s.
Proof.
  unfold ends_with, ends. destruct (strip _ _) as [r|] eqn:E; split; try done.
  - intros _. apply strip_spec in E. exists (rev r). by rewrite <- (rev_involutive (list_ascii_of_string s)), E, rev_app_distr, rev_involutive.
  - intros [a H]. rewrite H, rev_app_distr in E. by rewrite (proj2 (strip_spec _ _ (rev a)) eq_refl) in E.
Qed.

Lemma find_text_spec p t : is_Some (find_text p t) <-> exists a b, t = a ++ p ++ b.
Proof.
  split.
  - induction t as [|c t IH]; simpl; (destruct (strip p _) as [r|] eqn:E; [apply strip_spec in E; intros _; by exists [], r|]);
      [by intros [? ?]|]. destruct (find_text p t) as [x|]; [|by intros [? ?]]. intros _.
    destruct IH as (a & b & ->); [done|]. by exists (c :: a), b.
  - intros (a & b & ->). induction a as [|c a IH].
    + simpl. destruct (p ++ b) eqn:E; simpl; rewrite <- ?E, (proj2 (strip_spec _ _ b) eq_refl); by eexists.
    + simpl. destruct (strip _ _); [by eexists|]. destruct IH as [x ->]. by eexists.
Qed.

Lemma includes_spec p s : includes p s = true <-> contains p s.
Proof.
  unfold includes, contains. rewrite <- find_text_spec. destruct (find_text _ _); split; try done; by intros [? ?].
Qed.

Lemma member_spec f l : member f l = true <-> f ∈ l.
Proof. apply existsb_elem. Qed.

(** ** The expressions *)

Definition number (t : text) : Prop := t <> [] /\ forallb is_digit t = true.

Definition no_digit_first (t : text) : Prop := match t with c :: _ => is_digit c = false | [] => True end.

Lemma digits_then_spec k t :
  (forall r, k r = true -> no_digit_first r) ->
  digits_then k t = true <-> exists d r, t = d ++ r /\ number d /\ k r = true.
Proof.
  intros Hk. unfold digits_then. split.
  - intros H. exists (take_while is_digit t), (drop_while is_digit t). rewrite take_drop_while.
    destruct (take_while is_digit t) as [|c d] eqn:E; [done|]. split_and!; [done| |done]. split; [done|]. rewrite <- E. clear.
    induction t as [|c t IH]; simpl; [done|]. destruct (is_digit c) eqn:Ec; simpl; [by rewrite Ec|done].
  - intros (d & r & -> & [Hn Hd] & Hr). apply Hk in Hr as Hf.
    assert (E : take_while is_digit (d ++ r) = d /\ drop_while is_digit (d ++ r) = r).
    { clear Hn. induction d as [|c d IH]; simpl.
      - destruct r as [|c r]; [done|]. simpl in *. by rewrite Hf.
      - simpl in Hd. apply andb_true_iff in Hd as [-> Hd]. destruct (IH Hd) as [-> ->]. done. }
    destruct E as [-> ->]. by destruct d.
Qed.

Lemma dot_then_first k r : dot_then k r = true -> no_digit_first r.
Proof. destruct r as [|c r]; [done|]. simpl. intros [->%Ascii.eqb_eq _]%andb_true_iff. done. Qed.

Lemma version_tail_first r : version_tail r = true -> no_digit_first r.
Proof. destruct r as [|c r]; [done|]. simpl. intros [[->%Ascii.eqb_eq _]%andb_true_iff _]%andb_true_iff. done. Qed.

Lemma dot_then_spec k t : dot_then k t = true <-> exists r, t = "."%char :: r /\ k r = true.
Proof.
  destruct t as [|c t]; simpl; [split; [done|by intros (? & ? & _)]|]. rewrite andb_true_iff, Ascii.eqb_eq.
  split; [intros [-> H]; eauto|by intros (r & [= -> ->] & H)].
Qed.

(** A version of three numbers, with a range sign and a tag at most. *)
Definition version (t : text) : Prop :=
  exists sign major minor patch tag,
    t = sign ++ major ++ ["."%char] ++ minor ++ ["."%char] ++ patch ++ tag /\
    (sign = [] \/ sign = ["^"%char] \/ sign = ["~"%char]) /\ number major /\ number minor /\ number patch /\
    (tag = [] \/ exists r, tag = "-"%char :: r /\ r <> [] /\ forallb version_char r = true).

Lemma version_tail_spec t :
  version_tail t = true <-> t = [] \/ exists r, t = "-"%char :: r /\ r <> [] /\ forallb version_char r = true.
Proof.
  destruct t as [|c t]; simpl; [tauto|]. rewrite !andb_true_iff, negb_true_iff, bool_decide_eq_false, Ascii.eqb_eq.
  split; [intros [[-> ?] ?]; right; eauto|]. by intros [|(r & [= -> ->] & ? & ?)].
Qed.

Lemma numbers_spec t :
  digits_then (dot_then (digits_then (dot_then (digits_then version_tail)))) t = true <->
  exists major minor patch tag, t = major ++ ["."%char] ++ minor ++ ["."%char] ++ patch ++ tag /\
    number major /\ number minor /\ number patch /\ version_tail tag = true.
Proof.
  rewrite digits_then_spec by apply dot_then_first. split.
  - intros (a & r & -> & Ha & (r1 & -> & H)%dot_then_spec).
    apply digits_then_spec in H as (b & r2 & -> & Hb & (r3 & -> & H)%dot_then_spec); [|apply dot_then_first].
    apply digits_then_spec in H as (c & r4 & -> & Hc & H); [|apply version_tail_first]. by exists a, b, c, r4.
  - intros (a & b & c & r & -> & Ha & Hb & Hc & Hr). eexists a, _. split_and!; [done..|].
    apply dot_then_spec. eexists. split; [done|]. apply digits_then_spec; [apply dot_then_first|].
    eexists b, _. split_and!; [done..|]. apply dot_then_spec. eexists. split; [done|].
    apply digits_then_spec; [apply version_tail_first|]. by eexists c, r.
Qed.

Lemma version_text_spec t : version_text t = true <-> version t.
Proof.
  unfold version_text, version. rewrite numbers_spec. setoid_rewrite version_tail_spec. split.
  - intros (a & b & c & r & H & Ha & Hb & Hc & Hr).
    destruct t as [|x t]; [exists [], a, b, c, r; split_and!; auto|].
    destruct (Ascii.eqb_spec x "^") as [->|]; [exists ["^"%char], a, b, c, r; split_and!; auto; simpl in H; by rewrite H|].
    destruct (Ascii.eqb_spec x "~") as [->|]; [exists ["~"%char], a, b, c, r; split_and!; auto; simpl in H; by rewrite H|].
    exists [], a, b, c, r. split_and!; auto.
  - intros (s & a & b & c & r & -> & [->|Hs] & Ha & Hb & Hc & Hr); [|destruct Hs as [-> | ->]; by exists a, b, c, r].
    exists a, b, c, r. split_and!; try done. destruct Ha as [Hn Hd]. destruct a as [|x a]; [done|]. simpl in Hd |- *.
    destruct (Ascii.eqb_spec x "^") as [->|]; [done|]. by destruct (Ascii.eqb_spec x "~") as [->|].
Qed.

Lemma tsconfig_json_spec t :
  tsconfig_json t = true <->
  exists a w, t = a ++ list_ascii_of_string "tsconfig" ++ w ++ list_ascii_of_string ".json" /\ line_text w.
Proof.
  assert (Hhere : forall t, match strip (list_ascii_of_string "tsconfig") t with
      | Some r => forallb (fun c => negb (terminator c)) r && ends_with ".json" (string_of_list_ascii r) | None => false end = true <->
    exists w, t = list_ascii_of_string "tsconfig" ++ w ++ list_ascii_of_string ".json" /\ line_text w).
  { intros s. destruct (strip _ _) as [r|] eqn:E.
    - apply strip_spec in E. subst s. rewrite andb_true_iff, ends_with_spec. unfold ends.
      rewrite list_ascii_of_string_of_list_ascii. split.
      + intros [Hr [a ->]]. exists a. split; [done|]. rewrite forallb_app in Hr. apply andb_true_iff in Hr as [Hr _].
        apply Forall_forall. intros c Hc. rewrite forallb_forall in Hr. by apply negb_true_iff, Hr, list_elem_of_In.
      + intros (w & H & Hw). apply app_inv_head in H. subst r. split; [|by exists w]. rewrite forallb_app.
        apply andb_true_iff. split; [|done]. apply forallb_forall. intros c Hc. apply negb_true_iff.
        by apply (proj1 (Forall_forall _ _) Hw), list_elem_of_In.
    - split; [done|]. intros (w & H & _). apply strip_spec in H. congruence. }
  induction t as [|c t IH].
  - split; [done|]. intros ([|] & w & H & _); discriminate H.
  - cbn [tsconfig_json]. rewrite orb_true_iff, Hhere, IH. split.
    + intros [(w & -> & Hw)|(a & w & -> & Hw)]; [by exists [], w|by exists (c :: a), w].
    + intros ([|x a] & w & H & Hw); [left; by exists w|]. injection H as -> ->. right. by exists a, w.
Qed.

(** ** What each check demands *)

Lemma check_that_nil b p m : check_that b p m = [] <-> b = true.
Proof. destruct b; simpl; split; done. Qed.

Lemma checks_nil {X} (g : X -> list Failure) (l : list X) : l ≫= g = [] <-> forall x, x ∈ l -> g x = [].
Proof.
  induction l as [|y l IH]; simpl.
  - split; [|done]. intros _ x H. by apply elem_of_nil in H.
  - rewrite app_nil, IH. setoid_rewrite elem_of_cons. split; [intros [H1 H2] x [->|?]; auto|auto].
Qed.

(** The texts of a value. *)
Inductive leaf : json -> string -> Prop :=
| leaf_str s : leaf (JStr s) s
| leaf_arr l v s : v ∈ l -> leaf v s -> leaf (JArr l) s
| leaf_obj o k v s : (k, v) ∈ o -> leaf v s -> leaf (JObj o) s.

Lemma leaves_spec v s : s ∈ leaves v <-> leaf v s.
Proof.
  split.
  - induction v as [|b|n|lit|t|l IH|o IH] using json_nested_ind; simpl; intros H; try by apply elem_of_nil in H.
    + apply list_elem_of_singleton in H as ->. constructor.
    + apply list_elem_of_bind in H as (v & Hs & Hv). rewrite Forall_forall in IH. econstructor; eauto.
    + apply list_elem_of_bind in H as ([k v] & Hs & Hv). rewrite Forall_forall in IH. econstructor; [done|]. by apply (IH _ Hv).
  - induction 1; simpl; [by apply list_elem_of_singleton|apply list_elem_of_bind..]; [by exists v|by exists (k, v)].
Qed.

Lemma add_once_spec f g l : g ∈ add_once f l <-> g = f \/ g ∈ l.
Proof.
  unfold add_once. destruct (member f l) eqn:E.
  - apply member_spec in E. split; [by right|by intros [->|?]].
  - rewrite elem_of_app, list_elem_of_singleton. tauto.
Qed.

(** A path that the exports map references. *)
Definition exported (v : json) (f : string) : Prop :=
  exists s, leaf v s /\ (ends ".d.ts" s \/ ends ".js" s) /\ f = packaged s.

Definition add_entry (acc : list string * list string) (s : string) : list string * list string :=
  if ends_with ".d.ts" s then (acc.1, add_once (packaged s) acc.2)
  else if ends_with ".js" s then (add_once (packaged s) acc.1, acc.2) else acc.

Lemma add_entry_spec acc s f :
  f ∈ (add_entry acc s).1 ++ (add_entry acc s).2 <->
  f ∈ acc.1 ++ acc.2 \/ ((ends ".d.ts" s \/ ends ".js" s) /\ f = packaged s).
Proof.
  rewrite <- !ends_with_spec. unfold add_entry.
  destruct (ends_with ".d.ts" s), (ends_with ".js" s); simpl; rewrite !elem_of_app, ?add_once_spec; intuition congruence.
Qed.

Lemma entry_points_spec v f :
  f ∈ (entryPointsFromExports v).1 ++ (entryPointsFromExports v).2 <-> exported v f.
Proof.
  change (entryPointsFromExports v) with (fold_left add_entry (leaves v) ([], [])).
  unfold exported. setoid_rewrite <- leaves_spec. generalize (leaves v). intros l.
  assert (H : forall acc, f ∈ (fold_left add_entry l acc).1 ++ (fold_left add_entry l acc).2 <->
    f ∈ acc.1 ++ acc.2 \/ exists s, s ∈ l /\ (ends ".d.ts" s \/ ends ".js" s) /\ f = packaged s).
  { induction l as [|s l IH]; intros acc; cbn [fold_left].
    - split; [by left|]. intros [?|(s & H & _)]; [done|by apply elem_of_nil in H].
    - rewrite IH, add_entry_spec. setoid_rewrite elem_of_cons. split.
      + intros [[H|H]|(s' & H1 & H2)]; [by left|right; by exists s; split; [left|]|right; by exists s'; split; [right|]].
      + intros [H|(s' & [->|H1] & H2)]; [by left; left|by left; right|right; by exists s']. }
  rewrite H. simpl. split; [intros [Hn|?]; [by apply elem_of_nil in Hn|done]|by right].
Qed.

(** What must not be in a tarball: sources, tests, compiler settings, the cache
    of the builds, CommonJS. *)
Definition forbidden (f : string) : Prop :=
  starts "package/src/" f \/ (ends ".test.js" f \/ ends ".test.d.ts" f) \/
  (starts "__tests__/" f \/ contains "/__tests__/" f) \/
  (exists a w, list_ascii_of_string f = a ++ list_ascii_of_string "tsconfig" ++ w ++ list_ascii_of_string ".json" /\
     line_text w) \/
  contains "/.turbo/" f \/ ends ".cjs" f.

Lemma forbidden_spec f : forbidden_file f = true <-> forbidden f.
Proof.
  unfold forbidden_file, forbidden.
  rewrite !orb_true_iff, !starts_with_spec, !ends_with_spec, !includes_spec, tsconfig_json_spec. tauto.
Qed.

Lemma forbidden_files_nil pkg l :
  forbidden_files pkg l = [] <-> forall f, f ∈ l -> exempt pkg f = false -> ~ forbidden f.
Proof.
  unfold forbidden_files. setoid_rewrite <- forbidden_spec. split.
  - intros H f Hf He Hb. apply (in_nil (a := f)). rewrite <- H. apply filter_In. split; [|done].
    apply filter_In. rewrite He. split; [by apply list_elem_of_In|done].
  - intros H. destruct (List.filter forbidden_file _) as [|f r] eqn:E; [done|]. exfalso.
    assert (Hf : In f (f :: r)) by (by left). rewrite <- E in Hf. apply filter_In in Hf as [[Hf He]%filter_In Hb].
    by apply (H f); [apply list_elem_of_In|apply negb_true_iff|].
Qed.

Lemma is_string_spec v s : is_string v s = true <-> v = Some (JStr s).
Proof.
  destruct v as [[]|]; simpl; try (split; [done|congruence]). rewrite String.eqb_eq. split; [by intros ->|by intros [= ->]].
Qed.

(** The dependency on the shared package names a version. *)
Definition resolved (packed : json) : Prop :=
  forall v, member_of "@swiftagent/shared" (field "dependencies" packed) = Some v ->
    exists s, v = JStr s /\ version (list_ascii_of_string s).

Lemma dependency_nil pkg packed : dependency_checks pkg packed = Ok [] <-> resolved packed.
Proof.
  unfold dependency_checks, resolved. destruct (member_of _ _) as [v|]; [|split; [by intros _ v|done]].
  assert (Hs : forall s, v = JStr s -> (forall v', Some v = Some v' -> exists s, v' = JStr s /\ version (list_ascii_of_string s)) <->
    version_text (list_ascii_of_string s) = true).
  { intros s ->. rewrite version_text_spec. split; [intros H; by destruct (H _ eq_refl) as (? & [= <-] & ?)|].
    intros H v' [= <-]. eauto. }
  destruct v as [|b|n|lit|s|l|o]; [split; [done|intros H; by destruct (H _ eq_refl) as (? & ? & _)]..| | |];
    try (split; [done|intros H; by destruct (H _ eq_refl) as (? & ? & _)]).
  rewrite (Hs s eq_refl). destruct (starts_with "workspace:" s) eqn:E.
  - split; [done|]. apply starts_with_spec in E as [b ->]. by simpl.
  - unfold concrete_version. split; [intros [= H]; by apply check_that_nil in H|]. intros H. f_equal. by apply check_that_nil.
Qed.

(** The manifest says how it is published. *)
Definition published (packed : json) : Prop :=
  has_field "private" packed = false /\
  member_of "registry" (field "publishConfig" packed) = Some (JStr REGISTRY) /\
  member_of "access" (field "publishConfig" packed) = Some (JStr ACCESS) /\
  field "license" packed = Some (JStr LICENSE_ID) /\
  (exists l, field "files" packed = Some (JArr l) /\ JStr "dist" ∈ l /\ JStr "README.md" ∈ l) /\
  forall f, f ∈ ["repository"; "license"; "description"; "author"] -> filled (field f packed) = true.

Lemma lists_string_spec v s : lists_string v s = true <-> exists l, v = Some (JArr l) /\ JStr s ∈ l.
Proof.
  destruct v as [[]|]; cbn [lists_string]; try (split; [done|by intros (? & ? & _)]). rewrite existsb_exists. split.
  - intros (x & Hx & [= ->]%is_string_spec). eexists. split; [done|]. by apply list_elem_of_In.
  - intros (? & [= <-] & H). exists (JStr s). split; [by apply list_elem_of_In|by apply is_string_spec].
Qed.

Lemma metadata_nil pkg packed : metadata_checks pkg packed = [] /\ field_checks pkg packed = [] <-> published packed.
Proof.
  unfold metadata_checks, field_checks, published. rewrite !app_nil, checks_nil, !check_that_nil, !is_string_spec, negb_true_iff.
  rewrite andb_true_iff, !lists_string_spec. setoid_rewrite check_that_nil.
  split; [intros ((? & ? & ? & ? & (l & E & ?) & l' & E' & ?) & ?)|intros (? & ? & ? & ? & (l & E & ? & ?) & ?)]; split_and!; eauto.
  rewrite E in E'. injection E' as <-. eauto.
Qed.

Lemma exports_nil pkg shipped packed :
  exports_checks pkg shipped packed = [] <->
  (forall f, exported (field "exports" packed ?? JNull) f -> f ∈ shipped) /\
  "package/README.md" ∈ shipped /\ "package/package.json" ∈ shipped.
Proof.
  unfold exports_checks. setoid_rewrite <- entry_points_spec.
  change (match field "exports" packed with Some v => v | None => JNull end) with (field "exports" packed ?? JNull).
  destruct (entryPointsFromExports _) as [js types]. simpl.
  rewrite !app_nil, checks_nil, !check_that_nil, !member_spec. setoid_rewrite check_that_nil. by setoid_rewrite member_spec.
Qed.

Definition same_surface (packed source : json) : Prop :=
  forall f, f ∈ ["exports"; "main"; "types"] -> stringify_val (field f packed) = stringify_val (field f source).

Lemma surface_nil pkg packed source : surface_checks pkg packed source = [] <-> same_surface packed source.
Proof.
  unfold surface_checks, same_surface. rewrite checks_nil. setoid_rewrite check_that_nil. by setoid_rewrite bool_decide_eq_true.
Qed.

(** ** The gate *)

Section gate.
Context (root_file : string -> res error string) (tmp : string) (packed_names : Package -> res error (list string)).
Context (tarball_at : string -> Tarball).

Definition legal_ships (t : Tarball) (shipped : list string) (legal : string) : Prop :=
  "package/" +:+ legal ∈ shipped /\
  exists text, tar_read t ("package/" +:+ legal) = Ok text /\ root_file legal = Ok text.

(** The command of the generator: its target with its first line, and the
    templates. *)
Definition runs (t : Tarball) (shipped : list string) (packed : json) : Prop :=
  member_of "create-swift-agent" (field "bin" packed) = Some (JStr "./dist/cli.js") /\
  "package/dist/cli.js" ∈ shipped /\
  (exists content, tar_read t "package/dist/cli.js" = Ok content /\ starts "#!/usr/bin/env node" content) /\
  forall f, f ∈ REQUIRED_TEMPLATE_FILES -> f ∈ shipped.

Record releasable_as (pkg : Package) (t : Tarball) (shipped : list string) (packed source : json) : Prop := {
  entries_ship : forall f, exported (field "exports" packed ?? JNull) f -> f ∈ shipped;
  documented : "package/README.md" ∈ shipped /\ "package/package.json" ∈ shipped;
  nothing_forbidden : forall f, f ∈ shipped -> exempt pkg f = false -> ~ forbidden f;
  dependency_resolved : resolved packed;
  manifest_published : published packed;
  legal_texts_ship : legal_ships t shipped "LICENSE" /\ legal_ships t shipped "NOTICE";
  surface_kept : same_surface packed source;
  command_runs : pk_cli pkg = true -> runs t shipped packed }.

Definition releasable (pkg : Package) (t : Tarball) : Prop :=
  exists out text packed onDisk source,
    tar_list t = Ok out /\ tar_read t "package/package.json" = Ok text /\ parse text = Some packed /\
    root_file (pk_dir pkg +:+ "/package.json") = Ok onDisk /\ parse onDisk = Some source /\
    match packed with JObj _ | JArr _ => True | _ => False end /\ source <> JNull /\
    releasable_as pkg t (listing out) packed source.

Lemma legal_nil pkg t shipped legal :
  legal_check root_file pkg t shipped legal = Ok [] <-> legal_ships t shipped legal.
Proof.
  unfold legal_check, legal_ships. rewrite <- member_spec. destruct (member _ _); cbn [negb]; [|by split; [|intros []]].
  destruct (tar_read t _) as [packed|]; cbn [res_bind]; [|by split; [|intros [_ (? & ? & _)]]].
  destruct (root_file legal) as [root|]; cbn [res_bind]; [|by split; [|intros [_ (? & _ & ?)]]].
  split.
  - intros [= ->%check_that_nil%String.eqb_eq]. eauto.
  - intros [_ (? & [= <-] & [= <-])]. f_equal. apply check_that_nil. by apply String.eqb_eq.
Qed.

Lemma cli_nil pkg t shipped packed :
  cli_checks pkg t shipped packed = Ok [] <-> (pk_cli pkg = true -> runs t shipped packed).
Proof.
  unfold cli_checks, runs. destruct (pk_cli pkg); [|done]. rewrite <- is_string_spec, <- member_spec. unfold bin_checks.
  assert (Ht : template_checks pkg shipped = [] <-> forall f, f ∈ REQUIRED_TEMPLATE_FILES -> f ∈ shipped).
  { unfold template_checks. rewrite checks_nil. setoid_rewrite check_that_nil. by setoid_rewrite member_spec. }
  rewrite <- Ht. setoid_rewrite <- starts_with_spec.
  destruct (is_string _ _); cbn [negb res_bind app]; [|by split; [|intros [? _]; auto]].
  destruct (member _ _); cbn [negb res_bind app]; [|by split; [|intros H; destruct (H eq_refl) as (_ & ? & _)]].
  destruct (tar_read t _) as [c|]; cbn [res_bind]; [|by split; [|intros H; destruct (H eq_refl) as (_ & _ & (? & ? & _) & _)]].
  split.
  - intros [= [H1%check_that_nil H2]%app_nil] _. eauto 7.
  - intros H. destruct (H eq_refl) as (_ & _ & (? & [= <-] & H1) & H2). f_equal. apply app_nil. by rewrite check_that_nil.
Qed.

(** The checks of a tarball all pass exactly when the package is releasable. *)
Lemma verify_nil pkg t : verifyTarball root_file pkg t = Ok [] <-> releasable pkg t.
Proof.
  unfold verifyTarball, releasable, parse_manifest. split.
  - intros (out & Eo & (text & Et & (packed & Ep & (disk & Ed & (source & Es & H)%res_bind_ok)%res_bind_ok)%res_bind_ok)%res_bind_ok)%res_bind_ok.
    apply res_bind_ok in H as (u1 & Er & (deps & Edep & (lic & El & (no & En & (u2 & Esn & (cli & Ec & [= H])%res_bind_ok)%res_bind_ok)%res_bind_ok)%res_bind_ok)%res_bind_ok).
    repeat match goal with E : _ ++ _ = [] |- _ => apply app_nil in E as [? ?] end. subst.
    destruct (parse text) as [p|] eqn:Ept; [injection Ep as ->|done]. destruct (parse disk) as [q|] eqn:Eq; [injection Es as ->|done].
    exists out, text, packed, disk, source. split_and!; try done.
    + by destruct packed.
    + by destruct source.
    + constructor.
      * by eapply exports_nil.
      * by eapply exports_nil.
      * apply (forbidden_files_nil pkg), (bool_decide_eq_true_1 _). by eapply check_that_nil.
      * by eapply dependency_nil.
      * by apply (metadata_nil pkg).
      * split; by eapply legal_nil.
      * by apply (surface_nil pkg).
      * by apply cli_nil.
  - intros (out & text & packed & disk & source & -> & Et & Ep & Ed & Es & Hp & Hs & [H1 H2 H3 H4 H5 [H6 H7] H8 H9]).
    cbn [res_bind]. rewrite Et. cbn [res_bind]. rewrite Ep. cbn [res_bind]. rewrite Ed. cbn [res_bind]. rewrite Es. cbn [res_bind].
    replace (readable packed) with (@Ok error unit tt) by (by destruct packed). cbn [res_bind].
    rewrite (proj2 (dependency_nil pkg packed) H4). cbn [res_bind].
    rewrite (proj2 (legal_nil pkg t _ _) H6). cbn [res_bind]. rewrite (proj2 (legal_nil pkg t _ _) H7). cbn [res_bind].
    replace (not_null source) with (@Ok error unit tt) by (by destruct source). cbn [res_bind].
    rewrite (proj2 (cli_nil pkg t _ _) H9). cbn [res_bind]. f_equal. rewrite !app_nil.
    apply (metadata_nil pkg) in H5 as [H5 H5']. split_and!; try done.
    + apply exports_nil. tauto.
    + by apply check_that_nil, bool_decide_eq_true, forbidden_files_nil.
    + by apply surface_nil.
Qed.

(** The dry run passes exactly when pnpm packs every package and the tarball
    that is found for each is releasable. *)
Theorem pack_gate_is_exact :
  VerifyPack.main root_file tmp packed_names tarball_at = 0%Z <->
  forall pkg, pkg ∈ PACKAGES ->
    exists names path, packed_names pkg = Ok names /\ find_tarball tmp pkg names = Some path /\
      releasable pkg (tarball_at path).
Proof.
  unfold VerifyPack.main. generalize PACKAGES. intros l.
  transitivity (verifyAll root_file tmp packed_names tarball_at l = Ok []).
  { destruct (verifyAll _ _ _ _ l) as [[|]|]; split; try done. }
  assert (Hone : forall pkg, verifyPackage root_file tmp packed_names tarball_at pkg = Ok [] <->
    exists names path, packed_names pkg = Ok names /\ find_tarball tmp pkg names = Some path /\ releasable pkg (tarball_at path)).
  { intros pkg. unfold verifyPackage. destruct (packed_names pkg) as [names|]; cbn [res_bind]; [|by split; [|intros (? & ? & ? & _)]].
    destruct (find_tarball tmp pkg names) as [path|] eqn:E; [|split; [done|intros (? & ? & [= <-] & ? & _); congruence]].
    rewrite verify_nil. split; [intros H; by exists names, path|].
    intros (? & ? & [= <-] & E' & H). rewrite E in E'. by injection E' as ->. }
  setoid_rewrite <- Hone. induction l as [|p l IH]; cbn [verifyAll].
  - split; [|done]. intros _ p H. by apply elem_of_nil in H.
  - setoid_rewrite elem_of_cons. split.
    + intros (f & E & (fs & Es & [= [-> ->]%app_nil])%res_bind_ok)%res_bind_ok pkg [->|H]; [done|]. by apply IH.
    + intros H. rewrite (H p) by (by left). cbn [res_bind]. by rewrite (proj2 IH) by (intros q Hq; apply H; by right).
Qed.
End gate.

(** The tarball is looked up by its path and not by its name: where the
    temporary directory has "shared" in its path, the tarball of the first
    package stands for the shared one. *)
Theorem temporary_directory_confuses names :
  find_tarball "/home/shared/tmp/sa-pack-x" {| pk_name := "@swiftagent/shared"; pk_dir := "packages/shared"; pk_cli := false |}
    ("swiftagent-react-0.1.0.tgz" :: names) = Some "/home/shared/tmp/sa-pack-x/swiftagent-react-0.1.0.tgz".
Proof. by vm_compute. Qed.

(** A tarball that passes. *)
Definition sample_manifest : json :=
  JObj [("name", JStr "sample"); ("exports", JObj [(".", JObj [("types", JStr "./dist/index.d.ts"); ("import", JStr "./dist/index.js")])]);
        ("publishConfig", JObj [("registry", JStr REGISTRY); ("access", JStr ACCESS)]); ("license", JStr LICENSE_ID);
        ("files", JArr [JStr "dist"; JStr "README.md"]); ("description", JStr "d"); ("author", JStr "a");
        ("repository", JObj [("url", JStr "u")]); ("dependencies", JObj [("@swiftagent/shared", JStr "^0.1.0-pre.1")]);
        ("bin", JObj [("create-swift-agent", JStr "./dist/cli.js")])].

Definition sample_tarball : Tarball :=
  {| tar_list := Ok (join (String NEWLINE "") (["package/package.json"; "package/README.md"; "package/LICENSE"; "package/NOTICE";
       "package/./dist/index.js"; "package/dist/index.d.ts"; "package/dist/cli.js"] ++ REQUIRED_TEMPLATE_FILES));
     tar_read := fun f => Ok (if String.eqb f "package/package.json" then stringify sample_manifest
                              else if String.eqb f "package/dist/cli.js" then "#!/usr/bin/env node" else "text") |}.

Definition sample_root (f : string) : res error string :=
  Ok (if String.eqb f "LICENSE" || String.eqb f "NOTICE" then "text" else stringify sample_manifest).

Definition sample_gate (t : Tarball) (names : list string) : Z :=
  VerifyPack.main sample_root "/tmp" (fun _ => Ok names) (fun _ => t).

Definition all_names : list string :=
  ["create-swift-agent-0.1.0.tgz"; "swiftagent-react-0.1.0.tgz"; "swiftagent-sdk-0.1.0.tgz"; "swiftagent-shared-0.1.0.tgz"].

(** The generator's tarball passes; its templates would be leaks in a library. *)
Example gate_outcomes :
  sample_gate sample_tarball all_names = 1%Z /\
  verifyTarball sample_root {| pk_name := "create-swift-agent"; pk_dir := "d"; pk_cli := true |} sample_tarball = Ok [].
Proof. by vm_compute. Qed.
