(* ===== verification/LocalRegistry.v ===== *)
(** The local npm registry of the repository's own tests
    (scripts/local-registry.mjs): the state file, the process, its ephemeral
    storage, and the commands start, stop, publish and verify.

    The operating system is a state: the processes that are alive, the working
    directories, the state file, and the commands that were run.  What a command
    prints or whether it fails, what the registry answers to a probe, and which
    processes and directories resist are arguments.  [spawn] succeeds. *)
From S2P Require Import Prelude Json Shared Effects.
Local Open Scope eff_scope.

(** ** The operating system *)

Record State := { st_pid : nat; st_port : Z; st_work : string; st_publishNpmrc : string }.

(** The state file: a text that is not JSON reads as no state. *)
Inductive StateFile : Type := no_file | unreadable | recorded (s : State).

(** A command with its npm user configuration. *)
Record Command := { cmd_args : list string; cmd_userconfig : option string }.

Record World := {
  processes : gset nat; works : gset string; state_file : StateFile; commands : list Command }.

Definition set_processes (p : gset nat) (w : World) : World :=
  {| processes := p; works := works w; state_file := state_file w; commands := commands w |}.
Definition set_works (d : gset string) (w : World) : World :=
  {| processes := processes w; works := d; state_file := state_file w; commands := commands w |}.
Definition set_state (f : StateFile) (w : World) : World :=
  {| processes := processes w; works := works w; state_file := f; commands := commands w |}.
Definition add_command (c : Command) (w : World) : World :=
  {| processes := processes w; works := works w; state_file := state_file w; commands := commands w ++ [c] |}.

(** A turn of the readiness loop: whether the child has exited, and the ping. *)
Record Probe := { pr_exited : bool; pr_ok : bool; pr_took : Z }.

Definition READY_TIMEOUT_MS : Z := 30000.

Record LibraryPackage := { lp_name : string; lp_dir : string }.

Definition VERIFY_PACKAGES : list LibraryPackage :=
  [{| lp_name := "@swiftagent/sdk"; lp_dir := "packages/sdk" |};
   {| lp_name := "@swiftagent/react"; lp_dir := "packages/react" |};
   {| lp_name := "@swiftagent/shared"; lp_dir := "packages/shared" |}].

Definition registry_url (port : Z) : string := "http://127.0.0.1:" +:+ string_of_Z port.

Definition failure (message : string) : error := PlainError "Error" message.

Definition lift_res {S A} (r : res error A) : M S error A := match r with Ok a => ret a | Err e => throw e end.

Section registry.
Context (PORT : Z).
(** The pid and the directory that the system gives. *)
Context (new_pid : gset nat -> nat) (new_work : gset string -> string).
(** Whether a process ends within ten seconds of its signal, and what the
    removal of a directory throws. *)
Context (dies : nat -> bool) (rm_fails : string -> option error).
Context (CONFIG_SRC : res error string) (probe : nat -> Probe).
(** What a command prints, or how it fails; the files that are there. *)
Context (run : Command -> res error string) (read_file : string -> option string).

Abbreviation R := (M World error).

Definition REGISTRY_URL : string := registry_url PORT.

Definition state_of (w : World) : option State := match state_file w with recorded s => Some s | _ => None end.

Definition readState : R (option State) := gets state_of.

Definition pidAlive (pid : nat) (w : World) : bool := bool_decide (pid ∈ processes w).

(** [execFileSync] and [spawnSync]. *)
Definition exec (c : Command) : R string := modify (add_command c) ;;; lift_res (run c).

(** The child no longer runs. *)
Definition ended (pid : nat) (w : World) : World := set_processes (processes w ∖ {[pid]}) w.

Definition remove_work (path : string) : R unit :=
  match rm_fails path with Some e => throw e | None => modify (fun w => set_works (works w ∖ {[path]}) w) end.

Definition stopRegistry : R unit :=
  state <~ readState ;;
  match state with
  | None => ret tt
  | Some s =>
      alive <~ gets (pidAlive (st_pid s)) ;;
      whenM (alive && dies (st_pid s)) (modify (ended (st_pid s))) ;;;
      there <~ gets (fun w => bool_decide (st_work s ∈ works w)) ;;
      whenM there (remove_work (st_work s)) ;;;
      modify (set_state no_file)
  end.

(** The readiness loop, from a time and the number of the turn: what it found. *)
Inductive Readiness : Type := is_ready | has_exited | timed_out_waiting | out_of_turns.

Fixpoint poll (turns : nat) (i : nat) (now deadline : Z) : Readiness :=
  match turns with
  | O => out_of_turns
  | S turns =>
      if (deadline <=? now)%Z then timed_out_waiting
      else if pr_exited (probe i) then has_exited
      else if pr_ok (probe i) then is_ready
      else poll turns (S i) (now + pr_took (probe i) + 400) deadline
  end.

(** A turn takes 400 ms at least. *)
Definition TURNS : nat := 76.

Definition already_running (s : State) : error :=
  failure ("a local registry appears to be running already (pid=" +:+ string_of_Z (Z.of_nat (st_pid s)) +:+ ", port=" +:+
    string_of_Z (st_port s) +:+ "). Run `node scripts/local-registry.mjs stop` first.").

Definition startRegistry : R nat :=
  prior <~ readState ;;
  match prior with
  | Some s => alive <~ gets (pidAlive (st_pid s)) ;; if alive then throw (already_running s) else stopRegistry
  | None => ret tt
  end ;;;
  work <~ gets (fun w => new_work (works w)) ;;
  modify (fun w => set_works ({[work]} ∪ works w) w) ;;;
  _ <~ lift_res CONFIG_SRC ;;
  pid <~ gets (fun w => new_pid (processes w)) ;;
  modify (fun w => set_processes ({[pid]} ∪ processes w) w) ;;;
  modify (set_state (recorded {| st_pid := pid; st_port := PORT; st_work := work;
                                 st_publishNpmrc := work +:+ "/publish.npmrc" |})) ;;;
  match poll TURNS 0 0 READY_TIMEOUT_MS with
  | is_ready => ret pid
  | found =>
      whenM (match found with has_exited => true | _ => false end) (modify (ended pid)) ;;;
      stopRegistry ;;;
      throw (failure "verdaccio did not answer /-/ping within 30000ms.")
  end.

(** ** Publishing *)

Definition not_running : error :=
  failure "no local registry running — run `node scripts/local-registry.mjs start` first.".

(** [name] and [version] of a manifest that parses; [null] throws. *)
Definition manifest_name (text : string) : res error (jsval * jsval) :=
  match parse text with
  | Some JNull => Err (PlainError "TypeError" "Cannot read properties of null (reading 'name')")
  | Some v => Ok (field "name" v, field "version" v)
  | None => Err (PlainError "SyntaxError" text)
  end.

Definition publish_command (s : State) : Command :=
  {| cmd_args := ["pnpm"; "publish"; "--registry"; registry_url (st_port s); "--no-git-checks"];
     cmd_userconfig := Some (st_publishNpmrc s) |}.

Definition publish_dir (s : State) (dir : string) : R unit :=
  match read_file (dir +:+ "/package.json") with
  | None => throw (failure ("not a package dir (no package.json): " +:+ dir))
  | Some text => _ <~ lift_res (manifest_name text) ;; exec (publish_command s) ;;; ret tt
  end.

Definition publishDirs (dirs : list string) : R unit :=
  state <~ readState ;;
  match state with
  | None => throw not_running
  | Some s => alive <~ gets (pidAlive (st_pid s)) ;;
              if alive then for_each dirs (publish_dir s) else throw not_running
  end.

Definition view_command (name : string) (s : State) : Command :=
  {| cmd_args := ["npm"; "view"; name; "version"; "--registry"; registry_url (st_port s)];
     cmd_userconfig := Some (st_publishNpmrc s) |}.

(** [out !== expectedVersion]. *)
Definition assertVersionLanded (name : string) (expected : jsval) (s : State) : R unit :=
  out <~ exec (view_command name s) ;;
  if match expected with Some (JStr v) => String.eqb (trim out) v | _ => false end then ret tt
  else throw (failure ("npm view " +:+ name +:+ " against " +:+ registry_url (st_port s) +:+ " returned " +:+
                quoted (trim out) +:+ ", expected " +:+ quoted ((to_text <$> expected) ?? "undefined"))).

(** ** Provenance *)

Definition lock_path (consumerDir : string) : option string :=
  List.find (fun p => match read_file p with Some _ => true | None => false end)
    [consumerDir +:+ "/package-lock.json"; consumerDir +:+ "/node_modules/.package-lock.json"].

Definition served (prefix : string) (entry : json) : bool :=
  match field "resolved" entry with Some (JStr url) => starts_with prefix url | _ => false end.

Fixpoint check_entries (prefix : string) (entries : json) (names : list string) : res error unit :=
  match names with
  | [] => Ok tt
  | name :: names =>
      match field ("node_modules/" +:+ name) entries with
      | Some entry =>
          if negb (truthy entry) then Err (failure ("lockfile has no entry for " +:+ name))
          else if served prefix entry then check_entries prefix entries names
          else Err (failure ("PROVENANCE FAILURE: " +:+ name))
      | None => Err (failure ("lockfile has no entry for " +:+ name))
      end
  end.

(** [lock.packages ?? {}]. *)
Definition lock_entries (lock : json) : json :=
  match field "packages" lock with None | Some JNull => JObj [] | Some v => v end.

Definition assertProvenance (consumerDir : string) (names : list string) : res error unit :=
  match lock_path consumerDir with
  | None => Err (failure ("no lockfile found in consumer " +:+ consumerDir))
  | Some p =>
      match parse (read_file p ?? "") with
      | None => Err (PlainError "SyntaxError" "")
      | Some JNull => Err (PlainError "TypeError" "Cannot read properties of null (reading 'packages')")
      | Some lock => check_entries (REGISTRY_URL +:+ "/") (lock_entries lock) names
      end
  end.

(** ** Verification *)

Definition built (p : LibraryPackage) : bool :=
  match read_file (lp_dir p +:+ "/dist/index.js") with Some _ => true | None => false end.

Definition build_command : Command :=
  {| cmd_args := ["pnpm"; "--filter"; "@swiftagent/sdk..."; "--filter"; "@swiftagent/react..."; "build"];
     cmd_userconfig := None |}.

Definition ensureBuilt : R unit :=
  if forallb built VERIFY_PACKAGES then ret tt else exec build_command ;;; ret tt.

Definition version_landed (s : State) (p : LibraryPackage) : R unit :=
  match read_file (lp_dir p +:+ "/package.json") with
  | None => throw (failure "ENOENT")
  | Some text => m <~ lift_res (manifest_name text) ;; assertVersionLanded (lp_name p) m.2 s
  end.

Definition install_command : Command :=
  {| cmd_args := ["pnpm"; "test:acceptance:install"]; cmd_userconfig := None |}.

Definition consumer_proof (s : State) : R unit :=
  _ <~ exec install_command ;;
  match read_file (st_work s +:+ "/consumer-dir.txt") with
  | None => throw (failure "install harness did not report its consumer dir")
  | Some dir => lift_res (assertProvenance (trim dir) (map lp_name VERIFY_PACKAGES))
  end.

Definition verify_flow : R unit :=
  _ <~ startRegistry ;;
  state <~ readState ;;
  publishDirs (map lp_dir VERIFY_PACKAGES) ;;;
  match state with
  | None => throw (PlainError "TypeError" "Cannot read properties of null (reading 'port')")
  | Some s => for_each VERIFY_PACKAGES (version_landed s) ;;; consumer_proof s
  end.

Definition verify : R unit := ensureBuilt ;;; try_finally verify_flow stopRegistry.

(** ** The command line *)

Definition exit_of {A} (m : R A) (w : World) : Z * World :=
  match m w with (Ret _, w) => (0%Z, w) | (_, w) => (1%Z, w) end.

Definition main (args : list string) (w : World) : Z * World :=
  match args with
  | "start" :: _ => exit_of startRegistry w
  | "stop" :: _ => exit_of stopRegistry w
  | "publish" :: dirs =>
      match dirs with [] => (1%Z, w) | _ => exit_of (publishDirs dirs) w end
  | "verify" :: _ => exit_of verify w
  | _ => (2%Z, w)
  end.
End registry.

(** ** What the script guarantees

    The readiness loop ends, a verification leaves no process and no directory,
    commands go to the recorded registry, and the provenance check is exact. *)

(** ** The readiness loop *)

Lemma poll_ends probe turns : forall i now deadline,
  (forall i, 0 <= pr_took (probe i))%Z -> (deadline <= now + 400 * Z.of_nat turns)%Z -> (0 < turns)%nat ->
  (now < deadline -> deadline <= now + 400 * (Z.of_nat turns - 1))%Z ->
  poll probe turns i now deadline <> out_of_turns.
Proof.
  induction turns as [|n IH]; intros i now deadline Ht Hd Hp Hn; [lia|]. simpl.
  destruct (Z.leb_spec deadline now); [done|]. destruct (pr_exited _); [done|]. destruct (pr_ok _); [done|].
  specialize (Ht i) as Hi. specialize (Hn ltac:(lia)). apply IH; [done|lia| |]; [|lia]. destruct n; [lia|lia].
Qed.

(** The turns that the model gives to the loop are enough. *)
Theorem readiness_loop_ends probe :
  (forall i, 0 <= pr_took (probe i))%Z -> poll probe TURNS 0 0 READY_TIMEOUT_MS <> out_of_turns.
Proof. intros H. apply poll_ends; [done|by vm_compute|vm_compute; lia|by vm_compute]. Qed.

(** ** Nothing is left *)

Lemma difference_back {A} `{Countable A} (x : A) (X : gset A) : x ∉ X -> ({[x]} ∪ X) ∖ {[x]} = X.
Proof. intros Hx. apply set_eq. intros y. destruct (decide (y = x)); set_solver. Qed.

Section guarantees.
Context (PORT : Z) (new_pid : gset nat -> nat) (new_work : gset string -> string).
Context (dies : nat -> bool) (rm_fails : string -> option error).
Context (CONFIG_SRC : res error string) (probe : nat -> Probe).
Context (run : Command -> res error string) (read_file : string -> option string).

Local Abbreviation start := (startRegistry PORT new_pid new_work dies rm_fails CONFIG_SRC probe).
Local Abbreviation stop := (stopRegistry dies rm_fails).
Local Abbreviation verification := (verify PORT new_pid new_work dies rm_fails CONFIG_SRC probe run read_file).

(** No registry is recorded. *)
Definition quiet (p : gset nat) (d : gset string) (w : World) : Prop :=
  processes w = p /\ works w = d /\ state_of w = None.

(** The recorded registry, which may have ended, is all there is on top of what
    was there. *)
Definition serving (p : gset nat) (d : gset string) (w : World) : Prop :=
  exists s, state_file w = recorded s /\ st_pid s ∉ p /\ st_work s ∉ d /\
    (processes w = {[st_pid s]} ∪ p \/ processes w = p) /\ works w = {[st_work s]} ∪ d.

Lemma keeps_exec p d c : keeps (serving p d) (exec run c).
Proof.
  intros w (s & H). unfold exec, bind, modify, lift_res, ret, throw. destruct (run c); by exists s.
Qed.

Lemma keeps_lift {A} (I : World -> Prop) (r : res error A) : keeps I (lift_res r).
Proof. destruct r; apply keeps_ret || apply keeps_throw. Qed.

Ltac serve := repeat first [keep_step | apply keeps_exec | apply keeps_lift | progress cbn beta].

Lemma keeps_publish p d dirs : keeps (serving p d) (publishDirs run read_file dirs).
Proof. unfold publishDirs, readState, publish_dir. serve. Qed.

Lemma keeps_landed p d s lp : keeps (serving p d) (version_landed run read_file s lp).
Proof. unfold version_landed, assertVersionLanded. serve. Qed.

Lemma keeps_consumer p d s : keeps (serving p d) (consumer_proof PORT run read_file s).
Proof. unfold consumer_proof. serve. Qed.

Context (Hpid : forall P, new_pid P ∉ P) (Hwork : forall d, new_work d ∉ d).
Context (Hdies : forall pid, dies pid = true) (Hrm : forall path, rm_fails path = None).
Context (Hconfig : is_ok CONFIG_SRC = true).

Lemma stop_quiet p d w : quiet p d w -> (stop w).1 = Ret tt /\ quiet p d (stop w).2.
Proof.
  intros H. assert (E : stop w = (Ret tt, w)).
  { unfold stopRegistry, readState, gets, bind. by rewrite (proj2 (proj2 H)). }
  by rewrite E.
Qed.

Lemma stop_serving p d w : serving p d w -> (stop w).1 = Ret tt /\ quiet p d (stop w).2.
Proof.
  intros (s & Hs & Hp & Hd & Ep & Ed). assert (Hw : st_work s ∈ works w) by (rewrite Ed; set_solver +).
  assert (He : processes (if pidAlive (st_pid s) w then ended (st_pid s) w else w) = p).
  { unfold pidAlive. destruct Ep as [Ep|Ep]; rewrite Ep.
    - rewrite bool_decide_true by set_solver +. cbn. by rewrite Ep, difference_back.
    - by rewrite bool_decide_false. }
  unfold stopRegistry, readState, gets, bind, state_of. rewrite Hs, Hdies, andb_true_r.
  destruct (pidAlive (st_pid s) w); cbn [whenM]; unfold modify, ret; cbn [works ended set_processes] in *;
    rewrite bool_decide_true by done; cbn [whenM]; unfold remove_work; rewrite Hrm; (split; [done|]);
    (split_and!; [done|cbn; by rewrite Ed, difference_back|done]).
Qed.

(** What [start] leaves: its registry, or what it found. *)
Lemma start_outcome p d w :
  quiet p d w -> match (start w).1 with Ret _ => serving p d (start w).2 | Throw _ => quiet p d (start w).2 | Torn => False end.
Proof.
  destruct w as [p' d' f cs]. intros (Ep & Ed & Es). cbn in Ep, Ed. subst p' d'.
  unfold startRegistry, readState, gets, bind. rewrite Es. destruct CONFIG_SRC as [c|]; [|done].
  cbn -[poll stopRegistry union singleton TURNS READY_TIMEOUT_MS].
  set (w1 := set_state (recorded _) _).
  assert (Hw : serving p d w1) by (eexists; split_and!; [done|apply Hpid|apply Hwork|by left|done]).
  assert (Hw' : serving p d (ended (new_pid p) w1)).
  { eexists. split_and!; [done|apply Hpid|apply Hwork| |done]. right. cbn. by rewrite difference_back. }
  destruct (poll _ _ _ _ _); [done| | |];
    [destruct (stop_serving p d _ Hw') as [E H]|destruct (stop_serving p d w1 Hw) as [E H]..];
    destruct (stopRegistry _ _ _) as [o w2]; simpl in *; by subst o.
Qed.

(** A verification leaves nothing, whatever command, probe or check fails: the
    processes and the directories are those that it found, and no registry is
    recorded. *)
Theorem verification_leaves_nothing p d w : quiet p d w -> quiet p d (verification w).2.
Proof.
  intros H. unfold verify. set (m := try_finally _ _).
  assert (Hm : post (quiet p d) m (fun _ => quiet p d)).
  { subst m. apply (post_try_finally _ _ _ (fun o w => serving p d w \/ quiet p d w)).
    - unfold verify_flow. apply (post_bind _ _ _ (fun o w => match o with Ret _ => serving p d w | _ => quiet p d w end)).
      + intros v Hv. apply start_outcome in Hv. destruct (start v) as [[] v']; simpl in *; done.
      + intros a. eapply post_weaken; [|intros o v Hv; left; exact Hv|].
        2: { apply keeps_bind; [apply keeps_gets|intros st]. apply keeps_bind; [apply keeps_publish|intros _].
             destruct st as [s|]; [|apply keeps_throw]. apply keeps_bind; [|intros _; apply keeps_consumer].
             apply keeps_for_each. intros lp. apply keeps_landed. }
        done.
      + by right.
      + by right.
    - intros o v Hv. assert (Hq : (stop v).1 = Ret tt /\ quiet p d (stop v).2)
        by (destruct Hv; [by apply stop_serving|by apply stop_quiet]).
      destruct (stop v) as [o' v'], Hq as [E Hq]. simpl in *. by rewrite E. }
  unfold bind. assert (He : quiet p d (ensureBuilt run read_file w).2).
  { unfold ensureBuilt. destruct (forallb _ _); [done|]. unfold exec, bind, modify, lift_res. by destruct (run build_command). }
  destruct (ensureBuilt run read_file w) as [[]]; [|done|done]. by apply Hm.
Qed.

(** It also stops a registry that it did not start: with one running it fails,
    says so, and the registry is gone. *)
Theorem verification_stops_a_foreign_registry s w :
  state_file w = recorded s -> st_pid s ∈ processes w -> forallb (built read_file) VERIFY_PACKAGES = true ->
  (verification w).1 = Throw (already_running s) /\ st_pid s ∉ processes (verification w).2 /\
  st_work s ∉ works (verification w).2.
Proof.
  intros Hs Hp Hb. unfold verify, ensureBuilt. rewrite Hb. unfold bind, ret, try_finally, verify_flow, startRegistry, readState, gets, bind, state_of.
  rewrite Hs. unfold pidAlive. rewrite bool_decide_true by done. unfold throw.
  unfold stopRegistry, readState, gets, bind, state_of, pidAlive. rewrite Hs, bool_decide_true by done. rewrite Hdies. cbn [andb whenM modify].
  unfold ended, set_processes, modify. cbn [works]. case_bool_decide as Hw; cbn [whenM ret].
  - unfold remove_work. rewrite Hrm. cbn. split_and!; [done|set_solver|set_solver].
  - cbn. split_and!; [done|set_solver|done].
Qed.
End guarantees.

(** ** Commands and provenance *)

(** [publish] runs its command for the recorded registry, once for each
    directory until one fails, and touches nothing else. *)
Definition publishes (s : State) (n : nat) (w w' : World) : Prop :=
  processes w' = processes w /\ works w' = works w /\ state_file w' = state_file w /\
  commands w' = commands w ++ repeat (publish_command s) n.

Lemma publish_dir_once run read_file s dir w :
  exists n, publishes s n w (publish_dir run read_file s dir w).2 /\ n <= 1 /\
    ((publish_dir run read_file s dir w).1 = Ret tt -> n = 1).
Proof.
  assert (H0 : publishes s 0 w w) by (unfold publishes; by rewrite app_nil_r).
  unfold publish_dir. destruct (read_file _) as [text|]; [|by exists 0; split_and!; [|lia|]].
  unfold bind, lift_res. destruct (manifest_name text) as [m|]; [|by exists 0; split_and!; [|lia|]].
  unfold ret, exec, bind, modify, lift_res. exists 1. destruct (run _); by split_and!.
Qed.

Theorem publication_is_local run read_file dirs s w :
  state_file w = recorded s ->
  let r := publishDirs run read_file dirs w in
  exists n, publishes s n w r.2 /\ n <= length dirs /\
    (r.1 = Ret tt -> n = length dirs) /\ (st_pid s ∉ processes w -> n = 0).
Proof.
  intros Hs r. subst r. assert (H0 : publishes s 0 w w) by (unfold publishes; by rewrite app_nil_r).
  unfold publishDirs, readState, gets, bind, state_of, pidAlive. rewrite Hs.
  case_bool_decide as Hp; [|by exists 0; split_and!; [|lia| |]].
  assert (H : exists n, publishes s n w (for_each dirs (publish_dir run read_file s) w).2 /\ n <= length dirs /\
    ((for_each dirs (publish_dir run read_file s) w).1 = Ret tt -> n = length dirs)).
  { clear Hs Hp. revert w H0. induction dirs as [|d dirs IH]; intros w H0; simpl; [by exists 0|]. unfold bind.
    destruct (publish_dir_once run read_file s d w) as (n & (P1 & P2 & P3 & P4) & Hn & Hr).
    destruct (publish_dir _ _ _ _ _) as [[[]|e|] v]; simpl in *;
      [|exists n; split; [done|split; [lia|done]]..].
    destruct (IH v) as (m & (Q1 & Q2 & Q3 & Q4) & Hm & Hr'); [unfold publishes; by rewrite app_nil_r|].
    assert (n = 1) as -> by auto. exists (S m). split; [|split; [lia|intros E; rewrite (Hr' E); lia]].
    unfold publishes. rewrite Q1, Q2, Q3, Q4, P1, P2, P3, P4, <- app_assoc. by split_and!. }
  destruct H as (n & H1 & H2 & H3). by exists n.
Qed.

(** The lockfile shows that the package came from the registry. *)
Definition came_from (prefix : string) (entries : json) (name : string) : Prop :=
  exists entry url, field ("node_modules/" +:+ name) entries = Some entry /\
    field "resolved" entry = Some (JStr url) /\ starts_with prefix url = true.

Lemma check_entries_exact prefix entries names :
  check_entries prefix entries names = Ok tt <-> Forall (came_from prefix entries) names.
Proof.
  induction names as [|n names IH]; simpl; [split; [constructor|done]|]. rewrite Forall_cons, <- IH. unfold came_from at 1.
  destruct (field _ entries) as [e|]; [|split; [done|by intros [(? & ? & ? & _) _]]].
  assert (He : served prefix e = true <-> exists url, field "resolved" e = Some (JStr url) /\ starts_with prefix url = true).
  { unfold served. destruct (field "resolved" e) as [[]|]; try (split; [done|by intros (? & ? & _)]).
    split; [eauto|by intros (? & [= <-] & ?)]. }
  destruct (truthy e) eqn:Et; simpl.
  - destruct (served prefix e); [|split; [done|]; intros [(? & ? & [= <-] & H) _]; by discriminate (proj2 He (ex_intro _ _ H))].
    split; [intros H; split; [|done]; destruct (proj1 He eq_refl) as (u & ? & ?); by exists e, u|tauto].
  - split; [done|]. intros [(? & ? & [= <-] & H & _) _]. by destruct e.
Qed.

(** The provenance check passes exactly when the first lockfile that is there
    says, for every package, that this registry served it. *)
Theorem provenance_is_exact PORT read_file dir names :
  assertProvenance PORT read_file dir names = Ok tt <->
  exists path lock, lock_path read_file dir = Some path /\ parse (read_file path ?? "") = Some lock /\ lock <> JNull /\
    Forall (came_from (registry_url PORT +:+ "/") (lock_entries lock)) names.
Proof.
  unfold assertProvenance, REGISTRY_URL. setoid_rewrite <- check_entries_exact.
  destruct (lock_path read_file dir) as [p|]; [|split; [done|by intros (? & ? & ? & _)]].
  destruct (parse _) as [l|] eqn:E; [|split; [done|intros (? & ? & [= <-] & ? & _); congruence]].
  destruct l eqn:El; try (split; [intros H; by exists p, l; subst|intros (? & ? & [= <-] & H & _ & ?); rewrite E in H; by injection H as <-]).
  split; [done|]. intros (? & ? & [= <-] & H & Hn & _). rewrite E in H. by injection H as <-.
Qed.
