(* ===== verification/E2e.v ===== *)
(** The end-to-end proof of the project generator
    (scripts/create-swift-agent-e2e.mjs): its steps, its polls and its teardown.

    Every command and every change of the file system is an action; the oracle
    says which actions fail, from what was done before.  The files that a step
    reads are an argument.  The handlers of signals are not modelled. *)
From S2P Require Import Prelude Json Shared Effects LocalRegistry.
Local Open Scope eff_scope.

(** ** Actions *)

Inductive Action : Type :=
| cmd (args : list string) (cwd : string)
| make_directory (path : string)
| write_file (path : string)
| remove (path : string).

Record Run := { done_ : list Action; composeUp : bool; registryStarted : bool }.

Definition set_composeUp (b : bool) (r : Run) : Run :=
  {| done_ := done_ r; composeUp := b; registryStarted := registryStarted r |}.
Definition set_registryStarted (b : bool) (r : Run) : Run :=
  {| done_ := done_ r; composeUp := composeUp r; registryStarted := b |}.

Definition PROJECT_NAME : string := "my-agent".
Definition SERVER_IMAGE : string := "swift-agent-server:e2e".

Definition PUBLISH_DIRS : list string :=
  ["packages/shared"; "packages/sdk"; "packages/react"; "packages/create-swift-agent"].

Definition build_packages : Action :=
  cmd ["pnpm"; "--filter"; "@swiftagent/sdk..."; "--filter"; "@swiftagent/react..."; "--filter"; "create-swift-agent"; "build"] "".
Definition registry_start : Action := cmd ["node"; "scripts/local-registry.mjs"; "start"] "".
Definition registry_publish : Action := cmd (["node"; "scripts/local-registry.mjs"; "publish"] ++ PUBLISH_DIRS) "".
Definition registry_stop : Action := cmd ["node"; "scripts/local-registry.mjs"; "stop"] "".
Definition compose_up (dir : string) : Action := cmd ["docker"; "compose"; "up"; "-d"] dir.
Definition compose_down (dir : string) : Action := cmd ["docker"; "compose"; "down"; "-v"; "--remove-orphans"] dir.
Definition compose_logs (dir : string) : Action := cmd ["docker"; "compose"; "logs"; "--tail"; "150"] dir.
Definition smoke : Action := cmd ["pnpm"; "exec"; "tsx"; "test/smoke/realtime-smoke.ts"] "".

Section e2e.
Context (PORT : Z) (SKIP_STACK KEEP : bool) (work : string).
(** What an action throws, after those that were done. *)
Context (fails : list Action -> Action -> option error).
(** The files, and the entries of a directory with whether each is one, after
    the actions that were done. *)
Context (files : list Action -> string -> option string).
Context (entries : list Action -> string -> option (list (string * bool))).
(** The polls: what the n-th probe finds, and how long it takes. *)
Context (key_probe session_probe : nat -> bool * Z).

Abbreviation E := (M Run error).

Definition REGISTRY : string := registry_url PORT.
Definition consumerBase : string := work +:+ "/consumer".
Definition projectDir : string := consumerBase +:+ "/" +:+ PROJECT_NAME.
Definition npmCache : string := work +:+ "/npm-cache".

Definition act (a : Action) : E unit := fun r =>
  (match fails (done_ r) a with Some e => Throw e | None => Ret tt end,
   {| done_ := done_ r ++ [a]; composeUp := composeUp r; registryStarted := registryStarted r |}).

Definition run_in (cwd : string) (args : list string) : E unit := act (cmd args cwd).

(** [pollUntil]: its turns, from a time. *)
Fixpoint pollUntil (turns : nat) (probe : nat -> bool * Z) (intervalMs : Z) (i : nat) (now deadline : Z) : option bool :=
  match turns with
  | O => None
  | S turns =>
      let '(ok, took) := probe i in
      if ok then Some true
      else if (deadline <? now + took)%Z then Some false
      else pollUntil turns probe intervalMs (S i) (now + took + intervalMs) deadline
  end.

Definition poll_turns (timeoutMs intervalMs : Z) : nat := Z.to_nat (timeoutMs / intervalMs) + 2.

Definition wait_for (desc : string) (timeoutMs intervalMs : Z) (probe : nat -> bool * Z) : E unit :=
  match pollUntil (poll_turns timeoutMs intervalMs) probe intervalMs 0 0 timeoutMs with
  | Some true => ret tt
  | _ => throw (failure ("timed out (" +:+ string_of_Z timeoutMs +:+ "ms) waiting for " +:+ desc))
  end.

Definition assertProvenance (consumerDir : string) (names : list string) : E unit :=
  r <~ gets (fun r => files (done_ r) (consumerDir +:+ "/package-lock.json")) ;;
  lift_res match r with
  | None => Err (failure ("no package-lock.json in " +:+ consumerDir))
  | Some text =>
      match parse text with
      | None => Err (PlainError "SyntaxError" "")
      | Some JNull => Err (PlainError "TypeError" "Cannot read properties of null (reading 'packages')")
      | Some lock => check_entries (REGISTRY +:+ "/") (lock_entries lock) names
      end
  end.

(** [content.includes(...)], of the cache's index. *)
Definition contains_text (p s : string) : bool :=
  match String.index 0 p s with Some _ => true | None => false end.

Definition records_package (content : string) : bool :=
  contains_text "create-swift-agent" content && contains_text ("127.0.0.1:" +:+ string_of_Z PORT) content.

(** The walk over the cache's index: a directory's entries, before the rest of
    the stack. *)
Fixpoint visit (was : list Action) (dir : string) (rest : list string -> bool) (es : list (string * bool))
    (stack : list string) : bool :=
  match es with
  | [] => rest stack
  | (name, is_dir) :: es =>
      let p := dir +:+ "/" +:+ name in
      if is_dir then visit was dir rest es (p :: stack)
      else records_package (files was p ?? "") || visit was dir rest es stack
  end.

Fixpoint search_index (fuel : nat) (was : list Action) (stack : list string) : bool :=
  match fuel, stack with
  | S fuel, dir :: stack => visit was dir (search_index fuel was) (entries was dir ?? []) stack
  | _, _ => false
  end.

Definition assertNpxProvenance (fuel : nat) : E unit :=
  let indexDir := npmCache +:+ "/_cacache/index-v5" in
  was <~ gets done_ ;;
  match entries was indexDir with
  | None => throw (failure ("npx cache index missing: " +:+ indexDir))
  | Some _ => if search_index fuel was [indexDir] then ret tt
              else throw (failure "npx provenance: no cache-index record of create-swift-agent from the local registry")
  end.

Definition exists_file (f : string) : E unit :=
  r <~ gets (fun r => files (done_ r) (projectDir +:+ "/" +:+ f)) ;;
  match r with Some _ => ret tt | None => throw (failure ("generated project missing " +:+ f)) end.

(** ** The flow *)

Definition logs_then_rethrow (m : E unit) : E unit :=
  try_catch m (fun err => swallow (act (compose_logs projectDir)) ;;; throw err).

Definition stack_phase : E unit :=
  act (remove (projectDir +:+ "/backend/package-lock.json")) ;;;
  run_in "" ["docker"; "build"; "-f"; "apps/server/Dockerfile"; "-t"; SERVER_IMAGE; "."] ;;;
  modify (set_composeUp true) ;;;
  logs_then_rethrow (act (compose_up projectDir)) ;;;
  logs_then_rethrow
    (wait_for "bootstrap-minted dev API key" 240000 2000 key_probe ;;;
     wait_for "generated backend /api/session" 360000 3000 session_probe ;;;
     act smoke).

Definition npm_install (part : string) : E unit :=
  run_in (projectDir +:+ "/" +:+ part) ["npm"; "install"; "--no-audit"; "--no-fund"].

Definition gates (part : string) : E unit :=
  for_each ["typecheck"; "build"; "lint"] (fun script => run_in (projectDir +:+ "/" +:+ part) ["npm"; "run"; script]).

Definition flow (fuel : nat) : E unit :=
  act registry_start ;;;
  modify (set_registryStarted true) ;;;
  act registry_publish ;;;
  act (make_directory consumerBase) ;;;
  run_in consumerBase ["npx"; "--yes"; "--registry"; REGISTRY +:+ "/"; "create-swift-agent"; PROJECT_NAME; "--provider";
    "anthropic"; "--provider-key"; "test-key-not-real"; "--yes"; "--no-install"] ;;;
  for_each ["docker-compose.yml"; ".env"; "backend/src/server.ts"; "frontend/src/App.tsx"] exists_file ;;;
  assertNpxProvenance fuel ;;;
  npm_install "backend" ;;; npm_install "frontend" ;;;
  assertProvenance (projectDir +:+ "/backend") ["@swiftagent/sdk"; "@swiftagent/shared"] ;;;
  assertProvenance (projectDir +:+ "/frontend") ["@swiftagent/react"; "@swiftagent/shared"] ;;;
  for_each ["backend"; "frontend"] gates ;;;
  if SKIP_STACK then ret tt else stack_phase.

(** ** The teardown *)

Definition teardown : E unit :=
  up <~ gets composeUp ;;
  whenM up (swallow (act (compose_down projectDir)) ;;; modify (set_composeUp false)) ;;;
  started <~ gets registryStarted ;;
  whenM started (swallow (act registry_stop) ;;; modify (set_registryStarted false)) ;;;
  if KEEP then ret tt else swallow (act (remove work)).

Definition main (fuel : nat) : E unit :=
  act build_packages ;;;
  act (make_directory work) ;;;
  act (write_file (work +:+ "/npmrc")) ;;;
  try_finally (flow fuel) teardown.
End e2e.

(** ** What the script guarantees *)

(** ** Teardown *)

(** An action of this kind is followed by its undoing, where it took effect. *)
Definition settled (took : list Action -> Prop) (a undo : Action) (l : list Action) : Prop :=
  forall l1 l2, l = l1 ++ a :: l2 -> took l1 -> undo ∈ l2.

Lemma snoc_split {X} (l l1 l2 : list X) (b a : X) :
  l ++ [b] = l1 ++ a :: l2 -> (l2 = [] /\ b = a /\ l = l1) \/ exists l3, l2 = l3 ++ [b] /\ l = l1 ++ a :: l3.
Proof.
  intros H. destruct l2 as [|x l2] using rev_ind.
  - left. apply app_inj_tail in H as [-> ->]. done.
  - right. rewrite app_comm_cons, app_assoc in H. apply app_inj_tail in H as [-> ->]. eauto.
Qed.

Lemma settled_snoc took a undo b l : settled took a undo l -> b <> a -> settled took a undo (l ++ [b]).
Proof.
  intros H Hn l1 l2 E T. apply snoc_split in E as [(_ & ? & _)|(l3 & -> & ->)]; [done|].
  apply elem_of_app. left. by apply (H l1).
Qed.

Lemma settled_failed took a undo l : settled took a undo l -> ~ took l -> settled took a undo (l ++ [a]).
Proof.
  intros H Hn l1 l2 E T. apply snoc_split in E as [(_ & _ & ->)|(l3 & -> & ->)]; [done|].
  apply elem_of_app. left. by apply (H l1).
Qed.

Lemma settled_undone took a undo l : undo <> a -> settled took a undo (l ++ [undo]).
Proof.
  intros Hn l1 l2 E T. apply snoc_split in E as [(_ & ? & _)|(l3 & -> & _)]; [done|].
  apply elem_of_app. right. by apply list_elem_of_singleton.
Qed.

Section teardown.
Context (PORT : Z) (SKIP_STACK KEEP : bool) (work : string).
Context (fails : list Action -> Action -> option error).
Context (files : list Action -> string -> option string).
Context (entries : list Action -> string -> option (list (string * bool))).
Context (key_probe session_probe : nat -> bool * Z).

Local Abbreviation act := (act fails).
Local Abbreviation up := (compose_up (projectDir work)).
Local Abbreviation down := (compose_down (projectDir work)).

Definition up_settled (l : list Action) : Prop := settled (fun _ => True) up down l.
Definition registry_settled (l : list Action) : Prop :=
  settled (fun l1 => fails l1 registry_start = None) registry_start registry_stop l.

(** What is up is known to the teardown. *)
Definition known (r : Run) : Prop :=
  (composeUp r = true \/ up_settled (done_ r)) /\ (registryStarted r = true \/ registry_settled (done_ r)).

(** An action that brings nothing up. *)
Definition harmless (a : Action) : Prop := a <> up /\ a <> registry_start.

Lemma act_harmless a : harmless a -> keeps known (act a).
Proof.
  intros [H1 H2] r [Hu Hr]. unfold known. cbn. split; [destruct Hu; [by left|right]|destruct Hr; [by left|right]]; by apply settled_snoc.
Qed.

Lemma harmless_cmd args cwd : args <> ["docker"; "compose"; "up"; "-d"] -> args <> ["node"; "scripts/local-registry.mjs"; "start"] ->
  harmless (cmd args cwd).
Proof. intros H1 H2. split; intros [=]; by subst. Qed.

Lemma keeps_lift_run {A} (I : Run -> Prop) (r : res error A) : keeps I (lift_res r).
Proof. destruct r; apply keeps_ret || apply keeps_throw. Qed.

Ltac walk := repeat first [keep_step | apply keeps_lift_run | (apply act_harmless; first [by apply harmless_cmd|by split])].

Lemma keeps_gates part : keeps known (gates work fails part).
Proof.
  unfold gates. apply keeps_for_each. intros s. unfold run_in. apply act_harmless, harmless_cmd; congruence.
Qed.

Lemma keeps_npx fuel : keeps known (assertNpxProvenance PORT work files entries fuel).
Proof. unfold assertNpxProvenance. walk. Qed.

Lemma keeps_provenance d names : keeps known (assertProvenance PORT files d names).
Proof. unfold assertProvenance. walk. Qed.

(** Once the flag is set, whatever the stack does is known. *)
Definition flagged (r : Run) : Prop := known r /\ composeUp r = true.

Lemma act_flagged a : a <> registry_start -> keeps flagged (act a).
Proof.
  intros Hn r [[_ Hr] Hu]. split; [|done]. split; [by left|]. cbn. destruct Hr; [by left|right]. by apply settled_snoc.
Qed.

Lemma keeps_logs m : keeps flagged m -> keeps flagged (logs_then_rethrow work fails m).
Proof.
  intros Hm. unfold logs_then_rethrow. apply keeps_try_catch; [done|]. intros e. apply keeps_bind; [|intros; apply keeps_throw].
  by apply keeps_swallow, act_flagged.
Qed.

Lemma keeps_stack : keeps known (stack_phase work fails key_probe session_probe).
Proof.
  unfold stack_phase, run_in. apply keeps_bind; [by apply act_harmless|intros _].
  apply keeps_bind; [by apply act_harmless, harmless_cmd|intros _].
  apply (post_bind _ _ _ (fun _ => flagged)); [|intros _|intros e r H; exact (proj1 H)|intros r H; exact (proj1 H)].
  - intros r [Hu Hr]. split; [split; [by left|done]|done].
  - apply (post_weaken _ flagged _ _ (fun _ => flagged)); [done|intros o r [H _]; exact H|]. apply keeps_bind; [by apply keeps_logs, act_flagged|intros _].
    apply keeps_logs. unfold wait_for. repeat first [keep_step|by apply act_flagged].
Qed.

Lemma start_registry_known : keeps known (bind (act registry_start) (fun _ => modify (set_registryStarted true))).
Proof.
  intros r [Hu Hr]. unfold bind, E2e.act, modify. destruct (fails (done_ r) registry_start) as [e|] eqn:Ef; cbn.
  - split; cbn.
    + destruct Hu; [by left|right]. by apply settled_snoc.
    + destruct Hr; [by left|right]. apply settled_failed; [done|congruence].
  - split; cbn; [|by left]. destruct Hu; [by left|right]. by apply settled_snoc.
Qed.

Lemma keeps_flow fuel : keeps known (flow PORT SKIP_STACK work fails files entries key_probe session_probe fuel).
Proof.
  unfold flow. set (k := fun _ : unit => bind (act registry_publish) _).
  intros r Hr. specialize (start_registry_known r Hr).
  assert (Hk : keeps known (k tt)).
  { subst k. cbn beta. unfold run_in, npm_install, exists_file, run_in.
    repeat first [keep_step|apply keeps_gates|apply keeps_npx|apply keeps_provenance|apply keeps_stack|
                  (apply act_harmless; first [by apply harmless_cmd|by split])]. }
  revert Hk. unfold bind at 2. unfold bind at 1, bind at 1. destruct (act registry_start r) as [[[]|e|] r1]; try done.
  intros Hk H1. by apply Hk.
Qed.

(** [swallow] of an action: it is done, and returns. *)
Lemma swallow_act a r :
  swallow (act a) r = (Ret tt, {| done_ := done_ r ++ [a]; composeUp := composeUp r; registryStarted := registryStarted r |}).
Proof. unfold swallow, try_catch, bind, E2e.act, ret. by destruct (fails _ _). Qed.

Definition all_settled (r : Run) : Prop :=
  composeUp r = false /\ registryStarted r = false /\ up_settled (done_ r) /\ registry_settled (done_ r).

Lemma teardown_settles r :
  known r -> (teardown KEEP work fails r).1 = Ret tt /\ all_settled (teardown KEEP work fails r).2 /\
    (KEEP = false -> List.last (done_ (teardown KEEP work fails r).2) build_packages = remove work).
Proof.
  intros [Hu Hr]. unfold teardown, gets, bind.
  set (r1 := if composeUp r then {| done_ := done_ r ++ [down]; composeUp := false; registryStarted := registryStarted r |} else r).
  assert (E1 : whenM (composeUp r) (fun s => match swallow (act down) s with
      | (Ret _, s) => modify (set_composeUp false) s | (Throw e, s) => (Throw e, s) | (Torn, s) => (Torn, s) end) r = (Ret tt, r1)).
  { subst r1. destruct (composeUp r); cbn [whenM]; [|done]. by rewrite swallow_act. }
  assert (H1 : composeUp r1 = false /\ registryStarted r1 = registryStarted r /\ up_settled (done_ r1) /\
    (registryStarted r1 = true \/ registry_settled (done_ r1))).
  { subst r1. destruct (composeUp r) eqn:Ec.
    - cbn. split_and!; [done..|by apply settled_undone|]. destruct Hr; [by left|right]. by apply settled_snoc.
    - split_and!; [done|done| |done]. by destruct Hu. }
  rewrite E1. clear E1 Hu Hr. clearbody r1. destruct H1 as (Hc & _ & Hu & Hr).
  set (r2 := if registryStarted r1 then {| done_ := done_ r1 ++ [registry_stop]; composeUp := composeUp r1; registryStarted := false |} else r1).
  assert (E2 : whenM (registryStarted r1) (fun s => match swallow (act registry_stop) s with
      | (Ret _, s) => modify (set_registryStarted false) s | (Throw e, s) => (Throw e, s) | (Torn, s) => (Torn, s) end) r1 = (Ret tt, r2)).
  { subst r2. destruct (registryStarted r1); cbn [whenM]; [|done]. by rewrite swallow_act. }
  assert (H2 : all_settled r2).
  { subst r2. destruct (registryStarted r1) eqn:Es.
    - split_and!; cbn; [done|done|by apply settled_snoc|by apply settled_undone].
    - split_and!; [done|done|done|]. by destruct Hr. }
  rewrite E2. clear E2. clearbody r2. destruct H2 as (H1 & H2 & H3 & H4).
  destruct KEEP; [by split_and!|]. rewrite swallow_act. cbn. split; [done|split].
  - split_and!; cbn; [done|done|by apply settled_snoc|by apply settled_snoc].
  - intros _. apply last_last.
Qed.

Definition idle : Run := {| done_ := []; composeUp := false; registryStarted := false |}.

(** Whatever command fails and whatever a poll or a check finds: when the script
    ends the stack that it brought up is down and the registry that it started
    is stopped, or that was tried; and once the flow has begun the temporary
    directory is removed last, unless it is to be kept. *)
Theorem end_to_end_cleans_up fuel :
  let m := main PORT SKIP_STACK KEEP work fails files entries key_probe session_probe fuel in
  let r := (m idle).2 in
  all_settled r /\
  (Forall (fun p => fails p.1 p.2 = None)
     [([], build_packages); ([build_packages], make_directory work);
      ([build_packages; make_directory work], write_file (work +:+ "/npmrc"))] ->
   KEEP = false -> List.last (done_ r) build_packages = remove work).
Proof.
  cbn zeta. unfold main. set (body := try_finally _ _).
  assert (H0 : all_settled idle) by (split_and!; try done; by intros [] ?).
  assert (Hstep : forall r a, harmless a -> all_settled r -> all_settled (act a r).2).
  { intros r a [Ha Hb] (? & ? & ? & ?). split_and!; cbn; try done; by apply settled_snoc. }
  assert (Hb : forall r, all_settled r -> all_settled (body r).2 /\
    (KEEP = false -> List.last (done_ (body r).2) build_packages = remove work)).
  { intros r (H1 & H2 & H3 & H4). assert (Hk : known r) by (split; by right).
    subst body. unfold try_finally. apply (keeps_flow fuel) in Hk.
    destruct (flow _ _ _ _ _ _ _ _ _ _) as [o r1]. simpl in Hk. destruct (teardown_settles r1 Hk) as (E & Hs & Hl).
    destruct (teardown _ _ _ r1) as [o2 r2]. simpl in *. by subst o2. }
  assert (Hh : harmless build_packages /\ harmless (make_directory work) /\ harmless (write_file (work +:+ "/npmrc")))
    by (split_and!; done).
  destruct Hh as (Ha & Hm & Hw). pose proof (Hstep _ _ Ha H0) as S1. pose proof (Hstep _ _ Hm S1) as S2. pose proof (Hstep _ _ Hw S2) as S3.
  unfold bind, E2e.act in *. cbn in *.
  destruct (fails [] build_packages) eqn:E1; cbn; [split; [done|]; intros H; inversion H; simpl in *; congruence|].
  destruct (fails [build_packages] _) eqn:E2; cbn; [split; [done|]; intros H; rewrite !Forall_cons in H; simpl in H; destruct H as (_ & ? & _); congruence|].
  destruct (fails _ (write_file _)) eqn:E3; cbn; [split; [done|]; intros H; rewrite !Forall_cons in H; simpl in H; destruct H as (_ & _ & ? & _); congruence|].
  destruct (Hb _ S3) as [Hs Hl]. split; [done|]. by intros _.
Qed.
End teardown.

(** ** Polls *)

Lemma poll_until_ends probe interval turns : forall i now deadline,
  (forall i, 0 <= (probe i).2)%Z -> (0 <= interval)%Z -> (0 < turns)%nat ->
  (deadline < now + interval * (Z.of_nat turns - 1))%Z -> pollUntil turns probe interval i now deadline <> None.
Proof.
  induction turns as [|n IH]; intros i now deadline Hp Hi Ht Hd; [lia|]. cbn [pollUntil].
  specialize (Hp i) as Hp'. destruct (probe i) as [ok took]. cbn [snd] in Hp'. destruct ok; [done|].
  destruct (Z.ltb_spec deadline (now + took)); [done|]. apply IH; [done|done| |].
  - destruct n; [|lia]. nia.
  - nia.
Qed.

(** The turns that the model gives to a poll are enough: it finds something, or
    its time is over. *)
Theorem polls_end probe timeout interval :
  (forall i, 0 <= (probe i).2)%Z -> (0 < interval)%Z -> (0 <= timeout)%Z ->
  pollUntil (poll_turns timeout interval) probe interval 0 0 timeout <> None.
Proof.
  intros Hp Hi Ht. apply poll_until_ends; [done|lia|unfold poll_turns; lia|]. unfold poll_turns.
  assert (H : (0 <= timeout / interval)%Z) by (apply Z.div_pos; lia).
  pose proof (Z.mod_pos_bound timeout interval Hi). pose proof (Z.div_mod timeout interval). nia.
Qed.

(** ** The search of the cache's index *)

Section search.
Context (PORT : Z) (files : list Action -> string -> option string).
Context (entries : list Action -> string -> option (list (string * bool))) (was : list Action).

(** A file somewhere under a directory. *)
Inductive below : string -> string -> Prop :=
| below_here dir name : (name, false) ∈ entries was dir ?? [] -> below dir (dir +:+ "/" +:+ name)
| below_in dir name f : (name, true) ∈ entries was dir ?? [] -> below (dir +:+ "/" +:+ name) f -> below dir f.

(** The index is finite: a directory weighs more than those in it. *)
Context (weight : string -> nat).

Definition weights (l : list string) : nat := sum_list_with weight l.

Definition subdirectories (dir : string) : list string :=
  map (fun e => dir +:+ "/" +:+ e.1) (List.filter snd (entries was dir ?? [])).

Context (Hweight : forall dir, S (weights (subdirectories dir)) <= weight dir).

Definition found (f : string) : Prop := records_package PORT (files was f ?? "") = true.

Lemma visit_spec dir rest es : forall stack,
  visit PORT files was dir rest es stack = true <->
  (exists name, (name, false) ∈ es /\ found (dir +:+ "/" +:+ name)) \/
  rest (rev (map (fun e => dir +:+ "/" +:+ e.1) (List.filter snd es)) ++ stack) = true.
Proof.
  induction es as [|[name []] es IH]; intros stack; cbn [visit List.filter snd map rev].
  - split; [by right|]. intros [(? & H & _)|?]; [by apply elem_of_nil in H|done].
  - rewrite IH, <- app_assoc. setoid_rewrite elem_of_cons. split; (intros [(n & H & Hf)|H]; [left; exists n|by right]).
    + by split; [right|].
    + by destruct H as [[=]|H].
  - rewrite orb_true_iff, IH. setoid_rewrite elem_of_cons. unfold found. split.
    + intros [H|[(n & H & Hf)|H]]; [left; exists name; by split; [left|]|left; exists n; by split; [right|]|by right].
    + intros [(n & [[= ->]|H] & Hf)|H]; [by left|right; left; by exists n|by right; right].
Qed.

Lemma weights_app l k : weights (l ++ k) = weights l + weights k.
Proof. apply sum_list_with_app. Qed.

Lemma weights_rev l : weights (rev l) = weights l.
Proof. induction l as [|x l IH]; simpl; [done|]. rewrite weights_app, IH. unfold weights. simpl. lia. Qed.

(** With fuel for the weight of its stack, the search says whether a file under
    one of its directories records the package. *)
Lemma search_spec fuel : forall stack, weights stack < fuel ->
  search_index PORT files entries fuel was stack = true <-> exists dir f, dir ∈ stack /\ below dir f /\ found f.
Proof.
  induction fuel as [|fuel IH]; intros stack Hf; [lia|]. destruct stack as [|dir stack]; cbn [search_index].
  - split; [done|]. intros (? & ? & H & _). by apply elem_of_nil in H.
  - rewrite visit_spec. fold (subdirectories dir). rewrite IH.
    2: { specialize (Hweight dir). rewrite weights_app, weights_rev. cbn in Hf. unfold weights in *. lia. }
    setoid_rewrite elem_of_app. setoid_rewrite elem_of_cons. split.
    + intros [(name & H & F)|(d & f & [H|H] & B & F)].
      * exists dir, (dir +:+ "/" +:+ name). split_and!; [by left|by constructor|done].
      * apply list_elem_of_In, in_rev, in_map_iff in H as ([name b] & <- & [H Hb]%filter_In). simpl in *. subst b.
        exists dir, f. split_and!; [by left|econstructor; [|done]; by apply list_elem_of_In|done].
      * exists d, f. split_and!; [by right|done..].
    + intros (d & f & [->|H] & B & F); [|right; exists d, f; split_and!; [by right|done..]].
      inversion B as [? name H|? name f' H B']; subst; [left; by exists name|]. right.
      exists (dir +:+ "/" +:+ name), f. split_and!; [left|done..].
      apply list_elem_of_In, in_rev. rewrite rev_involutive. apply in_map_iff. exists (name, true). split; [done|].
      apply filter_In. split; [by apply list_elem_of_In|done].
Qed.
End search.
