(* ===== verification/Schema.v ===== *)
(** The database's schema (packages/db/src/schema/*.ts), and the last snapshot
    that was committed of it (packages/db/drizzle/meta/0003_snapshot.json).

    A table is what drizzle's builders make of its columns; keys are named as
    drizzle-kit names them.  The second part is the queries of the introspection
    (introspect.ts) over PostgreSQL's catalog. *)
From S2P Require Import Prelude Json Shared Drift DriftProps.

(** ** Columns and tables *)

Record Reference := { rf_table : string; rf_column : string; rf_onDelete : string }.

Record Column := {
  co_name : string; co_type : string; co_primaryKey : bool; co_notNull : bool; co_default : option string;
  co_references : option Reference; co_unique : bool }.

Definition typed (ty n : string) : Column :=
  {| co_name := n; co_type := ty; co_primaryKey := false; co_notNull := false; co_default := None;
     co_references := None; co_unique := false |}.

Definition ctext := typed "text".
Definition jsonb := typed "jsonb".
Definition integer := typed "integer".
Definition bigint := typed "bigint".
Definition date := typed "date".
Definition timestamp := typed "timestamp with time zone".

Definition primaryKey (c : Column) : Column :=
  {| co_name := co_name c; co_type := co_type c; co_primaryKey := true; co_notNull := true; co_default := co_default c;
     co_references := co_references c; co_unique := co_unique c |}.
Definition notNull (c : Column) : Column :=
  {| co_name := co_name c; co_type := co_type c; co_primaryKey := co_primaryKey c; co_notNull := true;
     co_default := co_default c; co_references := co_references c; co_unique := co_unique c |}.
Definition default_ (v : string) (c : Column) : Column :=
  {| co_name := co_name c; co_type := co_type c; co_primaryKey := co_primaryKey c; co_notNull := co_notNull c;
     co_default := Some v; co_references := co_references c; co_unique := co_unique c |}.
Definition defaultNow : Column -> Column := default_ "now()".
Definition unique (c : Column) : Column :=
  {| co_name := co_name c; co_type := co_type c; co_primaryKey := co_primaryKey c; co_notNull := co_notNull c;
     co_default := co_default c; co_references := co_references c; co_unique := true |}.
Definition references_on (onDelete t k : string) (c : Column) : Column :=
  {| co_name := co_name c; co_type := co_type c; co_primaryKey := co_primaryKey c; co_notNull := co_notNull c;
     co_default := co_default c; co_references := Some {| rf_table := t; rf_column := k; rf_onDelete := onDelete |};
     co_unique := co_unique c |}.
Definition references : string -> string -> Column -> Column := references_on "no action".

Record Index_ := { ix_name : string; ix_columns : list string; ix_unique : bool }.

Record Table := {
  tb_name : string; tb_columns : list Column; tb_indexes : list Index_; tb_compositeKey : list string }.

Definition index_on (n : string) (cols : list string) : Index_ := {| ix_name := n; ix_columns := cols; ix_unique := false |}.
Definition uniqueIndex (n : string) (cols : list string) : Index_ := {| ix_name := n; ix_columns := cols; ix_unique := true |}.

Definition created_at : Column := defaultNow (notNull (timestamp "created_at")).
Definition updated_at : Column := defaultNow (notNull (timestamp "updated_at")).

(** ** The tables *)

Definition workspaces : Table :=
  {| tb_name := "workspaces";
     tb_columns := [primaryKey (ctext "workspace_id"); notNull (ctext "name"); created_at; updated_at];
     tb_indexes := []; tb_compositeKey := [] |}.

Definition users : Table :=
  {| tb_name := "users";
     tb_columns := [primaryKey (ctext "user_id"); unique (notNull (ctext "cognito_sub")); notNull (ctext "email");
                    created_at; updated_at];
     tb_indexes := []; tb_compositeKey := [] |}.

Definition userWorkspaces : Table :=
  {| tb_name := "user_workspaces";
     tb_columns := [references_on "restrict" "users" "user_id" (notNull (ctext "user_id"));
                    references_on "restrict" "workspaces" "workspace_id" (notNull (ctext "workspace_id"));
                    notNull (ctext "role"); created_at];
     tb_indexes := []; tb_compositeKey := ["user_id"; "workspace_id"] |}.

Definition apiKeys : Table :=
  {| tb_name := "api_keys";
     tb_columns := [primaryKey (ctext "api_key_id");
                    references "workspaces" "workspace_id" (notNull (ctext "workspace_id")); notNull (ctext "key_hash");
                    notNull (ctext "name"); created_at; timestamp "revoked_at"];
     tb_indexes := [index_on "api_keys_key_hash_idx" ["key_hash"]; index_on "api_keys_workspace_id_idx" ["workspace_id"]];
     tb_compositeKey := [] |}.

Definition agents : Table :=
  {| tb_name := "agents";
     tb_columns := [primaryKey (ctext "agent_id");
                    references "workspaces" "workspace_id" (notNull (ctext "workspace_id")); notNull (ctext "name");
                    notNull (jsonb "model_config"); notNull (ctext "system_prompt"); notNull (jsonb "memory_config");
                    default_ "'[]'::jsonb" (notNull (jsonb "tools")); ctext "tool_runner_url"; created_at; updated_at];
     tb_indexes := [index_on "agents_workspace_id_idx" ["workspace_id"];
                    uniqueIndex "agents_workspace_id_name_idx" ["workspace_id"; "name"]];
     tb_compositeKey := [] |}.

Definition sessions : Table :=
  {| tb_name := "sessions";
     tb_columns := [primaryKey (ctext "session_id"); references "agents" "agent_id" (notNull (ctext "agent_id"));
                    ctext "user_id"; default_ "'active'" (notNull (typed "session_status" "status"));
                    default_ "'{}'::jsonb" (notNull (jsonb "metadata")); created_at; updated_at];
     tb_indexes := [index_on "sessions_agent_id_idx" ["agent_id"]; index_on "sessions_user_id_idx" ["user_id"]];
     tb_compositeKey := [] |}.

Definition runs : Table :=
  {| tb_name := "runs";
     tb_columns := [primaryKey (ctext "run_id"); references "sessions" "session_id" (notNull (ctext "session_id"));
                    default_ "'running'" (notNull (typed "run_status" "status"));
                    notNull (typed "varchar(255)" "model"); jsonb "token_usage"; created_at; updated_at];
     tb_indexes := [index_on "runs_session_id_idx" ["session_id"]]; tb_compositeKey := [] |}.

Definition messages : Table :=
  {| tb_name := "messages";
     tb_columns := [primaryKey (ctext "message_id"); references "sessions" "session_id" (notNull (ctext "session_id"));
                    references "runs" "run_id" (ctext "run_id"); notNull (typed "message_role" "role");
                    notNull (ctext "content"); created_at];
     tb_indexes := [index_on "messages_session_id_created_at_idx" ["session_id"; "created_at"];
                    index_on "messages_run_id_idx" ["run_id"]];
     tb_compositeKey := [] |}.

Definition toolCalls : Table :=
  {| tb_name := "tool_calls";
     tb_columns := [primaryKey (ctext "call_id"); references "runs" "run_id" (notNull (ctext "run_id"));
                    notNull (ctext "tool_name"); notNull (jsonb "input"); jsonb "output";
                    default_ "'started'" (notNull (typed "tool_call_status" "status")); created_at; updated_at];
     tb_indexes := [index_on "tool_calls_run_id_idx" ["run_id"]]; tb_compositeKey := [] |}.

Definition traces : Table :=
  {| tb_name := "traces";
     tb_columns := [primaryKey (ctext "trace_id"); references "runs" "run_id" (notNull (ctext "run_id"));
                    notNull (ctext "root_span_id"); defaultNow (notNull (timestamp "started_at"));
                    timestamp "completed_at"; integer "total_duration_ms"];
     tb_indexes := [uniqueIndex "traces_run_id_idx" ["run_id"]]; tb_compositeKey := [] |}.

Definition traceSpans : Table :=
  {| tb_name := "trace_spans";
     tb_columns := [primaryKey (ctext "span_id"); references "traces" "trace_id" (notNull (ctext "trace_id"));
                    ctext "parent_span_id"; notNull (typed "span_type" "type"); notNull (ctext "name");
                    defaultNow (notNull (timestamp "started_at")); timestamp "completed_at"; integer "duration_ms";
                    default_ "'{}'::jsonb" (notNull (jsonb "metadata"));
                    default_ "'ok'" (notNull (typed "span_status" "status")); jsonb "error"];
     tb_indexes := [index_on "trace_spans_trace_id_idx" ["trace_id"]]; tb_compositeKey := [] |}.

Definition playgroundSpendDays : Table :=
  {| tb_name := "playground_spend_days";
     tb_columns := [primaryKey (date "day"); default_ "0" (notNull (bigint "reserved_total_micro_usd")); updated_at];
     tb_indexes := []; tb_compositeKey := [] |}.

Definition playgroundSpendReservations : Table :=
  {| tb_name := "playground_spend_reservations";
     tb_columns := [primaryKey (ctext "reservation_id"); notNull (date "day"); notNull (ctext "session_id"); ctext "run_id";
                    notNull (bigint "reserved_micro_usd"); default_ "'reserved'" (notNull (ctext "status"));
                    ctext "terminal_status"; integer "observed_input_tokens"; integer "observed_output_tokens";
                    created_at; timestamp "settled_at"];
     tb_indexes := [index_on "playground_spend_reservations_day_idx" ["day"];
                    index_on "playground_spend_reservations_status_idx" ["status"]];
     tb_compositeKey := [] |}.

Definition tables : list Table :=
  [agents; apiKeys; messages; playgroundSpendDays; playgroundSpendReservations; runs; sessions; toolCalls; traceSpans;
   traces; userWorkspaces; users; workspaces].

Definition enums : list SnapshotEnum :=
  [{| sn_name := "message_role"; sn_values := ["system"; "user"; "assistant"; "tool"] |};
   {| sn_name := "run_status"; sn_values := ["running"; "completed"; "failed"; "cancelled"; "timed_out"] |};
   {| sn_name := "session_status"; sn_values := ["active"; "closed"] |};
   {| sn_name := "span_status"; sn_values := ["ok"; "error"] |};
   {| sn_name := "span_type"; sn_values := ["run_span"; "model_call_span"; "tool_call_span"] |};
   {| sn_name := "tool_call_status"; sn_values := ["started"; "completed"; "failed"] |}].

(** ** The snapshot of a schema *)

Definition scol (n ty : string) (pk nn : bool) (d : option string) : SnapshotColumn :=
  {| sc_name := n; sc_type := ty; sc_primaryKey := pk; sc_notNull := nn; sc_default := d |}.
Definition sidx (n : string) (cols : list string) (u : bool) : SnapshotIndex :=
  {| si_name := n; si_columns := map (fun c => {| ic_expression := c; ic_isExpression := false |}) cols; si_isUnique := u |}.
Definition sfk (n from to : string) (cols targets : list string) (onDelete : string) : SnapshotForeignKey :=
  {| sf_name := n; sf_tableFrom := from; sf_tableTo := to; sf_columnsFrom := cols; sf_columnsTo := targets;
     sf_onDelete := Some onDelete; sf_onUpdate := Some "no action" |}.
Definition sconstraint (n : string) (cols : list string) : SnapshotConstraint := {| sk_name := n; sk_columns := cols |}.
Definition stable (n : string) (cols : list SnapshotColumn) (idx : list SnapshotIndex) (fks : list SnapshotForeignKey)
    (pks us : list SnapshotConstraint) : SnapshotTable :=
  {| st_name := n; st_columns := map (fun c => (sc_name c, c)) cols; st_indexes := map (fun i => (si_name i, i)) idx;
     st_foreignKeys := map (fun k => (sf_name k, k)) fks; st_compositePrimaryKeys := map (fun k => (sk_name k, k)) pks;
     st_uniqueConstraints := map (fun k => (sk_name k, k)) us |}.

Definition key_name (t : Table) (c : Column) (r : Reference) : string :=
  join "_" [tb_name t; co_name c; rf_table r; rf_column r; "fk"].

Definition foreign_keys (t : Table) : list SnapshotForeignKey :=
  tb_columns t ≫= fun c =>
    match co_references c with
    | Some r => [sfk (key_name t c r) (tb_name t) (rf_table r) [co_name c] [rf_column r] (rf_onDelete r)]
    | None => []
    end.

Definition composite_keys (t : Table) : list SnapshotConstraint :=
  match tb_compositeKey t with
  | [] => []
  | cols => [sconstraint (join "_" ([tb_name t] ++ cols ++ ["pk"])) cols]
  end.

Definition unique_constraints (t : Table) : list SnapshotConstraint :=
  map (fun c => sconstraint (join "_" [tb_name t; co_name c; "unique"]) [co_name c]) (List.filter co_unique (tb_columns t)).

Definition table_snapshot (t : Table) : SnapshotTable :=
  stable (tb_name t)
    (map (fun c => scol (co_name c) (co_type c) (co_primaryKey c) (co_notNull c) (co_default c)) (tb_columns t))
    (map (fun i => sidx (ix_name i) (ix_columns i) (ix_unique i)) (tb_indexes t))
    (foreign_keys t) (composite_keys t) (unique_constraints t).

Definition schema_snapshot : Snapshot :=
  {| snap_tables := map (fun t => ("public." +:+ tb_name t, table_snapshot t)) tables;
     snap_enums := map (fun e => ("public." +:+ sn_name e, e)) enums |}.

(** ** The committed snapshot *)

Definition committed_agents : SnapshotTable :=
  stable "agents"
    [scol "agent_id" "text" true true None; scol "workspace_id" "text" false true None;
     scol "name" "text" false true None; scol "model_config" "jsonb" false true None;
     scol "system_prompt" "text" false true None; scol "memory_config" "jsonb" false true None;
     scol "tools" "jsonb" false true (Some "'[]'::jsonb"); scol "tool_runner_url" "text" false false None;
     scol "created_at" "timestamp with time zone" false true (Some "now()");
     scol "updated_at" "timestamp with time zone" false true (Some "now()")]
    [sidx "agents_workspace_id_idx" ["workspace_id"] false;
     sidx "agents_workspace_id_name_idx" ["workspace_id"; "name"] true]
    [sfk "agents_workspace_id_workspaces_workspace_id_fk" "agents" "workspaces" ["workspace_id"] ["workspace_id"] "no action"]
    [] [].

Definition committed_api_keys : SnapshotTable :=
  stable "api_keys"
    [scol "api_key_id" "text" true true None; scol "workspace_id" "text" false true None;
     scol "key_hash" "text" false true None; scol "name" "text" false true None;
     scol "created_at" "timestamp with time zone" false true (Some "now()");
     scol "revoked_at" "timestamp with time zone" false false None]
    [sidx "api_keys_key_hash_idx" ["key_hash"] false; sidx "api_keys_workspace_id_idx" ["workspace_id"] false]
    [sfk "api_keys_workspace_id_workspaces_workspace_id_fk" "api_keys" "workspaces" ["workspace_id"] ["workspace_id"] "no action"]
    [] [].

Definition committed_messages : SnapshotTable :=
  stable "messages"
    [scol "message_id" "text" true true None; scol "session_id" "text" false true None;
     scol "run_id" "text" false false None; scol "role" "message_role" false true None;
     scol "content" "text" false true None; scol "created_at" "timestamp with time zone" false true (Some "now()")]
    [sidx "messages_session_id_created_at_idx" ["session_id"; "created_at"] false;
     sidx "messages_run_id_idx" ["run_id"] false]
    [sfk "messages_session_id_sessions_session_id_fk" "messages" "sessions" ["session_id"] ["session_id"] "no action";
     sfk "messages_run_id_runs_run_id_fk" "messages" "runs" ["run_id"] ["run_id"] "no action"]
    [] [].

Definition committed_playground_spend_days : SnapshotTable :=
  stable "playground_spend_days"
    [scol "day" "date" true true None; scol "reserved_total_micro_usd" "bigint" false true (Some "0");
     scol "updated_at" "timestamp with time zone" false true (Some "now()")]
    []
    []
    [] [].

Definition committed_playground_spend_reservations : SnapshotTable :=
  stable "playground_spend_reservations"
    [scol "reservation_id" "text" true true None; scol "day" "date" false true None;
     scol "session_id" "text" false true None; scol "run_id" "text" false false None;
     scol "reserved_micro_usd" "bigint" false true None; scol "status" "text" false true (Some "'reserved'");
     scol "terminal_status" "text" false false None; scol "observed_input_tokens" "integer" false false None;
     scol "observed_output_tokens" "integer" false false None;
     scol "created_at" "timestamp with time zone" false true (Some "now()");
     scol "settled_at" "timestamp with time zone" false false None]
    [sidx "playground_spend_reservations_day_idx" ["day"] false;
     sidx "playground_spend_reservations_status_idx" ["status"] false]
    []
    [] [].

Definition committed_runs : SnapshotTable :=
  stable "runs"
    [scol "run_id" "text" true true None; scol "session_id" "text" false true None;
     scol "status" "run_status" false true (Some "'running'"); scol "model" "varchar(255)" false true None;
     scol "token_usage" "jsonb" false false None;
     scol "created_at" "timestamp with time zone" false true (Some "now()");
     scol "updated_at" "timestamp with time zone" false true (Some "now()")]
    [sidx "runs_session_id_idx" ["session_id"] false]
    [sfk "runs_session_id_sessions_session_id_fk" "runs" "sessions" ["session_id"] ["session_id"] "no action"]
    [] [].

Definition committed_sessions : SnapshotTable :=
  stable "sessions"
    [scol "session_id" "text" true true None; scol "agent_id" "text" false true None;
     scol "user_id" "text" false false None; scol "status" "session_status" false true (Some "'active'");
     scol "metadata" "jsonb" false true (Some "'{}'::jsonb");
     scol "created_at" "timestamp with time zone" false true (Some "now()");
     scol "updated_at" "timestamp with time zone" false true (Some "now()")]
    [sidx "sessions_agent_id_idx" ["agent_id"] false; sidx "sessions_user_id_idx" ["user_id"] false]
    [sfk "sessions_agent_id_agents_agent_id_fk" "sessions" "agents" ["agent_id"] ["agent_id"] "no action"]
    [] [].

Definition committed_tool_calls : SnapshotTable :=
  stable "tool_calls"
    [scol "call_id" "text" true true None; scol "run_id" "text" false true None;
     scol "tool_name" "text" false true None; scol "input" "jsonb" false true None;
     scol "output" "jsonb" false false None; scol "status" "tool_call_status" false true (Some "'started'");
     scol "created_at" "timestamp with time zone" false true (Some "now()");
     scol "updated_at" "timestamp with time zone" false true (Some "now()")]
    [sidx "tool_calls_run_id_idx" ["run_id"] false]
    [sfk "tool_calls_run_id_runs_run_id_fk" "tool_calls" "runs" ["run_id"] ["run_id"] "no action"]
    [] [].

Definition committed_trace_spans : SnapshotTable :=
  stable "trace_spans"
    [scol "span_id" "text" true true None; scol "trace_id" "text" false true None;
     scol "parent_span_id" "text" false false None; scol "type" "span_type" false true None;
     scol "name" "text" false true None; scol "started_at" "timestamp with time zone" false true (Some "now()");
     scol "completed_at" "timestamp with time zone" false false None;
     scol "duration_ms" "integer" false false None; scol "metadata" "jsonb" false true (Some "'{}'::jsonb");
     scol "status" "span_status" false true (Some "'ok'"); scol "error" "jsonb" false false None]
    [sidx "trace_spans_trace_id_idx" ["trace_id"] false]
    [sfk "trace_spans_trace_id_traces_trace_id_fk" "trace_spans" "traces" ["trace_id"] ["trace_id"] "no action"]
    [] [].

Definition committed_traces : SnapshotTable :=
  stable "traces"
    [scol "trace_id" "text" true true None; scol "run_id" "text" false true None;
     scol "root_span_id" "text" false true None;
     scol "started_at" "timestamp with time zone" false true (Some "now()");
     scol "completed_at" "timestamp with time zone" false false None;
     scol "total_duration_ms" "integer" false false None]
    [sidx "traces_run_id_idx" ["run_id"] true]
    [sfk "traces_run_id_runs_run_id_fk" "traces" "runs" ["run_id"] ["run_id"] "no action"]
    [] [].

Definition committed_user_workspaces : SnapshotTable :=
  stable "user_workspaces"
    [scol "user_id" "text" false true None; scol "workspace_id" "text" false true None;
     scol "role" "text" false true None; scol "created_at" "timestamp with time zone" false true (Some "now()")]
    []
    [sfk "user_workspaces_user_id_users_user_id_fk" "user_workspaces" "users" ["user_id"] ["user_id"] "restrict";
     sfk "user_workspaces_workspace_id_workspaces_workspace_id_fk" "user_workspaces" "workspaces" ["workspace_id"] ["workspace_id"] "restrict"]
    [sconstraint "user_workspaces_user_id_workspace_id_pk" ["user_id"; "workspace_id"]] [].

Definition committed_users : SnapshotTable :=
  stable "users"
    [scol "user_id" "text" true true None; scol "cognito_sub" "text" false true None;
     scol "email" "text" false true None; scol "created_at" "timestamp with time zone" false true (Some "now()");
     scol "updated_at" "timestamp with time zone" false true (Some "now()")]
    []
    []
    [] [sconstraint "users_cognito_sub_unique" ["cognito_sub"]].

Definition committed_workspaces : SnapshotTable :=
  stable "workspaces"
    [scol "workspace_id" "text" true true None; scol "name" "text" false true None;
     scol "created_at" "timestamp with time zone" false true (Some "now()");
     scol "updated_at" "timestamp with time zone" false true (Some "now()")]
    []
    []
    [] [].

Definition committed_snapshot : Snapshot :=
  {| snap_tables := map (fun t => ("public." +:+ st_name t, t))
       [committed_agents; committed_api_keys; committed_messages; committed_playground_spend_days;
        committed_playground_spend_reservations; committed_runs; committed_sessions; committed_tool_calls;
        committed_trace_spans; committed_traces; committed_user_workspaces; committed_users;
        committed_workspaces];
     snap_enums :=
       [("public.message_role", {| sn_name := "message_role"; sn_values := ["system"; "user"; "assistant"; "tool"] |});
        ("public.run_status", {| sn_name := "run_status"; sn_values := ["running"; "completed"; "failed"; "cancelled"; "timed_out"] |});
        ("public.session_status", {| sn_name := "session_status"; sn_values := ["active"; "closed"] |});
        ("public.span_status", {| sn_name := "span_status"; sn_values := ["ok"; "error"] |});
        ("public.span_type", {| sn_name := "span_type"; sn_values := ["run_span"; "model_call_span"; "tool_call_span"] |});
        ("public.tool_call_status", {| sn_name := "tool_call_status"; sn_values := ["started"; "completed"; "failed"] |})] |}.

(** ** What holds of them *)

(** The schema in the source is the one whose snapshot was committed last: no
    migration is missing. *)
Theorem schema_is_committed : schema_snapshot = committed_snapshot.
Proof. by vm_compute. Qed.

(** The names of a table's constraints in the database. *)
Definition constraint_names (t : Table) : list string :=
  (if existsb co_primaryKey (tb_columns t) then [tb_name t +:+ "_pkey"] else []) ++
  map sk_name (composite_keys t) ++ map sk_name (unique_constraints t) ++ map sf_name (foreign_keys t) ++
  map ix_name (List.filter ix_unique (tb_indexes t)).

(** The constraints whose violations the statements of the repositories have in
    this development. *)
Definition modelled_constraints : list string :=
  ["agents_pkey"; "agents_workspace_id_name_idx"; "agents_workspace_id_workspaces_workspace_id_fk"; "api_keys_pkey";
   "api_keys_workspace_id_workspaces_workspace_id_fk"; "messages_pkey"; "messages_run_id_runs_run_id_fk";
   "messages_session_id_sessions_session_id_fk"; "runs_pkey"; "runs_session_id_sessions_session_id_fk";
   "sessions_agent_id_agents_agent_id_fk"; "sessions_pkey"; "tool_calls_pkey"; "tool_calls_run_id_runs_run_id_fk";
   "trace_spans_pkey"; "trace_spans_trace_id_traces_trace_id_fk"; "traces_pkey"; "traces_run_id_idx";
   "traces_run_id_runs_run_id_fk"; "user_workspaces_user_id_users_user_id_fk"; "user_workspaces_user_id_workspace_id_pk";
   "user_workspaces_workspace_id_workspaces_workspace_id_fk"; "users_cognito_sub_unique"; "workspaces_pkey"].

(** They are all the constraints of the schema, the ledger's and the users' keys
    apart. *)
Theorem constraints_are_the_schemas :
  forallb (fun n => existsb (String.eqb n) (tables ≫= constraint_names)) modelled_constraints = true /\
  List.filter (fun n => negb (existsb (String.eqb n) modelled_constraints)) (tables ≫= constraint_names) =
    ["playground_spend_days_pkey"; "playground_spend_reservations_pkey"; "users_pkey"].
Proof. by vm_compute. Qed.

(** Every reference is to the primary key of its table. *)
Definition target_is_key (r : Reference) : bool :=
  existsb (fun t => String.eqb (tb_name t) (rf_table r) &&
    bool_decide (map co_name (List.filter co_primaryKey (tb_columns t)) = [rf_column r])) tables.

Theorem references_are_to_keys t c r :
  t ∈ tables -> c ∈ tb_columns t -> co_references c = Some r -> target_is_key r = true.
Proof.
  assert (H : forallb (fun t => forallb (fun c => match co_references c with Some r => target_is_key r | None => true end)
    (tb_columns t)) tables = true) by (by vm_compute).
  rewrite forallb_forall in H. intros Ht Hc Hr. specialize (H t ltac:(by apply list_elem_of_In)).
  rewrite forallb_forall in H. specialize (H c ltac:(by apply list_elem_of_In)). by rewrite Hr in H.
Qed.

Lemma table_ok_decide t :
  bool_decide (NoDup (map sc_name (map snd (st_columns t)))) && bool_decide (NoDup (map si_name (map snd (st_indexes t)))) &&
  bool_decide (NoDup (map sf_name (map snd (st_foreignKeys t)))) &&
  forallb (fun x => negb (bool_decide (ci_columns (project_index x) = []))) (map snd (st_indexes t)) &&
  forallb (fun k => (length (sf_columnsFrom k) =? 1) && (length (sf_columnsTo k) =? 1)) (map snd (st_foreignKeys t)) = true ->
  snapshot_table_ok t.
Proof.
  intros [[[[H1%bool_decide_eq_true H2%bool_decide_eq_true]%andb_true_iff H3%bool_decide_eq_true]%andb_true_iff H4]%andb_true_iff H5]%andb_true_iff.
  rewrite forallb_forall in H4, H5. split; [done..| |]; apply Forall_forall; intros x Hx%list_elem_of_In.
  - apply H4, negb_true_iff in Hx. by apply bool_decide_eq_false in Hx.
  - specialize (H5 x Hx). by apply andb_true_iff in H5 as [?%Nat.eqb_eq ?%Nat.eqb_eq].
Qed.

(** The snapshot has what the drift check needs to read a database back. *)
Definition understood_by (s : Snapshot) (ty : string) : bool :=
  bool_decide (ty ∈ plain_types) || bool_decide (ty ∈ map sn_name (map snd (snap_enums s))) ||
  match varchar_length ty with Some n => String.eqb ty (sized_varchar n) | None => false end.

Lemma understood_decide s ty : understood_by s ty = true -> understood s ty.
Proof.
  unfold understood_by, understood. rewrite !orb_true_iff, !bool_decide_eq_true. intros [[H|H]|H]; [by left|by right; left|].
  destruct (varchar_length ty) as [n|]; [|done]. apply String.eqb_eq in H. right. right. by exists n.
Qed.

Theorem schema_is_readable : snapshot_ok committed_snapshot.
Proof.
  split; [by apply (bool_decide_unpack _); vm_compute..| |].
  - apply Forall_forall. intros t Ht. apply Forall_forall. intros c Hc. apply understood_decide.
    revert c Hc. apply Forall_forall. revert t Ht. apply Forall_forall.
    apply (bool_decide_unpack _). by vm_compute.
  - apply Forall_forall. intros t Ht. apply table_ok_decide.
    revert t Ht. apply Forall_forall. by repeat (constructor; [by vm_compute|]).
Qed.


(** ** The queries of the drift check over the catalog of PostgreSQL
    (introspectLiveSchema in packages/db/src/drift-check.ts)

    The relations of the catalog are lists of rows.  A query is a comprehension
    over them; ORDER BY is a stable sort, where SQL leaves ties open. *)

(** ** The catalog *)

Record PgNamespace := { nsp_oid : nat; nspname : string }.
Record PgClass := { class_oid : nat; relname : string; relnamespace : nat }.
Record PgAttribute := { attrelid : nat; attnum : Z; attname : string }.
Record PgIndex := { indexrelid : nat; indrelid : nat; indisunique : bool; indisprimary : bool; indkey : list Z }.
Record PgConstraint := { contype : string; conrelid : nat; conindid : nat; conkey : list Z }.
Record PgType := { type_oid : nat; typname : string; typnamespace : nat }.
Record PgEnum := { enumtypid : nat; enumlabel : string; enumsortorder : Z }.

(** The views of information_schema. *)
Record TableView := { tv_schema : string; tv_name : string; tv_type : string }.
Record ColumnView := { cv_schema : string; cv_ordinal : Z; cv_row : RawColumnRow }.
Record TableConstraint := {
  tc_constraint_schema : string; tc_constraint_name : string; tc_table_schema : string; tc_table_name : string;
  tc_constraint_type : string }.
Record KeyColumnUsage := {
  kcu_constraint_schema : string; kcu_constraint_name : string; kcu_column_name : string; kcu_ordinal : Z }.
Record ReferentialConstraint := {
  rc_constraint_schema : string; rc_constraint_name : string; delete_rule : string; update_rule : string }.
Record ConstraintColumnUsage := {
  ccu_constraint_schema : string; ccu_constraint_name : string; ccu_table_name : string; ccu_column_name : string }.

Record PgCatalog := {
  namespaces : list PgNamespace; classes : list PgClass; attributes : list PgAttribute; pg_indexes : list PgIndex;
  constraints : list PgConstraint; types : list PgType; pg_enums : list PgEnum;
  table_views : list TableView; column_views : list ColumnView; table_constraints : list TableConstraint;
  key_column_usage : list KeyColumnUsage; referential_constraints : list ReferentialConstraint;
  constraint_column_usage : list ConstraintColumnUsage }.

(** ** The queries *)

(** WHERE and JOIN ... ON. *)
Definition where_ (b : bool) {X} (rows : list X) : list X := if b then rows else [].

(** ORDER BY a text and then a number. *)
Definition text_then {X} (t : X -> string) (n : X -> Z) (a b : X) : Prop :=
  (t a <> t b /\ text_le (t a) (t b)) \/ (t a = t b /\ (n a <= n b)%Z).
#[export] Instance text_then_dec {X} (t : X -> string) (n : X -> Z) : RelDecision (text_then t n).
Proof. intros a b. unfold text_then, text_le. apply _. Defined.

Definition order_by {X} (t : X -> string) (n : X -> Z) (l : list X) : list X := merge_sort (text_then t n) l.

(** [unnest(keys) WITH ORDINALITY]. *)
Definition with_ordinality (keys : list Z) : list (Z * Z) := imap (fun i k => (k, Z.of_nat (S i))) keys.

Definition in_names (names : list string) (n : string) : bool := existsb (String.eqb n) names.

Definition public_namespace (n : nat) (c : PgCatalog) : bool :=
  existsb (fun ns => (nsp_oid ns =? n)%nat && String.eqb (nspname ns) "public") (namespaces c).

Definition query_tables (c : PgCatalog) : list string :=
  map tv_name (List.filter (fun t => String.eqb (tv_schema t) "public" && String.eqb (tv_type t) "BASE TABLE") (table_views c)).

Definition query_columns (names : list string) (c : PgCatalog) : list RawColumnRow :=
  map cv_row (order_by (fun v => rc_table (cv_row v)) cv_ordinal
    (List.filter (fun v => String.eqb (cv_schema v) "public" && in_names names (rc_table (cv_row v))) (column_views c))).

Definition query_enums (c : PgCatalog) : list RawEnumRow :=
  map snd (order_by (fun r => re_name r.2) fst
    (types c ≫= fun t => pg_enums c ≫= fun e =>
       where_ ((enumtypid e =? type_oid t)%nat && public_namespace (typnamespace t) c)
         [(enumsortorder e, {| re_name := typname t; re_value := enumlabel e |})])).

(** An index of the tables of the snapshot that backs no constraint; two names
    are ordered as their texts with a NUL between. *)
Definition query_indexes (names : list string) (c : PgCatalog) : list RawIndexRow :=
  order_by (fun r => ri_table r +:+ String "000" (ri_index r)) ri_ord
    (pg_indexes c ≫= fun ix => classes c ≫= fun i => classes c ≫= fun t =>
       where_ ((class_oid i =? indexrelid ix)%nat && (class_oid t =? indrelid ix)%nat &&
               public_namespace (relnamespace t) c && in_names names (relname t) && negb (indisprimary ix) &&
               negb (existsb (fun k => (conindid k =? indexrelid ix)%nat) (constraints c)))
         (with_ordinality (indkey ix) ≫= fun k => attributes c ≫= fun a =>
            where_ ((attrelid a =? class_oid t)%nat && (attnum a =? k.1)%Z)
              [{| ri_index := relname i; ri_table := relname t; ri_unique := indisunique ix; ri_column := attname a;
                  ri_ord := k.2 |}])).

(** The join goes by the name of the constraint only. *)
Definition query_foreign_keys (names : list string) (c : PgCatalog) : list RawForeignKeyRow :=
  order_by rf_name rf_ord
    (table_constraints c ≫= fun tc =>
       where_ (String.eqb (tc_constraint_type tc) "FOREIGN KEY" && String.eqb (tc_table_schema tc) "public" &&
               in_names names (tc_table_name tc))
         (key_column_usage c ≫= fun kcu =>
            where_ (String.eqb (kcu_constraint_name kcu) (tc_constraint_name tc) &&
                    String.eqb (kcu_constraint_schema kcu) (tc_constraint_schema tc))
              (referential_constraints c ≫= fun rc =>
                 where_ (String.eqb (rc_constraint_name rc) (tc_constraint_name tc) &&
                         String.eqb (rc_constraint_schema rc) (tc_constraint_schema tc))
                   (constraint_column_usage c ≫= fun ccu =>
                      where_ (String.eqb (ccu_constraint_name ccu) (tc_constraint_name tc) &&
                              String.eqb (ccu_constraint_schema ccu) (tc_constraint_schema tc))
                        [{| rf_name := tc_constraint_name tc; rf_from := tc_table_name tc; rf_to := ccu_table_name ccu;
                            rf_col_from := kcu_column_name kcu; rf_col_to := ccu_column_name ccu;
                            rf_on_delete := delete_rule rc; rf_on_update := update_rule rc;
                            rf_ord := kcu_ordinal kcu |}])))).

Definition query_primary_keys (names : list string) (c : PgCatalog) : list RawPrimaryKeyRow :=
  order_by rp_table rp_ord
    (constraints c ≫= fun con => classes c ≫= fun t =>
       where_ (String.eqb (contype con) "p" && (class_oid t =? conrelid con)%nat &&
               public_namespace (relnamespace t) c && in_names names (relname t))
         (with_ordinality (conkey con) ≫= fun k => attributes c ≫= fun a =>
            where_ ((attrelid a =? conrelid con)%nat && (attnum a =? k.1)%Z)
              [{| rp_table := relname t; rp_column := attname a; rp_ord := k.2 |}])).

(** The six queries, and what is assembled of them. *)
Definition introspect (c : PgCatalog) (tableNames : list string) : RawIntrospection :=
  let names := match tableNames with [] => [""] | _ => tableNames end in
  {| raw_tables := query_tables c; raw_columns := query_columns names c; raw_enums := query_enums c;
     raw_indexes := query_indexes names c; raw_fks := query_foreign_keys names c;
     raw_pks := query_primary_keys names c |}.

Definition introspectLiveSchema (c : PgCatalog) (tableNames : list string) : CanonicalSchema :=
  assembleLiveSchema (introspect c tableNames).

(** ** Foreign keys *)

(** A foreign key of a database, and its rows in the views. *)
Record ForeignKey := {
  fk_name : string; fk_table : string; fk_target : string; fk_columns : list (string * string);
  fk_delete : string; fk_update : string }.

Definition constraint_rows (k : ForeignKey) : list TableConstraint :=
  [{| tc_constraint_schema := "public"; tc_constraint_name := fk_name k; tc_table_schema := "public";
      tc_table_name := fk_table k; tc_constraint_type := "FOREIGN KEY" |}].
Definition key_rows (k : ForeignKey) : list KeyColumnUsage :=
  imap (fun i p => {| kcu_constraint_schema := "public"; kcu_constraint_name := fk_name k; kcu_column_name := p.1;
                      kcu_ordinal := Z.of_nat (S i) |}) (fk_columns k).
Definition rule_rows (k : ForeignKey) : list ReferentialConstraint :=
  [{| rc_constraint_schema := "public"; rc_constraint_name := fk_name k; delete_rule := fk_delete k;
      update_rule := fk_update k |}].
Definition target_rows (k : ForeignKey) : list ConstraintColumnUsage :=
  map (fun p => {| ccu_constraint_schema := "public"; ccu_constraint_name := fk_name k;
                   ccu_table_name := fk_target k; ccu_column_name := p.2 |}) (fk_columns k).

(** The views of a catalog hold these foreign keys. *)
Definition holds_keys (ks : list ForeignKey) (c : PgCatalog) : Prop :=
  table_constraints c = ks ≫= constraint_rows /\ key_column_usage c = ks ≫= key_rows /\
  referential_constraints c = ks ≫= rule_rows /\ constraint_column_usage c = ks ≫= target_rows.

Lemma elem_of_where {X} b (rows : list X) x : x ∈ where_ b rows <-> b = true /\ x ∈ rows.
Proof. destruct b; simpl; [tauto|]. split; [intros H; by apply elem_of_nil in H|by intros []]. Qed.

Section keys.
Context (ks : list ForeignKey) (c : PgCatalog) (Hc : holds_keys ks c).
Context (Hnames : forall k k', k ∈ ks -> k' ∈ ks -> fk_name k = fk_name k' -> k = k').

Definition key_row (k : ForeignKey) (i : nat) (p q : string * string) : RawForeignKeyRow :=
  {| rf_name := fk_name k; rf_from := fk_table k; rf_to := fk_target k; rf_col_from := p.1; rf_col_to := q.2;
     rf_on_delete := fk_delete k; rf_on_update := fk_update k; rf_ord := Z.of_nat (S i) |}.

(** Where the names of constraints are unique, the query gives for every
    foreign key each of its columns with each of its targets. *)
Theorem foreign_key_rows names r :
  r ∈ query_foreign_keys names c <->
  exists k i p q, k ∈ ks /\ fk_table k ∈ names /\ fk_columns k !! i = Some p /\ q ∈ fk_columns k /\ r = key_row k i p q.
Proof.
  destruct Hc as (E1 & E2 & E3 & E4). unfold query_foreign_keys, order_by.
  rewrite (merge_sort_Permutation (text_then rf_name rf_ord)), E1, E2, E3, E4.
  split.
  - intros (tc & Hr & (k & Htc%list_elem_of_singleton & Hk)%list_elem_of_bind)%list_elem_of_bind. subst tc.
    apply elem_of_where in Hr as [[_ Ht%existsb_elem]%andb_true_iff Hr]. cbn in Ht.
    apply list_elem_of_bind in Hr as (kcu & Hr & (k2 & Hi & Hk2)%list_elem_of_bind).
    apply elem_of_lookup_imap in Hi as (i & p & -> & Hp).
    apply elem_of_where in Hr as [[E%String.eqb_eq _]%andb_true_iff Hr]. cbn in E. apply Hnames in E as ->; [|done..].
    apply list_elem_of_bind in Hr as (rc & Hr & (k3 & ->%list_elem_of_singleton & Hk3)%list_elem_of_bind).
    apply elem_of_where in Hr as [[E%String.eqb_eq _]%andb_true_iff Hr]. cbn in E. apply Hnames in E as ->; [|done..].
    apply list_elem_of_bind in Hr as (ccu & Hr & (k4 & (q & -> & Hq)%list_elem_of_fmap & Hk4)%list_elem_of_bind).
    apply elem_of_where in Hr as [[E%String.eqb_eq _]%andb_true_iff ->%list_elem_of_singleton]. cbn in E.
    apply Hnames in E as ->; [|done..]. by exists k, i, p, q.
  - intros (k & i & p & q & Hk & Ht & Hp & Hq & ->).
    apply list_elem_of_bind. eexists. split; [|apply list_elem_of_bind; exists k; split; [by left|done]].
    apply elem_of_where. split; [cbn; by apply existsb_elem|].
    apply list_elem_of_bind. eexists. split;
      [|apply list_elem_of_bind; exists k; split; [apply elem_of_lookup_imap; exists i, p; by split|done]].
    apply elem_of_where. split; [cbn; by rewrite String.eqb_refl|].
    apply list_elem_of_bind. eexists. split; [|apply list_elem_of_bind; exists k; split; [by left|done]].
    apply elem_of_where. split; [cbn; by rewrite String.eqb_refl|].
    apply list_elem_of_bind. eexists. split;
      [|apply list_elem_of_bind; exists k; split; [apply list_elem_of_fmap; exists q; by split|done]].
    apply elem_of_where. split; [cbn; by rewrite String.eqb_refl|]. by left.
Qed.

(** So a key of one column reads as it is. *)
Corollary single_key_rows names k r :
  k ∈ ks -> length (fk_columns k) = 1 -> r ∈ query_foreign_keys names c -> rf_name r = fk_name k ->
  exists p, fk_columns k = [p] /\ r = key_row k 0 p p.
Proof.
  intros Hk Hl (k' & i & p & q & Hk' & _ & Hp & Hq & ->)%foreign_key_rows E. cbn in E. apply Hnames in E as ->; [|done..].
  destruct (fk_columns k) as [|x [|]] eqn:Ek; [done| |done]. apply list_elem_of_singleton in Hq as ->.
  destruct i; [|done]. injection Hp as <-. by exists x.
Qed.
End keys.

(** ** A key of two columns *)

Definition pair_key : ForeignKey :=
  {| fk_name := "child_fk"; fk_table := "child"; fk_target := "parent"; fk_columns := [("a", "x"); ("b", "y")];
     fk_delete := "NO ACTION"; fk_update := "NO ACTION" |}.

Definition column (t n : string) (i : Z) : ColumnView :=
  {| cv_schema := "public"; cv_ordinal := i;
     cv_row := {| rc_table := t; rc_column := n; rc_data_type := "text"; rc_udt := "text"; rc_is_nullable := "NO";
                  rc_default := None; rc_length := None |} |}.

Definition pair_catalog : PgCatalog :=
  {| namespaces := [{| nsp_oid := 1; nspname := "public" |}]; classes := []; attributes := []; pg_indexes := [];
     constraints := []; types := []; pg_enums := [];
     table_views := [{| tv_schema := "public"; tv_name := "child"; tv_type := "BASE TABLE" |};
                     {| tv_schema := "public"; tv_name := "parent"; tv_type := "BASE TABLE" |}];
     column_views := [column "child" "a" 1; column "child" "b" 2; column "parent" "x" 1; column "parent" "y" 2];
     table_constraints := constraint_rows pair_key; key_column_usage := key_rows pair_key;
     referential_constraints := rule_rows pair_key; constraint_column_usage := target_rows pair_key |}.

Definition snapshot_column (n : string) : string * SnapshotColumn :=
  (n, {| sc_name := n; sc_type := "text"; sc_primaryKey := false; sc_notNull := true; sc_default := None |}).

Definition pair_snapshot : Snapshot :=
  let table n cols fks := ("public." +:+ n,
    {| st_name := n; st_columns := map snapshot_column cols; st_indexes := []; st_foreignKeys := fks;
       st_compositePrimaryKeys := []; st_uniqueConstraints := [] |}) in
  {| snap_tables := [table "child" ["a"; "b"] [("child_fk",
       {| sf_name := "child_fk"; sf_tableFrom := "child"; sf_tableTo := "parent"; sf_columnsFrom := ["a"; "b"];
          sf_columnsTo := ["x"; "y"]; sf_onDelete := None; sf_onUpdate := None |})]; table "parent" ["x"; "y"] []];
     snap_enums := [] |}.

(** The database is the snapshot, and drift is reported: the key reads as four
    columns. *)
Theorem composite_key_reads_as_drift :
  holds_keys [pair_key] pair_catalog /\
  dr_hasDrift (checkDrift (introspect pair_catalog) pair_snapshot 0) = true /\
  option_map (fun t => map (fun k => cf_columnsFrom k.2) (ct_foreignKeys t))
    (rget "child" (cs_tables (introspectLiveSchema pair_catalog ["child"; "parent"]))) = Some [["a"; "a"; "b"; "b"]].
Proof. split; [by split_and!|]. by vm_compute. Qed.
