(* ===== verification/Reports.v ===== *)
(** Reports of packages/db: the status of the migrations (renderStatusTable in
    migration-status.ts) with the ISO text of an instant
    (packages/shared/src/utils/time.ts), the paged listings and the batch
    insertion of the repositories.

    The length of a text is its number of code units below 256. *)
From S2P Require Import Prelude Json Shared Repos Drift Mediator.

(** ** Instants *)

(** The instants of a [Date]; the others are invalid. *)
Definition valid_date (ms : Z) : bool := (Z.abs ms <=? 8640000000000000)%Z.

Definition pad3 (n : Z) : string :=
  (if (n <? 10)%Z then "00" else if (n <? 100)%Z then "0" else "") +:+ string_of_Z n.

Definition pad6 (n : Z) : string := (if (n <? 10000)%Z then "00" else if (n <? 100000)%Z then "0" else "") +:+
  (if (n <? 10000)%Z then pad4 n else string_of_Z n).

Definition year_text (y : Z) : string :=
  if ((0 <=? y) && (y <=? 9999))%Z then pad4 y else (if (y <? 0)%Z then "-" else "+") +:+ pad6 (Z.abs y).

(** [new Date(ms).toISOString()] of a valid date. *)
Definition toIso (ms : Z) : string :=
  let '(y, m, d) := civil (ms / 86400000) in
  let r := (ms mod 86400000)%Z in
  year_text y +:+ "-" +:+ pad2 m +:+ "-" +:+ pad2 d +:+ "T" +:+ pad2 (r / 3600000) +:+ ":" +:+
  pad2 (r / 60000 mod 60) +:+ ":" +:+ pad2 (r / 1000 mod 60) +:+ "." +:+ pad3 (r mod 1000) +:+ "Z".

Definition formatAppliedAt (ms : option Z) : string :=
  match ms with
  | None => ""
  | Some ms => if valid_date ms then toIso ms else string_of_Z ms
  end.

(** ** The table *)

Definition status_text (s : MigrationState) : string :=
  match s with APPLIED => "APPLIED" | PENDING => "PENDING" | UNKNOWN => "UNKNOWN" end.

Definition HEADER : list string := ["IDX"; "TAG"; "STATUS"; "APPLIED AT"].

Definition cells (r : MigrationStatus) : list string :=
  [string_of_Z (ms_idx r); ms_tag r; status_text (ms_status r); formatAppliedAt (ms_appliedAt r)].

(** The width of a column: the longest of its cells and its heading. *)
Definition width (h : string) (column : list string) : nat :=
  fold_left Nat.max (map String.length column) (String.length h).

Definition widths (body : list (list string)) : list nat :=
  imap (fun col h => width h (map (fun line => line !! col ?? "") body)) HEADER.

Fixpoint spaces (n : nat) : string := match n with O => "" | S n => String " " (spaces n) end.
Fixpoint dashes (n : nat) : string := match n with O => "" | S n => String "-" (dashes n) end.

Definition padEnd (n : nat) (s : string) : string := s +:+ spaces (n - String.length s).

Definition trimEnd (s : string) : string := on_text (fun t => rev (drop_while is_space (rev t))) s.

Definition padded (ws : list nat) (cs : list string) : string := join " | " (zip_with padEnd ws cs).

Definition renderStatusTable (rows : list MigrationStatus) : string :=
  let body := map cells rows in
  let ws := widths body in
  let pad cs := trimEnd (padded ws cs) in
  join (String "010" "") ([pad HEADER; join "-+-" (map dashes ws)] ++ map pad body).

(** ** Alignment *)

Lemma spaces_length n : String.length (spaces n) = n.
Proof. induction n; simpl; congruence. Qed.

Lemma dashes_length n : String.length (dashes n) = n.
Proof. induction n; simpl; congruence. Qed.

Lemma padEnd_length n s : String.length s <= n -> String.length (padEnd n s) = n.
Proof. intros H. unfold padEnd. rewrite string_app_length, spaces_length. lia. Qed.

Lemma join_length sep (l : list string) :
  String.length (join sep l) = sum_list_with String.length l + String.length sep * (length l - 1).
Proof.
  induction l as [|x [|y l] IH]; [simpl; lia..|].
  change (join sep (x :: y :: l)) with (x +:+ sep +:+ join sep (y :: l)). rewrite !string_app_length, IH. simpl. lia.
Qed.

(** The cells fit their columns. *)
Definition fits (ws : list nat) (cs : list string) : Prop := Forall2 (fun w s => String.length s <= w) ws cs.

Lemma padded_length ws cs : fits ws cs -> String.length (padded ws cs) = sum_list ws + 3 * (length ws - 1).
Proof.
  intros H. unfold padded. rewrite join_length. change (String.length " | ") with 3.
  assert (E : map String.length (zip_with padEnd ws cs) = ws).
  { induction H as [|w s ws cs Hw H IH]; simpl; [done|]. by rewrite padEnd_length, IH. }
  assert (El : length (zip_with padEnd ws cs) = length ws) by (by rewrite <- E at 2; rewrite length_map).
  assert (Es : sum_list_with String.length (zip_with padEnd ws cs) = sum_list ws).
  { rewrite <- E at 2. generalize (zip_with padEnd ws cs). intros l. induction l; simpl; congruence. }
  by rewrite El, Es.
Qed.

Lemma width_bound h column s : s ∈ h :: column -> String.length s <= width h column.
Proof.
  unfold width. assert (Hm : forall l n, n <= fold_left Nat.max l n).
  { induction l as [|x l IH]; intros n; simpl; [lia|]. specialize (IH (n `max` x)). lia. }
  assert (Hin : forall l n x, x ∈ l -> x <= fold_left Nat.max l n).
  { induction l as [|y l IH]; intros n x Hx; [by apply elem_of_nil in Hx|]. simpl.
    apply elem_of_cons in Hx as [->|Hx]; [|by apply IH]. specialize (Hm l (n `max` y)). lia. }
  intros [->|Hs]%elem_of_cons; [apply Hm|]. apply Hin, list_elem_of_fmap. by exists s.
Qed.

Lemma widths_fit body cs : cs = HEADER \/ (cs ∈ body /\ length cs = 4) -> fits (widths body) cs.
Proof.
  intros H. unfold fits, widths, HEADER. cbn [imap].
  assert (Hc : forall i h s, HEADER !! i = Some h -> cs !! i = Some s ->
    String.length s <= width h (map (fun line => line !! i ?? "") body)).
  { intros i h s Hh Hs. apply width_bound. destruct H as [->|[Hb _]].
    - rewrite Hs in Hh. injection Hh as ->. by left.
    - right. apply list_elem_of_fmap. exists cs. by rewrite Hs. }
  assert (exists a b c d, cs = [a; b; c; d]) as (a & b & c & d & ->).
  { destruct H as [->|[_ Hl]]; [by do 4 eexists|]. destruct cs as [|? [|? [|? [|? [|]]]]]; try done. by do 4 eexists. }
  repeat constructor; [by apply (Hc 0)|by apply (Hc 1)|by apply (Hc 2)|by apply (Hc 3)].
Qed.

(** The table is of fixed width: before their trailing blanks go, its heading
    and all of its rows have the length of the rule. *)
Theorem status_table_is_aligned rows :
  let body := map cells rows in
  let rule := join "-+-" (map dashes (widths body)) in
  Forall (fun cs => String.length (padded (widths body) cs) = String.length rule) (HEADER :: body).
Proof.
  cbn zeta. apply Forall_forall. intros cs Hcs. rewrite padded_length.
  - rewrite join_length, length_map. change (String.length "-+-") with 3. f_equal.
    generalize (widths (map cells rows)). intros ws. induction ws; simpl; [done|]. rewrite dashes_length. congruence.
  - apply widths_fit. apply elem_of_cons in Hcs as [->|H]; [by left|right]. split; [done|].
    apply list_elem_of_fmap in H as (r & -> & _). done.
Qed.

Example status_table_demo :
  renderStatusTable [{| ms_idx := 0; ms_tag := "0000_init"; ms_status := APPLIED; ms_appliedAt := Some 1767225599999%Z; ms_hash := None |};
                     {| ms_idx := 1; ms_tag := "0001_x"; ms_status := PENDING; ms_appliedAt := None; ms_hash := None |}] =
  join (String "010" "")
    ["IDX | TAG       | STATUS  | APPLIED AT"; "----+-----------+---------+-------------------------";
     "0   | 0000_init | APPLIED | 2025-12-31T23:59:59.999Z"; "1   | 0001_x    | PENDING |"].
Proof. by vm_compute. Qed.

Example iso_demo :
  toIso 0 = "1970-01-01T00:00:00.000Z" /\ toIso (-1) = "1969-12-31T23:59:59.999Z" /\
  toIso 253402300800000 = "+010000-01-01T00:00:00.000Z" /\ formatAppliedAt (Some 8640000000000001%Z) = "8640000000000001".
Proof. by vm_compute. Qed.

(** ** The listings and the batch insertion of the repositories
    (packages/db/src/repositories/session-repo.ts, run-repo.ts, message-repo.ts)

    A row carries the time of its creation; rows of one time keep the order of
    the table, where SQL leaves it open. *)

(** A row with [created_at]. *)
Record Row (X : Type) := { row_record : X; row_createdAt : Z }.
Arguments row_record {X}. Arguments row_createdAt {X}.

Definition newest_first {X} (a b : Row X) : Prop := (row_createdAt b <= row_createdAt a)%Z.
Definition oldest_first {X} (a b : Row X) : Prop := (row_createdAt a <= row_createdAt b)%Z.
#[export] Instance newest_first_dec {X} : RelDecision (@newest_first X).
Proof. intros a b. unfold newest_first. apply _. Defined.
#[export] Instance oldest_first_dec {X} : RelDecision (@oldest_first X).
Proof. intros a b. unfold oldest_first. apply _. Defined.

(** [{ limit = 50, offset = 0 } = opts]. *)
Record Page := { pg_limit : option nat; pg_offset : option nat }.
Definition limit_of (p : Page) : nat := pg_limit p ?? 50.
Definition offset_of (p : Page) : nat := pg_offset p ?? 0.

(** [WHERE ... ORDER BY created_at DESC LIMIT ... OFFSET ...]. *)
Definition select_desc {X} (keep : X -> bool) (t : list (Row X)) : list X :=
  map row_record (merge_sort newest_first (List.filter (fun r => keep (row_record r)) t)).
Definition select_asc {X} (keep : X -> bool) (t : list (Row X)) : list X :=
  map row_record (merge_sort oldest_first (List.filter (fun r => keep (row_record r)) t)).
Definition paged {X} (p : Page) (l : list X) : list X := take (limit_of p) (drop (offset_of p) l).

Definition sessions_listByAgent (agentId : string) (p : Page) (t : list (Row SessionRecord)) : list SessionRecord :=
  paged p (select_desc (fun s => String.eqb (ses_agentId s) agentId) t).

Definition sessions_listByUser (userId : string) (p : Page) (t : list (Row SessionRecord)) : list SessionRecord :=
  paged p (select_desc (fun s => bool_decide (ses_userId s = Some userId)) t).

Definition runs_listBySession (sessionId : string) (t : list (Row RunRecord)) : list RunRecord :=
  select_desc (fun r => String.eqb (run_sessionId r) sessionId) t.

Definition messages_listByRun (runId : string) (t : list (Row MessageRecord)) : list MessageRecord :=
  select_asc (fun m => bool_decide (msg_runId m = Some runId)) t.

(** One INSERT of many rows: all of them, or none. *)
Definition messages_createBatch (records : list MessageRecord) (db : Db) : res error (list MessageRecord * Db) :=
  match records with
  | [] => Ok ([], db)
  | _ => let? db' := fold_left (fun r m => let? db := r in messages_create m db) records (Ok db) in Ok (records, db')
  end.

(** ** What is listed *)

Section listing.
Context {X : Type}.
Implicit Types (t : list (Row X)) (keep : X -> bool).

Lemma select_members keep t x : x ∈ select_desc keep t <-> exists r, r ∈ t /\ row_record r = x /\ keep x = true.
Proof.
  unfold select_desc. rewrite list_elem_of_fmap. setoid_rewrite (merge_sort_Permutation newest_first). split.
  - intros (r & -> & [Hr Hk]%list_elem_of_In%filter_In). exists r. split_and!; [by apply list_elem_of_In|done|done].
  - intros (r & Hr & <- & Hk). exists r. split; [done|]. apply list_elem_of_In, filter_In. by rewrite <- list_elem_of_In.
Qed.

Definition page (size i : nat) (l : list X) : list X :=
  paged {| pg_limit := Some size; pg_offset := Some (i * size) |} l.

Lemma pages_prefix size l n : concat (map (fun i => page size i l) (seq 0 n)) = take (n * size) l.
Proof.
  induction n as [|n IH]; [done|]. rewrite seq_S, map_app, concat_app, IH. cbn [map concat Nat.add]. rewrite app_nil_r.
  unfold page, paged, limit_of, offset_of. cbn [pg_limit pg_offset default]. rewrite take_take_drop. f_equal. simpl. lia.
Qed.
End listing.

(** Paging reaches every session of the agent, once: the pages of one size, one
    after the other, are the whole listing, newest first. *)
Theorem pages_cover_the_listing agentId size n t :
  length (select_desc (fun s => String.eqb (ses_agentId s) agentId) t) <= n * size ->
  concat (map (fun i => sessions_listByAgent agentId {| pg_limit := Some size; pg_offset := Some (i * size) |} t) (seq 0 n)) =
    select_desc (fun s => String.eqb (ses_agentId s) agentId) t.
Proof.
  intros H. unfold sessions_listByAgent. set (l := select_desc _ _) in *.
  change (concat (map (fun i => page size i l) (seq 0 n)) = l). rewrite pages_prefix. by apply take_ge.
Qed.

(** A page is no longer than its limit, and its sessions are of the agent. *)
Theorem page_is_bounded agentId p t :
  length (sessions_listByAgent agentId p t) <= limit_of p /\
  Forall (fun s => ses_agentId s = agentId) (sessions_listByAgent agentId p t).
Proof.
  unfold sessions_listByAgent, paged. split; [rewrite length_take; lia|]. apply Forall_take, Forall_drop, Forall_forall.
  intros s (r & _ & _ & H)%select_members. by apply String.eqb_eq.
Qed.

Lemma batch_fold ms : forall r, fold_left (fun r m => let? db := r in messages_create m db) ms (Err r) = @Err error Db r.
Proof. induction ms as [|m ms IH]; intros r; [done|]. apply IH. Qed.

(** A batch is the insertion of its messages one by one, or nothing. *)
Theorem batch_is_sequential m ms db :
  messages_createBatch (m :: ms) db =
  match messages_create m db with
  | Err e => Err e
  | Ok db' => match messages_createBatch ms db' with Ok (l, db'') => Ok (m :: ms, db'') | Err e => Err e end
  end.
Proof.
  unfold messages_createBatch. cbn [fold_left res_bind]. destruct (messages_create m db) as [db'|e]; cbn [res_bind].
  - destruct ms as [|m' ms]; [done|]. by destruct (fold_left _ _ _).
  - by rewrite batch_fold.
Qed.
