(* ===== verification/ApiFrame.v ===== *)
(** A request of the REST API changes the rows of its workspace only (see
    [Api]), whatever the other processes do meanwhile.  The last part is the
    assembly of the API server (packages/api/src/server.ts). *)
From S2P Require Import Prelude Json Shared Effects Observability Repos RunService Store Dto Api Management Gateway Spend Retention ApiProps.
From stdpp Require Import relations.
Local Open Scope eff_scope.

(** ** The clean-up of the database is such a process *)

Lemma conforms_fewer A s s' :
  db_agents (st_db s') = db_agents (st_db s) -> db_sessions (st_db s') ⊆ db_sessions (st_db s) ->
  db_runs (st_db s') ⊆ db_runs (st_db s) -> st_traces s' ⊆ st_traces s -> kept A s s'.
Proof.
  intros E1 E2 E3 E4 [C1 C2 C3 C4 [K1 K2]].
  split; [..|split]; rewrite ?E1; intros i x H; eauto using lookup_weaken.
Qed.

Lemma statement_kept A statement window cutoff h a d d' :
  List.In (statement, window) (statements h a) -> statement cutoff d = Ok d' -> kept A (pg_store d) (pg_store d').
Proof.
  intros Hin E.
  repeat (destruct Hin as [[= <- <-]|Hin]; [revert E|]); [..|done];
    unfold delete_spans, delete_traces, delete_toolCalls, delete_messages, delete_runs, delete_sessions,
      delete_reservations; repeat (case_match; [done|]); intros [= <-];
    apply conforms_fewer; try done; apply map_filter_subseteq.
Qed.

Lemma statements_kept A w k todo d :
  (forall k d, kept A (pg_store d) (pg_store (su_moves w k d))) ->
  (exists h a, todo `suffix_of` statements h a) -> kept A (pg_store d) (pg_store (run_statements w k todo d).2).
Proof.
  intros Hm. revert k d. induction todo as [|[statement window] todo IH]; intros k d (h & a & Hs); simpl; [done|].
  etrans; [apply (Hm k)|]. destruct (su_refuses w k); [done|]. set (d1 := su_moves w k d).
  destruct (statement _ d1) as [d'|e] eqn:E; [|done]. etrans.
  - eapply statement_kept; [|exact E]. destruct Hs as [pre Hs]. rewrite Hs. apply in_app_iff. right. by left.
  - apply IH. exists h, a. etransitivity; [|exact Hs]. by exists [(statement, window)].
Qed.

(** A clean-up of the database, at any time, leaves rows that are what their ids
    stand for: it is one of the processes that a request is answered beside. *)
Theorem cleanup_keeps_ids A env w d :
  (forall k d, kept A (pg_store d) (pg_store (su_moves w k d))) -> kept A (pg_store d) (pg_store (main env w d).2).
Proof.
  intros Hm. unfold main. repeat (case_match; try done). apply statements_kept; [done|]. by eexists _, _.
Qed.

(** ** What a statement may change *)

(** A row that is new or the workspace's, and is the workspace's afterwards. *)
Definition taken (ws : string) (before after : option string) : Prop :=
  (before = None \/ before = Some ws) /\ after = Some ws.

(** One step of a request of the workspace [ws]: agents and sessions that it has
    or makes; of the run service, the locks of its sessions, and the entries of
    its runs or of a run whose id is newly minted.  All other tables stay. *)
Record own (A : Ids) (P : Peers) (ws : string) (s s' : Store) : Prop := {
  own_agents : forall i,
    (db_agents (st_db s') !! i = db_agents (st_db s) !! i /\ st_agentTimes s' !! i = st_agentTimes s !! i) \/
    taken ws (agent_owner s i) (agent_owner s' i);
  own_sessions : forall i,
    (db_sessions (st_db s') !! i = db_sessions (st_db s) !! i /\ st_metadata s' !! i = st_metadata s !! i) \/
    (db_sessions (st_db s) !! i = None /\ session_owner s' i = Some ws) \/
    (session_workspace A i = ws /\ session_owner s' i = session_owner s i);
  own_tables :
    db_runs (st_db s') = db_runs (st_db s) /\ db_messages (st_db s') = db_messages (st_db s) /\
    db_toolCalls (st_db s') = db_toolCalls (st_db s) /\ st_traces s' = st_traces s /\ st_spans s' = st_spans s /\
    st_keys s' = st_keys s /\ st_workspaces s' = st_workspaces s /\ st_users s' = st_users s /\
    st_members s' = st_members s;
  own_runs : forall r,
    (tasks (st_svc s') !! r = tasks (st_svc s) !! r /\ activeRuns (st_svc s') !! r = activeRuns (st_svc s) !! r /\
     (r ∈ cancelledRuns (st_svc s') <-> r ∈ cancelledRuns (st_svc s))) \/
    run_workspace A r = ws \/ exists n, r = prefixedId PREFIX_RUN (nanoid P n);
  own_locks : forall i,
    SessionLock.locks (sessionLock (st_svc s')) !! i = SessionLock.locks (sessionLock (st_svc s)) !! i \/
    session_workspace A i = ws }.

(** A statement on the agents and sessions alone leaves the service as it is. *)
Lemma own_rows A P ws s s' :
  (forall i,
    (db_agents (st_db s') !! i = db_agents (st_db s) !! i /\ st_agentTimes s' !! i = st_agentTimes s !! i) \/
    taken ws (agent_owner s i) (agent_owner s' i)) ->
  (forall i,
    (db_sessions (st_db s') !! i = db_sessions (st_db s) !! i /\ st_metadata s' !! i = st_metadata s !! i) \/
    (db_sessions (st_db s) !! i = None /\ session_owner s' i = Some ws) \/
    (session_workspace A i = ws /\ session_owner s' i = session_owner s i)) ->
  (db_runs (st_db s') = db_runs (st_db s) /\ db_messages (st_db s') = db_messages (st_db s) /\
    db_toolCalls (st_db s') = db_toolCalls (st_db s) /\ st_traces s' = st_traces s /\ st_spans s' = st_spans s /\
    st_keys s' = st_keys s /\ st_workspaces s' = st_workspaces s /\ st_users s' = st_users s /\
    st_members s' = st_members s) ->
  (tasks (st_svc s') = tasks (st_svc s) /\ activeRuns (st_svc s') = activeRuns (st_svc s) /\
   cancelledRuns (st_svc s') = cancelledRuns (st_svc s) /\ sessionLock (st_svc s') = sessionLock (st_svc s)) ->
  own A P ws s s'.
Proof.
  intros Ha Hs Ht (E1 & E2 & E3 & E4). split; [done..| |]; rewrite ?E1, ?E2, ?E3, ?E4; intros; by left.
Qed.

Lemma update_own A P ws i f now s :
  conforms A s -> id_workspace A i = ws -> (forall a, ag_workspaceId (f a) = ag_workspaceId a) ->
  own A P ws s (agents_update i f now s).2.
Proof.
  intros C Hw Hf. unfold agents_update. destruct (db_agents (st_db s) !! i) as [a|] eqn:E; simpl.
  - assert (Ho : agent_owner s i = Some ws).
    { unfold agent_owner. rewrite E. simpl. by rewrite (cf_agents _ _ C _ _ E), Hw. }
    apply own_rows; [|by left|done..]. intros j. destruct (decide (i = j)) as [<-|Hne].
    + right. split; [by right|]. unfold agent_owner. simpl. rewrite lookup_insert_eq. simpl. rewrite Hf.
      unfold agent_owner in Ho. by rewrite E in Ho.
    + left. simpl. by rewrite !lookup_insert_ne.
  - apply own_rows; by try left.
Qed.

Lemma create_own A P ws a now s s' :
  ag_workspaceId a = ws -> agents_create a now s = Ok s' -> own A P ws s s'.
Proof.
  intros <-. unfold agents_create. case_bool_decide as Hd; [done|]. destruct (negb _); [done|].
  destruct (existsb _ _); [done|]. intros [= <-]. apply own_rows; [|by left|done..].
  intros j. destruct (decide (ag_agentId a = j)) as [<-|Hne].
  - right. unfold taken, agent_owner. simpl. rewrite lookup_insert_eq. simpl. split; [|done]. left.
    apply fmap_None. by apply eq_None_not_Some.
  - left. simpl. by rewrite !lookup_insert_ne.
Qed.

Lemma session_create_own A P ws x m s s' :
  conforms A s -> id_workspace A (ses_agentId x) = ws -> sessions_create x m s = Ok s' -> own A P ws s s'.
Proof.
  intros C Hw. unfold sessions_create. case_bool_decide as Hd; [done|].
  case_bool_decide as Ha; [|done]. destruct Ha as [a Ha]. intros [= <-].
  apply own_rows; [by left| |done..]. intros j. destruct (decide (ses_sessionId x = j)) as [<-|Hne].
  - right. left. split; [by apply eq_None_not_Some|]. unfold session_owner, agent_owner. simpl.
    rewrite lookup_insert_eq. simpl. rewrite Ha. simpl. by rewrite (cf_agents _ _ C _ _ Ha), Hw.
  - left. simpl. by rewrite !lookup_insert_ne.
Qed.

Lemma session_update_own A P ws i st s :
  session_workspace A i = ws -> own A P ws s (sessions_updateStatus i st s).2.
Proof.
  intros Ho. unfold sessions_updateStatus. destruct (db_sessions (st_db s) !! i) as [x|] eqn:E; simpl.
  - apply own_rows; [by left| |done..]. intros j. destruct (decide (i = j)) as [<-|Hne].
    + right. right. split; [done|]. unfold session_owner. simpl. by rewrite lookup_insert_eq, E.
    + left. simpl. by rewrite !lookup_insert_ne.
  - apply own_rows; by try left.
Qed.

Lemma start_own A P ws n sid c s v :
  session_workspace A sid = ws -> start (prefixedId PREFIX_RUN (nanoid P n)) sid c false (st_svc s) = Ok v ->
  own A P ws s (set_svc v s).
Proof.
  intros Ho. unfold start. destruct (SessionLock.acquire _ _ _) as [l|] eqn:El; [|done]. intros [= <-].
  split; simpl; [by left|by left|done| |].
  - intros r. destruct (decide (prefixedId PREFIX_RUN (nanoid P n) = r)) as [<-|Hne]; [right; right; by eexists|].
    left. by rewrite !lookup_insert_ne.
  - intros i. rewrite (SessionLock.acquire_holder _ _ _ _ i El). case_decide; [by subst; right|by left].
Qed.

Lemma cancel_own A P ws r s : run_workspace A r = ws -> own A P ws s (set_svc (requestCancel r (st_svc s)) s).
Proof.
  intros Ho. unfold requestCancel. destruct (activeRuns _ !! r) eqn:E; split; simpl; unfold st_db; simpl; try done; try by left.
  intros x. destruct (decide (r = x)) as [<-|Hne]; [by right; left|]. left. rewrite lookup_insert_ne by done.
  split_and!; [done|done|]. set_solver.
Qed.

(** ** Along a request *)

Section requests.
Context (A : Ids) (P : Peers) (Hids : forall n s, kept A s (others P n s)).
Context (sha256 : string -> string).
Context (is_url fraction_in_0_2 : string -> bool) (other_number : string -> option Z).
Context (sign : json -> string) (publicWebsocketUrl : string).
Context (match_route : string -> string -> option Route).

(** A move of the other processes. *)
Definition theirs (s s' : Store) : Prop := exists n, s' = others P n s.

Definition serves (ws : string) : Store -> Store -> Prop := rtc (fun s s' => theirs s s' \/ own A P ws s s').

#[local] Instance serves_refl ws : Reflexive (serves ws).
Proof. intros s. apply rtc_refl. Qed.
#[local] Instance serves_trans ws : Transitive (serves ws).
Proof. unfold serves. apply _. Qed.

(** The hook reads only. *)
Lemma auth_only rq w o w1 : authenticate P sha256 rq w = (o, w1) -> rtc theirs (w_store w) (w_store w1).
Proof.
  intros E. eapply (ran_moves (along (rtc theirs))); [|exact E].
  assert (Ht : forall n s, rtc theirs s (others P n s)) by (intros; apply rtc_once; by eexists).
  unfold authenticate. own; exact Ht.
Qed.

Context (ws : string).

Lemma others_serve n s : serves ws s (others P n s).
Proof. apply rtc_once. left. by exists n. Qed.

Lemma own_serve s s' : own A P ws s s' -> serves ws s s'.
Proof. intros H. apply rtc_once. by right. Qed.

Abbreviation go := (along (serves ws)).

Lemma go_bind {X Y} (m : Api.A X) (f : X -> Api.A Y) w :
  go w (m w).2 -> (forall x w1, m w = (Ret x, w1) -> go w1 (f x w1).2) -> go w (bind m f w).2.
Proof.
  unfold bind. destruct (m w) as [[x|e|] w1] eqn:E; simpl; [|done..]. intros H Hf. by etrans; [|apply Hf].
Qed.

Lemma go_query {X} (f : Store -> res error (X * Store)) w :
  (forall n x s', f (others P n (w_store w)) = Ok (x, s') -> own A P ws (others P n (w_store w)) s') ->
  go w (query P f w).2.
Proof.
  intros Hf. unfold query, along. set (s := others P _ _). destruct (refuses P _); [apply others_serve|].
  destruct (f s) as [[x s']|e] eqn:E; [|apply others_serve]. simpl. etrans; [apply others_serve|].
  by eapply own_serve, Hf.
Qed.

Ltac reading lem := apply lem; [apply _..|exact others_serve].

Lemma go_agent n w : go w (agent_getByName P ws n w).2.
Proof. reading @agent_getByName_moves. Qed.

Lemma go_session i w : go w (getSession P ws i w).2.
Proof. reading @getSession_moves. Qed.

Lemma go_run i w : go w (assertRunOwnership P ws i w).2.
Proof. reading @getRun_moves. Qed.

Lemma go_select {X} (f : Store -> X) w : go w (select P f w).2.
Proof. reading @select_moves. Qed.

Lemma go_register b w : conforms A (w_store w) -> go w (registerOrUpdateAgent P ws b w).2.
Proof.
  intros C. unfold registerOrUpdateAgent. apply go_bind; [apply go_select|]. intros o w1 H1.
  apply (select_conforms A P Hids) in H1 as (-> & C1); [|done]. apply go_bind; [unfold along; simpl; reflexivity|].
  intros now w2 [= <- <-]. destruct (agents_getByName _ _ _) as [a|] eqn:Ea.
  - apply getByName_row in Ea as (Ha & Hw & _); [|apply C1].
    apply go_bind; [|intros [u|] w3 _; unfold along; simpl; reflexivity]. apply go_query. intros n x s'.
    match goal with |- context [agents_update ?i ?f ?t ?s] => assert (K : own A P ws s (agents_update i f t s).2) end.
    { apply update_own; [by apply Hids| |done]. rewrite <- Hw. symmetry. by apply (cf_agents _ _ C1). }
    destruct (agents_update _ _ _ _) as [r s1]. by intros [= _ <-].
  - apply go_bind; [unfold along; simpl; reflexivity|]. intros i w3 [= <- <-]. apply go_query. intros n x s'.
    match goal with |- context [agents_create ?a ?t ?s] => destruct (agents_create a t s) eqn:E; simpl; [|done] end.
    intros [= _ <-]. by eapply create_own in E.
Qed.

Lemma go_createSession b w : conforms A (w_store w) -> go w (createSession P ws b w).2.
Proof.
  intros C. unfold createSession. apply go_bind; [apply go_agent|]. intros a w1 H1.
  apply (agent_named A P Hids) in H1 as (Ha & Hw & C1); [|done].
  apply go_bind; [unfold along; simpl; reflexivity|]. intros i w2 [= <- <-].
  apply go_bind; [|intros u w3 _; unfold along; simpl; reflexivity]. apply go_query. intros n x s'.
  match goal with |- context [sessions_create ?y ?m ?s] => destruct (sessions_create y m s) eqn:E; simpl; [|done] end.
  intros [= _ <-]. eapply session_create_own in E; [exact E|by apply Hids|done].
Qed.

Lemma go_updateSession i st w : conforms A (w_store w) -> go w (updateSession P ws i st w).2.
Proof.
  intros C. unfold updateSession. apply go_bind; [apply go_session|]. intros x w1 H1.
  apply (session_owned A P Hids) in H1 as (Ho & _ & _); [|done]. destruct st as [st|]; [|apply go_session].
  apply go_bind; [|intros [u|] w3 _; unfold along; simpl; reflexivity]. apply go_query. intros n y s' [= E].
  match type of E with _ = _ => pose proof (session_update_own A P ws i st (others P n (w_store w1))) as K end.
  rewrite E in K. by apply K.
Qed.

Lemma go_service (f : Service -> res error Service) w :
  (forall v, f (st_svc (w_store w)) = Ok v -> own A P ws (w_store w) (set_svc v (w_store w))) ->
  go w (call_service f w).2.
Proof.
  intros Hf. unfold call_service, along. destruct (f _) as [v|] eqn:E; simpl; [|reflexivity]. by apply own_serve, Hf.
Qed.

Lemma go_createRun i c w : conforms A (w_store w) -> go w (createRun P ws i c w).2.
Proof.
  intros C. unfold createRun. apply go_bind; [apply go_session|]. intros x w1 H1.
  apply (session_owned A P Hids) in H1 as (Ho & _ & _); [|done].
  apply go_bind; [unfold along; simpl; reflexivity|]. intros r w2 [= <- <-]. apply go_bind.
  - apply go_service. simpl. intros v. by apply start_own.
  - intros u w3 _. apply go_bind; [reading @await_moves|]. intros u' w4 _. unfold along; simpl; reflexivity.
Qed.

Lemma go_cancelRun i w : conforms A (w_store w) -> go w (cancelRun P ws i w).2.
Proof.
  intros C. unfold cancelRun. apply go_bind; [apply go_run|]. intros x w1 H1.
  apply (run_owned A P Hids) in H1 as (Ho & _ & _); [|done]. apply go_service. intros v [= <-]. by apply cancel_own.
Qed.

Lemma go_parse {X} (schema : json -> option X) b w : go w (parse_body schema b w).2.
Proof. apply parse_body_moves. apply _. Qed.

Lemma go_handle r rq w :
  conforms A (w_store w) ->
  go w (handle P is_url fraction_in_0_2 other_number sign publicWebsocketUrl ws r rq w).2.
Proof.
  intros Hk.
  assert (Hp : forall {X} (schema : json -> option X) b w1 x, parse_body schema b w = (Ret x, w1) -> w1 = w).
  { intros X schema b w1 x. unfold parse_body. destruct (b ≫= schema); [by intros [= _ <-]|done]. }
  destruct r; simpl;
    try (unfold get_agent, get_agents, get_session, get_messages, get_run, get_tool_calls, get_trace, get_spans,
           get_metrics, getRun, getRunToolCalls, listMessages;
         match goal with |- context [(?m w).2] => cut (moves go m); [intros H; apply H|] end; own;
         first [reading @agent_getById_moves|reading @agent_getByName_moves|reading @getRun_moves
               |reading @getSession_moves|exact others_serve]; fail).
  - apply go_bind; [apply go_parse|]. intros b w1 ->%Hp.
    apply go_bind; [by apply go_register|]. intros; unfold along; simpl; reflexivity.
  - apply go_bind; [apply go_parse|]. intros b w1 ->%Hp.
    apply go_bind; [by apply go_createSession|]. intros; unfold along; simpl; reflexivity.
  - apply go_bind; [apply go_parse|]. intros b w1 ->%Hp.
    apply go_bind; [by apply go_updateSession|]. intros; unfold along; simpl; reflexivity.
  - apply go_bind; [apply go_parse|]. intros b w1 ->%Hp.
    apply go_bind; [by apply go_createRun|]. intros; unfold along; simpl; reflexivity.
  - apply go_bind; [by apply go_cancelRun|]. intros; unfold along; simpl; reflexivity.
Qed.
End requests.

(** C40: a request changes the rows of its workspace only.  Whatever the request,
    whatever becomes of it and however the other processes move the store
    meanwhile (they make, change and delete rows, and use no id twice), the store
    moves by their moves alone when the request carries no
    valid key, and otherwise by their moves and by statements that leave every
    row of another workspace, every other table, and the runs and locks of other
    workspaces' sessions as they are. *)
Theorem request_changes_only_its_workspace A P (Hids : forall n s, kept A s (others P n s))
    sha256 is_url fraction_in_0_2 other_number sign publicWebsocketUrl match_route rq token w o w' :
  bearer (rq_authorization rq) = Ok token -> skips_auth (rq_url rq) = false -> conforms A (w_store w) ->
  serve_request P sha256 is_url fraction_in_0_2 other_number sign publicWebsocketUrl match_route rq w = (o, w') ->
  rtc (theirs P) (w_store w) (w_store w') \/
  exists k, keys_getByKeyHash (sha256 token) (others P (w_tick w) (w_store w)) = Some k /\
    ak_revokedAt k = None /\ serves A P (ak_workspaceId k) (w_store w) (w_store w').
Proof.
  intros Hb Hs Hk E.
  assert (Hw : w' = (bind (authenticate P sha256 rq) (fun who =>
    match match_route (rq_method rq) (rq_url rq), who with
    | Some GET_health, _ => ret (send health_body)
    | Some (api r), Some workspaceId =>
        handle P is_url fraction_in_0_2 other_number sign publicWebsocketUrl workspaceId r rq
    | _, _ => ret (not_found ("Route " +:+ rq_method rq +:+ ":" +:+ rq_url rq +:+ " not found"))
    end) w).2).
  { revert E. unfold serve_request, try_catch. destruct (bind _ _ _) as [[r|e|] w1]; by intros [= _ <-]. }
  subst w'. clear E.
  destruct (authenticate P sha256 rq w) as [a w1] eqn:Ea. destruct a as [who|e|].
  - pose proof Ea as Ea'. eapply authenticate_ret in Ea' as (k & H1 & H2 & -> & H3 & _); [|exact Hb|exact Hs].
    right. exists k. rewrite <- H3. split_and!; [done|done|]. apply go_bind.
    + rewrite Ea. unfold along. simpl. rewrite H3. apply others_serve.
    + intros who w2. rewrite Ea. intros [= <- <-].
      destruct (match_route _ _) as [[|r]|]; [reflexivity| |reflexivity]. apply go_handle; [exact Hids|].
      rewrite H3. by apply Hids.
  - left. unfold bind. rewrite Ea. by eapply auth_only.
  - left. unfold bind. rewrite Ea. by eapply auth_only.
Qed.

(** ** An instance *)

Definition request_close : Request :=
  {| rq_method := "PATCH"; rq_url := "/v1/sessions/ses_1"; rq_authorization := Some "Bearer secret";
     rq_body := Some (JObj [("status", JStr "closed")]); rq_query := JObj [] |}.

Definition serve_close : Request -> A Response :=
  serve_request alone (fun s => s) no_text no_text no_number stringify "wss://x"
    (fun _ _ => Some (api (PATCH_session "ses_1"))).

Lemma request_changes_only_its_workspace_witness :
  ses_status <$> db_sessions (st_db (w_store (serve_close request_close world_1).2)) !! "ses_1" = Some closed /\
  (rtc (theirs alone) store_1 (w_store (serve_close request_close world_1).2) \/
   exists k, keys_getByKeyHash "secret" store_1 = Some k /\ ak_revokedAt k = None /\
     serves ids_1 alone (ak_workspaceId k) store_1 (w_store (serve_close request_close world_1).2)).
Proof.
  split; [vm_compute; reflexivity|].
  exact (request_changes_only_its_workspace ids_1 alone (fun _ _ H => H) (fun s => s) no_text no_text
    no_number stringify "wss://x" (fun _ _ => Some (api (PATCH_session "ses_1"))) request_close "secret" world_1
    (serve_close request_close world_1).1 (serve_close request_close world_1).2 eq_refl eq_refl conforms_1
    (surjective_pairing _)).
Defined.

(** ** The assembly of the API server (packages/api/src/server.ts)

    Which routes are mounted, the URL that clients are told, and the header of
    every response.  The two routers are arguments: what the framework matches
    on a method and a URL. *)

Definition LOCAL_ONLY_WEBSOCKET_URL : string := "ws://localhost:3001".

Record BuildAppOptions := {
  bo_publicWebsocketUrl : option string; bo_cognitoIssuerUrl : option string; bo_cognitoClientId : option string;
  bo_registerRootHealth : option bool }.

Definition given (v : option string) : bool := match v with Some s => negb (String.eqb s "") | None => false end.

(** [opts.cognitoIssuerUrl && opts.cognitoClientId]. *)
Definition management_mounted (opts : BuildAppOptions) : bool :=
  given (bo_cognitoIssuerUrl opts) && given (bo_cognitoClientId opts).

Definition websocket_url (opts : BuildAppOptions) : string := bo_publicWebsocketUrl opts ?? LOCAL_ONLY_WEBSOCKET_URL.

(** The two answers of the server, under one header. *)
Inductive ServerResponse : Type := from_api (r : Response) | from_management (r : ManagementResponse).

Definition response_status (r : ServerResponse) : Z :=
  match r with from_api r => rs_status r | from_management r => mr_status r end.

Record Sent := { sent_response : ServerResponse; sent_headers : list (string * string) }.

(** The hook [onSend]. *)
Definition on_send (r : ServerResponse) : Sent :=
  {| sent_response := r; sent_headers := [(PROTOCOL_HEADER, API_PROTOCOL_VERSION)] |}.

(** The hook [onRequest] of request-id.ts: the caller's id, or a new one. *)
Definition request_id (header : option string) (randomUUID : string) : string := header ?? randomUUID.

Section server.
Context (opts : BuildAppOptions).
Context (P : Peers) (sha256 : string -> string) (is_url fraction_in_0_2 : string -> bool) (other_number : string -> option Z).
Context (sign : json -> string) (jwtVerify : string -> option json).
Context (match_route : string -> string -> option Route) (match_management : string -> string -> option ManagementRoute).

(** Root [/health] is there unless the host has its own. *)
Definition mounted_route (method url : string) : option Route :=
  match match_route method url with
  | Some GET_health =>
      if String.eqb (path_of url) "/health" && negb (bo_registerRootHealth opts ?? true) then None else Some GET_health
  | r => r
  end.

Definition management_route (method url : string) : option ManagementRoute :=
  if management_mounted opts then match_management method url else None.

Definition buildApp (rq : Request) : A Sent :=
  match management_route (rq_method rq) (rq_url rq) with
  | Some r =>
      resp <~ serve_management P sha256 jwtVerify (bo_cognitoClientId opts ?? "") r rq ;; ret (on_send (from_management resp))
  | None =>
      resp <~ serve_request P sha256 is_url fraction_in_0_2 other_number sign (websocket_url opts) mounted_route rq ;;
      ret (on_send (from_api resp))
  end.

(** Without Cognito's configuration the management paths answer nothing,
    although they need no API key: any request to one is not found, whatever it
    carries, and changes nothing. *)
Theorem unmounted_management_is_not_found rq w :
  management_mounted opts = false -> skips_auth (rq_url rq) = true -> match_route (rq_method rq) (rq_url rq) = None ->
  exists s, buildApp rq w = (Ret s, w) /\ response_status (sent_response s) = 404%Z.
Proof.
  intros Hm Hs Hr. unfold buildApp, management_route. rewrite Hm. unfold serve_request, try_catch, authenticate, bind.
  rewrite Hs. unfold mounted_route. rewrite Hr. by eexists.
Qed.

(** Every response says which protocol the server speaks. *)
Theorem responses_carry_the_protocol rq w s w' :
  buildApp rq w = (Ret s, w') -> List.In (PROTOCOL_HEADER, API_PROTOCOL_VERSION) (sent_headers s).
Proof.
  unfold buildApp, bind. destruct (management_route _ _) as [r|].
  - destruct (serve_management _ _ _ _ _ _ _) as [[x|e|] v]; [|done..]. intros [= <- _]. by left.
  - destruct (serve_request _ _ _ _ _ _ _ _ _ _) as [[x|e|] v]; [|done..]. intros [= <- _]. by left.
Qed.
End server.
