(* ===== verification/Streams.v ===== *)
(** The process of a gateway (packages/gateway/src/plugin.ts over
    connection-manager.ts, channel-registry.ts, session-bridge.ts and
    heartbeat.ts): every socket of the stream route with the shared registries,
    as a machine whose events are what lets the process run to its next await.

    Sockets are numbered as they are accepted.  What Redis is told is kept as the
    list of commands on its connection of subscriptions; its answers, and the
    messages of a channel, are events. *)
From S2P Require Import Prelude Json Shared Context Gateway.
Import ConnectionManager SessionBridge StreamRoute.

(** ** State *)

(** A socket of the route: [st_session] is the session of its verified token,
    [st_waits] that its acquisition awaits Redis, [st_closed] that its close was
    emitted. *)
Record Stream := { st_conn : Conn; st_session : option string; st_waits : bool; st_closed : bool }.

Inductive Command : Type := SUBSCRIBE (sessionId : string) (ws : nat) | UNSUBSCRIBE (sessionId : string).

(** What the runtime is asked for. *)
Inductive Asked : Type := asked_start (sessionId content : string) (ws : nat) | asked_cancel (runId : string).

Record Process := {
  p_bridge : Bridge; p_beats : Heartbeat.Manager; p_streams : gmap nat Stream; p_redisActive : bool;
  p_commands : list Command; p_asked : list Asked }.

(** [buildGatewayComponents]: [redisActive] is [redisEnabled && redisUrl]. *)
Definition built (instanceId : string) (redisEnabled : bool) (redisUrl : option string) (maxReplay : option nat)
    (heartbeatTimeoutMs : option Z) : Process :=
  {| p_bridge := {| cm := ConnectionManager.empty; channels := ChannelRegistry.create instanceId; replayBuffers := ∅;
                    maxReplayBufferSize := maxReplay ?? DEFAULT_MAX_REPLAY_BUFFER_SIZE; published := [] |};
     p_beats := Heartbeat.create heartbeatTimeoutMs; p_streams := ∅;
     p_redisActive := redisEnabled && match redisUrl with None | Some "" => false | Some _ => true end;
     p_commands := []; p_asked := [] |}.

Definition with_bridge (b : Bridge) (p : Process) : Process :=
  {| p_bridge := b; p_beats := p_beats p; p_streams := p_streams p; p_redisActive := p_redisActive p;
     p_commands := p_commands p; p_asked := p_asked p |}.
Definition with_cm (c : Connections) (p : Process) : Process := with_bridge (set_cm c (p_bridge p)) p.
Definition with_beats (m : Heartbeat.Manager) (p : Process) : Process :=
  {| p_bridge := p_bridge p; p_beats := m; p_streams := p_streams p; p_redisActive := p_redisActive p;
     p_commands := p_commands p; p_asked := p_asked p |}.
Definition with_streams (m : gmap nat Stream) (p : Process) : Process :=
  {| p_bridge := p_bridge p; p_beats := p_beats p; p_streams := m; p_redisActive := p_redisActive p;
     p_commands := p_commands p; p_asked := p_asked p |}.
Definition with_channels (r : ChannelRegistry.Channels) (commands : list Command) (p : Process) : Process :=
  {| p_bridge := {| cm := cm (p_bridge p); channels := r; replayBuffers := replayBuffers (p_bridge p);
                    maxReplayBufferSize := maxReplayBufferSize (p_bridge p); published := published (p_bridge p) |};
     p_beats := p_beats p; p_streams := p_streams p; p_redisActive := p_redisActive p;
     p_commands := p_commands p ++ commands; p_asked := p_asked p |}.
Definition ask (a : Asked) (p : Process) : Process :=
  {| p_bridge := p_bridge p; p_beats := p_beats p; p_streams := p_streams p; p_redisActive := p_redisActive p;
     p_commands := p_commands p; p_asked := p_asked p ++ [a] |}.

Definition conns (p : Process) : Connections := cm (p_bridge p).
Definition chans (p : Process) : ChannelRegistry.Channels := channels (p_bridge p).

Definition on_socket (f : Socket -> Socket) (ws : nat) (p : Process) : Process :=
  with_cm (set_sockets (alter f ws (sockets (conns p))) (conns p)) p.

Definition shut_socket (k : Socket) : Socket :=
  {| ws_open := false; ws_throws := ws_throws k; ws_sent := ws_sent k; ws_closed := ws_closed k;
     ws_terminated := ws_terminated k |}.

(** [socket.send] outside of the connection manager: a socket that is not open
    ignores it. *)
Definition send_raw (v : json) (k : Socket) : Socket := if sendable k then push_sent (Some v) k else k.

(** ** Frames *)

Section process.
(** zod's account of what is wrong with a frame. *)
Context (issues : string -> string).

Definition error_text (code data : string) : string :=
  if String.eqb code "INVALID_JSON" then "Message is not valid JSON" else "Invalid message format: " +:+ issues data.

Definition pong_frame : json := JObj [("type", JStr "pong")].

Definition sendError (sessionId : string) (ws : nat) (code message : string) (p : Process) : Process :=
  with_cm (safeSend sessionId ws (Some (toErrorEvent code message)) (conns p)) p.

(** [handleInbound]: an exception of the reply is answered in its turn. *)
Definition perform (sessionId : string) (ws : nat) (p : Process) (data : string) : Process :=
  match handleInbound data with
  | reply_pong =>
      match sockets (conns p) !! ws with
      | Some k => if ws_open k && ws_throws k
                  then sendError sessionId ws "INTERNAL_ERROR" "Unexpected error processing message" p
                  else on_socket (send_raw pong_frame) ws p
      | None => p
      end
  | start_run content => ask (asked_start sessionId content ws) p
  | cancel_run => match handleCancel sessionId (p_bridge p) with Some runId => ask (asked_cancel runId) p | None => p end
  | reply_error code => sendError sessionId ws code (error_text code data) p
  end.

Definition performs (sessionId : string) (ws : nat) (ms : list string) (p : Process) : Process :=
  fold_left (perform sessionId ws) ms p.

(** ** Subscriptions *)

(** [channels.acquire] up to its await: whether it awaits Redis. *)
Definition acquire_channel (sessionId : string) (ws : nat) (p : Process) : bool * Process :=
  let first := bool_decide (ChannelRegistry.refs (chans p) !! ChannelRegistry.channel sessionId = None) in
  (first, with_channels (ChannelRegistry.acquire sessionId true (chans p)).2
            (if first then [SUBSCRIBE sessionId ws] else []) p).

Definition release_channel (sessionId : string) (p : Process) : Process :=
  let last := bool_decide (ChannelRegistry.refCount sessionId (chans p) = 1) in
  with_channels (ChannelRegistry.release sessionId (chans p)) (if last then [UNSUBSCRIBE sessionId] else []) p.

(** ** Events *)

Inductive ProcessEvent : Type :=
| opens (ws : nat) (token : option string)
| verifies (ws : nat) (v : jwt_verdict)
| acquired (ws : nat) (threw : bool)
| receives (ws : nat) (data : string)
| closes (ws : nat)
| errs (ws : nat)
| beats (ws : nat) (now : Z) (ping_throws : bool)
| pongs (ws : nat)
| times_out (ws : nat) (now : Z)
| emits (sessionId : string) (e : ChatEvent)
| drains (sessionId : string)
| rejects (sessionId : string) (ws : nat) (emitted : bool) (e : error)
| redis_says (sessionId message : string).

Definition put_stream (ws : nat) (s : Stream) (p : Process) : Process := with_streams (<[ws := s]> (p_streams p)) p.

Definition refuse_socket (code message : string) (closeCode : Z) (ws : nat) (p : Process) : Process :=
  on_socket (fun k => close_socket closeCode (send_raw (toErrorEvent code message) k)) ws p.

Definition auth_code (e : AuthErrorCode) : string :=
  match e with
  | TOKEN_EXPIRED => "TOKEN_EXPIRED" | TOKEN_MALFORMED => "TOKEN_MALFORMED" | TOKEN_INVALID => "TOKEN_INVALID"
  | INSUFFICIENT_PERMISSIONS => "INSUFFICIENT_PERMISSIONS"
  end.

(** The connection of a new socket. *)
Definition handle_open (ws : nat) (token : option string) (p : Process) : Process :=
  match sockets (conns p) !! ws with
  | Some _ => p
  | None =>
      let p := with_cm (set_sockets (<[ws := fresh_socket]> (sockets (conns p))) (conns p)) p in
      match on_open token with
      | missing_token => refuse_socket "AUTH_REQUIRED" "Missing token query parameter" 4001 ws p
      | open_conn c => put_stream ws {| st_conn := c; st_session := None; st_waits := false; st_closed := false |} p
      end
  end.

(** The token's verdict.  [auth_message]: the text of the verification's error. *)
Context (auth_message : jwt_verdict -> string).

Definition handle_verdict (ws : nat) (v : jwt_verdict) (s : Stream) (p : Process) : Process :=
  let redisActive := p_redisActive p in
  match validateClientToken v with
  | Err e => refuse_socket (auth_code e) (auth_message v) (close_code e) ws
               (put_stream ws {| st_conn := on_verdict v redisActive (st_conn s); st_session := None;
                                 st_waits := false; st_closed := st_closed s |} p)
  | Ok claims =>
      let sessionId := ctc_sessionId claims in
      let p := with_beats (Heartbeat.attach ws (p_beats p)) (with_bridge (join sessionId ws (p_bridge p)) p) in
      let stream waits := {| st_conn := on_verdict v redisActive (st_conn s); st_session := Some sessionId;
                             st_waits := waits; st_closed := st_closed s |} in
      if redisActive
      then let '(waits, p) := acquire_channel sessionId ws p in put_stream ws (stream waits) p
      else performs sessionId ws (preAuthBuffer (st_conn s)) (put_stream ws (stream false) p)
  end.

Definition handle_acquired (ws : nat) (threw : bool) (s : Stream) (p : Process) : Process :=
  match c_phase (st_conn s), st_session s with
  | acquiring _, Some sessionId =>
      let p := put_stream ws {| st_conn := on_acquired threw (st_conn s); st_session := Some sessionId; st_waits := false;
                                st_closed := st_closed s |} p in
      if threw then refuse_socket "AUTH_FAILED" "Authentication failed" 4003 ws p
      else performs sessionId ws (preAuthBuffer (st_conn s)) p
  | _, _ => p
  end.

Definition handle_data (ws : nat) (data : string) (s : Stream) (p : Process) : Process :=
  let p := put_stream ws {| st_conn := on_message data (st_conn s); st_session := st_session s; st_waits := st_waits s;
                            st_closed := st_closed s |} p in
  match c_phase (st_conn s), st_session s with
  | ready, Some sessionId => perform sessionId ws p data
  | _, _ => p
  end.

(** The listener of [close] is there once the handler is; a socket closes
    once. *)
Definition handle_close (ws : nat) (s : Stream) (p : Process) : Process :=
  if st_closed s then p else
  match c_phase (st_conn s), st_session s with
  | ready, Some sessionId =>
      let p := with_beats (Heartbeat.detach ws (p_beats p)) (with_cm (remove sessionId ws (conns p)) p) in
      let p := if p_redisActive p then release_channel sessionId p else p in
      with_streams (delete ws (p_streams p)) p
  | _, _ => put_stream ws {| st_conn := st_conn s; st_session := st_session s; st_waits := st_waits s; st_closed := true |} p
  end.

Definition handle_error (ws : nat) (s : Stream) (p : Process) : Process :=
  match c_phase (st_conn s), st_session s with
  | ready, Some sessionId => with_beats (Heartbeat.detach ws (p_beats p)) (with_cm (remove sessionId ws (conns p)) p)
  | _, _ => p
  end.

(** A step of the heartbeat, which terminates the socket when it says so. *)
Definition beat (ws : nat) (m : Heartbeat.Manager) (p : Process) : Process :=
  let p' := with_beats m p in
  if length (Heartbeat.terminated (p_beats p)) <? length (Heartbeat.terminated m)
  then on_socket terminate_socket ws p' else p'.

Definition on_stream (ws : nat) (f : Stream -> Process -> Process) (p : Process) : Process :=
  match p_streams p !! ws with Some s => f s p | None => p end.

Definition step (p : Process) (e : ProcessEvent) : Process :=
  match e with
  | opens ws tok => handle_open ws tok p
  | verifies ws v => on_stream ws (fun s p => match c_phase (st_conn s) with
                                              | authenticating => handle_verdict ws v s p | _ => p end) p
  | acquired ws threw => on_stream ws (handle_acquired ws threw) p
  | receives ws data => on_stream ws (handle_data ws data) p
  | closes ws => on_stream ws (handle_close ws) (on_socket shut_socket ws p)
  | errs ws => on_stream ws (handle_error ws) p
  | beats ws now throws => beat ws (Heartbeat.sendPing ws now throws (p_beats p)) p
  | pongs ws => with_beats (Heartbeat.on_pong ws (p_beats p)) p
  | times_out ws now => beat ws (Heartbeat.on_timeout ws now (p_beats p)) p
  | emits sessionId e => with_bridge (onEvent sessionId e (p_bridge p)) p
  | drains sessionId => with_bridge (run_drained sessionId (p_bridge p)) p
  | rejects sessionId ws emitted e => with_bridge (run_rejected sessionId ws emitted e (p_bridge p)) p
  | redis_says sessionId message =>
      if bool_decide (ChannelRegistry.channel sessionId ∈ ChannelRegistry.handlers (chans p))
      then match ChannelRegistry.forward (chans p) message with
           | Some event => with_cm (broadcast sessionId event (conns p)) p
           | None => p
           end
      else p
  end.

Definition run (es : list ProcessEvent) (p : Process) : Process := fold_left step es p.

(** ** The registries and the sockets *)

(** The session of each socket that was admitted and is not let go of. *)
Definition holders (p : Process) : gmap nat string := omap st_session (p_streams p).
Definition count (sessionId : string) (m : gmap nat string) : nat := size (filter (fun kv => kv.2 = sessionId) m).

Record books (p : Process) : Prop := {
  bk_wf : ConnectionManager.wf (conns p);
  bk_conns : forall sid ws, connected (conns p) sid ws -> holders p !! ws = Some sid;
  bk_refs : forall sid, ChannelRegistry.refCount sid (chans p) =
    if p_redisActive p then count sid (holders p) else 0;
  bk_handlers : ChannelRegistry.handlers (chans p) = dom (ChannelRegistry.refs (chans p));
  bk_positive : forall ch n, ChannelRegistry.refs (chans p) !! ch = Some n -> 0 < n;
  bk_channels : forall ch, ch ∈ dom (ChannelRegistry.refs (chans p)) -> exists sid, ch = ChannelRegistry.channel sid;
  bk_beats : forall ws, is_Some (Heartbeat.entries (p_beats p) !! ws) -> is_Some (holders p !! ws);
  bk_sockets : forall ws, is_Some (p_streams p !! ws) -> is_Some (sockets (conns p) !! ws);
  bk_phase : forall ws s, p_streams p !! ws = Some s ->
    match c_phase (st_conn s) with
    | authenticating => st_session s = None
    | acquiring _ | ready => is_Some (st_session s)
    | refused => True
    end }.

(** *** Steps that only send *)

(** [p'] has the streams and the channels of [p], and no more connections. *)
Record quiet (p p' : Process) : Prop := {
  q_streams : p_streams p' = p_streams p;
  q_chans : chans p' = chans p;
  q_redis : p_redisActive p' = p_redisActive p;
  q_commands : p_commands p' = p_commands p;
  q_conns : forall sid ws, connected (conns p') sid ws -> connected (conns p) sid ws;
  q_wf : ConnectionManager.wf (conns p) -> ConnectionManager.wf (conns p');
  q_sockets : forall ws, is_Some (sockets (conns p) !! ws) -> is_Some (sockets (conns p') !! ws);
  q_beats : forall ws, is_Some (Heartbeat.entries (p_beats p') !! ws) -> is_Some (Heartbeat.entries (p_beats p) !! ws) }.

#[local] Instance quiet_refl : Reflexive quiet.
Proof. by split. Qed.

#[local] Instance quiet_trans : Transitive quiet.
Proof. intros a b c [] []. split; try congruence; eauto. Qed.

Lemma quiet_books p p' : quiet p p' -> books p -> books p'.
Proof.
  intros [Q1 Q2 Q3 _ Q4 Q5 Q6 Q7] [B1 B2 B3 B4 B5 B6 B7 B8 B9].
  split; unfold holders; rewrite ?Q1, ?Q2, ?Q3; eauto.
Qed.

Lemma quiet_cm c p :
  (forall sid ws, connected c sid ws -> connected (conns p) sid ws) ->
  (ConnectionManager.wf (conns p) -> ConnectionManager.wf c) ->
  (forall ws, is_Some (sockets (conns p) !! ws) -> is_Some (sockets c !! ws)) -> quiet p (with_cm c p).
Proof. by split. Qed.

Lemma safeSend_keeps sid d c ws ws' : is_Some (sockets c !! ws') -> is_Some (sockets (safeSend sid ws d c) !! ws').
Proof. intros H. rewrite safeSend_socket. case_decide; [by apply fmap_is_Some|done]. Qed.

Lemma sends_keep sid d l c ws : is_Some (sockets c !! ws) -> is_Some (sockets (sends sid d l c) !! ws).
Proof. revert c. induction l as [|w l IH]; intros c H; simpl; [done|]. by apply IH, safeSend_keeps. Qed.

Lemma quiet_safeSend sid ws d p : quiet p (with_cm (safeSend sid ws d (conns p)) p).
Proof.
  apply quiet_cm; [|by apply wf_safeSend|by intros; apply safeSend_keeps]. intros sid' ws'. rewrite safeSend_connected. by intros [? _].
Qed.

Lemma quiet_broadcast sid d p : quiet p (with_cm (broadcast sid d (conns p)) p).
Proof.
  apply quiet_cm; [|by apply wf_broadcast|by intros; apply sends_keep]. intros sid' ws'. rewrite broadcast_connected. by intros [? _].
Qed.

Lemma quiet_on_socket f ws p : quiet p (on_socket f ws p).
Proof.
  apply quiet_cm; [done|done|]. intros ws' [k H]. simpl. rewrite lookup_alter. case_decide; subst; rewrite H; by eexists.
Qed.

Lemma quiet_bridge b p :
  cm b = conns p -> channels b = chans p -> quiet p (with_bridge b p).
Proof. intros Hc Hr. split; unfold conns, chans in *; simpl; rewrite ?Hc, ?Hr; done. Qed.

Lemma quiet_emits sid e p : quiet p (with_bridge (onEvent sid e (p_bridge p)) p).
Proof.
  transitivity (with_cm (broadcast sid (Some (event_json e)) (conns p)) p); [apply quiet_broadcast|].
  split; unfold conns, chans; simpl; rewrite ?onEvent_cm; try done; unfold onEvent; by destruct (String.eqb _ _).
Qed.

Lemma quiet_rejects sid ws emitted e p : quiet p (with_bridge (run_rejected sid ws emitted e (p_bridge p)) p).
Proof.
  set (q := with_bridge (clearReplayBuffer sid (p_bridge p)) p). transitivity q; [by apply quiet_bridge|].
  assert (H1 : forall d, quiet q (with_cm (safeSend sid ws d (conns q)) q)) by (intros; apply quiet_safeSend).
  assert (H2 : forall d, quiet q (with_cm (broadcast sid d (conns q)) q)) by (intros; apply quiet_broadcast).
  unfold run_rejected. destruct e as [[] m st|n m], emitted; first [exact (H1 _)|exact (H2 _)].
Qed.

Lemma quiet_sendError sid ws code message p : quiet p (sendError sid ws code message p).
Proof using. apply quiet_safeSend. Qed.

Lemma quiet_perform sid ws p d : quiet p (perform sid ws p d).
Proof.
  unfold perform. destruct (handleInbound d); [|by split| |apply quiet_sendError].
  - destruct (sockets (conns p) !! ws); [|done]. destruct (_ && _); [apply quiet_sendError|apply quiet_on_socket].
  - destruct (handleCancel _ _); [by split|done].
Qed.

Lemma quiet_performs sid ws ms p : quiet p (performs sid ws ms p).
Proof.
  unfold performs. revert p. induction ms as [|d ms IH]; intros p; simpl; [done|].
  etransitivity; [apply quiet_perform|apply IH].
Qed.

Lemma quiet_beats m p :
  (forall ws, is_Some (Heartbeat.entries m !! ws) -> is_Some (Heartbeat.entries (p_beats p) !! ws)) -> quiet p (with_beats m p).
Proof. by split. Qed.

Lemma quiet_beat ws m p :
  (forall ws', is_Some (Heartbeat.entries m !! ws') -> is_Some (Heartbeat.entries (p_beats p) !! ws')) -> quiet p (beat ws m p).
Proof.
  intros H. unfold beat. destruct (_ <? _); [|by apply quiet_beats].
  etransitivity; [by apply (quiet_beats m)|apply quiet_on_socket].
Qed.

Lemma beats_sendPing ws now throws m ws' :
  is_Some (Heartbeat.entries (Heartbeat.sendPing ws now throws m) !! ws') -> is_Some (Heartbeat.entries m !! ws').
Proof.
  unfold Heartbeat.sendPing. destruct (Heartbeat.entries m !! ws) as [e|] eqn:E; [|done].
  destruct (negb _); [|destruct throws]; simpl; rewrite ?lookup_delete, ?lookup_insert; case_decide; subst; try done;
    rewrite ?E; try by eexists. all: by intros [? [=]].
Qed.

Lemma beats_timeout ws now m ws' :
  is_Some (Heartbeat.entries (Heartbeat.on_timeout ws now m) !! ws') -> is_Some (Heartbeat.entries m !! ws').
Proof.
  unfold Heartbeat.on_timeout. destruct (Heartbeat.entries m !! ws) as [e|]; [|done]. destruct (Heartbeat.timeoutTimer e); [|done].
  destruct (_ && _); [|done]. simpl. rewrite lookup_delete. case_decide; [by intros [? [=]]|done].
Qed.

Lemma beats_pong ws m ws' :
  is_Some (Heartbeat.entries (Heartbeat.on_pong ws m) !! ws') -> is_Some (Heartbeat.entries m !! ws').
Proof.
  unfold Heartbeat.on_pong. destruct (Heartbeat.entries m !! ws) as [e|] eqn:E; [|done]. simpl. rewrite lookup_insert.
  case_decide; [|done]. subst. by eexists.
Qed.

(** *** Counting *)

Lemma count_insert sid ws m sid' :
  m !! ws = None -> count sid' (<[ws := sid]> m) = if decide (sid = sid') then S (count sid' m) else count sid' m.
Proof.
  intros H. unfold count. case_decide as E.
  - rewrite map_filter_insert_True by done. apply map_size_insert_None. by apply map_lookup_filter_None; left.
  - rewrite map_filter_insert_False by done. by rewrite delete_id.
Qed.

Lemma count_delete sid ws m sid' :
  m !! ws = Some sid -> count sid' (delete ws m) = if decide (sid = sid') then count sid' m - 1 else count sid' m.
Proof.
  intros H. unfold count. rewrite map_filter_delete. case_decide as E.
  - rewrite map_size_delete_Some; [lia|]. exists sid. by apply map_lookup_filter_Some.
  - rewrite delete_id; [done|]. apply map_lookup_filter_None. right. intros x. rewrite H. by intros [= <-].
Qed.

Lemma count_positive sid ws m : m !! ws = Some sid -> 0 < count sid m.
Proof.
  intros H. unfold count. apply Nat.neq_0_lt_0, map_size_ne_0_lookup. exists ws, sid. by apply map_lookup_filter_Some.
Qed.

(** *** Channels *)

Lemma acquire_refs sid b r :
  ChannelRegistry.refs (ChannelRegistry.acquire sid b r).2 =
  <[ChannelRegistry.channel sid := S (ChannelRegistry.refCount sid r)]> (ChannelRegistry.refs r).
Proof. unfold ChannelRegistry.acquire, ChannelRegistry.refCount. by destruct (ChannelRegistry.refs r !! _). Qed.

Lemma acquire_handlers sid b r :
  ChannelRegistry.handlers r = dom (ChannelRegistry.refs r) ->
  ChannelRegistry.handlers (ChannelRegistry.acquire sid b r).2 = dom (ChannelRegistry.refs (ChannelRegistry.acquire sid b r).2).
Proof.
  intros H. rewrite acquire_refs, dom_insert_L, <- H. unfold ChannelRegistry.acquire.
  destruct (ChannelRegistry.refs r !! _) eqn:E; simpl; [|done]. apply elem_of_dom_2 in E. rewrite <- H in E. set_solver.
Qed.

Lemma release_refs sid r :
  ChannelRegistry.refs (ChannelRegistry.release sid r) =
  if decide (ChannelRegistry.refCount sid r <= 1) then delete (ChannelRegistry.channel sid) (ChannelRegistry.refs r)
  else <[ChannelRegistry.channel sid := ChannelRegistry.refCount sid r - 1]> (ChannelRegistry.refs r).
Proof.
  unfold ChannelRegistry.release, ChannelRegistry.refCount. destruct (ChannelRegistry.refs r !! _) as [n|] eqn:E; simpl.
  - destruct (Nat.ltb_spec 0 (n - 1)); [rewrite decide_False by lia|rewrite decide_True by lia]; done.
  - by rewrite delete_id.
Qed.

Lemma release_handlers sid r :
  ChannelRegistry.handlers r = dom (ChannelRegistry.refs r) ->
  ChannelRegistry.handlers (ChannelRegistry.release sid r) = dom (ChannelRegistry.refs (ChannelRegistry.release sid r)).
Proof.
  intros H. rewrite release_refs. unfold ChannelRegistry.release, ChannelRegistry.refCount.
  destruct (ChannelRegistry.refs r !! _) as [n|] eqn:E; simpl.
  - destruct (Nat.ltb_spec 0 (n - 1)); [rewrite decide_False by lia|rewrite decide_True by lia]; simpl.
    + rewrite dom_insert_L, H. apply elem_of_dom_2 in E. set_solver.
    + by rewrite dom_delete_L, H.
  - by rewrite delete_id, H.
Qed.

(** *** Steps that change a stream *)

Definition phase_ok (s : Stream) : Prop :=
  match c_phase (st_conn s) with
  | authenticating => st_session s = None
  | acquiring _ | ready => is_Some (st_session s)
  | refused => True
  end.

Lemma holders_put ws s' p :
  p_streams p !! ws ≫= st_session = st_session s' -> holders (put_stream ws s' p) = holders p.
Proof.
  intros E. apply map_eq. intros ws'. unfold holders. rewrite !lookup_omap. simpl. rewrite lookup_insert.
  case_decide; [subst; by rewrite E|done].
Qed.

Lemma books_put ws s' p :
  books p -> p_streams p !! ws ≫= st_session = st_session s' -> is_Some (sockets (conns p) !! ws) -> phase_ok s' ->
  books (put_stream ws s' p).
Proof.
  intros [B1 B2 B3 B4 B5 B6 B7 B8 B9] E Hk Hp. pose proof (holders_put ws s' p E) as Eh.
  split; rewrite ?Eh; try done.
  - intros ws' [x Hx]. simpl in Hx. rewrite lookup_insert in Hx. case_decide; subst; [done|]. apply B8. by eexists.
  - intros ws' x Hx. simpl in Hx. rewrite lookup_insert in Hx. case_decide; [simplify_eq; done|by eapply B9].
Qed.

Lemma books_update ws s s' p :
  books p -> p_streams p !! ws = Some s -> st_session s' = st_session s -> phase_ok s' -> books (put_stream ws s' p).
Proof.
  intros Hb H E. apply books_put; [done|by rewrite H, E|]. eapply bk_sockets; [done|]. by eexists.
Qed.

Lemma holders_admitted ws s' sid p p' :
  p_streams p' = <[ws := s']> (p_streams p) -> st_session s' = Some sid -> holders p' = <[ws := sid]> (holders p).
Proof.
  intros Hs E. apply map_eq. intros ws'. unfold holders. rewrite lookup_omap, Hs, !lookup_insert, lookup_omap.
  case_decide; [|done]. simpl. exact E.
Qed.

(** A socket is admitted to a session: [r'] has its reference. *)
Lemma books_admitted ws s s' sid p p' :
  books p -> p_streams p !! ws = Some s -> st_session s = None ->
  p_streams p' = <[ws := s']> (p_streams p) -> st_session s' = Some sid -> phase_ok s' ->
  p_redisActive p' = p_redisActive p ->
  chans p' = (if p_redisActive p then (ChannelRegistry.acquire sid true (chans p)).2 else chans p) ->
  (forall sid' ws', connected (conns p') sid' ws' -> sid' = sid /\ ws' = ws \/ connected (conns p) sid' ws') ->
  ConnectionManager.wf (conns p') ->
  (forall ws', is_Some (Heartbeat.entries (p_beats p') !! ws') -> ws' = ws \/ is_Some (Heartbeat.entries (p_beats p) !! ws')) ->
  (forall ws', is_Some (sockets (conns p) !! ws') -> is_Some (sockets (conns p') !! ws')) -> books p'.
Proof.
  intros [B1 B2 B3 B4 B5 B6 B7 B8 B9] H Hn Hs E Hp Hr Hc Hco Hw Hb Hk.
  pose proof (holders_admitted _ _ _ _ _ Hs E) as Eh.
  assert (Hnone : holders p !! ws = None) by (unfold holders; by rewrite lookup_omap, H; simpl).
  split; rewrite ?Eh; try done.
  - intros sid' ws' [[-> ->]|Hx]%Hco; [apply lookup_insert_eq|]. apply B2 in Hx. rewrite lookup_insert_ne; [done|congruence].
  - intros sid'. rewrite Hr, Hc. destruct (p_redisActive p); [|by rewrite B3].
    rewrite count_insert by done. unfold ChannelRegistry.refCount at 1. rewrite acquire_refs, lookup_insert, <- B3.
    destruct (decide (sid = sid')) as [->|Hne]; [by rewrite decide_True|]. rewrite decide_False; [done|].
    by intros ?%ChannelRegistry.channel_inj.
  - rewrite Hc. destruct (p_redisActive p); [by apply acquire_handlers|done].
  - rewrite Hc. destruct (p_redisActive p); [|done]. intros ch n. rewrite acquire_refs, lookup_insert.
    case_decide; [intros [= <-]; lia|apply B5].
  - rewrite Hc. destruct (p_redisActive p); [|done]. intros ch. rewrite acquire_refs, dom_insert_L, elem_of_union, elem_of_singleton.
    intros [->|Hx]; [by eexists|by apply B6].
  - intros ws' [->|Hx]%Hb; [rewrite lookup_insert_eq; by eexists|]. destruct (decide (ws' = ws)) as [->|];
      [rewrite lookup_insert_eq; by eexists|]. rewrite lookup_insert_ne by done. by apply B7.
  - intros ws' Hx. apply Hk. rewrite Hs in Hx. destruct (decide (ws' = ws)) as [->|]; [apply B8; by eexists|].
    rewrite lookup_insert_ne in Hx by done. by apply B8.
  - intros ws' x. rewrite Hs, lookup_insert. case_decide; [by intros [= <-]|apply B9].
Qed.

(** What a socket leaves behind, but for its stream. *)
Definition released (sid : string) (ws : nat) (p : Process) : Process :=
  let p := with_beats (Heartbeat.detach ws (p_beats p)) (with_cm (remove sid ws (conns p)) p) in
  if p_redisActive p then release_channel sid p else p.

Lemma released_chans sid ws p :
  chans (released sid ws p) = if p_redisActive p then ChannelRegistry.release sid (chans p) else chans p.
Proof. unfold released. simpl. by destruct (p_redisActive p). Qed.

Lemma released_rest sid ws p :
  conns (released sid ws p) = remove sid ws (conns p) /\ p_streams (released sid ws p) = p_streams p /\
  p_redisActive (released sid ws p) = p_redisActive p /\
  Heartbeat.entries (p_beats (released sid ws p)) = delete ws (Heartbeat.entries (p_beats p)).
Proof. unfold released. simpl. by destruct (p_redisActive p) eqn:E. Qed.

Lemma remove_sockets sid ws c : sockets (remove sid ws c) = sockets c.
Proof. unfold remove. destruct (sessions c !! sid); [|done]. by destruct (List.filter _ _). Qed.

Lemma books_released ws s sid p :
  books p -> p_streams p !! ws = Some s -> st_session s = Some sid ->
  books (with_streams (delete ws (p_streams (released sid ws p))) (released sid ws p)).
Proof.
  intros [B1 B2 B3 B4 B5 B6 B7 B8 B9] H E. destruct (released_rest sid ws p) as (R1 & R2 & R3 & R4).
  pose proof (released_chans sid ws p) as Rc. set (q := released sid ws p) in *.
  assert (Hs : holders p !! ws = Some sid) by (unfold holders; by rewrite lookup_omap, H; simpl).
  assert (Eh : holders (with_streams (delete ws (p_streams q)) q) = delete ws (holders p)).
  { unfold holders. simpl. by rewrite R2, omap_delete. }
  assert (Hd : forall ch, ch ∈ dom (ChannelRegistry.refs (chans q)) -> ch ∈ dom (ChannelRegistry.refs (chans p))).
  { intros ch. rewrite Rc. destruct (p_redisActive p); [|done]. rewrite release_refs. case_decide; [set_solver|].
    rewrite dom_insert_L, elem_of_union, elem_of_singleton. intros [->|]; [|done]. apply elem_of_dom.
    unfold ChannelRegistry.refCount in *. destruct (ChannelRegistry.refs _ !! _); [by eexists|simpl in *; lia]. }
  change (chans (with_streams (delete ws (p_streams q)) q)) with (chans q) in *.
  split; rewrite ?Eh; unfold conns, chans in *; simpl; fold (conns q) (chans q) (conns p) (chans p) in *.
  - rewrite R1. by apply wf_remove.
  - intros sid' ws'. rewrite R1, connected_remove. intros [Hx Hne]. specialize (B2 _ _ Hx).
    rewrite lookup_delete_ne; [done|]. intros <-. apply Hne. split; congruence.
  - intros sid'. rewrite R3, Rc. destruct (p_redisActive p); [|by rewrite B3].
    rewrite ChannelRegistry.refCount_release, (count_delete sid) by done. by rewrite B3.
  - rewrite Rc. destruct (p_redisActive p); [by apply release_handlers|done].
  - rewrite Rc. destruct (p_redisActive p); [|done]. intros ch n. rewrite release_refs. case_decide.
    + rewrite lookup_delete. case_decide; [done|apply B5].
    + rewrite lookup_insert. case_decide; [intros [= <-]; lia|apply B5].
  - intros ch Hx. by apply B6, Hd.
  - intros ws' Hx. rewrite R4, lookup_delete in Hx. case_decide; [by destruct Hx|]. rewrite lookup_delete_ne by done. by apply B7.
  - intros ws' Hx. rewrite R1, remove_sockets. rewrite R2, lookup_delete in Hx. case_decide; [by destruct Hx|]. by apply B8.
  - intros ws' x. rewrite R2, lookup_delete. case_decide; [done|apply B9].
Qed.

Lemma join_facts sid ws b :
  ConnectionManager.wf (cm b) ->
  channels (join sid ws b) = channels b /\ ConnectionManager.wf (cm (join sid ws b)) /\
  (forall sid' ws', connected (cm (join sid ws b)) sid' ws' -> sid' = sid /\ ws' = ws \/ connected (cm b) sid' ws') /\
  (forall ws', is_Some (sockets (cm b) !! ws') -> is_Some (sockets (cm (join sid ws b)) !! ws')).
Proof.
  intros Hw. unfold join, replayEvents. simpl. destruct (replayBuffers b !! sid) as [rb|]; simpl.
  - split; [done|]. pose proof (wf_add sid ws _ Hw) as Ha.
    assert (Hc : forall sid' ws', connected (add sid ws (cm b)) sid' ws' -> sid' = sid /\ ws' = ws \/ connected (cm b) sid' ws')
      by (intros; by apply connected_add).
    assert (Hk : forall ws', is_Some (sockets (cm b) !! ws') -> is_Some (sockets (add sid ws (cm b)) !! ws')) by done.
    revert Ha Hc Hk. generalize (add sid ws (cm b)). induction (rb_events rb) as [|e es IH]; intros c Ha Hc Hk; simpl; [done|].
    apply IH; [by apply wf_safeSend| |by intros; apply safeSend_keeps, Hk].
    intros sid' ws'. unfold sendTo. rewrite safeSend_connected. intros [? _]. by apply Hc.
  - split_and!; [done|by apply wf_add| |done]. intros sid' ws'. by rewrite connected_add.
Qed.

Lemma quiet_refuse code message c ws p : quiet p (refuse_socket code message c ws p).
Proof. apply quiet_on_socket. Qed.

Lemma books_open ws tok p : books p -> books (handle_open ws tok p).
Proof.
  intros H. unfold handle_open. destruct (sockets (conns p) !! ws) eqn:E; [done|].
  set (q := with_cm _ p). assert (Hq : quiet p q).
  { apply quiet_cm; [done|done|]. intros ws' Hx. simpl. rewrite lookup_insert. case_decide; [by eexists|done]. }
  pose proof (quiet_books _ _ Hq H) as Hb. unfold on_open.
  assert (Hn : p_streams q !! ws = None).
  { apply eq_None_not_Some. intros Hx. destruct (bk_sockets _ H _ Hx) as [k Hk]. congruence. }
  destruct tok as [t|]; [destruct (String.eqb t "")|]; try (eapply quiet_books; [apply quiet_refuse|done]).
  apply books_put; [done|by rewrite Hn| |done]. simpl. rewrite lookup_insert_eq. by eexists.
Qed.

Lemma books_verdict ws v s p :
  books p -> p_streams p !! ws = Some s -> c_phase (st_conn s) = authenticating -> books (handle_verdict ws v s p).
Proof.
  intros Hb H Hph. pose proof (bk_phase _ Hb _ _ H) as Hn. rewrite Hph in Hn. unfold handle_verdict, on_verdict.
  destruct (validateClientToken v) as [claims|e] eqn:Ev.
  2: { eapply quiet_books; [apply quiet_refuse|]. by eapply books_update. }
  destruct (join_facts (ctc_sessionId claims) ws (p_bridge p) (bk_wf _ Hb)) as (J1 & J2 & J3 & J4).
  assert (Ha : forall ws', is_Some (Heartbeat.entries (Heartbeat.attach ws (p_beats p)) !! ws') ->
                           ws' = ws \/ is_Some (Heartbeat.entries (p_beats p) !! ws')).
  { intros ws'. simpl. rewrite lookup_insert. case_decide; [by left|by right]. }
  destruct (p_redisActive p) eqn:Er.
  - eapply (books_admitted ws s _ (ctc_sessionId claims) p); try done; simpl; rewrite ?Er; try done.
    + by eexists.
    + unfold chans. simpl. by rewrite J1.
  - eapply quiet_books; [apply quiet_performs|].
    eapply (books_admitted ws s _ (ctc_sessionId claims) p); try done; simpl; rewrite ?Er; try done. by eexists.
Qed.

Lemma books_acquired ws threw s p :
  books p -> p_streams p !! ws = Some s -> books (handle_acquired ws threw s p).
Proof.
  intros Hb H. unfold handle_acquired, on_acquired. destruct (c_phase (st_conn s)) eqn:Hph; try done.
  destruct (st_session s) as [sid|] eqn:Es; [|done].
  destruct threw; (eapply quiet_books; [first [apply quiet_refuse|apply quiet_performs]|]);
    (eapply books_update; [done|done|done|]); unfold phase_ok; simpl; [done|by eexists].
Qed.

Lemma books_data ws d s p : books p -> p_streams p !! ws = Some s -> books (handle_data ws d s p).
Proof.
  intros Hb H. unfold handle_data. set (q := put_stream _ _ p).
  assert (Hq : books q).
  { eapply books_update; [done|done|done|]. pose proof (bk_phase _ Hb _ _ H) as Hp. unfold phase_ok, on_message. simpl.
    by destruct (c_phase (st_conn s)). }
  destruct (c_phase (st_conn s)); try done. destruct (st_session s); [|done].
  eapply quiet_books; [apply quiet_perform|done].
Qed.

Lemma books_close ws s p : books p -> p_streams p !! ws = Some s -> books (handle_close ws s p).
Proof.
  intros Hb H. unfold handle_close. destruct (st_closed s); [done|].
  assert (Hq : books (put_stream ws {| st_conn := st_conn s; st_session := st_session s; st_waits := st_waits s;
                                       st_closed := true |} p)).
  { eapply books_update; [done|done|done|]. exact (bk_phase _ Hb _ _ H). }
  destruct (c_phase (st_conn s)); try done. destruct (st_session s) as [sid|] eqn:Es; [|done].
  exact (books_released _ _ _ _ Hb H Es).
Qed.

Lemma books_error ws s p : books p -> p_streams p !! ws = Some s -> books (handle_error ws s p).
Proof.
  intros Hb H. unfold handle_error. destruct (c_phase (st_conn s)); try done. destruct (st_session s) as [sid|]; [|done].
  eapply quiet_books; [|done]. transitivity (with_cm (remove sid ws (conns p)) p).
  - apply quiet_cm; [|by apply wf_remove|by rewrite remove_sockets]. intros sid' ws'. rewrite connected_remove. by intros [? _].
  - apply quiet_beats. intros ws'. simpl. rewrite lookup_delete. case_decide; [by intros [? [=]]|done].
Qed.

Lemma books_step p e : books p -> books (step p e).
Proof.
  intros H. assert (Hs : forall ws f, (forall s, p_streams p !! ws = Some s -> books (f s p)) -> books (on_stream ws f p)).
  { intros ws f Hf. unfold on_stream. destruct (p_streams p !! ws) eqn:E; [by apply Hf|done]. }
  destruct e; simpl.
  - by apply books_open.
  - apply Hs. intros s Es. destruct (c_phase (st_conn s)) eqn:Ep; try done. by apply books_verdict.
  - apply Hs. intros s. by apply books_acquired.
  - apply Hs. intros s. by apply books_data.
  - pose proof (quiet_books _ _ (quiet_on_socket shut_socket ws p) H) as Hq. unfold on_stream.
    destruct (p_streams (on_socket shut_socket ws p) !! ws) eqn:E; [by apply books_close|done].
  - apply Hs. intros s. by apply books_error.
  - eapply quiet_books; [|done]. apply quiet_beat. intros ws'. apply beats_sendPing.
  - eapply quiet_books; [|done]. apply quiet_beats. intros ws'. apply beats_pong.
  - eapply quiet_books; [|done]. apply quiet_beat. intros ws'. apply beats_timeout.
  - eapply quiet_books; [apply quiet_emits|done].
  - by eapply quiet_books; [apply quiet_bridge|].
  - eapply quiet_books; [apply quiet_rejects|done].
  - case_bool_decide; [|done]. destruct (ChannelRegistry.forward _ _); [|done].
    eapply quiet_books; [apply quiet_broadcast|done].
Qed.

Lemma books_built id redis url max timeout : books (built id redis url max timeout).
Proof.
  split; try done; unfold holders, chans, built; simpl.
  - intros sid ws H. unfold connected, getConnections in H. simpl in H. rewrite lookup_empty in H. simpl in H. by apply not_elem_of_nil in H.
  - intros sid. unfold count. rewrite omap_empty, map_filter_empty, map_size_empty. unfold ChannelRegistry.refCount. simpl.
    rewrite lookup_empty. by destruct (redis && _).
  - by intros ws [x Hx].
  - by intros ws [x Hx].
Qed.

Lemma books_run es p : books p -> books (run es p).
Proof. unfold run. revert p. induction es as [|e es IH]; intros p H; simpl; [done|]. by apply IH, books_step. Qed.

(** *** Orderly runs *)

(** No socket closes during its handshake, and Redis grants what it is asked. *)
Definition orderly (p : Process) (e : ProcessEvent) : bool :=
  match e with
  | closes ws => match p_streams p !! ws with
                 | Some s => match c_phase (st_conn s) with ready | refused => true | _ => false end
                 | None => true
                 end
  | acquired _ threw => negb threw
  | _ => true
  end.

Fixpoint orderly_run (es : list ProcessEvent) (p : Process) : bool :=
  match es with [] => true | e :: es => orderly p e && orderly_run es (step p e) end.

(** Of the streams that are kept, those that closed hold nothing. *)
Definition tidy (s : Stream) : Prop :=
  (st_closed s = true -> c_phase (st_conn s) = refused) /\ (c_phase (st_conn s) = refused -> st_session s = None).
Definition tidy_streams (m : gmap nat Stream) : Prop := map_Forall (fun _ s => tidy s) m.

Lemma performs_streams sid ws ms p : p_streams (performs sid ws ms p) = p_streams p.
Proof. apply (q_streams _ _ (quiet_performs sid ws ms p)). Qed.

Lemma tidy_put ws s m : tidy_streams m -> tidy s -> tidy_streams (<[ws := s]> m).
Proof. intros Hm Hs. by apply map_Forall_insert_2. Qed.

Lemma beat_streams ws m p : p_streams (beat ws m p) = p_streams p.
Proof. unfold beat. by destruct (_ <? _). Qed.

Lemma tidy_stream p ws s : tidy_streams (p_streams p) -> p_streams p !! ws = Some s -> tidy s.
Proof. intros H. apply H. Qed.

Lemma tidy_handlers p ws s e :
  books p -> tidy_streams (p_streams p) -> p_streams p !! ws = Some s -> orderly p e = true ->
  match e with
  | verifies _ v => c_phase (st_conn s) = authenticating -> tidy_streams (p_streams (handle_verdict ws v s p))
  | acquired _ threw => tidy_streams (p_streams (handle_acquired ws threw s p))
  | receives _ d => tidy_streams (p_streams (handle_data ws d s p))
  | errs _ => p_streams (handle_error ws s p) = p_streams p
  | _ => True
  end.
Proof.
  intros Hb H Es Ho. pose proof (tidy_stream _ _ _ H Es) as [T1 T2]. destruct e; try done.
  - intros Hp. unfold handle_verdict, on_verdict. destruct (validateClientToken v) as [claims|].
    + assert (Hc : st_closed s = false) by (destruct (st_closed s); [specialize (T1 eq_refl); congruence|done]).
      destruct (p_redisActive p) eqn:Er; rewrite ?performs_streams; simpl; apply tidy_put; try done; split; simpl; try done;
        by rewrite Hc.
    + simpl. apply tidy_put; [done|]. by split.
  - simpl in Ho. apply negb_true_iff in Ho. subst threw. unfold handle_acquired, on_acquired.
    destruct (c_phase (st_conn s)) eqn:Ep; try done. destruct (st_session s) as [sid|] eqn:Esid; [|done].
    rewrite performs_streams. simpl. apply tidy_put; [done|]. split; simpl; [|done].
    intros Hc. specialize (T1 Hc). congruence.
  - unfold handle_data. set (q := put_stream _ _ p).
    assert (Hq : tidy_streams (p_streams q)).
    { apply tidy_put; [done|]. unfold on_message. destruct (c_phase (st_conn s)) eqn:Ep; split; simpl; try done;
        try (by intros _; apply T2); intros Hc; specialize (T1 Hc); congruence. }
    destruct (c_phase (st_conn s)); try done. destruct (st_session s); [|done].
    by rewrite (q_streams _ _ (quiet_perform _ _ _ _)).
  - unfold handle_error. destruct (c_phase (st_conn s)); try done. by destruct (st_session s).
Qed.

Lemma tidy_close ws s p :
  tidy_streams (p_streams p) -> p_streams p !! ws = Some s ->
  match c_phase (st_conn s) with ready | refused => true | _ => false end = true -> is_Some (st_session s) \/ c_phase (st_conn s) = refused ->
  tidy_streams (p_streams (handle_close ws s p)).
Proof.
  intros H Es Ho Hs. pose proof (tidy_stream _ _ _ H Es) as [T1 T2]. unfold handle_close. destruct (st_closed s); [done|].
  destruct (c_phase (st_conn s)) eqn:Ep; try done.
  - destruct Hs as [[sid ->]|]; [|done]. simpl. destruct (p_redisActive p); simpl; by apply map_Forall_delete.
  - simpl. apply tidy_put; [done|]. split; simpl; [by rewrite Ep|by intros _; apply T2].
Qed.

Lemma tidy_step p e : books p -> orderly p e = true -> tidy_streams (p_streams p) -> tidy_streams (p_streams (step p e)).
Proof.
  intros Hb Ho H. pose proof (fun ws s Es => tidy_handlers p ws s e Hb H Es Ho) as K.
  destruct e; simpl; unfold on_stream; rewrite ?beat_streams; try done.
  - unfold handle_open. destruct (sockets _ !! ws); [done|]. unfold on_open.
    destruct token as [t|]; [destruct (String.eqb t "")|]; simpl; try done. apply tidy_put; [done|]. by split.
  - destruct (p_streams p !! ws) as [s|] eqn:E; [|done]. destruct (c_phase (st_conn s)) eqn:Ep; try done. by apply (K ws s).
  - destruct (p_streams p !! ws) as [s|] eqn:E; [|done]. by apply (K ws s).
  - destruct (p_streams p !! ws) as [s|] eqn:E; [|done]. by apply (K ws s).
  - simpl in Ho. change (p_streams (on_socket shut_socket ws p)) with (p_streams p).
    destruct (p_streams p !! ws) as [s|] eqn:E; [|done]. apply tidy_close; [done|done|done|].
    pose proof (bk_phase _ Hb _ _ E) as Hp. destruct (c_phase (st_conn s)); try done; first [by left|by right].
  - destruct (p_streams p !! ws) as [s|] eqn:E; [|done]. by rewrite (K ws s).
  - case_bool_decide; [|done]. by destruct (ChannelRegistry.forward _ _).
Qed.

Lemma tidy_run es p :
  books p -> orderly_run es p = true -> tidy_streams (p_streams p) -> tidy_streams (p_streams (run es p)).
Proof.
  unfold run. revert p. induction es as [|e es IH]; intros p Hb Ho H; simpl in *; [done|].
  apply andb_true_iff in Ho as [Ho Hr]. apply IH; [by apply books_step|done|by apply tidy_step].
Qed.

(** *** What holds of the registries *)

(** The stream [ws] was admitted to the session. *)
Definition held (p : Process) (ws : nat) (sid : string) : Prop :=
  exists s, p_streams p !! ws = Some s /\ st_session s = Some sid.

Lemma held_holders p ws sid : held p ws sid <-> holders p !! ws = Some sid.
Proof.
  unfold held, holders. rewrite lookup_omap. destruct (p_streams p !! ws) as [s|]; simpl; split.
  - by intros (x & [= <-] & H).
  - intros H. by exists s.
  - by intros (x & [=] & _).
  - done.
Qed.

Lemma handlers_held p sid :
  books p ->
  ChannelRegistry.channel sid ∈ ChannelRegistry.handlers (chans p) <-> p_redisActive p = true /\ exists ws, held p ws sid.
Proof.
  intros Hb. rewrite (bk_handlers _ Hb), elem_of_dom. pose proof (bk_refs _ Hb sid) as Hr.
  unfold ChannelRegistry.refCount in Hr. split.
  - intros [n Hn]. pose proof (bk_positive _ Hb _ _ Hn). rewrite Hn in Hr. simpl in Hr.
    destruct (p_redisActive p); [|lia]. split; [done|]. unfold count in Hr.
    assert (Hne : filter (fun kv => kv.2 = sid) (holders p) <> ∅) by (intros Heq; rewrite Heq, map_size_empty in Hr; lia).
    apply map_choose in Hne as (ws & x & [Hx Hs]%map_lookup_filter_Some). exists ws. apply held_holders. by rewrite Hx, <- Hs.
  - intros [Ha [ws Hh%held_holders]]. rewrite Ha in Hr. pose proof (count_positive _ _ _ Hh).
    destruct (ChannelRegistry.refs (chans p) !! _); [by eexists|]. simpl in Hr. lia.
Qed.

(** C14: The registries follow the sockets: whatever the sockets, their tokens, the
    runtime and Redis do, in any order, a connection is registered for a session
    only while its stream was admitted to it, the session's channel is
    subscribed with one reference per such stream, and only they are watched;
    when no socket closes during its handshake and Redis refuses nothing, each
    of these streams is of a socket that has not closed. *)
Theorem registries_follow_the_sockets id redis url max timeout es :
  let p := run es (built id redis url max timeout) in
  (forall sid ws, connected (conns p) sid ws -> held p ws sid) /\
  (forall sid, ChannelRegistry.refCount sid (chans p) = if p_redisActive p then count sid (holders p) else 0) /\
  (forall sid, ChannelRegistry.channel sid ∈ ChannelRegistry.handlers (chans p) <->
     p_redisActive p = true /\ exists ws, held p ws sid) /\
  (forall ws, is_Some (Heartbeat.entries (p_beats p) !! ws) -> exists sid, held p ws sid) /\
  (orderly_run es (built id redis url max timeout) = true ->
   forall ws s, p_streams p !! ws = Some s -> is_Some (st_session s) -> st_closed s = false).
Proof.
  intros p. assert (Hb : books p) by (apply books_run, books_built). split_and!.
  - intros sid ws H. by apply held_holders, (bk_conns _ Hb).
  - apply (bk_refs _ Hb).
  - intros sid. by apply handlers_held.
  - intros ws [sid H]%(bk_beats _ Hb). exists sid. by apply held_holders.
  - intros Ho ws s Hs [sid Hsid]. assert (Ht : tidy_streams (p_streams p)) by (apply tidy_run; [apply books_built|done|done]).
    destruct (tidy_stream _ _ _ Ht Hs) as [T1 T2]. destruct (st_closed s); [|done]. rewrite T2 in Hsid; [done|by apply T1].
Qed.

(** So when all the sockets of an orderly run have closed, nothing is left. *)
Theorem closed_sockets_leave_nothing id redis url max timeout es :
  let p := run es (built id redis url max timeout) in
  orderly_run es (built id redis url max timeout) = true ->
  (forall ws s, p_streams p !! ws = Some s -> st_closed s = true) ->
  sessions (conns p) = ∅ /\ ChannelRegistry.refs (chans p) = ∅ /\ Heartbeat.entries (p_beats p) = ∅.
Proof.
  intros p Ho Hc. assert (Hb : books p) by (apply books_run, books_built).
  assert (Ht : tidy_streams (p_streams p)) by (apply tidy_run; [apply books_built|done|done]).
  assert (He : forall ws, holders p !! ws = None).
  { intros ws. unfold holders. rewrite lookup_omap. destruct (p_streams p !! ws) as [s|] eqn:E; [|done]. simpl.
    destruct (tidy_stream _ _ _ Ht E) as [T1 T2]. by apply T2, T1, (Hc ws). }
  split_and!.
  - apply map_empty. intros sid. apply eq_None_not_Some. intros [set Hset]. destruct (bk_wf _ Hb _ _ Hset) as [Hn _].
    destruct set as [|ws set]; [done|]. assert (Hx : connected (conns p) sid ws).
    { unfold connected, getConnections. rewrite Hset. by left. }
    apply (bk_conns _ Hb) in Hx. by rewrite He in Hx.
  - apply map_empty. intros ch. apply eq_None_not_Some. intros Hx. apply elem_of_dom in Hx.
    destruct (bk_channels _ Hb _ Hx) as [sid ->]. rewrite <- (bk_handlers _ Hb) in Hx.
    apply (handlers_held _ _ Hb) in Hx as [_ [ws Hw%held_holders]]. by rewrite He in Hw.
  - apply map_empty. intros ws. apply eq_None_not_Some. intros [sid Hx]%(bk_beats _ Hb). by rewrite He in Hx.
Qed.

(** *** Where they do not *)

Lemma performs_redis sid ws ms p : p_redisActive (performs sid ws ms p) = p_redisActive p.
Proof. apply (q_redis _ _ (quiet_performs sid ws ms p)). Qed.

Lemma step_redis p e : p_redisActive (step p e) = p_redisActive p.
Proof.
  destruct e; simpl; unfold on_stream, beat; try done; try (by destruct (_ <? _)).
  - unfold handle_open. destruct (sockets _ !! ws); [done|]. by destruct (on_open token).
  - destruct (p_streams p !! ws) as [s|]; [|done]. destruct (c_phase _); try done. unfold handle_verdict.
    destruct (validateClientToken v); [|done]. destruct (p_redisActive p) eqn:E; simpl; [done|by rewrite performs_redis].
  - destruct (p_streams p !! ws) as [s|]; [|done]. unfold handle_acquired. destruct (c_phase _); try done.
    destruct (st_session s); [|done]. destruct threw; [done|by rewrite performs_redis].
  - destruct (p_streams p !! ws) as [s|]; [|done]. unfold handle_data. destruct (c_phase _); try done.
    destruct (st_session s); [|done]. by rewrite (q_redis _ _ (quiet_perform _ _ _ _)).
  - simpl. destruct (p_streams p !! ws) as [s|]; [|done]. unfold handle_close. destruct (st_closed s); [done|].
    destruct (c_phase _); try done. destruct (st_session s); [|done]. simpl. by destruct (p_redisActive p) eqn:E.
  - destruct (p_streams p !! ws) as [s|]; [|done]. unfold handle_error. destruct (c_phase _); try done. by destruct (st_session s).
  - case_bool_decide; [|done]. by destruct (ChannelRegistry.forward _ _).
Qed.

Definition ghost (p : Process) (ws : nat) (sid : string) : Prop :=
  exists s, p_streams p !! ws = Some s /\ st_session s = Some sid /\ st_closed s = true.

Lemma ghost_streams p p' ws sid : p_streams p' = p_streams p -> ghost p ws sid -> ghost p' ws sid.
Proof. unfold ghost. by intros ->. Qed.

Lemma ghost_put p ws sid ws' s s' :
  p_streams p !! ws' = Some s -> st_session s' = st_session s -> st_closed s' = st_closed s ->
  ghost p ws sid -> ghost (put_stream ws' s' p) ws sid.
Proof.
  intros E Hs Hc (x & Hx & Hxs & Hxc). unfold ghost. simpl. rewrite lookup_insert. case_decide; [|by exists x].
  subst ws'. exists s'. split_and!; congruence.
Qed.

Lemma ghost_step p e ws sid : books p -> ghost p ws sid -> ghost (step p e) ws sid.
Proof.
  intros Hb Hg. pose proof Hg as (x & Hx & Hxs & Hxc).
  destruct e; simpl; unfold on_stream; try (by eapply ghost_streams, Hg); try (by eapply ghost_streams; [apply beat_streams|]).
  - unfold handle_open. destruct (sockets (conns p) !! ws0) eqn:E; [done|].
    assert (Hne : ws <> ws0). { intros ->. destruct (bk_sockets _ Hb ws0) as [k Hk]; [by eexists|]. congruence. }
    unfold on_open. destruct token as [t|]; [destruct (String.eqb t "")|]; try (by eapply ghost_streams, Hg).
    exists x. simpl. by rewrite lookup_insert_ne.
  - destruct (p_streams p !! ws0) as [s|] eqn:E; [|done]. destruct (c_phase (st_conn s)) eqn:Ep; try done.
    assert (Hne : ws0 <> ws). { intros ->. pose proof (bk_phase _ Hb _ _ E) as Hp. rewrite Ep in Hp. congruence. }
    assert (Hi : forall s', ghost (put_stream ws0 s' p) ws sid) by (intros s'; exists x; simpl; by rewrite lookup_insert_ne).
    unfold handle_verdict. destruct (validateClientToken v) as [claims|]; [|by eapply ghost_streams, Hi].
    destruct (p_redisActive p); [by eapply ghost_streams, Hi|]. eapply ghost_streams; [|eapply Hi]. by rewrite performs_streams.
  - destruct (p_streams p !! ws0) as [s|] eqn:E; [|done]. unfold handle_acquired.
    destruct (c_phase (st_conn s)); try done. destruct (st_session s) as [sid'|] eqn:Es; [|done].
    destruct threw; [eapply ghost_streams; [done|]|eapply ghost_streams; [apply performs_streams|]];
      (eapply (ghost_put p); [exact E|by rewrite Es|done|done]).
  - destruct (p_streams p !! ws0) as [s|] eqn:E; [|done]. unfold handle_data. set (q := put_stream _ _ p).
    assert (Hq : ghost q ws sid) by (eapply (ghost_put p); [exact E|done|done|done]).
    destruct (c_phase (st_conn s)); try done. destruct (st_session s); [|done].
    eapply ghost_streams; [apply (q_streams _ _ (quiet_perform _ _ _ _))|done].
  - change (p_streams (on_socket shut_socket ws0 p)) with (p_streams p).
    destruct (p_streams p !! ws0) as [s|] eqn:E; [|by eapply ghost_streams, Hg]. unfold handle_close.
    destruct (st_closed s) eqn:Ec; [by eapply ghost_streams, Hg|]. assert (Hne : ws0 <> ws) by congruence.
    destruct (c_phase (st_conn s)); try (exists x; simpl; by rewrite lookup_insert_ne).
    destruct (st_session s); [|exists x; simpl; by rewrite lookup_insert_ne].
    exists x. simpl. destruct (p_redisActive p); simpl; by rewrite lookup_delete_ne.
  - destruct (p_streams p !! ws0) as [s|]; [|done]. unfold handle_error. destruct (c_phase (st_conn s)); try done.
    destruct (st_session s); by eapply ghost_streams, Hg.
  - case_bool_decide; [|done]. destruct (ChannelRegistry.forward _ _); by eapply ghost_streams, Hg.
Qed.

(** A socket that closes during its handshake leaves its connection's reference
    for the life of the process: the channel of its session stays subscribed,
    whatever happens later. *)
Theorem handshake_close_leaks id url max timeout es es' ws sid :
  let p0 := built id true (Some url) max timeout in
  url <> "" -> ghost (run es p0) ws sid ->
  let p := run (es ++ es') p0 in
  ghost p ws sid /\ 0 < ChannelRegistry.refCount sid (chans p) /\
  ChannelRegistry.channel sid ∈ ChannelRegistry.handlers (chans p).
Proof.
  intros p0 Hu Hg p. assert (Hb : forall es, books (run es p0)) by (intros; apply books_run, books_built).
  assert (Ha : forall es, p_redisActive (run es p0) = p_redisActive p0).
  { clear. intros es. unfold run. generalize p0. induction es as [|e es IH]; intros q; simpl; [done|]. rewrite IH. apply step_redis. }
  assert (Hp : ghost p ws sid).
  { subst p. unfold run in *. rewrite fold_left_app. revert Hg. generalize (Hb es). unfold run. generalize (fold_left step es p0).
    induction es' as [|e es' IH]; intros q Hq Hg; simpl; [done|]. by apply IH; [apply books_step|apply ghost_step]. }
  assert (Hh : held p ws sid) by (destruct Hp as (s & ? & ? & _); by exists s).
  assert (Hact : p_redisActive p = true).
  { subst p. rewrite Ha. unfold p0, built. simpl. by destruct url. }
  split_and!; [done| |apply (handlers_held _ _ (Hb (es ++ es'))); split; [done|by eexists]].
  subst p. rewrite (bk_refs _ (Hb (es ++ es'))), Hact. by eapply count_positive, held_holders.
Qed.
End process.

(** ** Examples *)

Definition demo_claims : json :=
  JObj [("sessionId", JStr "ses_1"); ("agentId", JStr "agt_1"); ("permissions", JArr [JStr "chat"]); ("exp", JNum 100)].

Definition demo_process : Process := built "inst_a" true (Some "redis://localhost") None None.
Definition demo_run := run (fun _ => "") (fun _ => "").

Definition demo_handshake : list ProcessEvent := [opens 1 (Some "token"); verifies 1 (jwt_ok demo_claims)].

(** A socket that closes while Redis is asked, and one that closes afterwards. *)
Lemma handshake_close_leaks_witness :
  0 < ChannelRegistry.refCount "ses_1" (chans (demo_run ((demo_handshake ++ [closes 1; acquired 1 false]) ++ [beats 1 15000 false])
        demo_process)).
Proof.
  apply (handshake_close_leaks (fun _ => "") (fun _ => "") "inst_a" "redis://localhost" None None
    (demo_handshake ++ [closes 1; acquired 1 false]) [beats 1 15000 false] 1 "ses_1"); [discriminate|].
  eexists. split_and!; vm_compute; reflexivity.
Defined.

Lemma closed_sockets_leave_nothing_witness :
  sessions (conns (demo_run (demo_handshake ++ [acquired 1 false; closes 1]) demo_process)) = ∅.
Proof.
  apply (closed_sockets_leave_nothing (fun _ => "") (fun _ => "") "inst_a" true (Some "redis://localhost") None None
    (demo_handshake ++ [acquired 1 false; closes 1])); [vm_compute; reflexivity|].
  intros ws s Hs. vm_compute in Hs. destruct ws as [|[]]; discriminate.
Defined.
