(* ===== verification/Cluster.v ===== *)
(** Gateways that share a Redis server (packages/gateway/src/channel-registry.ts
    and [createRedisPubSub] of session-bridge.ts): the processes of Streams, and
    between them what the server does with their commands and publications.

    A process has a connection for its subscriptions and one for its
    publications.  The server takes the commands of a connection in their order,
    and what it sends to a process arrives in its order; nothing else is assumed
    of when.  The connections to Redis hold. *)
From S2P Require Import Prelude Json Shared Context Gateway Streams.
Import ConnectionManager SessionBridge StreamRoute.

(** ** The server and the processes *)

(** What Redis sends on the connection of subscriptions. *)
Inductive Reply : Type := granted (ws : nat) | message (channel payload : string).

(** A process; how many of its commands and of its publications the server has
    taken; the channels it is subscribed to; and what is on its way to it. *)
Record Node := {
  n_proc : Process; n_commands : nat; n_published : nat; n_subs : gset string; n_queue : list Reply }.

Definition start (config : string * option nat) : Node :=
  {| n_proc := built config.1 true (Some "redis://redis") config.2 None; n_commands := 0; n_published := 0;
     n_subs := ∅; n_queue := [] |}.

Definition set_proc (p : Process) (n : Node) : Node :=
  {| n_proc := p; n_commands := n_commands n; n_published := n_published n; n_subs := n_subs n; n_queue := n_queue n |}.
Definition set_queue (q : list Reply) (n : Node) : Node :=
  {| n_proc := n_proc n; n_commands := n_commands n; n_published := n_published n; n_subs := n_subs n; n_queue := q |}.

(** A command at the server. *)
Definition subscribe (subs : gset string) (c : Command) : gset string :=
  match c with
  | SUBSCRIBE sid _ => {[ChannelRegistry.channel sid]} ∪ subs
  | UNSUBSCRIBE sid => subs ∖ {[ChannelRegistry.channel sid]}
  end.
Definition answer (c : Command) : list Reply := match c with SUBSCRIBE _ ws => [granted ws] | UNSUBSCRIBE _ => [] end.

Definition serve_command (n : Node) : Node :=
  match p_commands (n_proc n) !! n_commands n with
  | Some c => {| n_proc := n_proc n; n_commands := S (n_commands n); n_published := n_published n;
                 n_subs := subscribe (n_subs n) c; n_queue := n_queue n ++ answer c |}
  | None => n
  end.

(** The publication that the server takes next. *)
Definition publication (n : Node) : option (string * string) := published (p_bridge (n_proc n)) !! n_published n.
Definition taken (n : Node) : Node :=
  {| n_proc := n_proc n; n_commands := n_commands n; n_published := S (n_published n); n_subs := n_subs n;
     n_queue := n_queue n |}.

(** Every subscriber is sent a copy. *)
Definition deliver (ch m : string) (n : Node) : Node :=
  if bool_decide (ch ∈ n_subs n) then set_queue (n_queue n ++ [message ch m]) n else n.

(** The session that a channel's handler was made for. *)
Definition session_of_channel (ch : string) : option string :=
  match split_at ":" ch with Some (pre, sid) => if String.eqb pre "session" then Some sid else None | None => None end.

(** ** What a socket is sent *)

(** The chat events among what was sent, as a client tells them. *)
Definition is_chat (v : jsval) : bool :=
  match v with Some j => match ChatEventSchema j with Some _ => true | None => false end | None => false end.
Abbreviation chats := (List.filter is_chat).

Lemma chats_event e : chats [Some (event_json e)] = [Some (event_json e)].
Proof. unfold List.filter, is_chat. by rewrite event_schema_json. Qed.

Lemma chats_payload es : chats (payload es) = payload es.
Proof.
  induction es as [|e es IH]; [done|]. change (payload (e :: es)) with ([Some (event_json e)] ++ payload es).
  by rewrite List.filter_app, chats_event, IH.
Qed.

Section cluster.
Context (issues : string -> string) (auth_message : jwt_verdict -> string).

Definition hear (n : Node) : Node :=
  match n_queue n with
  | [] => n
  | granted ws :: q => set_queue q (set_proc (step issues auth_message (n_proc n) (acquired ws false)) n)
  | message ch m :: q =>
      match session_of_channel ch with
      | Some sid => set_queue q (set_proc (step issues auth_message (n_proc n) (redis_says sid m)) n)
      | None => set_queue q n
      end
  end.

(** What happens in a process but for the answers of Redis. *)
Definition local_event (p : Process) (e : ProcessEvent) : bool :=
  match e with
  | redis_says _ _ => false
  | acquired ws threw => negb threw && match p_streams p !! ws with Some s => negb (st_waits s) | None => true end
  | _ => true
  end.

Definition local_step (e : ProcessEvent) (n : Node) : Node :=
  if local_event (n_proc n) e then set_proc (step issues auth_message (n_proc n) e) n else n.

Inductive ClusterEvent : Type :=
| local (i : nat) (e : ProcessEvent)
| serves_command (i : nat)
| serves_publication (i : nat)
| hears (i : nat).

(** What an event does to the [k]th node. *)
Definition effect (c : list Node) (e : ClusterEvent) (k : nat) (n : Node) : Node :=
  match e with
  | local i e => if k =? i then local_step e n else n
  | serves_command i => if k =? i then serve_command n else n
  | hears i => if k =? i then hear n else n
  | serves_publication i =>
      match c !! i ≫= publication with
      | Some (ch, m) => deliver ch m (if k =? i then taken n else n)
      | None => n
      end
  end.

Definition cluster_step (c : list Node) (e : ClusterEvent) : list Node := imap (effect c e) c.
Definition cluster_run (es : list ClusterEvent) (c : list Node) : list Node := fold_left cluster_step es c.

Definition reachable (c : list Node) : Prop := exists configs es, c = cluster_run es (map start configs).

(** *** A step of a process, for one socket *)

Definition sent_chats (ws : nat) (p : Process) : list jsval := chats (sent ws (p_bridge p)).

(** From [p] to [p'], the socket [ws] is sent the chat events [l]; it is neither
    connected nor opened. *)
Record heard (ws : nat) (l : list jsval) (p p' : Process) : Prop := {
  h_sent : sent_chats ws p' = sent_chats ws p ++ l;
  h_can : can_send (conns p') ws = true -> can_send (conns p) ws = true;
  h_conns : forall sid, connected (conns p') sid ws -> connected (conns p) sid ws }.

#[local] Instance heard_refl ws : Reflexive (heard ws []).
Proof. intros p. split; [by rewrite app_nil_r|done|done]. Qed.

#[local] Instance heard_trans ws : Transitive (heard ws []).
Proof. intros a b c [A1 A2 A3] [B1 B2 B3]. split; [by rewrite B1, A1, !app_nil_r|auto|auto]. Qed.

(** Nothing of the connections, or of what [ws] is sent, changes. *)
Lemma heard_same ws p p' :
  sockets (conns p') !! ws = sockets (conns p) !! ws ->
  (forall sid, connected (conns p') sid ws -> connected (conns p) sid ws) -> heard ws [] p p'.
Proof.
  intros Hs Hc. unfold conns in Hs. split; [|unfold can_send, conns; by rewrite Hs|done].
  unfold sent_chats, sent. by rewrite Hs, app_nil_r.
Qed.

Lemma heard_safeSend ws sid ws' v p :
  ws' <> ws \/ is_chat v = false -> heard ws [] p (with_cm (safeSend sid ws' v (conns p)) p).
Proof.
  intros H. assert (Hc : forall s, connected (safeSend sid ws' v (conns p)) s ws -> connected (conns p) s ws)
    by (intros s; rewrite safeSend_connected; by intros [? _]).
  split; [|by change (conns (with_cm _ _)) with (safeSend sid ws' v (conns p)); rewrite safeSend_can_send|exact Hc].
  rewrite app_nil_r. unfold sent_chats, sent. simpl. fold (conns p). rewrite safeSend_socket.
  case_decide as Hd; [|done]. destruct Hd as [<- _]. destruct H as [H|H]; [done|].
  destruct (sockets (conns p) !! ws); simpl; [|done]. by rewrite List.filter_app; simpl; rewrite H, app_nil_r.
Qed.

(** A broadcast, which the socket hears when it is of that session. *)
Lemma heard_broadcast ws sid v p :
  ConnectionManager.wf (conns p) ->
  heard ws (if decide (connected (conns p) sid ws /\ can_send (conns p) ws = true) then chats [v] else [])
    p (with_cm (broadcast sid v (conns p)) p).
Proof.
  intros Hw. split.
  - unfold sent_chats, sent. simpl. fold (conns p). rewrite broadcast_socket by done.
    case_decide as Hd; [|by rewrite app_nil_r]. destruct Hd as [_ Hs]. unfold can_send in Hs.
    destruct (sockets (conns p) !! ws) as [k|]; [|done]. simpl. by rewrite List.filter_app.
  - by change (conns (with_cm _ _)) with (broadcast sid v (conns p)); rewrite broadcast_can_send.
  - intros s. change (conns (with_cm _ _)) with (broadcast sid v (conns p)). rewrite broadcast_connected. by intros [? _].
Qed.

Lemma heard_quietly ws sid v p :
  ConnectionManager.wf (conns p) -> is_chat v = false -> heard ws [] p (with_cm (broadcast sid v (conns p)) p).
Proof.
  intros Hw Hv. pose proof (heard_broadcast ws sid v p Hw) as H. simpl in H. rewrite Hv in H. by destruct (decide _).
Qed.

Lemma heard_on_socket ws f ws' p :
  ws' <> ws \/ (forall k, chats (ws_sent (f k)) = chats (ws_sent k) /\ (sendable (f k) = true -> sendable k = true)) ->
  heard ws [] p (on_socket f ws' p).
Proof.
  intros H. destruct (decide (ws' = ws)) as [->|Hne].
  2: { apply heard_same; [|done]. simpl. by rewrite lookup_alter_ne. }
  destruct H as [H|H]; [done|]. split; [|unfold can_send, conns; simpl; fold (conns p); rewrite lookup_alter_eq|done].
  - unfold sent_chats, sent. simpl. fold (conns p). rewrite lookup_alter_eq, app_nil_r.
    destruct (sockets (conns p) !! ws) as [k|]; [|done]. simpl. apply H.
  - destruct (sockets (conns p) !! ws) as [k|]; [|done]. simpl. apply H.
Qed.

Lemma heard_refuse ws code message c ws' p : heard ws [] p (refuse_socket code message c ws' p).
Proof.
  apply heard_on_socket. right. intros k. unfold send_raw. split; [|done].
  destruct (sendable k); simpl; [|done]. by rewrite List.filter_app, app_nil_r.
Qed.

Lemma heard_perform ws sid ws' p d : heard ws [] p (perform issues sid ws' p d).
Proof.
  unfold perform. destruct (handleInbound d); [|by apply heard_same| |by apply heard_safeSend; right].
  - destruct (sockets (conns p) !! ws'); [|done]. destruct (_ && _); [by apply heard_safeSend; right|].
    apply heard_on_socket. right. intros k. unfold send_raw. split; [|intros H; destruct (sendable k) eqn:E; simpl in H; congruence].
    destruct (sendable k); simpl; [|done]. by rewrite List.filter_app, app_nil_r.
  - destruct (handleCancel _ _); [by apply heard_same|done].
Qed.

Lemma heard_performs ws sid ws' ms p : heard ws [] p (performs issues sid ws' ms p).
Proof.
  unfold performs. revert p. induction ms as [|d ms IH]; intros p; simpl; [done|].
  etransitivity; [apply heard_perform|apply IH].
Qed.

(** Another socket joins. *)
Lemma heard_join ws sid ws' p : ws' <> ws -> heard ws [] p (with_bridge (join sid ws' (p_bridge p)) p).
Proof.
  intros Hne. unfold join, replayEvents. simpl.
  assert (H1 : heard ws [] p (with_cm (add sid ws' (conns p)) p)).
  { apply heard_same; [done|]. intros s. change (conns (with_cm _ _)) with (add sid ws' (conns p)). rewrite connected_add.
    intros [[_ ?]|?]; [congruence|done]. }
  destruct (replayBuffers (p_bridge p) !! sid) as [rb|]; [|exact H1]. etransitivity; [exact H1|].
  set (q := with_cm _ p). change (with_bridge _ p) with
    (with_cm (fold_left (fun c e => sendTo sid ws' (Some (event_json e)) c) (rb_events rb) (conns q)) q).
  generalize q. clear H1 q. induction (rb_events rb) as [|e es IH]; intros q; simpl; [by apply heard_same|].
  etransitivity; [|apply (IH (with_cm (sendTo sid ws' (Some (event_json e)) (conns q)) q))].
  by apply heard_safeSend; left.
Qed.

(** The socket's token was judged, if it is known. *)
Definition settled (p : Process) (ws : nat) : Prop :=
  is_Some (sockets (conns p) !! ws) /\ forall s, p_streams p !! ws = Some s -> c_phase (st_conn s) <> authenticating.

Lemma settled_quiet p p' ws : quiet p p' -> settled p ws -> settled p' ws.
Proof. intros Q [H1 H2]. split; [by apply (q_sockets _ _ Q)|]. by rewrite (q_streams _ _ Q). Qed.

Lemma settled_put p ws ws' s : settled p ws -> ws' <> ws \/ c_phase (st_conn s) <> authenticating -> settled (put_stream ws' s p) ws.
Proof.
  intros [H1 H2] H. split; [done|]. intros x. simpl. rewrite lookup_insert. case_decide; [|apply H2].
  intros [= <-]. by destruct H.
Qed.

(** The stream of a settled socket is another's while it is judged. *)
Lemma settled_other p ws ws' s :
  settled p ws -> p_streams p !! ws' = Some s -> c_phase (st_conn s) = authenticating -> ws' <> ws.
Proof. intros [_ H] Es Ep ->. by apply (H s). Qed.

Lemma handle_verdict_rest ws v s p :
  handle_verdict issues auth_message ws v s p =
  match validateClientToken v with
  | Err e => refuse_socket (auth_code e) (auth_message v) (close_code e) ws
               (put_stream ws {| st_conn := on_verdict v (p_redisActive p) (st_conn s); st_session := None;
                                 st_waits := false; st_closed := st_closed s |} p)
  | Ok claims =>
      let sid := ctc_sessionId claims in
      let p' := with_beats (Heartbeat.attach ws (p_beats p)) (with_bridge (join sid ws (p_bridge p)) p) in
      let s' waits := {| st_conn := on_verdict v (p_redisActive p) (st_conn s); st_session := Some sid;
                         st_waits := waits; st_closed := st_closed s |} in
      if p_redisActive p then put_stream ws (s' (acquire_channel sid ws p').1) (acquire_channel sid ws p').2
      else performs issues sid ws (preAuthBuffer (st_conn s)) (put_stream ws (s' false) p')
  end.
Proof. done. Qed.

Lemma verdict_settled v r s : c_phase (on_verdict v r s) <> authenticating.
Proof. unfold on_verdict. by destruct (validateClientToken v), r. Qed.

Lemma settled_verdict p ws ws' v s :
  books p -> settled p ws -> p_streams p !! ws' = Some s -> c_phase (st_conn s) = authenticating ->
  settled (handle_verdict issues auth_message ws' v s p) ws.
Proof.
  intros Hb Hs Es Ep. rewrite handle_verdict_rest. pose proof (settled_other _ _ _ _ Hs Es Ep) as Hne.
  destruct (validateClientToken v) as [claims|e].
  2: { eapply settled_quiet; [apply quiet_refuse|]. by apply settled_put; [|left]. }
  assert (Hj : settled (with_bridge (join (ctc_sessionId claims) ws' (p_bridge p)) p) ws).
  { destruct Hs as [H1 H2]. split; [|done]. by apply (join_facts _ _ _ (bk_wf _ Hb)). }
  cbn zeta. destruct (p_redisActive p).
  - apply settled_put; [exact Hj|by left].
  - eapply settled_quiet; [apply quiet_performs|]. apply settled_put; [exact Hj|by left].
Qed.

Lemma settled_close p ws ws' s : settled p ws -> p_streams p !! ws' = Some s -> settled (handle_close ws' s p) ws.
Proof.
  intros H Es. unfold handle_close. destruct (st_closed s); [done|].
  assert (Hp : settled (put_stream ws' {| st_conn := st_conn s; st_session := st_session s; st_waits := st_waits s;
                                          st_closed := true |} p) ws).
  { destruct (decide (ws' = ws)) as [->|]; [|by apply settled_put; [|left]]. apply settled_put; [done|right]. exact (proj2 H s Es). }
  destruct (c_phase (st_conn s)); try done. destruct (st_session s) as [sid|]; [|done].
  fold (released sid ws' p). destruct (released_rest sid ws' p) as (R1 & R2 & _). destruct H as [H1 H2]. split.
  - change (conns (with_streams _ _)) with (conns (released sid ws' p)). by rewrite R1, remove_sockets.
  - intros x. simpl. rewrite R2, lookup_delete. case_decide; [done|apply H2].
Qed.

Lemma settled_error p ws ws' s : settled p ws -> settled (handle_error ws' s p) ws.
Proof.
  intros [H1 H2]. unfold handle_error. destruct (c_phase (st_conn s)); try done. destruct (st_session s) as [s0|]; [|done].
  split; [|done]. change (is_Some (sockets (remove s0 ws' (conns p)) !! ws)). by rewrite remove_sockets.
Qed.

Lemma settled_step p e ws : books p -> settled p ws -> settled (step issues auth_message p e) ws.
Proof.
  intros Hb H. destruct e; simpl; unfold on_stream;
    try (destruct (p_streams p !! ws0) as [s|] eqn:Es; [|done]).
  - unfold handle_open. destruct (sockets (conns p) !! ws0) eqn:E; [done|].
    assert (Hne : ws0 <> ws) by (intros ->; destruct (proj1 H) as [? ?]; congruence).
    set (q := with_cm _ p). assert (Hq : settled q ws).
    { destruct H as [H1 H2]. split; [|done]. simpl. by rewrite lookup_insert_ne. }
    destruct (on_open token); [by eapply settled_quiet; [apply quiet_refuse|]|by apply settled_put; [|left]].
  - destruct (c_phase (st_conn s)) eqn:Ep; try done. by apply settled_verdict.
  - unfold handle_acquired. destruct (c_phase (st_conn s)) eqn:Ep; try done. destruct (st_session s) as [sid|]; [|done].
    unfold on_acquired. rewrite Ep.
    destruct threw; (eapply settled_quiet; [first [apply quiet_refuse|apply quiet_performs]|]); by apply settled_put; [|right].
  - unfold handle_data. set (q := put_stream _ _ p). assert (Hq : settled q ws).
    { destruct (decide (ws0 = ws)) as [->|]; [|by apply settled_put; [|left]]. apply settled_put; [done|right].
      simpl. unfold on_message. pose proof (proj2 H s Es) as Hp. by destruct (c_phase (st_conn s)). }
    destruct (c_phase (st_conn s)); try done. destruct (st_session s); [|done]. by eapply settled_quiet; [apply quiet_perform|].
  - pose proof (settled_quiet _ _ ws (quiet_on_socket shut_socket ws0 p) H) as Hq.
    destruct (p_streams (on_socket shut_socket ws0 p) !! ws0) as [s|] eqn:Es; [|done].
    by apply settled_close.
  - by apply settled_error.
  - eapply settled_quiet; [apply quiet_beat, beats_sendPing|done].
  - eapply settled_quiet; [apply quiet_beats, beats_pong|done].
  - eapply settled_quiet; [apply quiet_beat, beats_timeout|done].
  - eapply settled_quiet; [apply quiet_emits|done].
  - by eapply settled_quiet; [apply quiet_bridge|].
  - eapply settled_quiet; [apply quiet_rejects|done].
  - case_bool_decide; [|done]. destruct (ChannelRegistry.forward _ _); [|done].
    eapply settled_quiet; [apply quiet_broadcast|done].
Qed.

(** The chat events that a step sends to the socket. *)
Definition told (ws : nat) (p : Process) (e : ProcessEvent) : list jsval :=
  let reach sid := decide (connected (conns p) sid ws /\ can_send (conns p) ws = true) in
  match e with
  | emits sid ev => if reach sid then [Some (event_json ev)] else []
  | redis_says sid m =>
      if bool_decide (ChannelRegistry.channel sid ∈ ChannelRegistry.handlers (chans p))
      then match ChannelRegistry.forward (chans p) m with Some v => if reach sid then chats [v] else [] | None => [] end
      else []
  | _ => []
  end.

Lemma heard_verdict p ws ws' v s : ws' <> ws -> heard ws [] p (handle_verdict issues auth_message ws' v s p).
Proof.
  intros Hne. rewrite handle_verdict_rest. destruct (validateClientToken v) as [claims|e].
  2: { etransitivity; [|apply heard_refuse]. by apply heard_same. }
  pose proof (heard_join ws (ctc_sessionId claims) ws' p Hne) as Hj. cbn zeta. destruct (p_redisActive p).
  - etransitivity; [exact Hj|by apply heard_same].
  - etransitivity; [exact Hj|]. etransitivity; [|apply heard_performs]. by apply heard_same.
Qed.

Lemma heard_removed ws sid ws' p p' :
  conns p' = remove sid ws' (conns p) -> heard ws [] p p'.
Proof.
  intros H. apply heard_same; rewrite H; [by rewrite remove_sockets|]. intros s. rewrite connected_remove. by intros [? _].
Qed.

Lemma heard_close p ws ws' s : heard ws [] p (handle_close ws' s p).
Proof.
  unfold handle_close. destruct (st_closed s); [done|]. destruct (c_phase (st_conn s)); try (by apply heard_same).
  destruct (st_session s) as [sid|]; [|by apply heard_same]. fold (released sid ws' p).
  apply (heard_removed _ sid ws'). apply (released_rest sid ws' p).
Qed.

Lemma heard_rejects p ws sid ws' emitted e :
  ConnectionManager.wf (conns p) -> heard ws [] p (with_bridge (run_rejected sid ws' emitted e (p_bridge p)) p).
Proof.
  intros Hw. set (q := with_bridge (clearReplayBuffer sid (p_bridge p)) p). transitivity q; [by apply heard_same|].
  assert (H1 : forall c m, heard ws [] q (with_cm (safeSend sid ws' (Some (toErrorEvent c m)) (conns q)) q))
    by (intros; by apply heard_safeSend; right).
  assert (H2 : forall c m, heard ws [] q (with_cm (broadcast sid (Some (toErrorEvent c m)) (conns q)) q))
    by (intros; by apply heard_quietly).
  unfold run_rejected. destruct e as [[] m st|n m], emitted; first [exact (H1 _ _)|exact (H2 _ _)].
Qed.

Lemma heard_beat p ws ws' m : heard ws [] p (beat ws' m p).
Proof.
  unfold beat. destruct (_ <? _); [|by apply heard_same]. transitivity (with_beats m p); [by apply heard_same|].
  apply heard_on_socket. by right.
Qed.

Lemma heard_emits ws sid e p :
  ConnectionManager.wf (conns p) -> heard ws (told ws p (emits sid e)) p (with_bridge (onEvent sid e (p_bridge p)) p).
Proof.
  intros Hw. pose proof (heard_broadcast ws sid (Some (event_json e)) p Hw) as [B1 B2 B3]. rewrite chats_event in B1.
  unfold told. split; unfold sent_chats, sent, conns, with_cm, with_bridge in *; cbn [p_bridge set_cm cm] in *; rewrite onEvent_cm; done.
Qed.

Lemma heard_step p e ws : books p -> settled p ws -> heard ws (told ws p e) p (step issues auth_message p e).
Proof.
  intros Hb H. destruct e; simpl; unfold on_stream;
    try (destruct (p_streams p !! ws0) as [s|] eqn:Es; [|done]).
  - unfold handle_open. destruct (sockets (conns p) !! ws0) eqn:E; [done|].
    assert (Hne : ws0 <> ws) by (intros ->; destruct (proj1 H) as [? ?]; congruence).
    set (q := with_cm _ p). transitivity q; [apply heard_same; [|done]; simpl; by rewrite lookup_insert_ne|].
    destruct (on_open token); [apply heard_refuse|by apply heard_same].
  - destruct (c_phase (st_conn s)) eqn:Ep; try done. apply heard_verdict. by eapply settled_other.
  - unfold handle_acquired. destruct (c_phase (st_conn s)); try done. destruct (st_session s) as [sid|]; [|done].
    destruct threw; (etransitivity; [|first [apply heard_refuse|apply heard_performs]]); by apply heard_same.
  - unfold handle_data. set (q := put_stream _ _ p). assert (Hq : heard ws [] p q) by by apply heard_same.
    destruct (c_phase (st_conn s)); try done. destruct (st_session s); [|done]. etransitivity; [exact Hq|apply heard_perform].
  - assert (Hk : heard ws [] p (on_socket shut_socket ws0 p)) by (by apply heard_on_socket; right).
    destruct (p_streams _ !! ws0) as [s|]; [|done]. etransitivity; [exact Hk|apply heard_close].
  - unfold handle_error. destruct (c_phase (st_conn s)); try done. destruct (st_session s) as [sid|]; [|done].
    by apply (heard_removed _ sid ws0).
  - apply heard_beat.
  - by apply heard_same.
  - apply heard_beat.
  - apply heard_emits, Hb.
  - by apply heard_same.
  - apply heard_rejects, Hb.
  - case_bool_decide; [|done]. destruct (ChannelRegistry.forward _ _); [|done]. apply heard_broadcast, Hb.
Qed.

(** *** What a step tells Redis *)

Definition voice (p : Process) : list (string * string) * string :=
  (published (p_bridge p), ChannelRegistry.instanceId (chans p)).

Lemma voice_perform sid ws p d : voice (perform issues sid ws p d) = voice p.
Proof.
  unfold perform. destruct (handleInbound d); try done.
  - destruct (sockets (conns p) !! ws); [|done]. by destruct (_ && _).
  - by destruct (handleCancel _ _).
Qed.

Lemma voice_performs sid ws ms p : voice (performs issues sid ws ms p) = voice p.
Proof.
  unfold performs. revert p. induction ms as [|d ms IH]; intros p; simpl; [done|]. by rewrite IH, voice_perform.
Qed.

Lemma voice_acquire sid ws p : voice (acquire_channel sid ws p).2 = voice p.
Proof. unfold acquire_channel, ChannelRegistry.acquire, voice. simpl. by destruct (ChannelRegistry.refs (chans p) !! _). Qed.

Lemma voice_release sid p : voice (release_channel sid p) = voice p.
Proof.
  unfold release_channel, ChannelRegistry.release, voice. simpl. destruct (ChannelRegistry.refs (chans p) !! _); [|done].
  by destruct (_ <? _).
Qed.

Lemma voice_join sid ws p : voice (with_bridge (join sid ws (p_bridge p)) p) = voice p.
Proof. unfold join, replayEvents. simpl. by destruct (replayBuffers (p_bridge p) !! sid). Qed.

Lemma voice_verdict ws v s p : voice (handle_verdict issues auth_message ws v s p) = voice p.
Proof.
  rewrite handle_verdict_rest. destruct (validateClientToken v) as [claims|e]; [|done]. cbn zeta.
  destruct (p_redisActive p).
  - change (voice (put_stream ?a ?b ?c)) with (voice c). rewrite voice_acquire. apply voice_join.
  - rewrite voice_performs. apply voice_join.
Qed.

Lemma voice_close ws s p : voice (handle_close ws s p) = voice p.
Proof.
  unfold handle_close. destruct (st_closed s); [done|]. destruct (c_phase (st_conn s)); try done.
  destruct (st_session s); [|done]. cbn zeta. change (voice (with_streams ?m ?q)) with (voice q).
  simpl. destruct (p_redisActive p); [by rewrite voice_release|done].
Qed.

(** Only the events of the runtime are published. *)
Lemma voice_step p e :
  voice (step issues auth_message p e) =
  (published (p_bridge p) ++
     match e with emits sid ev => [(ChannelRegistry.channel sid, ChannelRegistry.publish (chans p) ev)] | _ => [] end,
   ChannelRegistry.instanceId (chans p)).
Proof.
  transitivity (match e with
                | emits sid ev => (published (p_bridge p) ++
                                    [(ChannelRegistry.channel sid, ChannelRegistry.publish (chans p) ev)],
                                   ChannelRegistry.instanceId (chans p))
                | _ => voice p
                end); [|destruct e; unfold voice; by rewrite ?app_nil_r].
  destruct e; simpl; unfold on_stream, beat; try done; try (by destruct (_ <? _)).
  - unfold handle_open. destruct (sockets _ !! ws); [done|]. by destruct (on_open token).
  - destruct (p_streams p !! ws) as [s|]; [|done]. destruct (c_phase _); try done. apply voice_verdict.
  - destruct (p_streams p !! ws) as [s|]; [|done]. unfold handle_acquired. destruct (c_phase _); try done.
    destruct (st_session s); [|done]. destruct threw; [done|]. by rewrite voice_performs.
  - destruct (p_streams p !! ws) as [s|]; [|done]. unfold handle_data. destruct (c_phase _); try done.
    destruct (st_session s); [|done]. by rewrite voice_perform.
  - simpl. destruct (p_streams p !! ws) as [s|]; [|done]. by rewrite voice_close.
  - destruct (p_streams p !! ws) as [s|]; [|done]. unfold handle_error. destruct (c_phase _); try done.
    by destruct (st_session s).
  - unfold voice, onEvent. simpl. by destruct (String.eqb _ _).
  - unfold run_rejected. by destruct e as [[] m st|n m], emitted.
  - case_bool_decide; [|done]. by destruct (ChannelRegistry.forward _ _).
Qed.

(** The commands of a step: those that take the channels in use before it to
    those after it. *)
Definition channels_in_use (p : Process) : gset string := dom (ChannelRegistry.refs (chans p)).

Definition due (p p' : Process) (c : Command) : Prop :=
  match c with
  | SUBSCRIBE sid _ => ChannelRegistry.channel sid ∉ channels_in_use p
  | UNSUBSCRIBE sid => ChannelRegistry.channel sid ∉ channels_in_use p'
  end.

Definition follows (p p' : Process) : Prop :=
  exists new, p_commands p' = p_commands p ++ new /\ Forall (due p p') new /\
    channels_in_use p' = fold_left subscribe new (channels_in_use p).

Lemma follows_same p p' : p_commands p' = p_commands p -> chans p' = chans p -> follows p p'.
Proof. intros H1 H2. exists []. unfold channels_in_use. by rewrite H2, H1, app_nil_r. Qed.

Lemma follows_quiet p p' : quiet p p' -> follows p p'.
Proof. intros Q. apply follows_same; [apply (q_commands _ _ Q)|apply (q_chans _ _ Q)]. Qed.

(** A step that is quiet after, or before, another. *)
Lemma follows_then p q p' : follows p q -> quiet q p' -> follows p p'.
Proof.
  intros (new & H1 & H2 & H3) Q. exists new. rewrite (q_commands _ _ Q). unfold due, channels_in_use in *.
  by rewrite (q_chans _ _ Q).
Qed.

Lemma follows_after p q p' : p_commands q = p_commands p -> chans q = chans p -> follows q p' -> follows p p'.
Proof. intros E1 E2 (new & H1 & H2 & H3). exists new. unfold due, channels_in_use in *. by rewrite <- E1, <- E2. Qed.

Lemma follows_channels r new p :
  Forall (due p (with_channels r new p)) new ->
  dom (ChannelRegistry.refs r) = fold_left subscribe new (channels_in_use p) -> follows p (with_channels r new p).
Proof. intros H1 H2. by exists new. Qed.

Lemma follows_acquire sid ws p : follows p (acquire_channel sid ws p).2.
Proof.
  unfold acquire_channel. case_bool_decide as E; cbn [snd].
  - apply follows_channels; [|by rewrite acquire_refs, dom_insert_L]. apply Forall_cons. split; [|done].
    by apply not_elem_of_dom.
  - apply follows_channels; [done|]. rewrite acquire_refs, dom_insert_L. apply not_eq_None_Some, elem_of_dom in E.
    unfold channels_in_use. simpl. set_solver.
Qed.

Lemma follows_release sid p :
  0 < ChannelRegistry.refCount sid (chans p) -> follows p (release_channel sid p).
Proof.
  intros Hp. unfold release_channel. case_bool_decide as E.
  - apply follows_channels; [|by rewrite release_refs, decide_True, dom_delete_L by lia]. apply Forall_cons. split; [|done].
    change (ChannelRegistry.channel sid ∉ dom (ChannelRegistry.refs (ChannelRegistry.release sid (chans p)))).
    rewrite release_refs, decide_True, dom_delete_L by lia. set_solver.
  - apply follows_channels; [done|]. rewrite release_refs, decide_False, dom_insert_L by lia. unfold channels_in_use. simpl.
    assert (ChannelRegistry.channel sid ∈ dom (ChannelRegistry.refs (chans p))); [|set_solver].
    unfold ChannelRegistry.refCount in Hp. apply elem_of_dom. destruct (ChannelRegistry.refs (chans p) !! _); [by eexists|].
    simpl in Hp. lia.
Qed.

Lemma follows_verdict p ws s v : books p -> follows p (handle_verdict issues auth_message ws v s p).
Proof.
  intros Hb. rewrite handle_verdict_rest. destruct (validateClientToken v) as [claims|e].
  2: { eapply follows_then; [|apply quiet_refuse]. by apply follows_same. }
  set (sid := ctc_sessionId claims). set (p' := with_beats (Heartbeat.attach ws (p_beats p)) (with_bridge (join sid ws (p_bridge p)) p)).
  assert (E : chans p' = chans p) by apply (join_facts _ _ _ (bk_wf _ Hb)). cbn zeta. destruct (p_redisActive p).
  - eapply follows_after; [|exact E|]; [done|]. destruct (follows_acquire sid ws p') as (new & H). by exists new.
  - eapply follows_then; [|apply quiet_performs]. by apply follows_same.
Qed.

Lemma follows_close p ws s : books p -> p_streams p !! ws = Some s -> follows p (handle_close ws s p).
Proof.
  intros Hb Es. unfold handle_close. destruct (st_closed s); [by apply follows_same|].
  destruct (c_phase (st_conn s)); try (by apply follows_same). destruct (st_session s) as [sid|] eqn:E; [|by apply follows_same].
  cbn zeta. set (q := with_beats (Heartbeat.detach ws (p_beats p)) (with_cm (remove sid ws (conns p)) p)). change (p_redisActive q) with (p_redisActive p).
  destruct (p_redisActive p) eqn:Er; [|by apply follows_same].
  eapply (follows_after _ q); [done|done|]. destruct (follows_release sid q) as (new & H); [|by exists new].
  change (0 < ChannelRegistry.refCount sid (chans p)). rewrite (bk_refs _ Hb), Er. eapply count_positive.
  unfold holders. by rewrite lookup_omap, Es.
Qed.

Lemma follows_step p e : books p -> follows p (step issues auth_message p e).
Proof.
  intros Hb. destruct e; simpl; unfold on_stream;
    try (destruct (p_streams p !! ws) as [s|] eqn:Es; [|by apply follows_same]).
  - unfold handle_open. destruct (sockets (conns p) !! ws); [by apply follows_same|]. set (q := with_cm _ p).
    destruct (on_open token); by apply follows_same.
  - destruct (c_phase (st_conn s)); try (by apply follows_same). by apply follows_verdict.
  - unfold handle_acquired. destruct (c_phase (st_conn s)); try (by apply follows_same).
    destruct (st_session s) as [sid|]; [|by apply follows_same].
    destruct threw; (eapply follows_then; [|first [apply quiet_refuse|apply quiet_performs]]); by apply follows_same.
  - unfold handle_data. set (q := put_stream _ _ p). assert (Hq : follows p q) by by apply follows_same.
    destruct (c_phase (st_conn s)); try done. destruct (st_session s); [|done]. eapply follows_then; [exact Hq|apply quiet_perform].
  - change (p_streams (on_socket shut_socket ws p)) with (p_streams p).
    destruct (p_streams p !! ws) as [s|] eqn:Es; [|by apply follows_same].
    apply (follows_after _ (on_socket shut_socket ws p)); [done|done|]. apply follows_close; [|done].
    eapply quiet_books; [apply quiet_on_socket|done].
  - unfold handle_error. destruct (c_phase (st_conn s)); try (by apply follows_same). by destruct (st_session s); apply follows_same.
  - apply follows_quiet, quiet_beat, beats_sendPing.
  - by apply follows_same.
  - apply follows_quiet, quiet_beat, beats_timeout.
  - apply follows_quiet, quiet_emits.
  - by apply follows_same.
  - apply follows_quiet, quiet_rejects.
  - case_bool_decide; [|by apply follows_same]. destruct (ChannelRegistry.forward _ _); [|by apply follows_same].
    apply follows_quiet, quiet_broadcast.
Qed.

(** ** The nodes *)

(** Of a node of a reachable cluster: its process's books are kept, and once the
    commands it has given are served it is subscribed to the channels it uses. *)
Record node_ok (n : Node) : Prop := {
  nk_books : books (n_proc n);
  nk_redis : p_redisActive (n_proc n) = true;
  nk_commands : n_commands n <= length (p_commands (n_proc n));
  nk_published : n_published n <= length (published (p_bridge (n_proc n)));
  nk_subs : fold_left subscribe (drop (n_commands n) (p_commands (n_proc n))) (n_subs n) = channels_in_use (n_proc n) }.

(** What an event is to the process of the node. *)
Definition acts (e : ClusterEvent) (k : nat) (n : Node) : option ProcessEvent :=
  match e with
  | local i e => if (k =? i) && local_event (n_proc n) e then Some e else None
  | hears i =>
      if k =? i then
        match n_queue n with
        | granted ws :: _ => Some (acquired ws false)
        | message ch m :: _ => (fun sid => redis_says sid m) <$> session_of_channel ch
        | [] => None
        end
      else None
  | _ => None
  end.

Definition after (n : Node) (a : option ProcessEvent) : Process :=
  match a with Some e => step issues auth_message (n_proc n) e | None => n_proc n end.

Lemma deliver_proc ch m n : n_proc (deliver ch m n) = n_proc n.
Proof. unfold deliver. by case_bool_decide. Qed.

Lemma effect_proc c e k n : n_proc (effect c e k n) = after n (acts e k n).
Proof.
  destruct e as [i e|i|i|i]; simpl.
  - destruct (k =? i); simpl; [|done]. unfold local_step. by destruct (local_event _ _).
  - destruct (k =? i); [|done]. unfold serve_command. by destruct (_ !! _).
  - destruct (_ ≫= publication) as [[ch m]|]; [|done]. rewrite deliver_proc. by destruct (k =? i).
  - destruct (k =? i); [|done]. unfold hear. destruct (n_queue n) as [|[ws|ch m] q]; try done.
    by destruct (session_of_channel ch).
Qed.

Lemma node_ok_same n n' :
  n_proc n' = n_proc n -> n_commands n' = n_commands n -> n_subs n' = n_subs n ->
  n_published n' <= length (published (p_bridge (n_proc n))) -> node_ok n -> node_ok n'.
Proof. intros H1 H2 H3 H4 [A1 A2 A3 A4 A5]. by split; rewrite ?H1, ?H2, ?H3. Qed.

Lemma node_ok_step n e : node_ok n -> node_ok (set_proc (step issues auth_message (n_proc n) e) n).
Proof.
  intros [A1 A2 A3 A4 A5]. destruct (follows_step (n_proc n) e A1) as (new & F1 & F2 & F3). split; simpl.
  - by apply books_step.
  - by rewrite step_redis.
  - rewrite F1, length_app. lia.
  - pose proof (voice_step (n_proc n) e) as [= V _]. rewrite V, length_app. lia.
  - rewrite F1, F3, drop_app_le, fold_left_app by done. by rewrite A5.
Qed.

Lemma node_ok_command n : node_ok n -> node_ok (serve_command n).
Proof.
  intros H. pose proof H as [A1 A2 A3 A4 A5]. unfold serve_command.
  destruct (p_commands (n_proc n) !! n_commands n) as [c|] eqn:E; [|done]. split; simpl; try done.
  - by apply lookup_lt_Some in E.
  - rewrite (drop_S _ _ _ E) in A5. exact A5.
Qed.

Lemma node_ok_effect c e k n : c !! k = Some n -> node_ok n -> node_ok (effect c e k n).
Proof.
  intros Hk H. destruct e as [i e|i|i|i]; simpl.
  - destruct (k =? i); [|done]. unfold local_step. destruct (local_event _ _); [|done]. by apply node_ok_step.
  - destruct (k =? i); [by apply node_ok_command|done].
  - destruct (_ ≫= publication) as [[ch m]|] eqn:E; [|done].
    assert (Hn : node_ok (if k =? i then taken n else n)).
    { destruct (Nat.eqb_spec k i) as [->|]; [|done]. rewrite Hk in E. simpl in E. apply lookup_lt_Some in E.
      by apply (node_ok_same n). }
    unfold deliver. case_bool_decide; [|done]. eapply node_ok_same; [..|exact Hn]; try done. apply Hn.
  - destruct (k =? i); [|done]. unfold hear. destruct (n_queue n) as [|[ws|ch m] q]; [done| |].
    + apply (node_ok_same (set_proc (step issues auth_message (n_proc n) (acquired ws false)) n)); try done;
        [|by apply node_ok_step]. by apply (nk_published _ (node_ok_step n _ H)).
    + destruct (session_of_channel ch) as [sid|]; [|apply (node_ok_same n); try done; apply H].
      apply (node_ok_same (set_proc (step issues auth_message (n_proc n) (redis_says sid m)) n)); try done;
        [|by apply node_ok_step]. by apply (nk_published _ (node_ok_step n _ H)).
Qed.

Lemma cluster_lookup c e k : cluster_step c e !! k = effect c e k <$> c !! k.
Proof. apply list_lookup_imap. Qed.

Lemma cluster_ok_step c e : Forall node_ok c -> Forall node_ok (cluster_step c e).
Proof.
  rewrite !Forall_lookup. intros H k n'. rewrite cluster_lookup. destruct (c !! k) as [n|] eqn:E; [|done].
  intros [= <-]. by apply node_ok_effect; [|apply (H k)].
Qed.

Lemma cluster_ok_run es c : Forall node_ok c -> Forall node_ok (cluster_run es c).
Proof. unfold cluster_run. revert c. induction es as [|e es IH]; intros c H; simpl; [done|]. by apply IH, cluster_ok_step. Qed.

Lemma node_ok_start config : node_ok (start config).
Proof. split; [apply books_built|done..|]. simpl. unfold channels_in_use. simpl. by rewrite dom_empty_L. Qed.

Lemma reachable_ok c : reachable c -> Forall node_ok c.
Proof. intros (configs & es & ->). apply cluster_ok_run, Forall_map, Forall_true, node_ok_start. Qed.

(** ** From the publisher to the socket *)

Lemma session_of_channel_spec ch sid : session_of_channel ch = Some sid <-> ch = ChannelRegistry.channel sid.
Proof.
  unfold session_of_channel. split.
  - destruct (split_at ":" ch) as [[pre s]|] eqn:E; [|done]. destruct (String.eqb_spec pre "session") as [->|]; [|done].
    intros [= ->]. by apply split_at_spec in E.
  - by intros ->.
Qed.

Definition on_channel (ch : string) (l : list (string * string)) : list string :=
  map snd (List.filter (fun m => String.eqb m.1 ch) l).
Definition messages (ch : string) (q : list Reply) : list string :=
  flat_map (fun r => match r with message c m => if String.eqb c ch then [m] else [] | granted _ => [] end) q.

Lemma on_channel_app ch a b : on_channel ch (a ++ b) = on_channel ch a ++ on_channel ch b.
Proof. unfold on_channel. by rewrite List.filter_app, map_app. Qed.
Lemma messages_app ch a b : messages ch (a ++ b) = messages ch a ++ messages ch b.
Proof. apply flat_map_app. Qed.

(** The publications of a channel that the server has not taken. *)
Definition pending (ch : string) (n : Node) : list string :=
  on_channel ch (drop (n_published n) (published (p_bridge (n_proc n)))).

(** What an event publishes on the channel of a session. *)
Definition spoken (sid : string) (e : ClusterEvent) (k : nat) (n : Node) : list string :=
  match e with
  | local i (emits s ev) => if (k =? i) && String.eqb s sid then [ChannelRegistry.publish (chans (n_proc n)) ev] else []
  | _ => []
  end.

(** What the server takes of a node on a channel. *)
Definition served (ch : string) (e : ClusterEvent) (k : nat) (n : Node) : list string :=
  match e with
  | serves_publication i => if k =? i then on_channel ch (option_list (publication n)) else []
  | _ => []
  end.

Lemma channel_eqb s sid : String.eqb (ChannelRegistry.channel s) (ChannelRegistry.channel sid) = String.eqb s sid.
Proof.
  destruct (String.eqb_spec s sid) as [->|Hn]; [apply String.eqb_refl|]. apply String.eqb_neq.
  by intros ?%ChannelRegistry.channel_inj.
Qed.

Lemma after_published n a :
  published (p_bridge (after n a)) =
  published (p_bridge (n_proc n)) ++
  match a with Some (emits s ev) => [(ChannelRegistry.channel s, ChannelRegistry.publish (chans (n_proc n)) ev)] | _ => [] end.
Proof.
  destruct a as [e|]; simpl; [|by rewrite app_nil_r]. by pose proof (voice_step (n_proc n) e) as [= -> _].
Qed.

Lemma after_instance n a : ChannelRegistry.instanceId (chans (after n a)) = ChannelRegistry.instanceId (chans (n_proc n)).
Proof. destruct a as [e|]; simpl; [|done]. by pose proof (voice_step (n_proc n) e) as [= _ ->]. Qed.

Lemma effect_published c e k n :
  n_published (effect c e k n) =
  match e with
  | serves_publication i => match c !! i ≫= publication with
                            | Some _ => if k =? i then S (n_published n) else n_published n | None => n_published n end
  | _ => n_published n
  end.
Proof.
  destruct e as [i e|i|i|i]; simpl.
  - destruct (k =? i); [|done]. unfold local_step. by destruct (local_event _ _).
  - destruct (k =? i); [|done]. unfold serve_command. by destruct (_ !! _).
  - destruct (_ ≫= publication) as [[ch m]|]; [|done]. unfold deliver. case_bool_decide; by destruct (k =? i).
  - destruct (k =? i); [|done]. unfold hear. destruct (n_queue n) as [|[ws|ch m] q]; try done.
    by destruct (session_of_channel ch).
Qed.

Lemma acts_spoken sid e k n :
  on_channel (ChannelRegistry.channel sid)
    (match acts e k n with Some (emits s ev) => [(ChannelRegistry.channel s, ChannelRegistry.publish (chans (n_proc n)) ev)]
     | _ => [] end) = spoken sid e k n.
Proof.
  destruct e as [i e|i|i|i]; simpl; try done.
  - destruct e; simpl; try (by destruct (_ && _)). rewrite andb_true_r. fold (ChannelRegistry.channel sid). destruct (k =? i); cbn [andb]; [|done].
    unfold on_channel. cbn [List.filter fst]. rewrite channel_eqb. by destruct (String.eqb _ _).
  - destruct (k =? i); [|done]. destruct (n_queue n) as [|[ws|ch m] q]; try done. by destruct (session_of_channel ch).
Qed.

(** What is published is taken, in its order. *)
Lemma pending_effect sid c e k n :
  let ch := ChannelRegistry.channel sid in
  c !! k = Some n -> node_ok n ->
  pending ch n ++ spoken sid e k n = served ch e k n ++ pending ch (effect c e k n).
Proof.
  intros ch Hk H. assert (Hrest : n_published (effect c e k n) = n_published n -> served ch e k n = [] ->
    pending ch n ++ spoken sid e k n = served ch e k n ++ pending ch (effect c e k n)).
  { intros E ->. unfold pending. rewrite E, effect_proc, after_published, drop_app_le, on_channel_app by apply H.
    subst ch. by rewrite acts_spoken. }
  destruct e as [i e|i|i|i]; try (apply Hrest; [by rewrite effect_published|done]).
  destruct (Nat.eqb_spec k i) as [->|Hki].
  2: { apply Hrest; simpl; rewrite (proj2 (Nat.eqb_neq _ _) Hki); [|done]. destruct (_ ≫= publication) as [[c' m]|]; [|done].
       unfold deliver. by case_bool_decide. }
  unfold pending. rewrite effect_proc, effect_published. simpl. rewrite Nat.eqb_refl, Hk. simpl. rewrite !app_nil_r.
  unfold publication. destruct (published (p_bridge (n_proc n)) !! n_published n) as [x|] eqn:E; simpl; [|done].
  by rewrite (drop_S _ _ _ E), <- on_channel_app.
Qed.

(** What is sent to a subscriber is heard, in its order. *)
Definition arriving (ch : string) (c : list Node) (e : ClusterEvent) : list string :=
  match e with serves_publication i => on_channel ch (option_list (c !! i ≫= publication)) | _ => [] end.
Definition listened (ch : string) (e : ClusterEvent) (k : nat) (n : Node) : list string :=
  match e with hears i => if k =? i then messages ch (take 1 (n_queue n)) else [] | _ => [] end.

Lemma queue_effect ch c e k n :
  ch ∈ n_subs n ->
  messages ch (n_queue n) ++ arriving ch c e = listened ch e k n ++ messages ch (n_queue (effect c e k n)).
Proof.
  intros Hs. destruct e as [i e|i|i|i]; simpl.
  - rewrite app_nil_r. destruct (k =? i); [|done]. unfold local_step. by destruct (local_event _ _).
  - rewrite app_nil_r. destruct (k =? i); [|done]. unfold serve_command. destruct (_ !! _) as [[]|]; [| |done]; simpl;
      by rewrite messages_app, app_nil_r.
  - destruct (_ ≫= publication) as [[ch' m]|]; simpl; [|by rewrite app_nil_r]. set (n' := if k =? i then taken n else n).
    assert (E : n_queue n' = n_queue n /\ n_subs n' = n_subs n) by (unfold n'; by destruct (k =? i)). destruct E as [E1 E2].
    unfold deliver. rewrite E2, <- E1. unfold on_channel. simpl. destruct (String.eqb_spec ch' ch) as [->|Hne].
    + rewrite bool_decide_true by done. simpl. rewrite messages_app. simpl. by rewrite String.eqb_refl.
    + rewrite app_nil_r. case_bool_decide; [|done]. simpl. rewrite messages_app. simpl.
      by rewrite (proj2 (String.eqb_neq _ _) Hne), app_nil_r.
  - rewrite app_nil_r. destruct (k =? i); [|done]. unfold hear. destruct (n_queue n) as [|[ws|ch' m] q] eqn:E;
      [by rewrite E|done|]. destruct (session_of_channel ch'); simpl; by rewrite app_nil_r.
Qed.

(** The socket is registered for the session, and can be sent to. *)
Definition live (p : Process) (sid : string) (ws : nat) : Prop :=
  connected (conns p) sid ws /\ can_send (conns p) ws = true.

Lemma live_only p sid s ws : books p -> live p sid ws -> connected (conns p) s ws -> s = sid.
Proof. intros Hb [H _] Hs. apply (bk_conns _ Hb) in H, Hs. congruence. Qed.

Lemma live_in_use p sid ws :
  books p -> p_redisActive p = true -> live p sid ws -> ChannelRegistry.channel sid ∈ channels_in_use p.
Proof.
  intros Hb Hr [H _]. unfold channels_in_use. rewrite <- (bk_handlers _ Hb). apply (handlers_held _ _ Hb). split; [done|].
  exists ws. by apply held_holders, (bk_conns _ Hb).
Qed.

(** What the payloads of a channel are to the clients of an instance. *)
Definition forwards (r : ChannelRegistry.Channels) (l : list string) : list jsval :=
  chats (flat_map (fun m => option_list (ChannelRegistry.forward r m)) l).

Lemma forwards_app r a b : forwards r (a ++ b) = forwards r a ++ forwards r b.
Proof. unfold forwards. by rewrite flat_map_app, List.filter_app. Qed.

Lemma forwards_instance r r' l : ChannelRegistry.instanceId r' = ChannelRegistry.instanceId r -> forwards r' l = forwards r l.
Proof.
  intros E. unfold forwards. f_equal. induction l as [|m l IH]; simpl; [done|]. rewrite IH. f_equal.
  unfold ChannelRegistry.forward. by rewrite E.
Qed.

Lemma told_silent p sid ws e :
  books p -> live p sid ws ->
  match e with emits s _ | redis_says s _ => s <> sid | _ => True end -> told ws p e = [].
Proof.
  intros Hb Hl H. destruct e as [| | | | | | | | |s ev| | |s m]; try done; simpl.
  - rewrite decide_False; [done|]. intros [Hc _]. by apply H, (live_only p _ _ ws).
  - destruct (bool_decide _); [|done]. destruct (ChannelRegistry.forward _ _); [|done].
    rewrite decide_False; [done|]. intros [Hc _]. by apply H, (live_only p _ _ ws).
Qed.

Lemma told_forwarded p sid ws m :
  books p -> p_redisActive p = true -> live p sid ws -> told ws p (redis_says sid m) = forwards (chans p) [m].
Proof.
  intros Hb Hr Hl. simpl. rewrite bool_decide_true by (rewrite (bk_handlers _ Hb); by eapply live_in_use).
  unfold forwards. simpl. destruct (ChannelRegistry.forward (chans p) m) as [v|]; [|done]. simpl. by rewrite decide_True.
Qed.

Definition acts_emit (sid : string) (a : option ProcessEvent) : bool :=
  match a with Some (emits s _) => String.eqb s sid | _ => false end.

Lemma told_effect sid ws e k n :
  node_ok n -> live (n_proc n) sid ws -> acts_emit sid (acts e k n) = false ->
  match acts e k n with Some a => told ws (n_proc n) a | None => [] end =
  forwards (chans (n_proc n)) (listened (ChannelRegistry.channel sid) e k n).
Proof.
  intros [Hb Hr _ _ _] Hl Ha. destruct e as [i e|i|i|i]; try done.
  - simpl in *. destruct (k =? i); simpl in *; [|done]. destruct (local_event (n_proc n) e) eqn:E; [|done].
    apply (told_silent _ sid); [done|done|]. destruct e; try done. simpl in Ha. by apply String.eqb_neq.
  - unfold acts, listened in *. destruct (k =? i); [|done]. destruct (n_queue n) as [|[w|ch m] q]; [done|done|].
    destruct (session_of_channel ch) as [s|] eqn:E; cbn [fmap option_fmap option_map take messages flat_map].
    + apply session_of_channel_spec in E as ->. rewrite channel_eqb. destruct (String.eqb_spec s sid) as [->|Hne].
      * by apply told_forwarded.
      * by apply (told_silent _ sid).
    + destruct (String.eqb_spec ch (ChannelRegistry.channel sid)) as [->|]; [|done].
      by rewrite (proj2 (session_of_channel_spec _ sid) eq_refl) in E.
Qed.

Lemma after_live n a sid ws :
  node_ok n -> settled (n_proc n) ws -> live (after n a) sid ws -> live (n_proc n) sid ws.
Proof.
  intros [Hb _ _ _ _] Hs [H1 H2]. destruct a as [e|]; [|done]. destruct (heard_step _ e ws Hb Hs) as [_ K1 K2].
  split; [by apply K2|by apply K1].
Qed.

Lemma sent_effect c e k n sid ws :
  node_ok n -> settled (n_proc n) ws -> live (n_proc n) sid ws -> acts_emit sid (acts e k n) = false ->
  sent_chats ws (n_proc (effect c e k n)) =
  sent_chats ws (n_proc n) ++ forwards (chans (n_proc n)) (listened (ChannelRegistry.channel sid) e k n).
Proof.
  intros H Hs Hl Ha. rewrite <- (told_effect _ _ _ _ _ H Hl Ha), effect_proc. destruct (acts e k n) as [a|]; simpl.
  - apply heard_step; [apply H|done].
  - by rewrite app_nil_r.
Qed.

(** No command about the session is left to serve. *)
Definition command_session (c : Command) : string := match c with SUBSCRIBE sid _ => sid | UNSUBSCRIBE sid => sid end.
Definition uncommanded (sid : string) (n : Node) : Prop :=
  Forall (fun c => command_session c <> sid) (drop (n_commands n) (p_commands (n_proc n))).

Lemma uncommanded_subscribed n sid ws :
  node_ok n -> live (n_proc n) sid ws -> uncommanded sid n -> ChannelRegistry.channel sid ∈ n_subs n.
Proof.
  intros [Hb Hr _ _ E] Hl Hu. pose proof (live_in_use _ _ _ Hb Hr Hl) as Hin. rewrite <- E in Hin. clear E. revert Hin.
  unfold uncommanded in Hu. generalize (n_subs n). induction Hu as [|c l Hc _ IH]; intros subs Hin; [done|].
  apply IH in Hin. destruct c as [s w|s]; simpl in Hin, Hc; apply elem_of_union in Hin || apply elem_of_difference in Hin.
  - destruct Hin as [Hx%elem_of_singleton|]; [|done]. by apply ChannelRegistry.channel_inj in Hx.
  - by destruct Hin.
Qed.

Lemma effect_commands c e k n : n_commands n <= n_commands (effect c e k n).
Proof.
  destruct e as [i e|i|i|i]; simpl.
  - destruct (k =? i); [|done]. unfold local_step. by destruct (local_event _ _).
  - destruct (k =? i); [|done]. unfold serve_command. destruct (_ !! _); simpl; lia.
  - destruct (_ ≫= publication) as [[ch m]|]; [|done]. unfold deliver. case_bool_decide; by destruct (k =? i).
  - destruct (k =? i); [|done]. unfold hear. destruct (n_queue n) as [|[ws|ch m] q]; try done.
    by destruct (session_of_channel ch).
Qed.

Lemma after_follows n a : node_ok n -> follows (n_proc n) (after n a).
Proof. intros [Hb _ _ _ _]. destruct a; simpl; [by apply follows_step|by apply follows_same]. Qed.

Lemma uncommanded_effect c e k n sid ws :
  node_ok n -> live (n_proc n) sid ws -> live (n_proc (effect c e k n)) sid ws -> node_ok (effect c e k n) ->
  uncommanded sid n -> uncommanded sid (effect c e k n).
Proof.
  intros H Hl Hl' H' Hu. pose proof (live_in_use _ _ _ (nk_books _ H) (nk_redis _ H) Hl) as U.
  pose proof (live_in_use _ _ _ (nk_books _ H') (nk_redis _ H') Hl') as U'. unfold uncommanded.
  destruct (after_follows n (acts e k n) H) as (new & F1 & F2 & _). rewrite effect_proc in *. rewrite F1.
  pose proof (effect_commands c e k n) as Hle.
  replace (n_commands (effect c e k n)) with (n_commands n + (n_commands (effect c e k n) - n_commands n)) by lia.
  rewrite <- drop_drop. apply Forall_drop. rewrite drop_app_le by apply H. apply Forall_app. split; [done|].
  eapply Forall_impl; [exact F2|]. intros [s w|s] Hd <-; exact (Hd ltac:(assumption)).
Qed.

(** A node whose events of the session reach the socket [ws] of another. *)
Record watched (i j : nat) (sid : string) (ws : nat) (c : list Node) (ni nj : Node) : Prop := {
  w_publisher : c !! i = Some ni;
  w_subscriber : c !! j = Some nj;
  w_instances : ChannelRegistry.instanceId (chans (n_proc ni)) <> ChannelRegistry.instanceId (chans (n_proc nj));
  w_settled : settled (n_proc nj) ws;
  w_served : uncommanded sid nj;
  w_alone : forall k n, c !! k = Some n -> k <> i -> pending (ChannelRegistry.channel sid) n = [] }.

(** The session's runs are the node [i]'s. *)
Definition sole (i : nat) (sid : string) (e : ClusterEvent) : Prop :=
  match e with local k (emits s ev) => s = sid -> k = i /\ event_wf ev = true | _ => True end.

Definition emitted (i : nat) (sid : string) (e : ClusterEvent) : list ChatEvent :=
  match e with local k (emits s ev) => if (i =? k) && String.eqb s sid then [ev] else [] | _ => [] end.

(** What the clients of [nj] are still to be sent of the session: what is on its
    way to it, then what the server has not taken of [ni]. *)
Definition flight (sid : string) (ni nj : Node) : list jsval :=
  let ch := ChannelRegistry.channel sid in
  forwards (chans (n_proc nj)) (messages ch (n_queue nj) ++ pending ch ni).

Lemma forwards_spoken i sid e n r :
  sole i sid e -> ChannelRegistry.instanceId (chans (n_proc n)) <> ChannelRegistry.instanceId r ->
  forwards r (spoken sid e i n) = payload (emitted i sid e).
Proof.
  intros Hs Hi. destruct e as [k e|k|k|k]; try done. destruct e as [| | | | | | | | |s ev| | |]; try done. simpl in *.
  destruct (Nat.eqb_spec i k) as [->|]; [|done]. destruct (String.eqb_spec s sid) as [->|]; [|done].
  destruct (Hs eq_refl) as [_ Hw]. cbn [andb]. unfold forwards. cbn [flat_map].
  rewrite ChannelRegistry.forward_publish, (proj2 (String.eqb_neq _ _) Hi) by done. apply (chats_event ev).
Qed.

Lemma sole_silent i sid e k n : sole i sid e -> k <> i -> acts_emit sid (acts e k n) = false /\ spoken sid e k n = [].
Proof.
  intros Hs Hk. destruct e as [x e|x|x|x]; try done.
  - simpl. destruct (Nat.eqb_spec k x) as [->|]; simpl; [|by destruct e]. destruct e; try (by destruct (local_event _ _)). simpl in *.
    destruct (String.eqb_spec sessionId sid) as [->|]; [|done]. by destruct (Hs eq_refl).
  - simpl. destruct (k =? x); [|done]. destruct (n_queue n) as [|[|ch m] q]; try done. by destruct (session_of_channel ch).
Qed.

(** What the server takes on the channel is the publisher's. *)
Lemma watched_arriving i j sid ws c ni nj e :
  watched i j sid ws c ni nj -> Forall node_ok c -> sole i sid e ->
  arriving (ChannelRegistry.channel sid) c e = served (ChannelRegistry.channel sid) e i ni.
Proof.
  intros [Wi Wj _ _ _ Wa] Ho Hs. destruct e as [x e|x|x|x]; try done. simpl. destruct (Nat.eqb_spec i x) as [<-|Hne]; [by rewrite Wi|].
  destruct (c !! x) as [n|] eqn:E; [|done]. pose proof (Wa _ _ E (not_eq_sym Hne)) as Hp. rewrite Forall_lookup in Ho.
  pose proof (pending_effect sid c (serves_publication x) x n E (Ho _ _ E)) as H. simpl in H. rewrite Hp, Nat.eqb_refl in H.
  simpl. by destruct (on_channel (ChannelRegistry.channel sid) (option_list (publication n))).
Qed.

Lemma watched_step i j sid ws c ni nj e :
  watched i j sid ws c ni nj -> Forall node_ok c -> sole i sid e ->
  live (n_proc (effect c e j nj)) sid ws ->
  watched i j sid ws (cluster_step c e) (effect c e i ni) (effect c e j nj).
Proof.
  intros W Ho Hs Hl'. pose proof W as [Wi Wj Wd Wt Wu Wa]. rewrite Forall_lookup in Ho.
  pose proof (Ho _ _ Wj) as Hj. pose proof Hl' as Hl. rewrite effect_proc in Hl. apply after_live in Hl; [|done|done]. split.
  - by rewrite cluster_lookup, Wi.
  - by rewrite cluster_lookup, Wj.
  - by rewrite !effect_proc, !after_instance.
  - rewrite effect_proc. destruct (acts e j nj); [|done]. apply settled_step; [apply Hj|done].
  - eapply uncommanded_effect; try done. by apply node_ok_effect.
  - intros k n'. rewrite cluster_lookup. destruct (c !! k) as [n|] eqn:E; [|done]. intros [= <-] Hk.
    pose proof (pending_effect sid c e k n E (Ho _ _ E)) as H. rewrite (Wa _ _ E Hk), (proj2 (sole_silent i sid e k n Hs Hk)) in H.
    symmetry in H. by apply app_nil in H as [_ ?].
Qed.

Lemma watched_conserves i j sid ws c ni nj e :
  watched i j sid ws c ni nj -> Forall node_ok c -> sole i sid e ->
  live (n_proc (effect c e j nj)) sid ws ->
  sent_chats ws (n_proc (effect c e j nj)) ++ flight sid (effect c e i ni) (effect c e j nj) =
  (sent_chats ws (n_proc nj) ++ flight sid ni nj) ++ payload (emitted i sid e).
Proof.
  intros W Ho Hs Hl. pose proof W as [Wi Wj Wd Wt Wu Wa]. pose proof (watched_arriving _ _ _ _ _ _ _ _ W Ho Hs) as Ha.
  rewrite Forall_lookup in Ho. pose proof (Ho _ _ Wj) as Hj. rewrite effect_proc in Hl. apply after_live in Hl; [|done|done].
  assert (Hne : j <> i) by (intros ->; congruence).
  pose proof (uncommanded_subscribed _ _ _ Hj Hl Wu) as Hsub.
  pose proof (pending_effect sid c e i ni Wi (Ho _ _ Wi)) as Hp.
  pose proof (queue_effect _ c e j nj Hsub) as Hq. rewrite Ha in Hq.
  rewrite (sent_effect c e j nj sid ws Hj Wt Hl (proj1 (sole_silent i sid e j nj Hs Hne))).
  rewrite <- (forwards_spoken i sid e ni (chans (n_proc nj)) Hs Wd). unfold flight. cbn zeta.
  rewrite (forwards_instance (chans (n_proc nj)) (chans (n_proc (effect c e j nj)))) by by rewrite effect_proc, after_instance.
  rewrite <- !app_assoc, <- !forwards_app, <- app_assoc. f_equal. cbn zeta in Hp. rewrite Hp, !app_assoc. do 2 f_equal. exact (eq_sym Hq).
Qed.

Lemma effect_settled c e k n ws : node_ok n -> settled (n_proc n) ws -> settled (n_proc (effect c e k n)) ws.
Proof. intros H Hs. rewrite effect_proc. destruct (acts e k n); [|done]. by apply settled_step; [apply H|]. Qed.

(** A socket that is live was live ever since its token was judged. *)
Lemma live_before es c j n n' sid ws :
  Forall node_ok c -> c !! j = Some n -> settled (n_proc n) ws ->
  cluster_run es c !! j = Some n' -> live (n_proc n') sid ws -> live (n_proc n) sid ws.
Proof.
  unfold cluster_run. revert c n. induction es as [|e es IH]; intros c n Ho Hj Hs Hr Hl; simpl in *; [congruence|].
  assert (Hn : node_ok n) by (rewrite Forall_lookup in Ho; by eapply Ho).
  apply (after_live n (acts e j n)); [done|done|]. rewrite <- (effect_proc c).
  apply (IH (cluster_step c e)); try done; [by apply cluster_ok_step|by rewrite cluster_lookup, Hj|by apply effect_settled].
Qed.

(** C13: From the publisher to a socket of another instance: over any run of the
    cluster, the chat events that the socket was sent, followed by those on their
    way to it, grow by exactly the events that the session's runs emitted: none is
    lost, sent twice or out of order. *)
Theorem cluster_delivers_once_in_order i j sid ws c ni nj es ni' nj' :
  reachable c -> watched i j sid ws c ni nj -> Forall (sole i sid) es ->
  cluster_run es c !! i = Some ni' -> cluster_run es c !! j = Some nj' -> live (n_proc nj') sid ws ->
  sent_chats ws (n_proc nj') ++ flight sid ni' nj' =
  (sent_chats ws (n_proc nj) ++ flight sid ni nj) ++ payload (flat_map (emitted i sid) es).
Proof.
  intros Ho%reachable_ok W Hs. revert c ni nj Ho W. induction Hs as [|e es He Hs IH]; intros c ni nj Ho W Hi Hj Hl.
  { simpl in *. rewrite (w_publisher _ _ _ _ _ _ _ W) in Hi. rewrite (w_subscriber _ _ _ _ _ _ _ W) in Hj.
    simplify_eq. by rewrite app_nil_r. }
  pose proof W as [_ Wj _ Wt _ _]. assert (Hn : node_ok nj) by (rewrite Forall_lookup in Ho; by eapply Ho).
  assert (Hl1 : live (n_proc (effect c e j nj)) sid ws).
  { apply (live_before es (cluster_step c e) j _ nj'); try done; [by apply cluster_ok_step|by rewrite cluster_lookup, Wj|].
    by apply effect_settled. }
  rewrite (IH _ _ _ (cluster_ok_step _ e Ho) (watched_step _ _ _ _ _ _ _ _ W Ho He Hl1) Hi Hj Hl).
  rewrite (watched_conserves _ _ _ _ _ _ _ _ W Ho He Hl1). unfold payload. simpl. by rewrite map_app, !app_assoc.
Qed.

(** Once the server has served a node's commands, it sends it the channels of
    the sessions that its streams were admitted to, and no other. *)
Theorem subscriptions_follow_the_sessions c k n :
  reachable c -> c !! k = Some n -> n_commands n = length (p_commands (n_proc n)) ->
  forall sid, ChannelRegistry.channel sid ∈ n_subs n <-> exists ws, held (n_proc n) ws sid.
Proof.
  intros Ho%reachable_ok Hk Hn sid. rewrite Forall_lookup in Ho. destruct (Ho _ _ Hk) as [Hb Hr _ _ E].
  rewrite Hn, drop_all in E. simpl in E. rewrite E. unfold channels_in_use. rewrite <- (bk_handlers _ Hb), (handlers_held _ _ Hb).
  rewrite Hr. naive_solver.
Qed.
End cluster.

(** ** An example *)

(** A client of the second of two gateways. *)
Definition demo_cluster : list Node :=
  cluster_run (fun _ => "") (fun _ => "")
    [local 1 (opens 1 (Some "token")); local 1 (verifies 1 (jwt_ok demo_claims)); serves_command 1; hears 1]
    (map start [("inst_a", None); ("inst_b", None)]).

Definition demo_started : ChatEvent := message_started "msg_1" "run_1" "ses_1".
Definition demo_completed : ChatEvent := message_completed "msg_1" "run_1" "ses_1".

(** A run of its session at the first gateway, seen from the second before its
    last event has arrived. *)
Definition demo_traffic : list ClusterEvent :=
  [local 0 (emits "ses_1" demo_started); serves_publication 0; local 1 (receives 1 "{}");
   local 0 (emits "ses_1" demo_completed); hears 1; serves_publication 0].

Definition node (k : nat) (c : list Node) : Node := match c !! k with Some n => n | None => start (""%string, None) end.

Definition demo_after : list Node := cluster_run (fun _ => ""%string) (fun _ => ""%string) demo_traffic demo_cluster.

Lemma cluster_delivers_once_in_order_witness :
  sent_chats 1 (n_proc (node 1 demo_after)) = payload [demo_started] /\
  sent_chats 1 (n_proc (node 1 demo_after)) ++ flight "ses_1" (node 0 demo_after) (node 1 demo_after) =
  payload [demo_started; demo_completed].
Proof.
  split; [vm_compute; reflexivity|].
  apply (cluster_delivers_once_in_order (fun _ => ""%string) (fun _ => ""%string) 0 1 "ses_1" 1 demo_cluster
    (node 0 demo_cluster) (node 1 demo_cluster) demo_traffic).
  - by exists [("inst_a", None); ("inst_b", None)]%string, [local 1 (opens 1 (Some "token")); local 1 (verifies 1 (jwt_ok demo_claims));
      serves_command 1; hears 1]%string.
  - split; [vm_compute; reflexivity|vm_compute; reflexivity|vm_compute; discriminate| | |].
    + split; [vm_compute; by eexists|]. intros s Hs. vm_compute in Hs. injection Hs as <-. discriminate.
    + vm_compute. constructor.
    + intros k n Hk Hne. destruct k as [|[|k]]; [done| |vm_compute in Hk; discriminate]. vm_compute in Hk. by injection Hk as <-.
  - repeat constructor.
  - vm_compute. reflexivity.
  - vm_compute. reflexivity.
  - split; vm_compute; [by left|reflexivity].
Defined.

Lemma subscriptions_follow_the_sessions_witness :
  ChannelRegistry.channel "ses_1" ∈ n_subs (node 1 demo_cluster).
Proof.
  apply (subscriptions_follow_the_sessions (fun _ => ""%string) (fun _ => ""%string) demo_cluster 1);
    [|vm_compute; reflexivity|vm_compute; reflexivity|].
  - by exists [("inst_a", None); ("inst_b", None)]%string, [local 1 (opens 1 (Some "token")); local 1 (verifies 1 (jwt_ok demo_claims));
      serves_command 1; hears 1]%string.
  - exists 1. eexists. split; vm_compute; reflexivity.
Defined.
