(* ===== verification/Link.v ===== *)
(** A browser's client and a gateway (packages/react/src/client.ts and
    packages/gateway/src/plugin.ts): the client of React and the process of
    Streams, with the WebSocket between them.

    The frames of a connection arrive in their order; when they do, and what else
    the process does meanwhile, is open. *)
From S2P Require Import Prelude Json Shared Context Gateway Streams.
From S2P Require React.
Import ConnectionManager SessionBridge StreamRoute.

(** ** The connection *)

(** The number of the accepted socket, if any; how many of its frames the client
    has read, and how many of what the client ever sent the process has. *)
Record Link := {
  l_client : React.Client; l_process : Process; l_socket : option nat; l_read : nat; l_written : nat }.

Definition with_client (c : React.Client) (l : Link) : Link :=
  {| l_client := c; l_process := l_process l; l_socket := l_socket l; l_read := l_read l; l_written := l_written l |}.
Definition with_process (p : Process) (l : Link) : Link :=
  {| l_client := l_client l; l_process := p; l_socket := l_socket l; l_read := l_read l; l_written := l_written l |}.

(** The text of a frame. *)
Definition frame_text (v : jsval) : string := match v with Some j => stringify j | None => "undefined" end.

Inductive LinkEvent : Type :=
| says (content : string)
| accepted (ws : nat)
| carries
| returns
| hangs_up (reason : string)
| drops
| retries
| in_gateway (e : ProcessEvent).

(** The events of a socket that come over its wire. *)
Definition on_wire (ws : nat) (e : ProcessEvent) : bool :=
  match e with opens w _ | receives w _ | closes w => w =? ws | _ => false end.

Section link.
Context (issues : string -> string) (auth_message : jwt_verdict -> string).
Context (maxRetries : nat) (baseDelayMs : Z) (tok : string).

Abbreviation cstep := (React.client_step maxRetries baseDelayMs).
Abbreviation step := (Streams.step issues auth_message).

(** What the process closes the connection with. *)
Definition closing_code (l : Link) : option Z :=
  ws ← l_socket l; k ← sockets (conns (l_process l)) !! ws;
  if length (ws_sent k) <=? l_read l then ws_closed k else None.

Definition torn_down (code : Z) (reason : string) (l : Link) : Link :=
  match l_socket l with
  | Some ws => {| l_client := cstep (l_client l) (React.sock_close code reason);
                  l_process := step (l_process l) (closes ws); l_socket := None; l_read := 0; l_written := l_written l |}
  | None => l
  end.

Definition link_step (l : Link) (e : LinkEvent) : Link :=
  match e with
  | says content => with_client (cstep (l_client l) (React.user_sends content)) l
  | accepted ws =>
      match l_socket l, React.ws (l_client l), sockets (conns (l_process l)) !! ws with
      | None, React.opening, None =>
          {| l_client := cstep (l_client l) React.sock_open; l_process := step (l_process l) (opens ws (Some tok));
             l_socket := Some ws; l_read := 0; l_written := length (React.sent (l_client l)) |}
      | _, _, _ => l
      end
  | carries =>
      match l_socket l, React.sent (l_client l) !! l_written l with
      | Some ws, Some d => {| l_client := l_client l; l_process := step (l_process l) (receives ws d);
                              l_socket := Some ws; l_read := l_read l; l_written := S (l_written l) |}
      | _, _ => l
      end
  | returns =>
      match (ws ← l_socket l; k ← sockets (conns (l_process l)) !! ws; ws_sent k !! l_read l) with
      | Some v => {| l_client := cstep (l_client l) (React.sock_frame (frame_text v)); l_process := l_process l;
                     l_socket := l_socket l; l_read := S (l_read l); l_written := l_written l |}
      | None => l
      end
  | hangs_up reason => match closing_code l with Some code => torn_down code reason l | None => l end
  | drops => torn_down 1006 "" l
  | retries => with_client (cstep (l_client l) React.timer_fires) l
  | in_gateway e =>
      if match l_socket l with Some ws => on_wire ws e | None => false end then l
      else with_process (step (l_process l) e) l
  end.

Definition link_run (es : list LinkEvent) (l : Link) : Link := fold_left link_step es l.

(** ** From the user to the runtime *)

(** The runs that the frames of a socket have asked for. *)
Definition asked_from (ws : nat) (p : Process) : list string :=
  omap (fun a => match a with asked_start _ content w => if w =? ws then Some content else None | asked_cancel _ => None end)
    (p_asked p).

(** What a frame asks for. *)
Definition content_of (frame : string) : option string :=
  match handleInbound frame with start_run content => Some content | _ => None end.

(** The frames that wait for the handler. *)
Definition waiting (s : Stream) : list string :=
  match c_phase (st_conn s) with ready => [] | _ => preAuthBuffer (st_conn s) end.

(** What the socket has asked for, and is to. *)
Definition account (ws : nat) (p : Process) : option (list string) :=
  (fun s => asked_from ws p ++ omap content_of (waiting s)) <$> p_streams p !! ws.

Lemma asked_from_perform ws sid w p d :
  asked_from ws (perform issues sid w p d) = asked_from ws p ++ (if w =? ws then omap content_of [d] else []).
Proof.
  unfold perform, asked_from, content_of. simpl. destruct (handleInbound d); simpl; try (destruct (w =? ws); by rewrite app_nil_r).
  - replace (p_asked _) with (p_asked p); [destruct (w =? ws); by rewrite app_nil_r|].
    destruct (sockets (conns p) !! w); [|done]. by destruct (_ && _).
  - rewrite omap_app. simpl. by destruct (w =? ws).
  - replace (omap _ (p_asked _)) with (asked_from ws p); [destruct (w =? ws); by rewrite app_nil_r|].
    unfold asked_from. destruct (handleCancel sid (p_bridge p)); simpl; [|done]. by rewrite omap_app, app_nil_r.
Qed.

Lemma asked_from_performs ws sid w ms p :
  asked_from ws (performs issues sid w ms p) = asked_from ws p ++ (if w =? ws then omap content_of ms else []).
Proof.
  unfold performs. revert p. induction ms as [|d ms IH]; intros p; simpl; [destruct (w =? ws); by rewrite app_nil_r|].
  rewrite IH, asked_from_perform, <- app_assoc. f_equal. destruct (w =? ws); [|done]. simpl. by destruct (content_of d).
Qed.

(** *** The process keeps the account of a socket *)

Lemma account_eq ws p p' :
  p_streams p' !! ws = p_streams p !! ws -> asked_from ws p' = asked_from ws p -> account ws p' = account ws p.
Proof. unfold account. by intros -> ->. Qed.

Lemma account_put ws ws' s p : ws' <> ws -> account ws (put_stream ws' s p) = account ws p.
Proof. intros H. apply account_eq; [|done]. simpl. by rewrite lookup_insert_ne. Qed.

Lemma account_put_same ws s s' p :
  p_streams p !! ws = Some s -> waiting s' = waiting s -> account ws (put_stream ws s' p) = account ws p.
Proof. intros H E. unfold account. simpl. by rewrite lookup_insert_eq, H; simpl; rewrite E. Qed.

Lemma account_performs ws sid w ms p : w <> ws -> account ws (performs issues sid w ms p) = account ws p.
Proof.
  intros Hne%Nat.eqb_neq. apply account_eq; [by rewrite performs_streams|].
  by rewrite asked_from_performs, Hne, app_nil_r.
Qed.

(** The handler takes what waited for it. *)
Lemma account_flush ws sid s s' p :
  p_streams p !! ws = Some s -> waiting s' = [] ->
  account ws (performs issues sid ws (waiting s) (put_stream ws s' p)) = account ws p.
Proof.
  intros H E. unfold account. rewrite performs_streams, asked_from_performs, Nat.eqb_refl. simpl.
  by rewrite lookup_insert_eq, H; simpl; rewrite E, app_nil_r.
Qed.

Lemma account_verdict ws w v s p :
  p_streams p !! w = Some s -> c_phase (st_conn s) = authenticating ->
  account ws (handle_verdict issues auth_message w v s p) = account ws p.
Proof.
  intros H Hp. unfold handle_verdict. assert (Hw : waiting s = preAuthBuffer (st_conn s)) by (unfold waiting; by rewrite Hp).
  destruct (validateClientToken v) as [claims|e] eqn:Ev.
  - set (q := with_beats _ _). destruct (p_redisActive p) eqn:Er.
    + simpl. rewrite (account_eq ws (put_stream w _ q)) by done.
      destruct (decide (w = ws)) as [->|]; [|by rewrite account_put].
      rewrite (account_put_same _ s); [done|done|]. unfold waiting, on_verdict. simpl. by rewrite Ev, Hp.
    + destruct (decide (w = ws)) as [->|]; [|by rewrite account_performs, account_put].
      rewrite <- Hw, (account_flush _ _ s); [done|done|]. unfold waiting, on_verdict. by rewrite Ev.
  - rewrite (account_eq ws (put_stream w _ p)) by done. destruct (decide (w = ws)) as [->|]; [|by rewrite account_put].
    rewrite (account_put_same _ s); [done|done|]. unfold waiting, on_verdict. simpl. by rewrite Ev, Hp.
Qed.

Lemma account_acquired ws w threw s p :
  p_streams p !! w = Some s -> account ws (handle_acquired issues w threw s p) = account ws p.
Proof.
  intros H. unfold handle_acquired. destruct (c_phase (st_conn s)) eqn:Hp; try done.
  destruct (st_session s) as [sid|]; [|done].
  assert (Hw : waiting s = preAuthBuffer (st_conn s)) by (unfold waiting; by rewrite Hp).
  destruct threw.
  - rewrite (account_eq ws (put_stream w _ p)) by done. destruct (decide (w = ws)) as [->|]; [|by rewrite account_put].
    rewrite (account_put_same _ s); [done|done|]. unfold waiting, on_acquired. simpl. by rewrite Hp.
  - destruct (decide (w = ws)) as [->|]; [|by rewrite account_performs, account_put].
    rewrite <- Hw, (account_flush _ _ s); [done|done|]. unfold waiting, on_acquired. simpl. by rewrite Hp.
Qed.

Lemma account_data ws w d s p : w <> ws -> account ws (handle_data issues w d s p) = account ws p.
Proof.
  intros Hne. unfold handle_data. destruct (c_phase _), (st_session s) as [sid|]; try (by rewrite account_put).
  change (perform issues sid w ?q d) with (performs issues sid w [d] q). by rewrite account_performs, account_put.
Qed.

Lemma account_close ws w s p : w <> ws -> account ws (handle_close w s p) = account ws p.
Proof.
  intros Hne. unfold handle_close. destruct (st_closed s); [done|].
  destruct (c_phase _), (st_session s) as [sid|]; try (by rewrite account_put).
  apply account_eq; simpl; [|by destruct (p_redisActive p)].
  rewrite lookup_delete_ne by done. by destruct (p_redisActive p).
Qed.

Lemma account_beat ws w m p : account ws (beat w m p) = account ws p.
Proof. apply account_eq; unfold beat; by destruct (_ <? _). Qed.

(** What is not on its wire leaves it alone. *)
Lemma account_step ws p e : on_wire ws e = false -> account ws (step p e) = account ws p.
Proof.
  intros Hw. destruct e; simpl in *; try done; unfold on_stream; try apply Nat.eqb_neq in Hw; try apply account_beat.
  - unfold handle_open. destruct (sockets _ !! ws0); [done|]. destruct (on_open token); [done|]. by rewrite account_put.
  - destruct (p_streams p !! ws0) as [s|] eqn:E; [|done]. destruct (c_phase (st_conn s)) eqn:Ep; try done. by apply account_verdict.
  - destruct (p_streams p !! ws0) as [s|] eqn:E; [|done]. by apply account_acquired.
  - destruct (p_streams p !! ws0) as [s|]; [|done]. by apply account_data.
  - simpl. destruct (p_streams p !! ws0) as [s|]; [|done]. by rewrite account_close.
  - destruct (p_streams p !! ws0) as [s|]; [|done]. unfold handle_error. destruct (c_phase _); try done. by destruct (st_session s).
  - case_bool_decide; [|done]. by destruct (ChannelRegistry.forward _ _).
Qed.

(** A frame that arrives is added to it. *)
Lemma account_receives ws d a p :
  books p -> account ws p = Some a -> account ws (step p (receives ws d)) = Some (a ++ omap content_of [d]).
Proof.
  intros Hb. unfold account at 1. destruct (p_streams p !! ws) as [s|] eqn:E; simpl; [|done]. intros [= <-].
  unfold on_stream. rewrite E. unfold handle_data. pose proof (bk_phase _ Hb _ _ E) as Hp.
  destruct (c_phase (st_conn s)) eqn:Eph.
  1, 2, 4: unfold account; simpl; rewrite lookup_insert_eq; unfold waiting, on_message; simpl; rewrite Eph; simpl;
    by rewrite omap_app, app_assoc.
  destruct Hp as [sid Hs]. rewrite Hs. change (perform issues sid ws ?q d) with (performs issues sid ws [d] q).
  unfold account. rewrite performs_streams, asked_from_performs, Nat.eqb_refl. simpl. rewrite lookup_insert_eq. simpl.
  unfold waiting, on_message. rewrite Eph. simpl. by rewrite !app_nil_r.
Qed.

(** *** The connection keeps the user's messages *)

(** A client without a connection to a process where nothing has happened. *)
Definition link_of (p : Process) : Link :=
  {| l_client := React.new_client; l_process := p; l_socket := None; l_read := 0; l_written := 0 |}.

Record link_ok (l : Link) : Prop := {
  lk_books : books (l_process l);
  lk_stays : React.intentionalClose (l_client l) = false;
  lk_queue : React.ws (l_client l) = React.is_open -> React.messageQueue (l_client l) = [];
  lk_socket : match l_socket l with
              | Some _ => React.ws (l_client l) = React.is_open /\ l_written l <= length (React.sent (l_client l))
              | None => React.ws (l_client l) <> React.is_open
              end;
  lk_timer : React.ws (l_client l) <> React.no_socket -> React.retryTimer (l_client l) = None }.

Lemma onclose_facts code reason c :
  React.intentionalClose c = false ->
  let c' := React.onclose maxRetries baseDelayMs code reason c in
  React.ws c' = React.no_socket /\ React.intentionalClose c' = false.
Proof.
  intros H. unfold React.onclose. simpl. rewrite H. unfold React.scheduleReconnect.
  destruct (code =? 1000)%Z; simpl; destruct (_ || _); simpl; by rewrite ?H.
Qed.

Lemma torn_down_ok code reason l : link_ok l -> link_ok (torn_down code reason l).
Proof.
  intros [L1 L2 L3 L4 L5]. unfold torn_down. destruct (l_socket l) as [k|] eqn:Ek; [|by split; rewrite ?Ek].
  destruct L4 as [Ho Hw]. destruct (onclose_facts code reason (l_client l) L2) as [C1 C2].
  assert (Ec : cstep (l_client l) (React.sock_close code reason) = React.onclose maxRetries baseDelayMs code reason (l_client l))
    by (simpl; by rewrite Ho).
  split; cbn [l_process l_client l_socket l_written]; rewrite ?Ec, ?C1; try done. by apply books_step.
Qed.

Lemma link_step_ok l e : link_ok l -> link_ok (link_step l e).
Proof.
  intros L. pose proof L as [L1 L2 L3 L4 L5]. destruct e as [content|k| | |reason| | |e]; simpl.
  - unfold React.sendMessage. destruct (React.ws (l_client l)) eqn:Ew; split; simpl; rewrite ?Ew; try done;
      destruct (l_socket l); try done. destruct L4 as [_ Hw]. rewrite length_app. split; [done|lia].
  - destruct (l_socket l) eqn:Ek; [done|]. destruct (React.ws (l_client l)) eqn:Ew; try done.
    destruct (sockets _ !! k); [done|]. split; simpl; try done; [by apply (books_step issues auth_message _ (opens k (Some tok)))| |by auto].
    rewrite length_app. split; [done|lia].
  - destruct (l_socket l) as [k|] eqn:Ek; [|done]. destruct (React.sent _ !! _) as [d|] eqn:Ed; [|done].
    split; simpl; try done; [by apply (books_step issues auth_message _ (receives k d))|]. split; [by destruct L4|].
    apply lookup_lt_Some in Ed. lia.
  - destruct (_ ≫= _) as [v|]; [|done]. destruct (React.ws (l_client l)) eqn:Ew; try (by split; simpl; rewrite ?Ew).
    unfold React.onmessage. destruct (_ ≫= _); split; simpl; rewrite ?Ew; try done; auto.
  - destruct (closing_code l); [by apply torn_down_ok|done].
  - by apply torn_down_ok.
  - destruct (React.retryTimer (l_client l)) as [d|] eqn:Et; [|done].
    assert (Ew : React.ws (l_client l) = React.no_socket).
    { destruct (React.ws (l_client l)) eqn:E; [done|..]; specialize (L5 ltac:(congruence)); congruence. }
    unfold React.connect. simpl. rewrite L2. split; simpl; try done. destruct (l_socket l); [|done]. rewrite Ew in L4. by destruct L4.
  - destruct (match l_socket l with Some ws => _ | None => _ end); [done|]. split; simpl; try done. by apply books_step.
Qed.

Lemma link_run_ok es l : link_ok l -> link_ok (link_run es l).
Proof. revert l. induction es as [|e es IH]; intros l H; simpl; [done|]. by apply IH, link_step_ok. Qed.

Lemma link_of_ok p : books p -> link_ok (link_of p).
Proof. by split. Qed.

(** The events after which a connection is still there. *)
Definition stays (e : LinkEvent) : bool := match e with hangs_up _ | drops => false | _ => true end.

Definition said (es : list LinkEvent) : list string :=
  omap (fun e => match e with says content => if String.eqb content "" then None else Some content | _ => None end) es.

Lemma said_cons e es : said (e :: es) = said [e] ++ said es.
Proof. unfold said. by rewrite <- omap_app. Qed.

Lemma content_of_payload content :
  content_of (React.payload content) = if String.eqb content "" then None else Some content.
Proof.
  unfold content_of, handleInbound, parseInboundMessage, React.payload. rewrite parse_stringify by done. by destruct content.
Qed.

(** What the connection has brought, is bringing and will bring to the runtime. *)
Definition brought (k : nat) (l : Link) : option (list string) :=
  (fun a => a ++ omap content_of (drop (l_written l) (React.sent (l_client l)))) <$> account k (l_process l).

Lemma brought_step k l e :
  link_ok l -> l_socket l = Some k -> is_Some (account k (l_process l)) -> stays e = true ->
  l_socket (link_step l e) = Some k /\ is_Some (account k (l_process (link_step l e))) /\
  brought k (link_step l e) = (fun a => a ++ said [e]) <$> brought k l.
Proof.
  intros [L1 L2 L3 L4 L5] Ek [a Ha] He. rewrite Ek in L4. destruct L4 as [Ew Hw].
  assert (Hnil : forall x : option (list string), x = (fun a => a ++ []) <$> x)
    by (intros [x|]; simpl; [by rewrite app_nil_r|done]).
  destruct e as [content|w| | |reason| | |e]; try done;
    lazymatch goal with |- context [returns] => idtac | _ => simpl; rewrite ?Ek end.
  - unfold React.sendMessage. rewrite Ew. simpl. rewrite Ha. split_and!; [done|by eexists|].
    unfold brought. simpl. rewrite Ha. simpl. rewrite drop_app_le, omap_app, app_assoc by done. simpl.
    rewrite content_of_payload. by destruct (String.eqb content "").
  - split_and!; [done|by eexists|apply Hnil].
  - destruct (React.sent (l_client l) !! l_written l) as [d|] eqn:Ed; simpl; [|split_and!; [done|by eexists|apply Hnil]].
    pose proof (account_receives k d a _ L1 Ha) as Hr. simpl in Hr. rewrite Hr. split_and!; [done|by eexists|].
    unfold brought. simpl. rewrite Hr, Ha. simpl. rewrite (drop_S _ _ _ Ed), app_nil_r. simpl.
    destruct (content_of d); simpl; by rewrite <- ?app_assoc.
  - unfold link_step. generalize (l_socket l ≫= fun ws => sockets (conns (l_process l)) !! ws ≫= fun k => ws_sent k !! l_read l).
    intros [v|]; [|by rewrite <- Hnil; split_and!; [|eexists|]]. simpl. rewrite Ew, <- Hnil. split_and!; [done|by eexists|].
    unfold brought. simpl. unfold React.onmessage. by destruct (_ ≫= _).
  - rewrite L5 by (rewrite Ew; done). split_and!; [done|by eexists|apply Hnil].
  - destruct (on_wire k e) eqn:Eo; simpl; [split_and!; [done|by eexists|apply Hnil]|].
    rewrite Ek. pose proof (account_step k (l_process l) e Eo) as Hs. rewrite Hs. split_and!; [done|by eexists|].
    unfold brought. simpl. rewrite Hs. apply Hnil.
Qed.

Lemma brought_run es k l :
  link_ok l -> l_socket l = Some k -> is_Some (account k (l_process l)) -> forallb stays es = true ->
  is_Some (account k (l_process (link_run es l))) /\ brought k (link_run es l) = (fun a => a ++ said es) <$> brought k l.
Proof.
  revert l. induction es as [|e es IH]; intros l L Hk Ha He; [simpl|rewrite said_cons; change (link_run (e :: es) l) with (link_run es (link_step l e))].
  - split; [done|]. destruct (brought k l); simpl; [by rewrite app_nil_r|done].
  - simpl in He. apply andb_true_iff in He as [He1 He2]. destruct (brought_step k l e L Hk Ha He1) as (S1 & S2 & S3).
    destruct (IH (link_step l e)) as [I1 I2]; [by apply link_step_ok|done..|]. split; [done|]. rewrite I2, S3.
    destruct (brought k l) as [a|]; [|done]. cbn -[said]. by rewrite <- app_assoc.
Qed.

(** The connection is made: the queue is flushed into the new socket. *)
Lemma brought_accepted k l :
  link_ok l -> tok <> "" -> l_socket l = None -> React.ws (l_client l) = React.opening ->
  sockets (conns (l_process l)) !! k = None ->
  let l' := link_step l (accepted k) in
  l_socket l' = Some k /\
  brought k l' = Some (asked_from k (l_process l) ++ omap content_of (React.messageQueue (l_client l))).
Proof.
  intros L Ht Hs Ho Hk. simpl. rewrite Hs, Ho, Hk. split; [done|]. unfold brought, account. simpl. unfold handle_open.
  rewrite Hk. unfold on_open. destruct (String.eqb_spec tok ""); [done|]. simpl. rewrite lookup_insert_eq. simpl.
  by rewrite app_nil_r, drop_app_length.
Qed.

(** C15: every message is asked of the runtime once, in its order: from the moment a
    connection is made and as long as it lasts, whatever else happens in the
    browser and in the gateway - the token is verified late, Redis answers later
    still, other sockets come and go - what the runtime has been asked for on its
    behalf, what waits for the handshake and what is still in the wire are
    together the messages that had been queued and those the user said since. *)
Theorem messages_are_asked_once id redis url max timeout es0 es k :
  let l := link_run es0 (link_of (built id redis url max timeout)) in
  tok <> "" -> l_socket l = None -> React.ws (l_client l) = React.opening ->
  sockets (conns (l_process l)) !! k = None -> forallb stays es = true ->
  let l' := link_run es (link_step l (accepted k)) in
  exists s, p_streams (l_process l') !! k = Some s /\
    asked_from k (l_process l') ++
      omap content_of (waiting s ++ drop (l_written l') (React.sent (l_client l'))) =
    asked_from k (l_process l) ++ omap content_of (React.messageQueue (l_client l)) ++ said es.
Proof.
  intros l Ht Hs Ho Hk He l'. assert (L : link_ok l) by (apply link_run_ok, link_of_ok, books_built).
  destruct (brought_accepted k l L Ht Hs Ho Hk) as [A1 A2].
  assert (Ha : is_Some (account k (l_process (link_step l (accepted k))))).
  { destruct (account k _) eqn:E; [by eexists|]. unfold brought in A2. by rewrite E in A2. }
  destruct (brought_run es k _ (link_step_ok _ (accepted k) L) A1 Ha He) as [_ Hb]. fold l' in Hb.
  rewrite A2 in Hb. unfold brought, account in Hb. destruct (p_streams (l_process l') !! k) as [s|]; [|done].
  exists s. split; [done|]. simpl in Hb. injection Hb as Hb. by rewrite omap_app, app_assoc, Hb, <- app_assoc.
Qed.

(** ** A token that is refused *)

(** The gateway's errors are no events of the chat: the client reports that a
    frame is invalid, not the error it is told. *)
Lemma errors_are_not_understood code message c :
  React.onmessage (frame_text (Some (toErrorEvent code message))) c = React.report React.invalid_frame c.
Proof. unfold React.onmessage, frame_text. by rewrite parse_stringify. Qed.

(** One round: the socket opens, the token is refused, the client reads the
    reason and the close, and its timer fires. *)
Definition refusal_round (v : jwt_verdict) (w : nat) : list LinkEvent :=
  [accepted w; in_gateway (verifies w v); returns; hangs_up (auth_message v); retries].

Definition knocks (l : Link) : Prop :=
  link_ok l /\ l_socket l = None /\ React.ws (l_client l) = React.opening.

Definition fresh_stream : Stream :=
  {| st_conn := {| c_phase := authenticating; preAuthBuffer := []; c_actions := [] |};
     st_session := None; st_waits := false; st_closed := false |}.

Lemma accepted_link w l :
  knocks l -> tok <> "" -> sockets (conns (l_process l)) !! w = None ->
  link_step l (accepted w) =
  {| l_client := React.onopen (l_client l);
     l_process := put_stream w fresh_stream
       (with_cm (set_sockets (<[w := fresh_socket]> (sockets (conns (l_process l)))) (conns (l_process l))) (l_process l));
     l_socket := Some w; l_read := 0; l_written := length (React.sent (l_client l)) |}.
Proof.
  intros (_ & Hs & Ho) Ht Hk. simpl. rewrite Hs, Ho, Hk. simpl. unfold handle_open. rewrite Hk. unfold on_open.
  by destruct (String.eqb_spec tok "").
Qed.

(** The round up to the frame the client reads. *)
Lemma refused_link v e w l :
  knocks l -> tok <> "" -> validateClientToken v = Err e -> sockets (conns (l_process l)) !! w = None ->
  exists k s, let l' := link_run [accepted w; in_gateway (verifies w v)] l in
  l_client l' = React.onopen (l_client l) /\ l_socket l' = Some w /\ l_read l' = 0 /\
  p_asked (l_process l') = p_asked (l_process l) /\ p_streams (l_process l') !! w = Some s /\
  c_phase (st_conn s) = refused /\ st_closed s = false /\
  sockets (conns (l_process l')) = <[w := k]> (sockets (conns (l_process l))) /\
  length (ws_sent k) = 1 /\ ws_closed k = Some (close_code e).
Proof.
  intros K Ht Hv Hk. unfold link_run. cbn [fold_left]. rewrite (accepted_link w l K Ht Hk). simpl. unfold on_stream. simpl.
  rewrite lookup_insert_eq. simpl. unfold handle_verdict, on_verdict. rewrite Hv. unfold conns. simpl.
  do 2 eexists. split_and!; [reflexivity..|apply lookup_insert_eq|reflexivity|reflexivity|apply alter_insert_eq|reflexivity|reflexivity].
Qed.

(** The client of the round: [onopen] has reset the count of its retries. *)
Lemma refused_client c raw code reason :
  React.intentionalClose c = false -> 1 <= maxRetries -> code <> 1000%Z ->
  let c' := React.onmessage raw (React.onopen c) in
  let c'' := cstep (React.onclose maxRetries baseDelayMs code reason c') React.timer_fires in
  React.ws c' = React.is_open /\
  React.ws c'' = React.opening /\ React.retryCount c'' = 1 /\ React.messageQueue c'' = [].
Proof.
  intros Hi Hm Hc. unfold React.onmessage, React.onclose, React.scheduleReconnect, React.onopen. apply Z.eqb_neq in Hc.
  assert (Hle : (maxRetries <=? 0) = false) by (apply Nat.leb_gt; lia).
  destruct (_ ≫= _); simpl; repeat (rewrite ?Hi, ?Hc, ?Hle; simpl); unfold React.connect; simpl; by rewrite ?Hi.
Qed.

Lemma refusal_round_step v e w l :
  knocks l -> tok <> "" -> validateClientToken v = Err e -> 1 <= maxRetries ->
  sockets (conns (l_process l)) !! w = None ->
  let l' := link_run (refusal_round v w) l in
  knocks l' /\ React.retryCount (l_client l') = 1 /\ React.messageQueue (l_client l') = [] /\
  p_asked (l_process l') = p_asked (l_process l) /\
  (exists k, sockets (conns (l_process l')) = <[w := k]> (sockets (conns (l_process l))) /\ ws_closed k = Some (close_code e)).
Proof.
  intros K Ht Hv Hm Hk l'. assert (L' : link_ok l') by (apply link_run_ok, K). pose proof K as (L & _ & _).
  pose proof (lk_stays l L) as Hi. 
  destruct (refused_link v e w l K Ht Hv Hk) as (k & s & H1 & H2 & H3 & H4 & H5 & H6 & H7 & H8 & H9 & H10).
  subst l'. revert L'. change (refusal_round v w) with ([accepted w; in_gateway (verifies w v)] ++ [returns; hangs_up (auth_message v); retries]).
  unfold link_run. rewrite fold_left_app. fold (link_run [accepted w; in_gateway (verifies w v)] l).
  revert H1 H2 H3 H4 H5 H8. generalize (link_run [accepted w; in_gateway (verifies w v)] l). intros m H1 H2 H3 H4 H5 H8.
  assert (Hx : sockets (conns (l_process m)) !! w = Some k) by (rewrite H8; apply lookup_insert_eq).
  destruct (ws_sent k) as [|d []] eqn:Ed; try done.
  assert (E1 : link_step m returns = {| l_client := React.onmessage (frame_text d) (React.onopen (l_client l));
    l_process := l_process m; l_socket := Some w; l_read := 1; l_written := l_written m |}).
  { simpl. rewrite H2. simpl. rewrite Hx. simpl. by rewrite Ed, H3, H1. }
  assert (Hc : close_code e <> 1000%Z) by (by destruct e).
  destruct (refused_client (l_client l) (frame_text d) (close_code e) (auth_message v) Hi Hm Hc) as (C0 & C1 & C2 & C3).
  set (m1 := {| l_client := _; l_process := l_process m; l_socket := _; l_read := 1; l_written := _ |}) in E1.
  assert (Hcl : closing_code m1 = Some (close_code e)).
  { unfold closing_code. simpl. rewrite Hx. simpl. by rewrite Ed, H10. }
  assert (E2 : link_step m1 (hangs_up (auth_message v)) = {|
    l_client := React.onclose maxRetries baseDelayMs (close_code e) (auth_message v) (l_client m1);
    l_process := step (l_process m) (closes w); l_socket := None; l_read := 0; l_written := l_written m |}).
  { unfold link_step. rewrite Hcl. unfold torn_down. cbn [l_socket m1]. f_equal.
    change (l_client m1) with (React.onmessage (frame_text d) (React.onopen (l_client l))). unfold React.client_step. by rewrite C0. }
  cbn [fold_left]. rewrite E1, E2. cbn [link_step with_client l_client l_process l_socket m1].
  intros L'. split_and!; [split_and!; [done|done|done]|done|done| |].
  - simpl. unfold on_stream. simpl. rewrite H5. unfold handle_close. by rewrite H7, H6.
  - exists (shut_socket k). simpl. unfold on_stream. simpl. rewrite H5. unfold handle_close. rewrite H7, H6. unfold conns. simpl.
    split; [|done]. fold (conns (l_process m)) (conns (l_process l)). rewrite H8. apply alter_insert_eq.
Qed.

Lemma refusal_rounds v e ws l :
  knocks l -> tok <> "" -> validateClientToken v = Err e -> 1 <= maxRetries ->
  NoDup ws -> (forall w, w ∈ ws -> sockets (conns (l_process l)) !! w = None) ->
  let l' := link_run (flat_map (refusal_round v) ws) l in
  knocks l' /\ p_asked (l_process l') = p_asked (l_process l) /\
  (ws = [] \/ React.retryCount (l_client l') = 1 /\ React.messageQueue (l_client l') = []) /\
  (forall x, x ∉ ws -> sockets (conns (l_process l')) !! x = sockets (conns (l_process l)) !! x) /\
  (forall w, w ∈ ws -> exists k, sockets (conns (l_process l')) !! w = Some k /\ ws_closed k = Some (close_code e)).
Proof.
  intros K Ht Hv Hm. induction ws as [|w ws IH] using rev_ind; intros Hd Hf l'.
  { split_and!; [done|done|by left|done|]. by intros w Hx%elem_of_nil. }
  subst l'. rewrite flat_map_app. unfold link_run. rewrite fold_left_app. fold (link_run (flat_map (refusal_round v) ws) l).
  apply NoDup_app in Hd as (Hd & Hw & _). assert (Hnw : w ∉ ws) by (intros Hx; apply (Hw _ Hx); by left).
  destruct IH as (K' & I1 & _ & I2 & I3); [done|intros x Hx; apply Hf, elem_of_app; by left|].
  revert K' I1 I2 I3. generalize (link_run (flat_map (refusal_round v) ws) l). intros m K' I1 I2 I3.
  change (flat_map (refusal_round v) [w]) with (refusal_round v w).
  change (fold_left _ (refusal_round v w) m) with (link_run (refusal_round v w) m).
  assert (Hk : sockets (conns (l_process m)) !! w = None).
  { rewrite I2 by done. apply Hf, elem_of_app. right. by left. }
  destruct (refusal_round_step v e w m K' Ht Hv Hm Hk) as (K1 & K2 & K3 & K4 & k & K5 & K6).
  split_and!; [done|by rewrite K4|by right| |]; rewrite K5.
  - intros x Hx. rewrite lookup_insert_ne; [apply I2|]; set_solver.
  - intros x [Hx| ->%list_elem_of_singleton]%elem_of_app; [|exists k; by rewrite lookup_insert_eq].
    rewrite lookup_insert_ne by congruence. by apply I3.
Qed.

(** The bound on the retries does not bound them: a token that the gateway
    refuses is presented again and again, as many times as there are sockets,
    each time after the shortest delay, since a connection that opens counts as
    one that succeeded; and the messages the user had queued went with the first
    of these sockets, unanswered. *)
Theorem refused_token_is_retried_for_ever id redis url max timeout es v e ws :
  let l := link_run es (link_of (built id redis url max timeout)) in
  tok <> "" -> l_socket l = None -> React.ws (l_client l) = React.opening ->
  validateClientToken v = Err e -> 1 <= maxRetries ->
  NoDup ws -> (forall w, w ∈ ws -> sockets (conns (l_process l)) !! w = None) -> ws <> [] ->
  let l' := link_run (flat_map (refusal_round v) ws) l in
  React.ws (l_client l') = React.opening /\ React.retryCount (l_client l') = 1 /\
  React.messageQueue (l_client l') = [] /\ p_asked (l_process l') = p_asked (l_process l) /\
  forall w, w ∈ ws -> exists k, sockets (conns (l_process l')) !! w = Some k /\ ws_closed k = Some (close_code e).
Proof.
  intros l Ht Hs Ho Hv Hm Hd Hf Hne l'. assert (K : knocks l) by (split; [apply link_run_ok, link_of_ok, books_built|done]).
  destruct (refusal_rounds v e ws l K Ht Hv Hm Hd Hf) as ((_ & _ & R1) & R2 & [->|[R3 R4]] & _ & R5); [done|].
  by split_and!.
Qed.
End link.

(** ** Examples *)

Definition demo_link : Link := link_of demo_process.
Definition demo_link_run := link_run (fun _ => "") (fun _ => "") 5 1000 "token".

(** A message that was queued and one that overtakes the handshake. *)
Definition demo_link_events : list LinkEvent :=
  [says "more"; carries; in_gateway (verifies 1 (jwt_ok demo_claims)); carries; in_gateway (acquired 1 false)].

Lemma messages_are_asked_once_witness :
  exists s, p_streams (l_process (demo_link_run ([says "hi"; accepted 1] ++ demo_link_events) demo_link)) !! 1 = Some s /\
    asked_from 1 (l_process (demo_link_run ([says "hi"; accepted 1] ++ demo_link_events) demo_link)) ++ omap content_of (waiting s ++ [])
    = ["hi"; "more"].
Proof.
  apply (messages_are_asked_once (fun _ => "") (fun _ => "") 5 1000 "token" "inst_a" true (Some "redis://localhost") None None
    [says "hi"] demo_link_events 1); [discriminate|vm_compute; reflexivity..].
Defined.

(** Seven rounds with the default bound of five. *)
Lemma refused_token_is_retried_for_ever_witness :
  React.retryCount (l_client (demo_link_run (flat_map (refusal_round (fun _ => "") jwt_expired) (seq 0 7))
    (demo_link_run [says "hi"] demo_link))) = 1.
Proof.
  apply (refused_token_is_retried_for_ever (fun _ => "") (fun _ => "") 5 1000 "token" "inst_a" true (Some "redis://localhost")
    None None [says "hi"] jwt_expired TOKEN_EXPIRED (seq 0 7)); try discriminate; try reflexivity; [lia|apply NoDup_seq].
Defined.
