(* ===== verification/Pages.v ===== *)
(** The pages: the playground's (apps/playground/frontend/src/App.tsx with its
    components) and the one of a generated project
    (packages/create-swift-agent/templates/frontend/src/App.tsx).

    What a component renders is the texts it shows, without their layout; the
    controller of the playground is that of Session. *)
From S2P Require Import Prelude Json Shared Dto Spend Mediator React Session.

(** ** The event panel (EventPanel.tsx) *)

Record Row := { row_key : string; row_label : string; row_text : string; row_error : bool }.

Definition message_row (messageId txt : string) : Row :=
  {| row_key := "msg-" +:+ messageId; row_label := "assistant"; row_text := txt; row_error := false |}.

Definition add_text (txt : string) (r : Row) : Row :=
  {| row_key := row_key r; row_label := row_label r; row_text := row_text r +:+ txt; row_error := row_error r |}.

Definition started_row (seq : nat) (callId toolName : string) : Row :=
  {| row_key := "tcs-" +:+ string_of_Z (Z.of_nat seq); row_label := "tool";
     row_text := toolName +:+ " started (" +:+ callId +:+ ")"; row_error := false |}.

Definition completed_row (seq : nat) (callId toolName : string) (status : ToolCallStatus) : Row :=
  {| row_key := "tcc-" +:+ string_of_Z (Z.of_nat seq); row_label := "tool";
     row_text := toolName +:+ " " +:+ status_string status +:+ " (" +:+ callId +:+ ")";
     row_error := bool_decide (status = tc_failed) |}.

Definition failed_row (seq : nat) (code message : string) : Row :=
  {| row_key := "rf-" +:+ string_of_Z (Z.of_nat seq); row_label := "run failed"; row_text := code +:+ ": " +:+ message;
     row_error := true |}.

(** [rows] and [messageRow]: a row of the map is the object in the list, here
    its place. *)
Record Panel := { p_rows : list Row; messageRow : gmap string nat }.

Definition push (r : Row) (p : Panel) : Panel := {| p_rows := p_rows p ++ [r]; messageRow := messageRow p |}.
Definition push_message (id txt : string) (p : Panel) : Panel :=
  {| p_rows := p_rows p ++ [message_row id txt]; messageRow := <[id := length (p_rows p)]> (messageRow p) |}.

Definition panel_step (p : Panel) (e : nat * ChatEvent) : Panel :=
  let '(seq, event) := e in
  match event with
  | message_started messageId _ _ => push_message messageId "" p
  | token txt messageId _ _ =>
      match messageRow p !! messageId with
      | Some i => {| p_rows := alter (add_text txt) i (p_rows p); messageRow := messageRow p |}
      | None => push_message messageId txt p
      end
  | tool_call_started callId _ _ toolName => push (started_row seq callId toolName) p
  | tool_call_completed callId _ _ toolName status => push (completed_row seq callId toolName status) p
  | message_completed _ _ _ => p
  | run_failed _ _ code message _ => push (failed_row seq code message) p
  end.

Definition PrettyChat (es : list (nat * ChatEvent)) : list Row :=
  p_rows (fold_left panel_step es {| p_rows := []; messageRow := ∅ |}).

(** ** Refusals and tool calls (RefusalNotice.tsx, ToolCallCard.tsx) *)

Definition HEADLINES (r : RefusalReason) : string :=
  match r with
  | rate_limit_ip => "Too many sessions from your address"
  | rate_limit_session => "Slow down a moment"
  | message_cap => "Message limit reached"
  | token_cap => "Token limit reached"
  | daily_ceiling => "Daily demo budget exhausted"
  | session_expired => "Guest session expired"
  | bad_frame => "That frame was not understood"
  end.

Definition line {A} (f : A -> string) (o : option A) : list string := match o with Some a => [f a] | None => [] end.

Definition RefusalNotice (r : RefusalFrame) : list string :=
  [HEADLINES (rf_reason r); rf_message r] ++
  line (fun n => "Try again in about " +:+ string_of_Z n +:+ "s.") (rf_retryAfterSeconds r) ++
  line (fun n => "Messages remaining: " +:+ string_of_Z n) (rf_remaining r ≫= fst) ++
  line (fun n => "Tokens remaining: " +:+ string_of_Z n) (rf_remaining r ≫= snd).

Record Card := { cd_title : string; cd_callId : string; cd_budget : string; cd_duration : string; cd_status : string;
  cd_failed : bool }.

Definition ToolCallCard (call : ToolCallView) (budgetMs : option Z) : Card :=
  let failed := bool_decide (tv_status call = tc_failed) in
  {| cd_title := tv_toolName call +:+ (if failed then " — failed" else "");
     cd_callId := tv_callId call;
     cd_budget := match budgetMs with
                  | Some n => string_of_Z n +:+
                      " ms — demo-owned (set by this demo's withBudget wrapper, not a protocol field)"
                  | None => "not configured"
                  end;
     cd_duration := match tv_durationMs call with
                    | Some n => string_of_Z n +:+
                        " ms (tool_call_completed arrival − tool_call_started arrival)"
                    | None => "in flight…"
                    end;
     cd_status := status_string (tv_status call); cd_failed := failed |}.

(** ** The start of the page (App.tsx, [App])

    Both requests are made at once; an error has a text. *)
Record DemoConfig := { dc_budgets : list (string * Z); dc_agentSource : string; dc_reproduceCommand : string }.

Record AppState := {
  as_session : option SessionReadyFrame; as_demo : option DemoConfig; as_error : option string; cancelled : bool }.

Definition app_mounted : AppState :=
  {| as_session := None; as_demo := None; as_error := None; cancelled := false |}.

(** How the second request ends: it rejects, or is answered; the body that the
    backend serves is taken as it is. *)
Inductive DemoFetch : Type :=
| demo_rejects (message : string)
| demo_answers (ok : bool) (status : Z) (config : res error DemoConfig).

Definition demo_result (f : DemoFetch) : res string DemoConfig :=
  match f with
  | demo_rejects message => Err message
  | demo_answers false status _ => Err ("GET /api/demo-config failed: " +:+ string_of_Z status)
  | demo_answers true _ (Ok config) => Ok config
  | demo_answers true _ (Err e) => Err (error_message e)
  end.

Inductive AppEvent : Type :=
| session_settles (r : res error SessionReadyFrame) | demo_settles (f : DemoFetch) | app_unmounts.

Definition set_error (message : string) (s : AppState) : AppState :=
  {| as_session := as_session s; as_demo := as_demo s; as_error := Some message; cancelled := cancelled s |}.

Definition app_step (s : AppState) (e : AppEvent) : AppState :=
  match e with
  | session_settles (Ok info) =>
      if cancelled s then s else
      {| as_session := Some info; as_demo := as_demo s; as_error := as_error s; cancelled := cancelled s |}
  | session_settles (Err e) => if cancelled s then s else set_error (error_message e) s
  | demo_settles f =>
      if cancelled s then s else
      match demo_result f with
      | Ok config => {| as_session := as_session s; as_demo := Some config; as_error := as_error s; cancelled := cancelled s |}
      | Err message => set_error message s
      end
  | app_unmounts =>
      {| as_session := as_session s; as_demo := as_demo s; as_error := as_error s; cancelled := true |}
  end.

Inductive Screen : Type :=
| failed_to_start (message : string) | starting | playground (session : SessionReadyFrame) (demoConfig : DemoConfig).

Definition App_ (s : AppState) : Screen :=
  match as_error s with
  | Some (String _ _ as message) => failed_to_start message
  | _ => match as_session s, as_demo s with
         | Some session, Some demoConfig => playground session demoConfig
         | _, _ => starting
         end
  end.

(** ** The page (App.tsx, [Playground]) *)

Definition FAILURE_PROMPT : string := "Use the unreliable_service tool to check the demo backend's status.".

Record PageState := { pg_controller : Controller; draft : string }.

Definition page_opened : PageState := {| pg_controller := createPlaygroundController; draft := "" |}.

(** What the sockets tell the controller, and what the visitor does. *)
Inductive PageEvent : Type :=
| socket_tells (e : ControllerEvent) | types (value : string) | submits | clicks_failure | clicks_drop | clicks_recover.

Definition tell (e : ControllerEvent) (p : PageState) : PageState :=
  {| pg_controller := controller_step (pg_controller p) e; draft := draft p |}.

Definition onSubmit (p : PageState) : PageState :=
  let txt := trim (draft p) in
  if String.eqb txt "" then p
  else {| pg_controller := controller_step (pg_controller p) (call_send txt); draft := "" |}.

(** A form is not submitted while its button is disabled. *)
Definition page_step (p : PageState) (e : PageEvent) : PageState :=
  match e with
  | socket_tells e => tell e p
  | types value => {| pg_controller := pg_controller p; draft := value |}
  | submits => match c_status (pg_controller p) with connected => onSubmit p | _ => p end
  | clicks_failure => tell (call_send FAILURE_PROMPT) p
  | clicks_drop => tell call_drop p
  | clicks_recover => tell call_recover p
  end.

Definition page_run (es : list PageEvent) : PageState := fold_left page_step es page_opened.

(** The sockets call no method of the controller. *)
Definition from_socket (e : ControllerEvent) : bool :=
  match e with call_send _ | call_drop | call_recover => false | _ => true end.

Definition outside_page (e : PageEvent) : bool := match e with socket_tells e => from_socket e | _ => true end.

(** The budgets of the demo, by tool: the last one of a name counts. *)
Definition budgetByTool (c : DemoConfig) : gmap string Z :=
  fold_left (fun m b => <[b.1 := b.2]> m) (dc_budgets c) ∅.

Definition cards (c : DemoConfig) (es : list (Z * ChatEvent)) : list Card :=
  map (fun call => ToolCallCard call (budgetByTool c !! tv_toolName call)) (deriveToolCalls es).

(** ** What the pages show *)

(** *** The rows of the panel *)

(** The tokens of a message up to its next start. *)
Fixpoint tokens_of (id : string) (es : list (nat * ChatEvent)) : string :=
  match es with
  | [] => ""
  | (_, message_started id' _ _) :: es => if String.eqb id' id then "" else tokens_of id es
  | (_, token txt id' _ _) :: es => if String.eqb id' id then txt +:+ tokens_of id es else tokens_of id es
  | _ :: es => tokens_of id es
  end.

(** The rows of a feed, each whole as it comes; [seen]: the messages that have a
    row already. *)
Fixpoint feed (seen : list string) (es : list (nat * ChatEvent)) : list Row :=
  match es with
  | [] => []
  | (seq, event) :: es =>
      match event with
      | message_started id _ _ => message_row id (tokens_of id es) :: feed (id :: seen) es
      | token txt id _ _ => if existsb (String.eqb id) seen then feed seen es
                            else message_row id (txt +:+ tokens_of id es) :: feed (id :: seen) es
      | tool_call_started callId _ _ toolName => started_row seq callId toolName :: feed seen es
      | tool_call_completed callId _ _ toolName status => completed_row seq callId toolName status :: feed seen es
      | message_completed _ _ _ => feed seen es
      | run_failed _ _ code message _ => failed_row seq code message :: feed seen es
      end
  end.

(** The rows with the message that each is still open for. *)
Definition closes (id : string) (x : Row * option string) : Row * option string :=
  if bool_decide (x.2 = Some id) then (x.1, None) else x.
Definition adds (id txt : string) (x : Row * option string) : Row * option string :=
  if bool_decide (x.2 = Some id) then (add_text txt x.1, x.2) else x.
Definition opened (id : string) (l : list (Row * option string)) : bool := existsb (fun x => bool_decide (x.2 = Some id)) l.

Definition open_step (l : list (Row * option string)) (e : nat * ChatEvent) : list (Row * option string) :=
  let '(seq, event) := e in
  match event with
  | message_started id _ _ => map (closes id) l ++ [(message_row id "", Some id)]
  | token txt id _ _ => if opened id l then map (adds id txt) l else l ++ [(message_row id txt, Some id)]
  | tool_call_started callId _ _ toolName => l ++ [(started_row seq callId toolName, None)]
  | tool_call_completed callId _ _ toolName status => l ++ [(completed_row seq callId toolName status, None)]
  | message_completed _ _ _ => l
  | run_failed _ _ code message _ => l ++ [(failed_row seq code message, None)]
  end.

Definition panel_of (p : Panel) (l : list (Row * option string)) : Prop :=
  p_rows p = map fst l /\ forall id i, messageRow p !! id = Some i <-> exists r, l !! i = Some (r, Some id).

Lemma opened_spec id l : opened id l = true <-> exists i r, l !! i = Some (r, Some id).
Proof.
  unfold opened. rewrite existsb_exists. split.
  - intros ([r o] & Hx%list_elem_of_In & E). apply bool_decide_eq_true in E. simpl in E. subst o.
    apply list_elem_of_lookup in Hx as [i Hi]. by exists i, r.
  - intros (i & r & Hi). exists (r, Some id). split; [|by apply bool_decide_eq_true].
    apply list_elem_of_In. by eapply list_elem_of_lookup_2.
Qed.

Lemma lookup_closes id l i r id' :
  map (closes id) l !! i = Some (r, Some id') <-> l !! i = Some (r, Some id') /\ id' <> id.
Proof.
  change (map (closes id) l) with (closes id <$> l). rewrite list_lookup_fmap. unfold closes.
  destruct (l !! i) as [[r0 o]|]; simpl; [|by split; [|intros []]]. case_bool_decide; simpl.
  - subst o. split; [done|]. by intros [[= -> ->] []].
  - split; [intros [= -> ->]; split; [done|congruence]|by intros [[= -> ->] _]].
Qed.

Lemma lookup_adds id txt l i id' :
  (exists r, map (adds id txt) l !! i = Some (r, Some id')) <-> exists r, l !! i = Some (r, Some id').
Proof.
  change (map (adds id txt) l) with (adds id txt <$> l). rewrite list_lookup_fmap. unfold adds.
  destruct (l !! i) as [[r0 o]|]; simpl; [|by split; intros [r ?]]. case_bool_decide; simpl; naive_solver.
Qed.

Lemma lookup_snoc_row (l : list (Row * option string)) r0 i id :
  (exists r, (l ++ [(r0, None)]) !! i = Some (r, Some id)) <-> exists r, l !! i = Some (r, Some id).
Proof.
  split; intros [r H]; exists r; [|by apply lookup_app_l_Some].
  apply lookup_app_Some in H as [H|[_ H]]; [done|]. apply list_lookup_singleton_Some in H as [_ H]. discriminate.
Qed.


Lemma panel_length p l : panel_of p l -> length (p_rows p) = length l.
Proof. intros [-> _]. by rewrite length_map. Qed.

Lemma panel_push r p l : panel_of p l -> panel_of (push r p) (l ++ [(r, None)]).
Proof.
  intros [Hr Hm]. split; simpl; [by rewrite Hr, map_app|]. intros id i. by rewrite Hm, lookup_snoc_row.
Qed.

(** [l'] is [l] without the open row of [id]. *)
Lemma panel_push_message id txt p l l' :
  panel_of p l -> map fst l' = map fst l ->
  (forall id' i, id' <> id -> (exists r, l' !! i = Some (r, Some id')) <-> (exists r, l !! i = Some (r, Some id'))) ->
  (forall i r, l' !! i <> Some (r, Some id)) -> panel_of (push_message id txt p) (l' ++ [(message_row id txt, Some id)]).
Proof.
  intros H Hf Ho Hn. pose proof (panel_length _ _ H) as Hl. destruct H as [Hr Hm].
  assert (Hl' : length l' = length l) by (by rewrite <- (length_map fst), Hf, length_map).
  split; simpl; [by rewrite map_app, Hf, Hr|]. intros id' i. destruct (decide (id' = id)) as [->|Hne].
  - rewrite lookup_insert_eq, Hl, <- Hl'. split.
    + intros [= <-]. exists (message_row id txt). by rewrite list_lookup_middle.
    + intros [r [H|[Hi H]]%lookup_app_Some]; [by destruct (Hn i r)|].
      apply list_lookup_singleton_Some in H as [? _]. f_equal. lia.
  - rewrite lookup_insert_ne by done. rewrite Hm, <- Ho by done. split; intros [r H]; exists r.
    + by apply lookup_app_l_Some.
    + apply lookup_app_Some in H as [H|[_ H]]; [done|]. apply list_lookup_singleton_Some in H as [_ [= _ E]].
      by destruct Hne.
Qed.

Lemma panel_add id txt i p l :
  panel_of p l -> messageRow p !! id = Some i ->
  panel_of {| p_rows := alter (add_text txt) i (p_rows p); messageRow := messageRow p |} (map (adds id txt) l).
Proof.
  intros [Hr Hm] Ei. destruct (proj1 (Hm _ _) Ei) as [r Hi]. split; simpl; [|intros id' j; by rewrite Hm, lookup_adds].
  change (map fst (map (adds id txt) l)) with (fst <$> (adds id txt <$> l)). rewrite Hr.
  change (map fst l) with (fst <$> l). apply list_eq. intros j. destruct (decide (j = i)) as [->|Hne].
  - rewrite list_lookup_alter_eq, !list_lookup_fmap, Hi. simpl. unfold adds. by rewrite bool_decide_true by done.
  - rewrite list_lookup_alter_ne, !list_lookup_fmap by done. destruct (l !! j) as [[r' o]|] eqn:Ej; [|done].
    simpl. unfold adds. case_bool_decide as Eo; [|done]. simpl in Eo. subst o.
    assert (messageRow p !! id = Some j) by (apply Hm; by exists r'). congruence.
Qed.

Lemma panel_moves p l e : panel_of p l -> panel_of (panel_step p e) (open_step l e).
Proof.
  intros H. pose proof H as [_ Hm]. destruct e as [seq []]; simpl; try by apply panel_push.
  - apply (panel_push_message _ _ _ _ _ H).
    + rewrite map_map. apply map_ext. intros x. unfold closes. by case_bool_decide.
    + intros id' i Hne. split; intros [r Hx]; exists r; [by apply lookup_closes in Hx as [? _]|by apply lookup_closes].
    + intros i r Hx. by apply lookup_closes in Hx as [_ []].
  - destruct (messageRow p !! messageId) as [i|] eqn:Ei.
    + rewrite (proj2 (opened_spec messageId l)) by (exists i; by apply Hm). by apply panel_add.
    + assert (Hn : forall i r, l !! i <> Some (r, Some messageId)).
      { intros i r Hx. assert (messageRow p !! messageId = Some i) by (apply Hm; by exists r). congruence. }
      destruct (opened messageId l) eqn:Ho; [by apply opened_spec in Ho as (i & r & []%Hn)|].
      by apply (panel_push_message _ _ _ _ _ H).
  - done.
Qed.

(** A row that is open will have the tokens that follow. *)
Definition finish (es : list (nat * ChatEvent)) (x : Row * option string) : Row :=
  match x.2 with Some id => add_text (tokens_of id es) x.1 | None => x.1 end.

Lemma app_empty_r s : s +:+ "" = s.
Proof. induction s as [|c s IH]; [done|]. exact (f_equal (String c) IH). Qed.

Lemma app_app a b c : (a +:+ b) +:+ c = a +:+ (b +:+ c).
Proof. induction a as [|x a IH]; [done|]. exact (f_equal (String x) IH). Qed.

Lemma add_nothing r : add_text "" r = r.
Proof. destruct r. unfold add_text. simpl. by rewrite app_empty_r. Qed.

Lemma add_twice a b r : add_text b (add_text a r) = add_text (a +:+ b) r.
Proof. unfold add_text. simpl. by rewrite app_app. Qed.

Lemma opened_app id l r o : opened id (l ++ [(r, o)]) = opened id l || bool_decide (o = Some id).
Proof. unfold opened. rewrite existsb_app. simpl. by rewrite orb_false_r. Qed.

Lemma opened_map f id l :
  (forall x, bool_decide ((f x).2 = Some id) = bool_decide (x.2 = Some id)) -> opened id (map f l) = opened id l.
Proof. intros H. unfold opened. induction l as [|x l IH]; simpl; [done|]. by rewrite H, IH. Qed.

Lemma finish_keeps e es l :
  (forall id, tokens_of id (e :: es) = tokens_of id es) -> map (finish (e :: es)) l = map (finish es) l.
Proof. intros H. apply map_ext. intros [r [id|]]; unfold finish; cbn [fst snd]; [by rewrite H|done]. Qed.

Lemma finish_closes id run ses seq es l :
  map (finish es) (map (closes id) l) = map (finish ((seq, message_started id run ses) :: es)) l.
Proof.
  rewrite map_map. apply map_ext. intros [r [id'|]]; unfold finish, closes; simpl; [|done].
  destruct (String.eqb_spec id id') as [<-|Hne].
  - rewrite bool_decide_true by done. simpl. by rewrite add_nothing.
  - rewrite bool_decide_false by congruence. done.
Qed.

Lemma finish_adds txt id run ses seq es l :
  map (finish es) (map (adds id txt) l) = map (finish ((seq, token txt id run ses) :: es)) l.
Proof.
  rewrite map_map. apply map_ext. intros [r [id'|]]; unfold finish, adds; simpl; [|done].
  destruct (String.eqb_spec id id') as [<-|Hne].
  - rewrite bool_decide_true by done. simpl. by rewrite add_twice.
  - rewrite bool_decide_false by congruence. done.
Qed.

Lemma adds_absent id txt l : opened id l = false -> map (adds id txt) l = l.
Proof.
  unfold opened. induction l as [|x l IH]; simpl; [done|]. intros [Hx Hl]%orb_false_iff. rewrite IH by done.
  unfold adds. by rewrite Hx.
Qed.

(** Whoever is [seen] has an open row. *)
Definition agree (seen : list string) (l : list (Row * option string)) : Prop :=
  forall id, existsb (String.eqb id) seen = opened id l.

Lemma agree_push seen l r : agree seen l -> agree seen (l ++ [(r, None)]).
Proof. intros H id. rewrite H, opened_app, bool_decide_false by done. by rewrite orb_false_r. Qed.

Lemma agree_message seen l l' id r :
  agree seen l -> (forall id', id' <> id -> opened id' l' = opened id' l) -> agree (id :: seen) (l' ++ [(r, Some id)]).
Proof.
  intros H Ho id'. simpl. rewrite opened_app. destruct (String.eqb_spec id' id) as [->|Hne].
  - rewrite bool_decide_true by done. by rewrite orb_true_r.
  - rewrite H, Ho by done. rewrite bool_decide_false by congruence. by rewrite orb_false_r.
Qed.

Lemma rows_fed es : forall seen l, agree seen l ->
  map fst (fold_left open_step es l) = map (finish es) l ++ feed seen es.
Proof.
  induction es as [|[seq e] es IH]; intros seen l Ha; simpl.
  { rewrite app_nil_r. apply map_ext. intros [r [id|]]; unfold finish; simpl; [by rewrite add_nothing|done]. }
  destruct e as [id run ses|txt id run ses| | |id run ses|].
  - rewrite (IH (id :: seen)), map_app, (finish_closes _ run ses seq), <- app_assoc; [done|].
    apply (agree_message _ l); [done|]. intros id' Hne. apply opened_map. intros [r o]. unfold closes. cbn [snd].
    destruct (decide (o = Some id)) as [->|E].
    + rewrite (bool_decide_true (Some id = Some id)) by done. cbn [snd fst]. by rewrite !bool_decide_false by congruence.
    + by rewrite (bool_decide_false (o = Some id)) by done.
  - rewrite Ha. destruct (opened id l) eqn:Ho.
    + rewrite (IH seen), (finish_adds _ _ run ses seq); [done|]. intros id'. rewrite Ha. symmetry.
      apply opened_map. intros [r o]. unfold adds. destruct (bool_decide ((r, o).2 = Some id)); done.
    + rewrite (IH (id :: seen)), map_app, <- app_assoc by by apply (agree_message _ l).
      by rewrite <- (finish_adds txt _ run ses seq), adds_absent.
  - rewrite (IH seen), map_app, <- app_assoc by by apply agree_push. by rewrite finish_keeps.
  - rewrite (IH seen), map_app, <- app_assoc by by apply agree_push. by rewrite finish_keeps.
  - rewrite (IH seen) by done. by rewrite finish_keeps.
  - rewrite (IH seen), map_app, <- app_assoc by by apply agree_push. by rewrite finish_keeps.
Qed.

(** The panel shows the feed: a row for every start of a message, tool event and
    failure, in their order; the row of a message has all of its tokens up to the
    next start of that message, and no others. *)
Theorem panel_shows_the_feed es : PrettyChat es = feed [] es.
Proof.
  assert (H : forall es p l, panel_of p l -> panel_of (fold_left panel_step es p) (fold_left open_step es l)).
  { clear. induction es as [|e es IH]; intros p l Hp; [done|]. by apply IH, panel_moves. }
  destruct (H es {| p_rows := []; messageRow := ∅ |} []) as [Hr _].
  { split; [done|]. intros id i. simpl. rewrite lookup_empty. split; [done|by intros [r [=]]]. }
  unfold PrettyChat. rewrite Hr. by apply (rows_fed es [] []).
Qed.

(** After a recovery the gateway replays the run: the message is shown twice,
    once as it was cut, and both rows have one key. *)
Theorem replayed_message_is_shown_twice :
  let run := [message_started "msg_1" "run_1" "ses_1"; token "Hel" "msg_1" "run_1" "ses_1"] in
  let rest := [token "lo" "msg_1" "run_1" "ses_1"] in
  PrettyChat (imap (fun i e => (i, e)) (run ++ run ++ rest)) = [message_row "msg_1" "Hel"; message_row "msg_1" "Hello"].
Proof. by vm_compute. Qed.

(** *** The start *)

Definition failure (e : AppEvent) : option string :=
  match e with
  | session_settles (Err e) => Some (error_message e)
  | demo_settles f => match demo_result f with Err m => Some m | Ok _ => None end
  | _ => None
  end.
Definition session_of (e : AppEvent) : option SessionReadyFrame :=
  match e with session_settles (Ok info) => Some info | _ => None end.
Definition demo_of (e : AppEvent) : option DemoConfig :=
  match e with demo_settles f => match demo_result f with Ok c => Some c | Err _ => None end | _ => None end.

Definition app_run (es : list AppEvent) : AppState := fold_left app_step es app_mounted.

Lemma last_omap_snoc {A B} (f : A -> option B) l x :
  last (omap f (l ++ [x])) = match f x with Some y => Some y | None => last (omap f l) end.
Proof. rewrite omap_app. simpl. destruct (f x); [apply last_snoc|by rewrite app_nil_r]. Qed.

(** While the page is mounted, its screen is decided by what settled, in any
    order: the last failure that has a text, or both results. *)
Theorem screen_follows_the_requests es :
  Forall (fun e => e <> app_unmounts) es ->
  App_ (app_run es) =
    match last (omap failure es), last (omap session_of es), last (omap demo_of es) with
    | Some (String _ _ as message), _, _ => failed_to_start message
    | _, Some session, Some demoConfig => playground session demoConfig
    | _, _, _ => starting
    end.
Proof.
  intros H. assert (K : cancelled (app_run es) = false /\ as_error (app_run es) = last (omap failure es) /\
    as_session (app_run es) = last (omap session_of es) /\ as_demo (app_run es) = last (omap demo_of es)).
  { induction es as [|e es IH] using rev_ind; [done|]. apply Forall_app in H as [H He]. rewrite Forall_singleton in He.
    unfold app_run in *. rewrite fold_left_app, !last_omap_snoc. simpl. destruct (IH H) as (E0 & E1 & E2 & E3).
    destruct e as [[info|err]|f|]; simpl; rewrite ?E0; [done|done| |by destruct He]. by destruct (demo_result f). }
  unfold App_. destruct K as (_ & -> & -> & ->). by destruct (last (omap failure es)) as [[|]|].
Qed.

(** A page that was left changes no more. *)
Theorem left_page_is_still s e : cancelled s = true -> App_ (app_step s e) = App_ s.
Proof. intros H. destruct e as [[]| |]; simpl; rewrite ?H; done. Qed.

(** *** What the page sends *)

Definition spoken (x : nat * string) : Prop := exists txt, txt <> "" /\ x.2 = send_frame txt.

Lemma sent_handled raw at_ c : sent (handleFrame raw at_ c) = sent c.
Proof. unfold handleFrame. by repeat case_match. Qed.

Lemma sent_spoken c e :
  (forall txt, e = call_send txt -> txt <> "") -> Forall spoken (sent c) -> Forall spoken (sent (controller_step c e)).
Proof.
  intros Ht H. destruct e as [| | | |said| |]; simpl; try done; [by case_bool_decide|by rewrite sent_handled|].
  destruct (socket c); [|done]. apply Forall_app. split; [done|]. apply Forall_singleton. exists said.
  split; [by apply Ht|done].
Qed.

Lemma page_spoken es : Forall (fun e => outside_page e = true) es -> Forall spoken (sent (pg_controller (page_run es))).
Proof.
  induction es as [|e es IH] using rev_ind; [by constructor|]. intros [H He]%Forall_app. rewrite Forall_singleton in He.
  unfold page_run in *. rewrite fold_left_app. simpl. specialize (IH H). revert IH.
  generalize (fold_left page_step es page_opened). intros p Hp.
  assert (K : forall txt, txt <> "" -> Forall spoken (sent (controller_step (pg_controller p) (call_send txt)))).
  { intros txt Ht. apply sent_spoken; [|done]. by intros txt' [= <-]. }
  destruct e as [e|v| | | |]; cbn [page_step].
  - apply sent_spoken; [|done]. by intros txt ->.
  - done.
  - destruct (c_status (pg_controller p)); try done. unfold onSubmit.
    destruct (String.eqb_spec (trim (draft p)) "") as [|Hne]; [done|]. by apply K.
  - by apply K.
  - by apply (sent_spoken _ call_drop).
  - by apply (sent_spoken _ call_recover).
Qed.

Lemma spoken_content txt : txt <> "" -> parse (send_frame txt) ≫= MediatorInboundSchema = Some txt.
Proof.
  intros H. unfold send_frame. rewrite parse_stringify by done. simpl. unfold MediatorInboundSchema. simpl.
  by apply String.eqb_neq in H as ->.
Qed.

(** What the visitor types and clicks, the mediator understands: each frame that
    the page gives to a socket carries a text that is not blank, and no check
    refuses it as a bad frame. *)
Theorem page_frames_are_understood config gid g es i raw now hits message closes_it :
  Forall (fun e => outside_page e = true) es -> In (i, raw) (sent (pg_controller (page_run es))) ->
  (exists txt, txt <> "" /\ parse raw ≫= MediatorInboundSchema = Some txt) /\
  (enforce config gid g raw now hits).1 <> inl (refuse bad_frame message, closes_it).
Proof.
  intros He Hi. apply page_spoken in He. rewrite Forall_forall in He.
  destruct (He (i, raw)) as (txt & Ht & E); [by apply list_elem_of_In|]. simpl in E. subst raw.
  pose proof (spoken_content txt Ht) as Hc. split; [by exists txt|]. unfold enforce.
  destruct (parse (send_frame txt)) as [v|]; [|done]. simpl in Hc. rewrite Hc.
  repeat case_match; done.
Qed.

(** *** Refusals *)

(** Every reason has its own headline, which comes first with the mediator's
    message. *)
Theorem refusals_are_told_apart a b :
  take 2 (RefusalNotice a) = take 2 (RefusalNotice b) -> rf_reason a = rf_reason b /\ rf_message a = rf_message b.
Proof. destruct a as [[] ma ra xa], b as [[] mb rb xb]; unfold RefusalNotice; simpl; intros [= ->]; done. Qed.
